(* ===== verification/_CoqProject ===== *)
-Q . S2P
Prelude.v
Fc.v
Text.v
Asset.v
Authority.v
SignState.v
Operations.v
ChainOperations.v
Block.v
ForkDb.v
ForkDbProofs.v
Objects.v
Database.v
Supply.v
Frame.v
Scenario.v
EvalTransfer.v
EvalAccount.v
EvalGovern.v
EvalAward.v
EvalInvite.v
Evaluators.v
EscrowSpec.v
Funds.v
Duties.v
Withdrawals.v
Auctions.v
Renewals.v
Slots.v
BlockData.v
BlockDataProofs.v
Irreversible.v
PostValidation.v
BlockLog.v
BlockLogProofs.v
BlockLogSpec.v
DltLog.v
DltLogProofs.v
Schedule.v
ScheduleProofs.v
Transactions.v
Proposals.v
ApplyBlock.v
Backdrop.v
ProposalsProofs.v
ProposalsTrap.v
ProposalsState.v
ProposalsSupply.v
HardforkProofs.v
BlockScenario.v
ApplyBlockProofs.v
PushBlock.v
PushBlockProofs.v
PushBlockFailures.v
ForkChoice.v
GenerateBlock.v
ValidatorPlugin.v
ValidatorPluginProofs.v
ValidatorLoop.v
DltMempool.v
DltMempoolProofs.v
Dlt.v
DltPeers.v
DltSync.v
DltHandlers.v
DltInvariant.v
DltNode.v
DltProofs.v
DltSteps.v
DltDelegate.v
DltDelegateProofs.v
DltScenario.v
