(* ===== verification/Prelude.v ===== *)
(** * VIZ node: verification library

    The VIZ node keeps a blockchain by delegated proof of stake.  This library
    models the consensus core of the node, [src/libraries/protocol] and
    [src/libraries/chain], the production loop of its validators, and the nodes of
    the network that exchange blocks, [src/libraries/network], as executable
    definitions, and proves what makes them correct.

    ** The program and how its parts interact

    - Values.  Amounts of tokens and shares, prices, account names,
      authorities, operations with their stateless checks, transactions and
      blocks (src/libraries/protocol).
    - State.  [chain::database] holds one table per object type.  An operation
      of a transaction is applied by its evaluator, which reads and changes the
      tables through the shared routines of database.cpp.
    - Blocks.  A block is pushed into the fork database, which keeps the recent
      blocks as a tree; when it extends the head it is applied: its
      transactions first, then the duties that every block has (the head's
      data, irreversible blocks, schedule, emission, withdrawals, expirations,
      auctions, subscriptions, the committee).
    - Consensus.  The schedule says which validator may produce at which slot;
      what three quarters of the schedule confirm becomes irreversible and moves
      to the block log; when the chain stalls the committee takes over until
      enough validators are back.
    - Nodes.  A node keeps the chain's state, an undo session per reversible
      block, the fork database and the pending transactions; it pushes the blocks
      and transactions it receives, switches forks, and produces blocks.
    - Network.  A node greets its peers, asks those that are ahead for ranges of
      blocks (SYNC) or takes blocks as they are produced (FORWARD), fills gaps,
      relays transactions, bans peers and exchanges addresses; it asks and changes
      the chain only through [dlt_p2p_delegate].

    ** Files

    Foundations:
    - Prelude: the error monads [res] and [SM] with their inversion tactics,
      machine integers ([u32], [u64], ...), lemmas on lists, sums and maps.
    - Fc: the parts of fc and boost the sources call, as type classes with the
      laws they rely on and concrete instances.
    - Text: std::string and decimal notation.

    Protocol:
    - Asset (asset.hpp, asset.cpp): amounts, symbols, text form, prices.
    - Authority (authority.cpp): the grammar of account names, authorities.
    - SignState (sign_state.cpp, transaction.cpp): [check_authority] and
      [verify_authority].
    - Block (block.cpp): identifiers, numbers, the Merkle root.
    - Operations (chain_operations.cpp): 35 operations and [operation_validate].

    Fork database: ForkDb (fork_database.cpp) and ForkDbProofs.

    State and evaluators:
    - Objects (the object headers): a Record per object, the Record [database];
      Database (database.cpp): tables, balances, vesting, votes, awards.
    - EvalTransfer, EvalAccount, EvalGovern, EvalAward, EvalInvite: [do_apply]
      of each evaluator (chain_evaluator.cpp, committee_evaluator.cpp,
      invite_evaluator.cpp, paid_subscription_evaluator.cpp,
      chain_properties_evaluators.cpp); Evaluators: [apply_operation].
    - Supply: the accounting of tokens ([accounted], [gap]) and the lemma of
      each primitive; Frame: what leaves the accounting alone; Scenario: a
      small concrete chain for the witnesses.
    - EscrowSpec: the abstract contract of an escrow and its refinement.

    Duties of a block (database.cpp):
    - Funds (emission, epoch distribution, burning), Duties (expirations,
      refunds, committee), Withdrawals, Auctions, Renewals.

    Consensus (database.cpp):
    - Slots (slots and times), BlockData (head, missed slots, participation,
      bandwidth, emergency) and BlockDataProofs, Irreversible (the irreversible
      block and the block log), Schedule and ScheduleProofs (the choice of
      validators, the hybrid schedule, hardfork votes, medians).

    Transactions and proposals:
    - ChainOperations (proposal_operations.cpp, operations.cpp): the whole
      variant of operations, with proposals that carry operations; transactions.
    - Transactions (transaction.cpp, database.cpp): validation, bandwidth, the
      record against duplicates, pushing.
    - Proposals (proposal_evaluator.cpp, proposal_object.cpp,
      database_proposal_object.cpp): creation, approval, execution, expiration.
    - Backdrop (what operations leave alone), ProposalsProofs (the recursion
      while pushing), ProposalsTrap (the recursion in a block), ProposalsState
      (the invariant, the end of expired proposals), ProposalsSupply.

    Blocks on a node (database.cpp, db_with.hpp):
    - PostValidation: the confirmations that validators send for blocks.
    - ApplyBlock: the checks of a block, its extensions, hardforks, and
      [_apply_block], which puts the steps of all other files in their order;
      HardforkProofs; BlockScenario (blocks of the small chain);
      ApplyBlockProofs (what applying blocks establishes and keeps).
    - PushBlock: the state of a node ([node]), [push_block] with its fork
      switches and their recovery, popping, pending transactions;
      PushBlockProofs (what every push keeps); PushBlockFailures (histories
      after which a refused block leaves traces); ForkChoice (the comparison of
      branches).
    - GenerateBlock: [_generate_block], and that its blocks pass the checks.
    - BlockLog (block_log.cpp), BlockLogProofs, BlockLogSpec: the files of the
      block log, byte by byte; DltLog (dlt_block_log.cpp), DltLogProofs: the
      rolling log.
    - ValidatorPlugin (plugins/validator/validator.cpp): the production loop of
      a node that holds keys, a tick at a time ([maybe_validate_block],
      [block_validation_loop]); ValidatorPluginProofs (one tick), ValidatorLoop
      (many ticks).

    Network (libraries/network, plugins/p2p):
    - DltMempool (the pool of transactions a node relays), DltMempoolProofs.
    - Dlt: messages, the state of a peer ([peer_state]) and of a node ([p2p]), and
      the interface of the chain, the class [Delegate]; DltPeers: connections,
      strikes, bans, addresses; DltSync: the modes, requests, gaps, forks, what a
      new block changes; DltHandlers: the handlers of all messages, pausing, the
      periodic task, and [step], what an event does to a node.
    - DltDelegate (p2p_plugin.cpp): [dlt_delegate], the instance of [Delegate]
      over a node of PushBlock.
    - DltInvariant and DltNode (the invariant, pausing), DltProofs (requests,
      replies, modes, bans), DltSteps (what any sequence of events keeps),
      DltDelegateProofs (the chain under the network), DltScenario (small
      networks).

    ** How the code is represented

    A C++ function that throws is a [res]; a function that also changes state
    is an [SM].  An exception carries no state, because the callers run the
    modelled operations in an undo session that is dropped; the fork database
    has no such session, so its functions keep the state of a failure, and so do
    those of a node ([NM]), on which a failing push leaves traces.  The undo
    sessions themselves are chainbase's (a submodule): the class [UndoSessions]
    states what the code relies on.  A
    [uint32_t] is a [Z] with its wrap-around written out; [share_type] is fc's
    checked integer and throws on overflow.  Tables are finite maps keyed by
    their unique index; a walk over another index sorts the table, and where
    the index is not unique and the state does not record the order of equal
    keys, the order is an argument and theorems hold for each.  References to
    objects are their keys.  A loop over an index that changes the index
    carries fuel computed from the state, and a theorem shows that it is
    enough (withdrawals, renewals, expired proposals, the recursion of the fork
    database).  The recursion of proposals carries fuel for the depth of the
    stack: six levels are enough while a transaction is pushed, and in a block
    no fuel is.

    ** What the theorems show

    - Tokens: conservation of the supply through operations, duties, emission,
      auctions and renewals.  A fixed award with beneficiaries is the exception: the
      theorems of conservation exclude it ([no_fixed_split]), and
      [fixed_award_balance] says by how much it differs.
    - Contracts: an escrow refines its abstract contract, and only its parties
      are paid; escrows not approved in time are refunded; committee payments
      are bounded; subscriptions and auctions follow their terms.
    - Consensus: irreversibility by quorum; who is scheduled; the takeover by
      the committee and its end; missed blocks, participation, slots; medians.
    - Fork database: its invariant, termination of linking, the choice of the
      head in an emergency, the branches of a fork switch.
    - Authorities: the stateful check says yes only when the inductive notion holds,
      says yes when it holds within the depth, and looks no further than the depth; a
      transaction that passes has what it needs.
    - Values: text and price round trips, the name grammar, Merkle root,
      identifiers.
    - Transactions and proposals: whole transactions conserve tokens; the table
      of proposals stays consistent, expired ones end; the recursion of
      proposals is bounded while a transaction is pushed, and not in a block.
    - Blocks: a block extends the head, and its root, the key that signed it and the
      validator's turn are right, unless a flag skips their check; no
      transaction is applied twice; the log, the proposals and the hardforks
      stay in order; what a validator produces is accepted.
    - Confirmations: a block they make irreversible has a quorum, and a quorum
      makes it irreversible.
    - Pushing: the state of a node is always one that blocks lead to; a block
      that extends the head is applied as a whole, or kept when it is out of turn, or
      forgotten; a switch of forks that is refused at the last irreversible block is
      not unwound, and three histories show what else is not.  The comparison of
      branches is antisymmetric, and not transitive.
    - Block logs: the files refine the list of blocks that the consensus code
      appends to and reads; what a node finds after it stopped in the middle of
      an append or of a truncation.
    - Production: a tick sends a block exactly in a slot of its own that nothing
      forbids to take; the loop never stops; the timeout of collisions needs a
      streak that the slots of other validators break; the watchdog's recovery
      clears nothing.
    - Network: whatever peers send, the tables of a node keep their form and its
      chain is one that blocks lead to, applied with the flags of [network_flags];
      asking for blocks ends; requests for gaps are bounded in size and in time; when
      the mode changes, and how one claim of a peer prevents it; bans that end with
      the connection; forks that the node never resolves.

    ** Not modelled

    Content and votes for it, and its payout, which ended with hardfork 4; the
    operations that set chain properties; the one-time migrations of hardforks 1
    to 9: [_apply_block] is that of a chain past them, and throws where it would
    have to migrate.  The branches of database.cpp for nodes that start from a
    snapshot and keep a rolling log ([_dlt_mode]), although the log itself is
    modelled.  Elliptic curves, hashes and serialization are parameters (fc
    is a submodule).  Of a block that fails, the fork database and the log keep
    what its completed steps wrote; what the failing step itself wrote there
    before it threw is not kept.  Opening and replaying a chain, the genesis,
    locks, the resizing of shared memory, stale mappings, the notifications
    of plugins, the other plugins and the wallet are I/O around the library; the
    validator plugin's options, logging and diagnostics too.  What it is told by
    the p2p, chain and snapshot plugins and by the clocks is an argument of a tick.
    Of the network, sockets, the queues of messages to send, logs, statistics and
    the serialization of messages are left out, and the fibers: a handler runs as a
    whole, although the code may run others while it waits for a socket or for the
    chain.  Clocks and random numbers are arguments. *)

From stdpp Require Import gmap strings list fin_maps sorting.
From Stdlib Require Import ZArith Lia.

#[global] Open Scope Z_scope.
#[global] Arguments Z.shiftr : simpl never.
#[global] Arguments Z.shiftl : simpl never.
#[global] Arguments Z.land : simpl never.
#[global] Arguments Z.lor : simpl never.

(** ** Errors and the error monad

    The C++ code reports failure by exceptions.  [fc_error] lists the kinds the
    modelled code throws or lets escape; [res] is a computation that returns a
    value or throws. *)

Inductive fc_error :=
| E_assert (msg : string)        (* FC_ASSERT / FC_THROW assert_exception *)
| E_overflow                     (* arithmetic outside the width of the type *)
| E_div_zero
| E_undefined                    (* undefined behaviour in C++ *)
| E_not_found (what : string)    (* a [get] of an absent object *)
| E_unique (what : string)       (* an insertion that breaks a unique index *)
| E_block_too_old
| E_unlinkable_block
| E_tx_missing (which : string) (accounts : list string) (used : list Z)
| E_tx_irrelevant_sig (unused : list Z)
| E_tx_irrelevant_approval (unused : list string)
| E_recursion                    (* the fuel of a recursion ran out *)
| E_wrong_scheduled_validator
| E_unknown_hardfork
| E_unmodelled                   (* code that is not modelled *)
| E_parse (what : string).

#[global] Instance fc_error_eq_dec : EqDecision fc_error.
Proof. solve_decision. Defined.

Inductive res (A : Type) :=
| Ok (a : A)
| Err (e : fc_error).
Arguments Ok {A} a.
Arguments Err {A} e.

Definition rbind {A B} (m : res A) (k : A → res B) : res B :=
  match m with Ok a => k a | Err e => Err e end.

Definition rassert (b : bool) (e : fc_error) : res unit :=
  if b then Ok tt else Err e.

Definition res_of_option {A} (o : option A) (e : fc_error) : res A :=
  match o with Some a => Ok a | None => Err e end.

Definition is_Ok {A} (m : res A) : bool :=
  match m with Ok _ => true | Err _ => false end.

(** A computation over a state [S] that either returns a value and a new state
    or throws.  An exception carries no state: the callers of the modelled
    operations run them inside an undo session that is dropped when they
    throw. *)
Definition SM (S A : Type) : Type := S → res (A * S).

Definition sret {S A} (a : A) : SM S A := λ s, Ok (a, s).
Definition sbind {S A B} (m : SM S A) (k : A → SM S B) : SM S B :=
  λ s, match m s with Ok (a, s') => k a s' | Err e => Err e end.
Definition sthrow {S A} (e : fc_error) : SM S A := λ _, Err e.
Definition slift {S A} (r : res A) : SM S A :=
  λ s, match r with Ok a => Ok (a, s) | Err e => Err e end.
Definition sget {S} : SM S S := λ s, Ok (s, s).
Definition sgets {S A} (f : S → A) : SM S A := λ s, Ok (f s, s).
Definition sput {S} (s' : S) : SM S unit := λ _, Ok (tt, s').
Definition supd {S} (f : S → S) : SM S unit := λ s, Ok (tt, f s).
Definition sassert {S} (b : bool) (msg : string) : SM S unit :=
  λ s, if b then Ok (tt, s) else Err (E_assert msg).
Definition swhen {S} (b : bool) (m : SM S unit) : SM S unit :=
  if b then m else sret tt.

Fixpoint sfor {S A} (l : list A) (body : A → SM S unit) : SM S unit :=
  match l with
  | [] => sret tt
  | x :: l => sbind (body x) (λ _, sfor l body)
  end.

Declare Scope prog_scope.
Delimit Scope prog_scope with prog.
Notation "'let*' x := m 'in' k" := (sbind m (λ x, k))
  (at level 10, x name, m at level 100, k at level 200) : prog_scope.
Notation "'do*' m 'in' k" := (sbind m (λ _, k))
  (at level 10, m at level 100, k at level 200) : prog_scope.
Notation "'let?' x := m 'in' k" := (rbind m (λ x, k))
  (at level 10, x name, m at level 100, k at level 200) : prog_scope.
Notation "'do?' m 'in' k" := (rbind m (λ _, k))
  (at level 10, m at level 100, k at level 200) : prog_scope.
#[global] Open Scope prog_scope.

(** ** Inversion of successful runs *)

Lemma rbind_Ok {A B} (m : res A) (k : A → res B) b :
  rbind m k = Ok b ↔ ∃ a, m = Ok a ∧ k a = Ok b.
Proof. destruct m; simpl; naive_solver. Qed.

Lemma rassert_Ok b e u : rassert b e = Ok u ↔ b = true.
Proof. destruct b, u; simpl; naive_solver. Qed.

Lemma res_of_option_Ok {A} (o : option A) e a :
  res_of_option o e = Ok a ↔ o = Some a.
Proof. destruct o; simpl; naive_solver. Qed.

Section sm_inversion.
Context {S A B : Type}.
Implicit Types (s : S).

Lemma sbind_Ok (m : SM S A) (k : A → SM S B) s r :
  sbind m k s = Ok r ↔ ∃ a s1, m s = Ok (a, s1) ∧ k a s1 = Ok r.
Proof. unfold sbind. destruct (m s) as [[a s1]|]; naive_solver. Qed.

Lemma sret_Ok (a : A) s r : sret a s = Ok r ↔ r = (a, s).
Proof. unfold sret. naive_solver. Qed.

Lemma slift_Ok (r : res A) s p :
  slift r s = Ok p ↔ ∃ a, r = Ok a ∧ p = (a, s).
Proof. unfold slift. destruct r; naive_solver. Qed.

Lemma sgets_Ok (f : S → A) s r : sgets f s = Ok r ↔ r = (f s, s).
Proof. unfold sgets. naive_solver. Qed.

Lemma sassert_Ok b msg s (r : unit * S) :
  sassert b msg s = Ok r ↔ b = true ∧ r = (tt, s).
Proof. unfold sassert. destruct b; naive_solver. Qed.

Lemma supd_Ok (f : S → S) s r : supd f s = Ok r ↔ r = (tt, f s).
Proof. unfold supd. naive_solver. Qed.

Lemma sthrow_Ok e s (r : A * S) : sthrow e s = Ok r ↔ False.
Proof. unfold sthrow. naive_solver. Qed.
End sm_inversion.

(** [inv_ok] takes apart every hypothesis that says a computation succeeded,
    until only facts about primitive operations are left. *)
Ltac inv_ok_step :=
  match goal with
  | H : Ok _ = Ok _ |- _ => injection H as H; subst
  | H : Err _ = Ok _ |- _ => discriminate H
  | H : (_, _) = (_, _) |- _ => apply pair_eq in H; destruct H; subst
  | H : ?x = ?x |- _ => clear H
  | H : true = false |- _ => discriminate H
  | H : false = true |- _ => discriminate H
  | H : sbind _ _ _ = Ok _ |- _ =>
      apply sbind_Ok in H; destruct H as (? & ? & ? & H)
  | H : sret _ _ = Ok _ |- _ => apply sret_Ok in H
  | H : slift _ _ = Ok _ |- _ => apply slift_Ok in H; destruct H as (? & ? & H)
  | H : sgets _ _ = Ok _ |- _ => apply sgets_Ok in H
  | H : sget _ = Ok _ |- _ => unfold sget in H
  | H : supd _ _ = Ok _ |- _ => apply supd_Ok in H
  | H : sassert _ _ _ = Ok _ |- _ => apply sassert_Ok in H; destruct H as [? H]
  | H : sthrow _ _ = Ok _ |- _ => apply sthrow_Ok in H; destruct H
  | H : swhen ?b _ _ = Ok _ |- _ => unfold swhen in H; destruct b eqn:?
  | H : rbind _ _ = Ok _ |- _ => apply rbind_Ok in H; destruct H as (? & ? & H)
  | H : rassert _ _ = Ok _ |- _ => apply rassert_Ok in H
  | H : res_of_option _ _ = Ok _ |- _ => apply res_of_option_Ok in H
  | H : (if ?b then _ else _) _ = Ok _ |- _ => destruct b eqn:?
  | H : (if ?b then _ else _) = Ok _ |- _ => destruct b eqn:?
  end.
Ltac inv_ok := cbn beta iota in *; repeat (inv_ok_step; cbn beta iota in * ).

(** [propify] turns the boolean tests of the code into propositions. *)
Ltac propify :=
  repeat match goal with
  | H : ?x = ?x |- _ => clear H
  | H : true = false |- _ => discriminate H
  | H : false = true |- _ => discriminate H
  | H : true = _ |- _ => symmetry in H
  | H : false = _ |- _ => symmetry in H
  | H : bool_decide _ = true |- _ => apply bool_decide_eq_true in H
  | H : bool_decide _ = false |- _ => apply bool_decide_eq_false in H
  | H : _ && _ = true |- _ => apply andb_true_iff in H; destruct H
  | H : _ || _ = false |- _ => apply orb_false_iff in H; destruct H
  | H : negb _ = true |- _ => apply negb_true_iff in H
  | H : negb _ = false |- _ => apply negb_false_iff in H
  | H : (_ <? _) = true |- _ => apply Z.ltb_lt in H
  | H : (_ <? _) = false |- _ => apply Z.ltb_ge in H
  | H : (_ <=? _) = true |- _ => apply Z.leb_le in H
  | H : (_ <=? _) = false |- _ => apply Z.leb_gt in H
  | H : (_ =? _) = true |- _ => apply Z.eqb_eq in H
  | H : (_ =? _) = false |- _ => apply Z.eqb_neq in H
  end.

(** ** Record update

    [a <| f := v |>] is the C++ assignment [a.f = v] on a value, and
    [a <| f ::= g |>] updates the field with a function.  A [Setter] instance
    per field is derived from the record's eta expansion. *)

Class Setter {R T : Type} (proj : R → T) := set_field : (T → T) → R → R.

Ltac derive_setter eta proj :=
  let u := fresh "u" in
  let r := fresh "r" in
  intros u r;
  let b := eval cbv beta delta [eta] in (eta r) in
  match b with
  | context C [ proj r ] => let b' := context C [ u (proj r) ] in exact b'
  end.

Declare Scope record_scope.
Delimit Scope record_scope with record.
Notation "a <| f ::= g |>" := (set_field (proj := f) g a)
  (at level 1, f at level 0, g at level 100, left associativity,
   format "a  <| f  ::=  g |>") : record_scope.
Notation "a <| f := v |>" := (set_field (proj := f) (λ _, v) a)
  (at level 1, f at level 0, v at level 100, left associativity,
   format "a  <| f  :=  v |>") : record_scope.
#[global] Open Scope record_scope.

(** ** Machine integers

    Values of the fixed-width C++ types are integers; these are the ranges and
    the wrap-around of unsigned arithmetic. *)

Definition u16 (x : Z) : Z := x mod 2 ^ 16.
Definition u32 (x : Z) : Z := x mod 2 ^ 32.
Definition u64 (x : Z) : Z := x mod 2 ^ 64.
Definition i64_min : Z := - 2 ^ 63.
Definition i64_max : Z := 2 ^ 63 - 1.
Definition fits_i64 (x : Z) : Prop := i64_min ≤ x ≤ i64_max.
Definition fits_i64b (x : Z) : bool := (i64_min <=? x) && (x <=? i64_max).

(** The cast of an integer to [int16_t]. *)
Definition to_i16 (x : Z) : Z := (x + 2 ^ 15) mod 2 ^ 16 - 2 ^ 15.
(** The cast of an integer to [int64_t]. *)
Definition to_i64 (x : Z) : Z := (x + 2 ^ 63) mod 2 ^ 64 - 2 ^ 63.

Lemma fits_i64b_spec x : fits_i64b x = true ↔ fits_i64 x.
Proof. unfold fits_i64b, fits_i64. rewrite andb_true_iff, !Z.leb_le. done. Qed.

Lemma to_i16_small x : - 2 ^ 15 ≤ x < 2 ^ 15 → to_i16 x = x.
Proof. intros. unfold to_i16. rewrite Z.mod_small; lia. Qed.

Lemma to_i64_small x : fits_i64 x → to_i64 x = x.
Proof.
  unfold fits_i64, i64_min, i64_max, to_i64. intros.
  rewrite Z.mod_small; lia.
Qed.

Lemma to_i64_range x : fits_i64 (to_i64 x).
Proof.
  unfold fits_i64, i64_min, i64_max, to_i64.
  pose proof (Z.mod_pos_bound (x + 2 ^ 63) (2 ^ 64) ltac:(lia)). lia.
Qed.

(** ** Sums over finite maps *)

Section msum.
Context {K V : Type} `{Countable K}.
Implicit Types (m : gmap K V) (f g : V → Z).

Definition msum f m : Z := map_fold (λ _ v acc, f v + acc) 0 m.

Lemma msum_empty f : msum f ∅ = 0.
Proof. apply map_fold_empty. Qed.

Lemma msum_insert_new f m k v :
  m !! k = None → msum f (<[k:=v]> m) = f v + msum f m.
Proof.
  intros Hk. unfold msum. apply (map_fold_insert_L (λ _ v acc, f v + acc)); [|done].
  intros. lia.
Qed.

Lemma msum_delete f m k v :
  m !! k = Some v → msum f (delete k m) = msum f m - f v.
Proof.
  intros Hk. rewrite <- (insert_delete_id m k v) at 2 by done.
  rewrite msum_insert_new by apply lookup_delete_eq. lia.
Qed.

Lemma msum_insert f m k v w :
  m !! k = Some v → msum f (<[k:=w]> m) = msum f m - f v + f w.
Proof.
  intros Hk. rewrite <- insert_delete_eq.
  rewrite msum_insert_new by apply lookup_delete_eq.
  rewrite (msum_delete f m k v) by done. lia.
Qed.

Lemma msum_ext f g m :
  (∀ k v, m !! k = Some v → f v = g v) → msum f m = msum g m.
Proof.
  induction m as [|k v m Hk IH] using map_ind; intros Hfg; [done|].
  rewrite !msum_insert_new by done. rewrite (Hfg k v) by apply lookup_insert_eq.
  rewrite IH; [done|]. intros k' v' Hk'. apply (Hfg k').
  rewrite lookup_insert_ne; [done|]. intros ->. congruence.
Qed.

(** Leaving out entries that count for nothing. *)
Lemma msum_fmap f (g : V → V) m : (∀ v, f (g v) = f v) → msum f (g <$> m) = msum f m.
Proof. intros Hg. unfold msum. rewrite map_fold_fmap. by apply msum_ext. Qed.

Lemma msum_filter f m (P : K * V → Prop) `{∀ x, Decision (P x)} :
  (∀ k v, m !! k = Some v → ¬ P (k, v) → f v = 0) → msum f (filter P m) = msum f m.
Proof.
  induction m as [|k v m Hk IH] using map_ind; intros Hf; [by rewrite map_filter_empty|].
  assert (msum f (filter P m) = msum f m) as IH'.
  { apply IH. intros k' v' Hk'. apply Hf. rewrite lookup_insert_ne; [done|]. intros ->. congruence. }
  rewrite map_filter_insert. case_decide.
  - rewrite !msum_insert_new; [by rewrite IH'|done|]. apply map_lookup_filter_None. by left.
  - rewrite delete_id by done. rewrite msum_insert_new, IH' by done.
    rewrite (Hf k v); [lia|apply lookup_insert_eq|done].
Qed.

Lemma msum_nonneg f m :
  (∀ k v, m !! k = Some v → 0 ≤ f v) → 0 ≤ msum f m.
Proof.
  induction m as [|k v m Hk IH] using map_ind; intros Hf; [done|].
  rewrite msum_insert_new by done.
  assert (0 ≤ f v) by (apply (Hf k), lookup_insert_eq).
  assert (0 ≤ msum f m); [|lia]. apply IH. intros k' v' Hk'. apply (Hf k').
  rewrite lookup_insert_ne; [done|]. intros ->. congruence.
Qed.

Lemma msum_elem_le f m k v :
  (∀ k v, m !! k = Some v → 0 ≤ f v) → m !! k = Some v → f v ≤ msum f m.
Proof.
  intros Hf Hk.
  assert (0 ≤ msum f (delete k m)).
  { apply msum_nonneg. intros k' v' Hk'. apply (Hf k').
    apply lookup_delete_Some in Hk' as [_ ?]. done. }
  rewrite (msum_delete f m k v) in * by done. lia.
Qed.
End msum.
