(* ===== verification/Fc.v ===== *)
(** * Interfaces of the libraries the node is built on

    [fc] and [boost] are not part of the repository (git submodules and system
    packages).  What the modelled code relies on is stated here as type
    classes: the operations the sources call, and the laws the sources assume
    of them.  The components are proved against the classes; each class has a
    concrete instance, so that every theorem can be evaluated.

    - [SafeInt64]: [fc::safe<int64_t>], the type [share_type] of
      protocol/types.hpp: checked 64-bit arithmetic;
    - [WideUInt]: an unsigned integer of [w] bits: [fc::uint128_t] ([w = 128])
      and [boost::multiprecision::uint256_t] ([w = 256]);
    - [FcText]: the text helpers [fc::trim], [fc::to_string], [fc::to_int64]
      and [fc::is_utf8]. *)

From stdpp Require Import gmap strings list.
From Stdlib Require Import ZArith Lia.
From S2P Require Import Prelude.

(** ** Checked 64-bit integers *)

Class SafeInt64 := {
  safe_add : Z → Z → res Z;
  safe_sub : Z → Z → res Z;
  safe_mul : Z → Z → res Z;
  safe_div : Z → Z → res Z;
  safe_mod : Z → Z → res Z;
  safe_neg : Z → res Z;
  (** a result that is returned is the mathematical one and fits *)
  safe_add_sound a b c : safe_add a b = Ok c → c = a + b ∧ fits_i64 c;
  safe_sub_sound a b c : safe_sub a b = Ok c → c = a - b ∧ fits_i64 c;
  safe_mul_sound a b c : safe_mul a b = Ok c → c = a * b ∧ fits_i64 c;
  safe_div_sound a b c : safe_div a b = Ok c → b ≠ 0 ∧ c = Z.quot a b ∧ fits_i64 c;
  safe_mod_sound a b c : safe_mod a b = Ok c → b ≠ 0 ∧ c = Z.rem a b ∧ fits_i64 c;
  safe_neg_sound a c : safe_neg a = Ok c → c = - a ∧ fits_i64 c;
  (** a result that fits is returned *)
  safe_add_fits a b : fits_i64 (a + b) → safe_add a b = Ok (a + b);
  safe_sub_fits a b : fits_i64 (a - b) → safe_sub a b = Ok (a - b);
  safe_mul_fits a b : fits_i64 (a * b) → safe_mul a b = Ok (a * b);
  safe_div_fits a b : b ≠ 0 → fits_i64 (Z.quot a b) → safe_div a b = Ok (Z.quot a b);
  safe_mod_fits a b : b ≠ 0 → fits_i64 (Z.rem a b) → safe_mod a b = Ok (Z.rem a b);
  safe_neg_fits a : fits_i64 (- a) → safe_neg a = Ok (- a)
}.

(** ** Wide unsigned integers *)

Class WideUInt (w : Z) := {
  wu_of_i64 : Z → Z;
  wu_add : Z → Z → Z;
  wu_sub : Z → Z → Z;
  wu_mul : Z → Z → Z;
  wu_div : Z → Z → res Z;
  wu_to_u64 : Z → res Z;
  wu_width : 128 ≤ w;
  wu_of_i64_nonneg x : 0 ≤ x → x ≤ i64_max → wu_of_i64 x = x;
  wu_of_i64_range x : 0 ≤ wu_of_i64 x < 2 ^ w;
  wu_add_exact a b : 0 ≤ a → 0 ≤ b → a + b < 2 ^ w → wu_add a b = a + b;
  wu_sub_exact a b : 0 ≤ b ≤ a → a < 2 ^ w → wu_sub a b = a - b;
  wu_mul_exact a b : 0 ≤ a → 0 ≤ b → a * b < 2 ^ w → wu_mul a b = a * b;
  wu_add_range a b : 0 ≤ wu_add a b < 2 ^ w;
  wu_sub_range a b : 0 ≤ wu_sub a b < 2 ^ w;
  wu_mul_range a b : 0 ≤ wu_mul a b < 2 ^ w;
  wu_mul_le a b : 0 ≤ a → 0 ≤ b → wu_mul a b ≤ a * b;
  wu_div_exact a b : 0 ≤ a → 0 < b → wu_div a b = Ok (a / b);
  wu_div_zero a : wu_div a 0 = Err E_div_zero;
  wu_to_u64_exact x : 0 ≤ x < 2 ^ 64 → wu_to_u64 x = Ok x;
  wu_to_u64_sound x y : wu_to_u64 x = Ok y → y = x ∧ 0 ≤ y < 2 ^ 64
}.

(** ** Text helpers *)

Class FcText := {
  fc_trim : string → string;
  fc_to_string : Z → string;
  fc_to_int64 : string → res Z;
  fc_is_utf8 : string → bool;
  fc_json_is_valid : string → bool
}.

(** ** Reference instances *)

Definition check_i64 (x : Z) : res Z :=
  if fits_i64b x then Ok x else Err E_overflow.

Lemma check_i64_sound x y : check_i64 x = Ok y → y = x ∧ fits_i64 y.
Proof.
  unfold check_i64. destruct (fits_i64b x) eqn:E; [|done].
  intros [= <-]. split; [done|]. by apply fits_i64b_spec.
Qed.

Lemma check_i64_fits x : fits_i64 x → check_i64 x = Ok x.
Proof. intros H. apply fits_i64b_spec in H. unfold check_i64. by rewrite H. Qed.

Definition checked_int64 : SafeInt64.
Proof.
  refine {|
    safe_add a b := check_i64 (a + b);
    safe_sub a b := check_i64 (a - b);
    safe_mul a b := check_i64 (a * b);
    safe_div a b := if bool_decide (b = 0) then Err E_div_zero else check_i64 (Z.quot a b);
    safe_mod a b := if bool_decide (b = 0) then Err E_div_zero else check_i64 (Z.rem a b);
    safe_neg a := check_i64 (- a) |};
    intros *; try case_bool_decide;
    solve [ intros H'; apply check_i64_sound in H'; naive_solver
          | intros; by apply check_i64_fits | done ].
Defined.

Definition modular_uint (w : Z) (Hw : 128 ≤ w) : WideUInt w.
Proof.
  assert (2 ^ 128 ≤ 2 ^ w) as Hpow by (apply Z.pow_le_mono_r; lia).
  refine {|
    wu_of_i64 x := x mod 2 ^ w;
    wu_add a b := (a + b) mod 2 ^ w;
    wu_sub a b := (a - b) mod 2 ^ w;
    wu_mul a b := (a * b) mod 2 ^ w;
    wu_div a b := if bool_decide (b = 0) then Err E_div_zero else Ok (a / b);
    wu_to_u64 x := if bool_decide (0 ≤ x < 2 ^ 64) then Ok x else Err (E_assert "hi == 0") |};
    intros *; try done;
    try solve [ intros; apply Z.mod_pos_bound; lia
              | apply Z.mod_pos_bound; lia
              | intros; rewrite Z.mod_small; unfold i64_max in *; lia
              | intros; apply Z.mod_le; nia ].
  - intros. by rewrite bool_decide_false by lia.
  - intros. by rewrite bool_decide_true by lia.
  - case_bool_decide; naive_solver.
Defined.

Definition uint128 : WideUInt 128 := modular_uint 128 ltac:(done).
Definition uint256 : WideUInt 256 := modular_uint 256 ltac:(done).

(** ** Derived facts *)

Section wide.
Context {w : Z} {W : WideUInt w}.

Lemma wide_pow : 2 ^ 128 ≤ 2 ^ w.
Proof. apply Z.pow_le_mono_r; [lia|]. apply wu_width. Qed.

(** The product of two non-negative 64-bit values never wraps. *)
Lemma wu_mul_i64 a b :
  0 ≤ a ≤ i64_max → 0 ≤ b ≤ i64_max →
  wu_mul (wu_of_i64 a) (wu_of_i64 b) = a * b.
Proof.
  intros Ha Hb. pose proof wide_pow. unfold i64_max in *.
  rewrite !wu_of_i64_nonneg by (unfold i64_max; lia).
  apply wu_mul_exact; try lia. nia.
Qed.

Lemma wu_div_inv a b q :
  0 ≤ a → 0 ≤ b → wu_div a b = Ok q → 0 < b ∧ q = a / b ∧ 0 ≤ q ≤ a.
Proof.
  intros Ha Hb H. destruct (decide (b = 0)) as [->|]; [by rewrite wu_div_zero in H|].
  rewrite wu_div_exact in H by lia. injection H as <-.
  pose proof (Z.div_pos a b ltac:(lia) ltac:(lia)).
  pose proof (Z.div_le_upper_bound a b a ltac:(lia) ltac:(nia)). lia.
Qed.

(** [a * b / c] of non-negative 64-bit values, in wide arithmetic. *)
Lemma wu_mul_div_i64 a b c :
  0 ≤ a ≤ i64_max → 0 ≤ b ≤ i64_max → 0 < c ≤ i64_max →
  wu_div (wu_mul (wu_of_i64 a) (wu_of_i64 b)) (wu_of_i64 c) = Ok (a * b / c).
Proof.
  intros Ha Hb Hc. rewrite wu_mul_i64 by done.
  rewrite (wu_of_i64_nonneg c) by lia. apply wu_div_exact; [|lia]. nia.
Qed.
End wide.

Create HintDb fc.
#[export] Hint Resolve safe_add_fits safe_sub_fits safe_mul_fits safe_neg_fits : fc.

(** [inv_safe] replaces the result of a checked operation by its value. *)
Ltac inv_safe_step :=
  match goal with
  | H : safe_add _ _ = Ok _ |- _ => apply safe_add_sound in H; destruct H as [H ?]; subst
  | H : safe_sub _ _ = Ok _ |- _ => apply safe_sub_sound in H; destruct H as [H ?]; subst
  | H : safe_mul _ _ = Ok _ |- _ => apply safe_mul_sound in H; destruct H as [H ?]; subst
  | H : safe_neg _ = Ok _ |- _ => apply safe_neg_sound in H; destruct H as [H ?]; subst
  | H : safe_div _ _ = Ok _ |- _ => apply safe_div_sound in H; destruct H as (? & H & ?); subst
  | H : safe_mod _ _ = Ok _ |- _ => apply safe_mod_sound in H; destruct H as (? & H & ?); subst
  end.
Ltac inv_safe := repeat inv_safe_step.
