(* ===== verification/Text.v ===== *)
(** * Text: the std::string operations and decimal notation the node uses

    [std::string] is Rocq's [string].  [str_find] is [find]/[find_first_of] of
    one character, [str_take]/[str_drop] are [substr] from the front and to the
    end.  [dec] is decimal notation of a non-negative integer; the laws the
    round trips need of [fc::to_string], [fc::to_int64] and [fc::trim] are the
    class [FcTextLaws]. *)

From stdpp Require Import gmap strings list.
From Stdlib Require Import ZArith Lia Ascii String.
From S2P Require Import Prelude Fc.

#[local] Arguments String.append !_ _ /.

(** ** Searching and slicing *)

Fixpoint str_find (c : ascii) (s : string) : option nat :=
  match s with
  | EmptyString => None
  | String d s => if decide (d = c) then Some O else S <$> str_find c s
  end.

Fixpoint str_take (n : nat) (s : string) : string :=
  match n, s with
  | S n, String d s => String d (str_take n s)
  | _, _ => EmptyString
  end.

Fixpoint str_drop (n : nat) (s : string) : string :=
  match n, s with
  | S n, String _ s => str_drop n s
  | O, s => s
  | S _, EmptyString => EmptyString
  end.

Fixpoint str_forall (P : ascii → bool) (s : string) : bool :=
  match s with
  | EmptyString => true
  | String d s => P d && str_forall P s
  end.

Definition not_char (c : ascii) (d : ascii) : bool := bool_decide (d ≠ c).

Lemma str_app_nil_r s : (s +:+ "")%string = s.
Proof. induction s as [|a s IH]; [done|]. simpl. by f_equal. Qed.

Lemma str_app_assoc s1 s2 s3 : ((s1 +:+ s2) +:+ s3 = s1 +:+ (s2 +:+ s3))%string.
Proof. induction s1 as [|a s IH]; [done|]. simpl. by f_equal. Qed.

Lemma str_length_app s1 s2 :
  String.length (s1 +:+ s2) = (String.length s1 + String.length s2)%nat.
Proof. induction s1 as [|a s IH]; [done|]. simpl. by f_equal. Qed.

Lemma str_forall_app P s1 s2 :
  str_forall P (s1 +:+ s2) = str_forall P s1 && str_forall P s2.
Proof.
  induction s1 as [|a s IH]; [done|]. simpl. rewrite IH. by rewrite andb_assoc.
Qed.

Lemma str_forall_impl (P Q : ascii → bool) s :
  (∀ c, P c = true → Q c = true) → str_forall P s = true → str_forall Q s = true.
Proof.
  intros HPQ. induction s as [|a s IH]; [done|]. simpl.
  rewrite !andb_true_iff. naive_solver.
Qed.

(** The first occurrence in a text whose prefix lacks the character. *)
Lemma str_find_app c s1 s2 :
  str_forall (not_char c) s1 = true →
  str_find c (s1 +:+ s2) = (λ n, (String.length s1 + n)%nat) <$> str_find c s2.
Proof.
  induction s1 as [|a s1 IH]; simpl.
  - intros _. by destruct (str_find c s2).
  - rewrite andb_true_iff. intros [Ha Hs]. unfold not_char in Ha.
    apply bool_decide_eq_true in Ha. rewrite decide_False by done.
    rewrite IH by done. by destruct (str_find c s2).
Qed.

Lemma str_find_none c s : str_forall (not_char c) s = true → str_find c s = None.
Proof.
  intros H. rewrite <- (str_app_nil_r s). by rewrite str_find_app.
Qed.

Lemma str_find_sep c s1 s2 :
  str_forall (not_char c) s1 = true →
  str_find c (s1 +:+ String c s2) = Some (String.length s1).
Proof.
  intros H. rewrite str_find_app by done. simpl.
  rewrite decide_True by done. simpl. f_equal. lia.
Qed.

Lemma str_take_app s1 s2 : str_take (String.length s1) (s1 +:+ s2) = s1.
Proof. induction s1 as [|a s IH]; simpl; [by destruct s2|]. by f_equal. Qed.

Lemma str_drop_app s1 s2 : str_drop (String.length s1) (s1 +:+ s2) = s2.
Proof. induction s1 as [|a s IH]; simpl; [by destruct s2|]. done. Qed.

(** ** Decimal notation *)

Definition digit (n : Z) : ascii := ascii_of_N (Z.to_N (48 + n mod 10)).
Definition is_digit (c : ascii) : bool :=
  bool_decide (48 ≤ Z.of_N (N_of_ascii c) ≤ 57).
Definition digit_value (c : ascii) : Z := Z.of_N (N_of_ascii c) - 48.

(** The last [d] decimal digits of [n]. *)
Fixpoint pad (d : nat) (n : Z) : string :=
  match d with
  | O => ""
  | S d => pad d (n / 10) +:+ String (digit n) ""
  end.

(** The number of digits of [n], with fuel. *)
Fixpoint ndigits (fuel : nat) (n : Z) : nat :=
  match fuel with
  | O => 1
  | S fuel => if n <? 10 then 1 else S (ndigits fuel (n / 10))
  end.

Definition dec (n : Z) : string := pad (ndigits 20 n) n.

Fixpoint parse_digits (acc : Z) (s : string) : Z :=
  match s with
  | EmptyString => acc
  | String c s => parse_digits (acc * 10 + digit_value c) s
  end.

Lemma digit_value_digit n : digit_value (digit n) = n mod 10.
Proof.
  unfold digit_value, digit. pose proof (Z.mod_pos_bound n 10 ltac:(lia)).
  rewrite N_ascii_embedding by lia. lia.
Qed.

Lemma is_digit_digit n : is_digit (digit n) = true.
Proof.
  unfold is_digit, digit. pose proof (Z.mod_pos_bound n 10 ltac:(lia)).
  rewrite N_ascii_embedding by lia. apply bool_decide_true. lia.
Qed.

Lemma pad_length d n : String.length (pad d n) = d.
Proof.
  revert n. induction d as [|d IH]; intros n; [done|]. simpl.
  rewrite str_length_app, IH. simpl. lia.
Qed.

Lemma pad_digits d n : str_forall is_digit (pad d n) = true.
Proof.
  revert n. induction d as [|d IH]; intros n; [done|]. simpl.
  rewrite str_forall_app, IH. simpl. by rewrite is_digit_digit.
Qed.

Lemma parse_digits_app acc s1 s2 :
  parse_digits acc (s1 +:+ s2) = parse_digits (parse_digits acc s1) s2.
Proof. revert acc. induction s1 as [|c s IH]; intros acc; [done|]. simpl. apply IH. Qed.

Lemma parse_digits_pad acc d n :
  parse_digits acc (pad d n) = acc * 10 ^ Z.of_nat d + n mod 10 ^ Z.of_nat d.
Proof.
  revert n. induction d as [|d IH]; intros n.
  - simpl. rewrite Z.mod_1_r. lia.
  - cbn [pad]. rewrite parse_digits_app, IH. cbn [parse_digits].
    rewrite digit_value_digit.
    replace (Z.of_nat (S d)) with (Z.of_nat d + 1) by lia.
    rewrite Z.pow_add_r, Z.pow_1_r by lia.
    set (p := 10 ^ Z.of_nat d).
    assert (0 < p) by (apply Z.pow_pos_nonneg; lia).
    rewrite (Z.mul_comm p 10), Z.rem_mul_r by lia. ring.
Qed.

(** Dropping leading digits: the first of [S d] digits is [n / 10^d mod 10]. *)
Lemma pad_cons d n :
  pad (S d) n = String (digit (n / 10 ^ Z.of_nat d)) (pad d n).
Proof.
  revert n. induction d as [|d IH]; intros n.
  - simpl. by rewrite Z.div_1_r.
  - change (pad (S (S d)) n) with (pad (S d) (n / 10) +:+ String (digit n) "")%string.
    rewrite IH. simpl.
    replace (10 ^ Z.of_nat (S d)) with (10 * 10 ^ Z.of_nat d).
    2:{ rewrite Nat2Z.inj_succ, Z.pow_succ_r by lia. done. }
    rewrite Z.div_div by lia. done.
Qed.

Lemma ndigits_spec f n d :
  10 ^ Z.of_nat d ≤ n < 10 ^ Z.of_nat (S d) → (d ≤ f)%nat → ndigits f n = S d.
Proof.
  revert n d. induction f as [|f IH]; intros n d Hn Hd.
  - by replace d with 0%nat by lia.
  - simpl. rewrite Nat2Z.inj_succ, Z.pow_succ_r in Hn by lia. destruct d as [|d].
    + simpl in Hn. destruct (Z.ltb_spec n 10); [done|lia].
    + assert (1 ≤ 10 ^ Z.of_nat d) by (apply Z.lt_pred_le, Z.pow_pos_nonneg; lia).
      rewrite Nat2Z.inj_succ, Z.pow_succ_r in Hn by lia.
      destruct (Z.ltb_spec n 10); [lia|]. f_equal. apply IH; [|lia].
      rewrite Nat2Z.inj_succ, Z.pow_succ_r by lia.
      split; [apply Z.div_le_lower_bound; lia|apply Z.div_lt_upper_bound; lia].
Qed.

Lemma ndigits_small f n : 0 ≤ n < 10 → ndigits f n = 1%nat.
Proof. destruct f; simpl; [done|]. intros. by destruct (Z.ltb_spec n 10); [|lia]. Qed.

Lemma ndigits_bound f n :
  0 ≤ n < 10 ^ Z.of_nat (S f) → n < 10 ^ Z.of_nat (ndigits f n).
Proof.
  revert n. induction f as [|f IH]; intros n Hn; simpl; [simpl in Hn; lia|].
  destruct (Z.ltb_spec n 10); [simpl; lia|].
  rewrite Nat2Z.inj_succ, Z.pow_succ_r in Hn |- * by lia.
  assert (n / 10 < 10 ^ Z.of_nat (ndigits f (n / 10))).
  { apply IH. split; [apply Z.div_pos; lia|apply Z.div_lt_upper_bound; lia]. }
  pose proof (Z_div_mod_eq_full n 10). pose proof (Z.mod_pos_bound n 10 ltac:(lia)). lia.
Qed.

Lemma ndigits_pos f n : (1 ≤ ndigits f n)%nat.
Proof. destruct f; simpl; [lia|]. destruct (n <? 10); lia. Qed.

(** Decimal notation parses back. *)
Lemma parse_dec n : 0 ≤ n < 10 ^ 21 → parse_digits 0 (dec n) = n.
Proof.
  intros Hn. unfold dec. rewrite parse_digits_pad, Z.mul_0_l, Z.add_0_l.
  apply Z.mod_small. split; [lia|]. by apply ndigits_bound.
Qed.

(** [10^d + n] with [n < 10^d] prints as a 1 followed by [n] padded to [d]
    digits: the trick of [asset::to_string]. *)
Lemma dec_one_pad d n :
  (d ≤ 20)%nat → 0 ≤ n < 10 ^ Z.of_nat d →
  dec (10 ^ Z.of_nat d + n) = String "1" (pad d n).
Proof.
  intros Hd Hn. unfold dec. rewrite (ndigits_spec _ _ d); [|split|done]; [|lia|].
  2:{ rewrite Nat2Z.inj_succ, Z.pow_succ_r by lia. lia. }
  rewrite pad_cons. f_equal.
  - rewrite <- (Z.mul_1_l (10 ^ Z.of_nat d)) at 1.
    rewrite Z.div_add_l by lia. rewrite Z.div_small by lia. done.
  - clear Hd. revert n Hn. induction d as [|d IH]; intros n Hn; [done|].
    rewrite Nat2Z.inj_succ, Z.pow_succ_r in Hn |- * by lia. simpl.
    replace ((10 * 10 ^ Z.of_nat d + n) / 10) with (10 ^ Z.of_nat d + n / 10).
    2:{ rewrite (Z.mul_comm 10), Z.div_add_l by lia. done. }
    rewrite IH.
    + do 2 f_equal. unfold digit. do 3 f_equal.
      rewrite Z.add_comm, (Z.mul_comm 10), Z.mod_add by lia. done.
    + split; [apply Z.div_pos; lia|apply Z.div_lt_upper_bound; lia].
Qed.

(** ** What the round trips assume of the text helpers *)

Definition is_blank (c : ascii) : bool :=
  bool_decide (c = " "%char) || bool_decide (9 ≤ Z.of_N (N_of_ascii c) ≤ 13).

Fixpoint str_last (s : string) : option ascii :=
  match s with
  | EmptyString => None
  | String c EmptyString => Some c
  | String _ s => str_last s
  end.

Definition trimmed (s : string) : bool :=
  match s with String c _ => negb (is_blank c) | _ => true end &&
  match str_last s with Some c => negb (is_blank c) | None => true end.

Class FcTextLaws (T : FcText) : Prop := {
  fc_to_string_dec n : 0 ≤ n ≤ i64_max → fc_to_string n = dec n;
  fc_to_int64_digits s :
    s ≠ EmptyString → str_forall is_digit s = true → parse_digits 0 s ≤ i64_max →
    fc_to_int64 s = Ok (parse_digits 0 s);
  fc_trim_id s : trimmed s = true → fc_trim s = s
}.

(** A concrete instance: decimal text, trimming of blanks, and byte strings
    taken as UTF-8. *)
Fixpoint drop_blanks (s : string) : string :=
  match s with
  | String c s' => if is_blank c then drop_blanks s' else s
  | EmptyString => EmptyString
  end.

Fixpoint drop_blanks_end (s : string) : string :=
  match s with
  | EmptyString => EmptyString
  | String c s =>
      match drop_blanks_end s with
      | EmptyString => if is_blank c then EmptyString else String c EmptyString
      | s' => String c s'
      end
  end.

Definition plain_text : FcText := {|
  fc_trim s := drop_blanks_end (drop_blanks s);
  fc_to_string n := if n <? 0 then String "-" (dec (- n)) else dec n;
  fc_to_int64 s :=
    match s with
    | EmptyString => Err (E_parse "int64")
    | String "-" t => if str_forall is_digit t && negb (bool_decide (t = EmptyString))
                      then check_i64 (- parse_digits 0 t) else Err (E_parse "int64")
    | _ => if str_forall is_digit s then check_i64 (parse_digits 0 s)
           else Err (E_parse "int64")
    end;
  fc_is_utf8 _ := true;
  fc_json_is_valid _ := true |}.

Lemma drop_blanks_end_id s :
  match str_last s with Some c => negb (is_blank c) | None => true end = true →
  drop_blanks_end s = s.
Proof.
  induction s as [|c s IH]; [done|]. simpl. destruct s as [|d s].
  - simpl. by destruct (is_blank c).
  - intros H. rewrite IH by done. done.
Qed.

Lemma parse_digits_nonneg acc s :
  0 ≤ acc → str_forall is_digit s = true → 0 ≤ parse_digits acc s.
Proof.
  revert acc. induction s as [|c s IH]; intros acc Hacc; simpl; [done|].
  rewrite andb_true_iff. intros [Hc Hs]. apply IH; [|done].
  unfold is_digit in Hc. apply bool_decide_eq_true in Hc. unfold digit_value. lia.
Qed.

#[export] Instance plain_text_laws : FcTextLaws plain_text.
Proof.
  split.
  - intros n Hn. simpl. by destruct (Z.ltb_spec n 0); [lia|].
  - intros s Hs Hd Hle. simpl. destruct s as [|c s]; [done|].
    assert (c ≠ "-"%char) as Hc.
    { intros ->. simpl in Hd. done. }
    assert (check_i64 (parse_digits 0 (String c s)) = Ok (parse_digits 0 (String c s))).
    { apply check_i64_fits. split; [|done].
      pose proof (parse_digits_nonneg 0 (String c s) ltac:(lia) Hd). unfold i64_min. lia. }
    destruct c as [[] [] [] [] [] [] [] []]; try (by rewrite Hd); done.
  - intros s Hs. unfold trimmed in Hs. apply andb_true_iff in Hs as [H1 H2].
    simpl. destruct s as [|c s]; [done|]. cbn [drop_blanks].
    apply negb_true_iff in H1. rewrite H1. by apply drop_blanks_end_id.
Qed.

(** ** Trimmed texts *)

Lemma str_last_app s1 s2 : s2 ≠ EmptyString → str_last (s1 +:+ s2) = str_last s2.
Proof.
  intros H2. induction s1 as [|c s1 IH]; [done|]. simpl. rewrite IH.
  destruct s1; simpl; [|done]. by destruct s2.
Qed.

Lemma str_last_forall P s c :
  str_forall P s = true → str_last s = Some c → P c = true.
Proof.
  induction s as [|d s IH]; [done|]. simpl. rewrite andb_true_iff. intros [Hd Hs].
  destruct s; [naive_solver|]. by apply IH.
Qed.

Lemma dec_cons n : ∃ c s, dec n = String c s ∧ is_digit c = true.
Proof.
  unfold dec. pose proof (ndigits_pos 20 n).
  destruct (ndigits 20 n) as [|k]; [lia|]. rewrite pad_cons.
  eexists _, _; split; [done|]. apply is_digit_digit.
Qed.

Lemma dec_digits n : str_forall is_digit (dec n) = true.
Proof. apply pad_digits. Qed.

Lemma digit_not_blank c : is_digit c = true → is_blank c = false.
Proof.
  unfold is_digit, is_blank. rewrite bool_decide_eq_true. intros H.
  apply orb_false_iff; split; apply bool_decide_eq_false; [|lia].
  intros ->. simpl in H. lia.
Qed.

Lemma digits_no_char c s :
  is_digit c = false → str_forall is_digit s = true → str_forall (not_char c) s = true.
Proof.
  intros Hc. apply str_forall_impl. intros d Hd. unfold not_char.
  apply bool_decide_true. congruence.
Qed.

(** A text that starts with a decimal number and ends with a non-blank. *)
Lemma trimmed_dec n mid last :
  last ≠ EmptyString → str_forall (λ c, negb (is_blank c)) last = true →
  trimmed (dec n +:+ mid +:+ last) = true.
Proof.
  intros Hne Hlast. destruct (dec_cons n) as (c & s & -> & Hc).
  apply andb_true_iff; split; [simpl; by rewrite digit_not_blank|].
  rewrite <- str_app_assoc, str_last_app by done.
  destruct (str_last last) eqn:E; [|done].
  by apply (str_last_forall (λ c, negb (is_blank c)) last).
Qed.
