(* ===== verification/Asset.v ===== *)
(** * Assets and prices (libraries/protocol/asset.hpp, asset.cpp)

    An [asset] is an amount ([share_type], a checked 64-bit integer) and a
    64-bit symbol whose low byte is the number of decimals and whose bytes 1..6
    are the name.  A [price] is a pair of assets; [asset_mul_price] converts an
    amount through a price in 128-bit arithmetic. *)

From stdpp Require Import gmap strings list.
From Stdlib Require Import ZArith Lia Ascii String.
From S2P Require Import Prelude Fc Text.

#[local] Arguments String.append !_ _ /.

(** ** Data *)

Definition CHAIN_100_PERCENT : Z := 10000.

Record asset := mk_asset { amount : Z; symbol : Z }.
Definition eta_asset (a : asset) : asset :=
  {| amount := amount a; symbol := symbol a |}.
#[export] Instance set_amount : Setter amount := ltac:(derive_setter eta_asset amount).
#[export] Instance set_symbol : Setter symbol := ltac:(derive_setter eta_asset symbol).

#[export] Instance asset_eq_dec : EqDecision asset.
Proof. solve_decision. Defined.

Record price := mk_price { base : asset; quote : asset }.

(** protocol/config.hpp *)
Definition SHARES_SYMBOL : Z :=
  Z.lor 6 (Z.lor (Z.shiftl 83 8) (Z.lor (Z.shiftl 72 16) (Z.lor (Z.shiftl 65 24)
    (Z.lor (Z.shiftl 82 32) (Z.lor (Z.shiftl 69 40) (Z.shiftl 83 48)))))).
Definition TOKEN_SYMBOL : Z :=
  Z.lor 3 (Z.lor (Z.shiftl 86 8) (Z.lor (Z.shiftl 73 16) (Z.shiftl 90 24))).

Definition token (n : Z) : asset := mk_asset n TOKEN_SYMBOL.
Definition shares (n : Z) : asset := mk_asset n SHARES_SYMBOL.
Definition CHAIN_MAX_SHARE_SUPPLY : Z := 1000000000000000.

(** ** Symbols *)

(** [a[0]] of the symbol's bytes. *)
Definition decimals (a : asset) : res Z :=
  let result := Z.land (symbol a) 255 in
  do? rassert (result <? 15) (E_assert "result < 15") in Ok result.

Definition set_decimals (d : Z) (a : asset) : res asset :=
  do? rassert (d <? 15) (E_assert "d < 15") in
  Ok (a <| symbol := symbol a - Z.land (symbol a) 255 + d |>).

(** The C string stored from byte 1 on, read up to the first zero byte. *)
Fixpoint c_string (n : nat) (x : Z) : string :=
  match n with
  | O => EmptyString
  | S n => if x mod 256 =? 0 then EmptyString
           else String (ascii_of_N (Z.to_N (x mod 256))) (c_string n (x / 256))
  end.

Definition symbol_name (a : asset) : res string :=
  do? rassert (Z.shiftr (symbol a) 56 =? 0) (E_assert "a[7] == 0") in
  Ok (c_string 6 (Z.shiftr (symbol a) 8)).

Definition precision (a : asset) : res Z :=
  let? d := decimals a in Ok (10 ^ d).

(** The bytes of a name, placed from byte 1 on: what [memcpy (sy + 1, ...)]
    stores. *)
Fixpoint name_value (s : string) : Z :=
  match s with
  | EmptyString => 0
  | String c s => 256 * (Z.of_N (N_of_ascii c) + name_value s)
  end.

(** ** Arithmetic *)

Section ops.
Context {SI : SafeInt64}.

Definition same_symbol (a b : asset) : res unit :=
  rassert (symbol a =? symbol b) (E_assert "a.symbol == b.symbol").

Definition asset_add (a b : asset) : res asset :=
  do? same_symbol a b in
  let? v := safe_add (amount a) (amount b) in Ok (mk_asset v (symbol a)).

Definition asset_sub (a b : asset) : res asset :=
  do? same_symbol a b in
  let? v := safe_sub (amount a) (amount b) in Ok (mk_asset v (symbol a)).

Definition asset_neg (a : asset) : res asset :=
  let? v := safe_neg (amount a) in Ok (mk_asset v (symbol a)).

Definition asset_scale (a : asset) (x : Z) : res asset :=
  let? v := safe_mul (amount a) x in Ok (mk_asset v (symbol a)).

Definition asset_div (a : asset) (x : Z) : res asset :=
  let? v := safe_div (amount a) x in Ok (mk_asset v (symbol a)).
End ops.

Definition asset_eqb (a b : asset) : res bool :=
  do? same_symbol a b in Ok (amount a =? amount b).
Definition asset_ltb (a b : asset) : res bool :=
  do? same_symbol a b in Ok (amount a <? amount b).
Definition asset_leb (a b : asset) : res bool :=
  let? e := asset_eqb a b in if e then Ok true else asset_ltb a b.
Definition asset_neb (a b : asset) : res bool :=
  let? e := asset_eqb a b in Ok (negb e).
Definition asset_gtb (a b : asset) : res bool :=
  let? e := asset_leb a b in Ok (negb e).
Definition asset_geb (a b : asset) : res bool :=
  let? e := asset_ltb a b in Ok (negb e).

(** ** Text *)

Section text.
Context {T : FcText}.

Definition to_string (a : asset) : res string :=
  let? prec := precision a in
  let result := fc_to_string (Z.quot (amount a) prec) in
  let result :=
    if 1 <? prec
    then (result +:+ "." +:+ str_drop 1 (fc_to_string (prec + Z.rem (amount a) prec)))%string
    else result in
  let? name := symbol_name a in
  Ok (result +:+ " " +:+ name)%string.

(** Raw [int64_t] arithmetic (on [amount.value]): overflow is undefined. *)
Definition raw_i64 (x : Z) : res Z :=
  if fits_i64b x then Ok x else Err E_undefined.

Definition from_string (from : string) : res asset :=
  let s := fc_trim from in
  let? space_pos := res_of_option (str_find " " s) (E_assert "space_pos != npos") in
  let? result :=
    match str_find "." s with
    | Some dot_pos =>
        do? rassert (Nat.ltb dot_pos space_pos) (E_assert "space_pos > dot_pos") in
        let intpart := str_take dot_pos s in
        let fractpart :=
          ("1" +:+ str_take (space_pos - dot_pos - 1) (str_drop (dot_pos + 1) s))%string in
        let? result := set_decimals ((Z.of_nat (String.length fractpart) - 1) mod 256)
                         (mk_asset 0 0) in
        let? prec := precision result in
        let? i := fc_to_int64 intpart in
        let? v := raw_i64 (i * prec) in
        let? f := fc_to_int64 fractpart in
        let? v := raw_i64 (v + f) in
        let? v := raw_i64 (v - prec) in
        Ok (result <| amount := v |>)
    | None =>
        let? i := fc_to_int64 (str_take space_pos s) in
        set_decimals 0 (mk_asset i 0)
    end in
  let sym := str_drop (space_pos + 1) s in
  if Nat.ltb 0 (String.length sym)
  then do? rassert (Nat.leb (String.length sym) 6) (E_assert "symbol_size <= 6") in
       Ok (result <| symbol := symbol result + name_value sym |>)
  else Ok result.
End text.

(** ** Prices *)

Section prices.
Context {SI : SafeInt64} {U : WideUInt 128}.

Definition cross (q b : asset) : Z :=
  wu_mul (wu_of_i64 (amount q)) (wu_of_i64 (amount b)).

Definition price_eqb (a b : price) : bool :=
  (symbol (base a) =? symbol (base b)) && (symbol (quote a) =? symbol (quote b)) &&
  (cross (quote b) (base a) =? cross (quote a) (base b)).

Definition price_ltb (a b : price) : bool :=
  if symbol (base a) <? symbol (base b) then true
  else if symbol (base b) <? symbol (base a) then false
  else if symbol (quote a) <? symbol (quote b) then true
  else if symbol (quote b) <? symbol (quote a) then false
  else cross (quote b) (base a) <? cross (quote a) (base b).

Definition price_leb (a b : price) : bool := price_eqb a b || price_ltb a b.
Definition price_neb (a b : price) : bool := negb (price_eqb a b).
Definition price_gtb (a b : price) : bool := negb (price_leb a b).
Definition price_geb (a b : price) : bool := negb (price_ltb a b).

Definition price_invert (p : price) : price := mk_price (quote p) (base p).

(** One branch of [operator*(asset, price)]: [a * num / den]. *)
Definition convert (a num den : asset) : res asset :=
  do? rassert (0 <? amount den) (E_assert "amount.value > 0") in
  let? result := wu_div (wu_mul (wu_of_i64 (amount a)) (wu_of_i64 (amount num)))
                        (wu_of_i64 (amount den)) in
  do? rassert (Z.shiftr result 64 =? 0) (E_assert "result.hi == 0") in
  let? v := wu_to_u64 result in
  Ok (mk_asset (to_i64 v) (symbol num)).

Definition asset_mul_price (a : asset) (b : price) : res asset :=
  let? n := symbol_name a in
  let? nb := symbol_name (base b) in
  if bool_decide (n = nb) then convert a (quote b) (base b)
  else
    let? nq := symbol_name (quote b) in
    if bool_decide (n = nq) then convert a (base b) (quote b)
    else Err (E_assert "invalid asset * price").

(** [operator/(asset, asset)] *)
Definition make_price (b q : asset) : res price :=
  let? nb := symbol_name b in
  let? nq := symbol_name q in
  do? rassert (bool_decide (nb ≠ nq)) (E_assert "base.symbol_name() != quote.symbol_name()") in
  Ok (mk_price b q).

Definition price_max (b q : Z) : res price :=
  make_price (mk_asset CHAIN_MAX_SHARE_SUPPLY b) (mk_asset 1 q).
Definition price_min (b q : Z) : res price :=
  make_price (mk_asset 1 b) (mk_asset CHAIN_MAX_SHARE_SUPPLY q).

Definition price_is_null (p : price) : bool :=
  price_eqb p (mk_price (mk_asset 0 TOKEN_SYMBOL) (mk_asset 0 TOKEN_SYMBOL)).

Definition price_validate (p : price) : res unit :=
  do? rassert (0 <? amount (base p)) (E_assert "base.amount > share_type(0)") in
  do? rassert (0 <? amount (quote p)) (E_assert "quote.amount > share_type(0)") in
  let? nb := symbol_name (base p) in
  let? nq := symbol_name (quote p) in
  rassert (bool_decide (nb ≠ nq)) (E_assert "base.symbol_name() != quote.symbol_name()").
End prices.

(** ** Round trip of the textual form *)

(** A symbol whose bytes are a number of decimals below 15, a name of one to
    six characters without blanks and dots, and zeros. *)
Definition printable (c : ascii) : bool := negb (is_blank c) && not_char "." c.
Definition symbol_ok (sym : Z) : bool :=
  let nm := c_string 6 (Z.shiftr sym 8) in
  (Z.land sym 255 <? 15) && (Z.shiftr sym 56 =? 0) &&
  (sym =? Z.land sym 255 + name_value nm) &&
  negb (bool_decide (nm = EmptyString)) && str_forall printable nm.

Lemma c_string_length n x : (String.length (c_string n x) ≤ n)%nat.
Proof.
  revert x. induction n as [|n IH]; intros x; [done|]. simpl.
  destruct (x mod 256 =? 0); simpl; [lia|]. specialize (IH (x / 256)). lia.
Qed.

Section roundtrip.
Context {T : FcText} {TL : FcTextLaws T}.

Lemma to_int64_dec n : 0 ≤ n ≤ i64_max → fc_to_int64 (dec n) = Ok n.
Proof.
  intros Hn. destruct (dec_cons n) as (c & s & E & _).
  assert (parse_digits 0 (dec n) = n) as Hp by (apply parse_dec; unfold i64_max in *; lia).
  rewrite fc_to_int64_digits; rewrite ?Hp; [done|by rewrite E|apply dec_digits|lia].
Qed.

Lemma printable_not_dot nm :
  str_forall printable nm = true →
  str_forall (not_char ".") nm = true ∧ str_forall (λ c, negb (is_blank c)) nm = true.
Proof.
  intros H; split; eapply str_forall_impl; try exact H; intros c;
    unfold printable; rewrite andb_true_iff; naive_solver.
Qed.

(** Reading back a text without fraction. *)
Lemma from_string_int n nm :
  0 ≤ n ≤ i64_max → nm ≠ EmptyString → (String.length nm ≤ 6)%nat →
  str_forall printable nm = true →
  from_string (dec n +:+ " " +:+ nm) = Ok (mk_asset n (name_value nm)).
Proof.
  intros Hn Hne Hlen Hnm. apply printable_not_dot in Hnm as [Hdot Hbl].
  unfold from_string. rewrite fc_trim_id by by apply trimmed_dec.
  change (" " +:+ nm)%string with (String " " nm).
  rewrite str_find_sep by (apply digits_no_char; [done|apply dec_digits]).
  cbn [res_of_option rbind].
  rewrite (str_find_none ".").
  2:{ rewrite str_forall_app, digits_no_char by (done || apply dec_digits).
      simpl. by rewrite Hdot. }
  rewrite str_take_app, to_int64_dec by done.
  cbn [rbind set_decimals rassert symbol amount set_field set_symbol].
  change (0 <? 15) with true. change (Z.land 0 255) with 0.
  cbn [rbind rassert].
  replace (String.length (dec n) + 1)%nat with (String.length (dec n +:+ " ")%string).
  2:{ rewrite str_length_app. done. }
  change (String " " nm) with (" " +:+ nm)%string.
  rewrite <- str_app_assoc, str_drop_app.
  destruct nm as [|c nm]; [done|].
  replace (Nat.leb _ 6) with true by (symmetry; apply Nat.leb_le; simpl in *; lia).
  done.
Qed.

(** Reading back a text with [d] decimals. *)
Lemma from_string_frac d n nm :
  (0 < d < 15)%nat → 0 ≤ n → n + 10 ^ Z.of_nat d ≤ i64_max →
  nm ≠ EmptyString → (String.length nm ≤ 6)%nat → str_forall printable nm = true →
  let p := 10 ^ Z.of_nat d in
  from_string (dec (n / p) +:+ "." +:+ pad d (n mod p) +:+ " " +:+ nm)
  = Ok (mk_asset n (Z.of_nat d + name_value nm)).
Proof.
  intros Hd Hn Hmax Hne Hlen Hnm p.
  apply printable_not_dot in Hnm as [Hdot Hbl].
  assert (0 < p) as Hp by (apply Z.pow_pos_nonneg; lia).
  pose proof (Z.div_pos n p Hn Hp) as Hq.
  pose proof (Z.mod_pos_bound n p Hp) as Hr.
  pose proof (Z_div_mod_eq_full n p) as Hdm.
  assert (n / p ≤ i64_max) by nia.
  assert (fits_i64b (n / p * p) = true ∧ fits_i64b (n / p * p + (p + n mod p)) = true ∧
          fits_i64b (n / p * p + (p + n mod p) - p) = true) as (F1 & F2 & F3).
  { rewrite !fits_i64b_spec. unfold fits_i64, i64_min, i64_max in *. lia. }
  unfold from_string.
  replace (dec (n / p) +:+ "." +:+ pad d (n mod p) +:+ " " +:+ nm)%string
    with (dec (n / p) +:+ ("." +:+ pad d (n mod p) +:+ " ") +:+ nm)%string
    by (by rewrite !str_app_assoc).
  rewrite fc_trim_id by by apply trimmed_dec. rewrite !str_app_assoc.
  change (" " +:+ nm)%string with (String " " nm).
  rewrite str_find_app by (apply digits_no_char; [done|apply dec_digits]).
  cbn [String.append str_find]. rewrite decide_False by done.
  rewrite str_find_sep by (apply digits_no_char; [done|apply pad_digits]).
  rewrite (str_find_sep ".") by (apply digits_no_char; [done|apply dec_digits]).
  cbn [fmap option_fmap option_map res_of_option rbind].
  rewrite pad_length.
  set (L := String.length (dec (n / p))).
  replace (Nat.ltb L (L + S d)) with true by (symmetry; apply Nat.ltb_lt; lia).
  cbn [rassert rbind].
  replace (L + S d - L - 1)%nat with d by lia.
  replace (str_drop (L + 1) (dec (n / p) +:+ String "." (pad d (n mod p) +:+ String " " nm)))
    with (pad d (n mod p) +:+ String " " nm)%string.
  2:{ replace (L + 1)%nat with (String.length (dec (n / p) +:+ ".")%string)
        by (rewrite str_length_app; done).
      change (String "." (pad d (n mod p) +:+ String " " nm))
        with ("." +:+ (pad d (n mod p) +:+ String " " nm))%string.
      by rewrite <- str_app_assoc, str_drop_app. }
  replace (str_take d (pad d (n mod p) +:+ String " " nm)) with (pad d (n mod p)).
  2:{ rewrite <- (pad_length d (n mod p)) at 2. by rewrite str_take_app. }
  rewrite <- dec_one_pad by (fold p; lia). fold p.
  replace (String.length (dec (p + n mod p))) with (S d).
  2:{ unfold p at 1. rewrite dec_one_pad by (fold p; lia). simpl. by rewrite pad_length. }
  replace ((Z.of_nat (S d) - 1) mod 256) with (Z.of_nat d) by (rewrite Z.mod_small; lia).
  unfold set_decimals. replace (Z.of_nat d <? 15) with true by lia. cbn [rassert rbind].
  unfold precision, decimals. cbn [symbol set_field set_symbol amount].
  replace (Z.land (0 - Z.land 0 255 + Z.of_nat d) 255) with (Z.of_nat d).
  2:{ change (Z.land 0 255) with 0. rewrite Z.sub_0_r, Z.add_0_l.
      change 255 with (Z.ones 8). rewrite Z.land_ones, Z.mod_small; lia. }
  replace (Z.of_nat d <? 15) with true by lia. cbn [rassert rbind]. fold p.
  unfold L. rewrite str_take_app, !to_int64_dec by lia. cbn [rbind].
  unfold raw_i64. rewrite F1. cbn [rbind]. rewrite F2. cbn [rbind]. rewrite F3. cbn [rbind].
  fold L.
  replace (L + S d + 1)%nat
    with (String.length (dec (n / p) +:+ "." +:+ pad d (n mod p) +:+ " ")%string)
    by (rewrite !str_length_app, pad_length; unfold L; simpl; lia).
  replace (dec (n / p) +:+ String "." (pad d (n mod p) +:+ String " " nm))%string
    with ((dec (n / p) +:+ "." +:+ pad d (n mod p) +:+ " ") +:+ nm)%string
    by (by rewrite !str_app_assoc).
  rewrite str_drop_app. destruct nm as [|c nm]; [done|].
  replace (Nat.leb _ 6) with true by (symmetry; apply Nat.leb_le; simpl in *; lia).
  cbv [set_field set_symbol set_amount].
  cbn [Nat.ltb Nat.leb String.length rassert rbind symbol amount].
  change (Z.land 0 255) with 0. do 2 f_equal; lia.
Qed.
End roundtrip.

(** ** Conversion through a price *)

Section conversion.
Context {U : WideUInt 128}.

(** [convert] is the floor of the rational [a * num / den] when it fits. *)
Lemma convert_spec a num den :
  0 ≤ amount a ≤ i64_max → 0 ≤ amount num ≤ i64_max → 0 < amount den ≤ i64_max →
  amount a * amount num / amount den ≤ i64_max →
  convert a num den = Ok (mk_asset (amount a * amount num / amount den) (symbol num)).
Proof.
  intros Ha Hn Hd Hfit. unfold convert.
  replace (0 <? amount den) with true by lia. cbn [rassert rbind].
  rewrite wu_mul_div_i64 by done. cbn [rbind].
  set (q := amount a * amount num / amount den) in *.
  assert (0 ≤ q) by (apply Z.div_pos; nia).
  replace (Z.shiftr q 64) with 0.
  2:{ rewrite Z.shiftr_div_pow2, Z.div_small; [done|unfold i64_max in *; lia|lia]. }
  cbn [rassert rbind Z.eqb]. rewrite wu_to_u64_exact by (unfold i64_max in *; lia).
  cbn [rbind]. rewrite to_i64_small; [done|]. unfold fits_i64, i64_min, i64_max in *. lia.
Qed.

(** A successful conversion of non-negative amounts is the floor, whatever
    its size: the 128-bit product cannot wrap. *)
Lemma convert_inv a num den b :
  0 ≤ amount a ≤ i64_max → 0 ≤ amount num ≤ i64_max → amount den ≤ i64_max →
  convert a num den = Ok b →
  0 < amount den ∧ symbol b = symbol num ∧
  0 ≤ amount a * amount num / amount den < 2 ^ 64 ∧
  amount b = to_i64 (amount a * amount num / amount den).
Proof.
  intros Ha Hn Hd. unfold convert. intros H. inv_ok.
  assert (0 < amount den) by lia.
  match goal with H : wu_div _ _ = Ok _ |- _ =>
    rewrite wu_mul_div_i64 in H by lia; injection H as <- end.
  set (q := amount a * amount num / amount den) in *.
  assert (0 ≤ q) by (apply Z.div_pos; nia).
  assert (q < 2 ^ 64).
  { match goal with H : (Z.shiftr _ _ =? 0) = true |- _ =>
      apply Z.eqb_eq in H; rewrite Z.shiftr_div_pow2 in H by lia;
      apply Z.div_small_iff in H; lia end. }
  match goal with H : wu_to_u64 _ = Ok _ |- _ =>
    rewrite wu_to_u64_exact in H by lia; injection H as <- end.
  done.
Qed.

Lemma convert_symbol a num den b : convert a num den = Ok b → symbol b = symbol num.
Proof. unfold convert. intros H. by inv_ok. Qed.

Lemma to_i64_nonneg x : 0 ≤ x < 2 ^ 64 → 0 ≤ to_i64 x → to_i64 x = x.
Proof.
  intros Hx H. destruct (decide (x ≤ i64_max)).
  - apply to_i64_small. unfold fits_i64, i64_min. lia.
  - exfalso. unfold to_i64, i64_max in *.
    replace (x + 2 ^ 63) with (x - 2 ^ 63 + 1 * 2 ^ 64) in H by lia.
    rewrite Z.mod_add, Z.mod_small in H by lia. lia.
Qed.

(** There and back through the same ratio. *)
Lemma convert_back_le a num den b c :
  0 ≤ amount a ≤ i64_max → 0 < amount num ≤ i64_max → 0 < amount den ≤ i64_max →
  0 ≤ amount b → 0 ≤ amount c →
  convert a num den = Ok b → convert b den num = Ok c → amount c ≤ amount a.
Proof.
  intros Ha Hn Hd Hb0 Hc0 H1 H2.
  apply convert_inv in H1 as (_ & _ & Hr1 & E1); [|lia..].
  pose proof (to_i64_range (amount a * amount num / amount den)) as Hr.
  apply convert_inv in H2 as (_ & _ & Hr2 & E2); [|unfold fits_i64 in *; lia..].
  rewrite E1 in Hb0. rewrite to_i64_nonneg in E1 by done.
  rewrite E2 in Hc0. rewrite to_i64_nonneg in E2 by done.
  rewrite E2, E1. apply Z.div_le_upper_bound; [lia|].
  pose proof (Z.mul_div_le (amount a * amount num) (amount den) ltac:(lia)). nia.
Qed.

Lemma asset_mul_price_inv a p b :
  asset_mul_price a p = Ok b →
  (symbol_name a = symbol_name (base p) ∧ convert a (quote p) (base p) = Ok b) ∨
  (symbol_name a = symbol_name (quote p) ∧ convert a (base p) (quote p) = Ok b).
Proof.
  unfold asset_mul_price. intros H. inv_ok; propify; [left|right]; split; congruence.
Qed.

(** The cross products compare the two ratios. *)
Lemma cross_exact q b :
  0 ≤ amount q ≤ i64_max → 0 ≤ amount b ≤ i64_max → cross q b = amount q * amount b.
Proof. intros. unfold cross. by apply wu_mul_i64. Qed.
End conversion.

(** ** Theorems *)

(** An amount in range with both legs positive, as [price_validate] and the
    64-bit type guarantee. *)
Definition price_pos (p : price) : Prop :=
  0 < amount (base p) ≤ i64_max ∧ 0 < amount (quote p) ≤ i64_max.

Section theorems.
Context {T : FcText} {TL : FcTextLaws T} {U : WideUInt 128}.

(** C40 (round trip).  Printing a non-negative asset with [asset::to_string]
    and reading the text with [asset::from_string] gives the asset back, for
    every symbol with printable name, as long as the amount leaves room for
    the intermediate value [amount + precision] of [from_string]. *)
Theorem asset_string_roundtrip (a : asset) :
  symbol_ok (symbol a) = true → 0 ≤ amount a →
  amount a + 10 ^ Z.land (symbol a) 255 ≤ i64_max →
  rbind (to_string a) from_string = Ok a.
Proof.
  destruct a as [n sym]; cbn [amount symbol]. unfold symbol_ok.
  rewrite !andb_true_iff, negb_true_iff, bool_decide_eq_false.
  intros ((((Hd & H7) & Hsym) & Hne) & Hnm) Hn Hmax.
  assert (0 ≤ Z.land sym 255) by (apply Z.land_nonneg; right; done).
  apply Z.ltb_lt in Hd. apply Z.eqb_eq in Hsym.
  unfold to_string, precision, decimals, symbol_name. cbn [amount symbol].
  replace (Z.land sym 255 <? 15) with true by lia. cbn [rassert rbind].
  rewrite H7. cbn [rassert rbind].
  set (nm := c_string 6 (Z.shiftr sym 8)) in *.
  assert (String.length nm ≤ 6)%nat by apply c_string_length.
  destruct (decide (Z.land sym 255 = 0)) as [E|E].
  - rewrite E in *. change (1 <? 10 ^ 0) with false.
    change (10 ^ 0) with 1 in *. rewrite Z.quot_1_r, fc_to_string_dec by lia.
    rewrite from_string_int by (done || lia). do 2 f_equal. lia.
  - set (d := Z.to_nat (Z.land sym 255)).
    replace (Z.land sym 255) with (Z.of_nat d) in * by lia.
    assert (0 < 10 ^ Z.of_nat d) by (apply Z.pow_pos_nonneg; lia).
    replace (1 <? 10 ^ Z.of_nat d) with true.
    2:{ symmetry. apply Z.ltb_lt. apply Z.pow_gt_1; lia. }
    rewrite Z.quot_div_nonneg, Z.rem_mod_nonneg by lia.
    pose proof (Z.mod_pos_bound n (10 ^ Z.of_nat d)).
    pose proof (Z.mod_le n (10 ^ Z.of_nat d) Hn ltac:(done)).
    assert (n / 10 ^ Z.of_nat d ≤ n) by (apply Z.div_le_upper_bound; nia).
    assert (0 ≤ n / 10 ^ Z.of_nat d) by (apply Z.div_pos; lia).
    rewrite !fc_to_string_dec by lia.
    rewrite dec_one_pad by lia.
    cbn [str_drop]. rewrite !str_app_assoc. rewrite from_string_frac by (done || lia).
    by rewrite <- Hsym.
Qed.

(** Converting a non-negative amount through a price and the
    result back through the same price never returns more than was put in:
    both conversions round down. *)
Theorem price_conversion_no_gain (a b c : asset) (p : price) :
  price_pos p → 0 ≤ amount a ≤ i64_max → 0 ≤ amount b → 0 ≤ amount c →
  symbol_name (base p) ≠ symbol_name (quote p) →
  asset_mul_price a p = Ok b → asset_mul_price b p = Ok c →
  amount c ≤ amount a.
Proof.
  intros [Hb Hq] Ha Hb0 Hc0 Hne H1 H2.
  apply asset_mul_price_inv in H1 as [[Hn H1]|[Hn H1]];
    apply asset_mul_price_inv in H2 as [[Hn' H2]|[Hn' H2]];
    pose proof (convert_symbol _ _ _ _ H1) as Hs;
    unfold symbol_name in Hn', Hne; rewrite Hs in Hn'; try congruence.
  - exact (convert_back_le _ _ _ _ _ Ha Hq Hb Hb0 Hc0 H1 H2).
  - exact (convert_back_le _ _ _ _ _ Ha Hb Hq Hb0 Hc0 H1 H2).
Qed.

(** With positive legs, [operator<] and [operator==] on
    prices of the same two symbols compare the exact ratios base/quote: the
    128-bit cross products do not overflow. *)
Theorem price_compare_exact (p q : price) :
  price_pos p → price_pos q →
  symbol (base p) = symbol (base q) → symbol (quote p) = symbol (quote q) →
  (price_ltb p q = true ↔
     amount (base p) * amount (quote q) < amount (base q) * amount (quote p)) ∧
  (price_eqb p q = true ↔
     amount (base p) * amount (quote q) = amount (base q) * amount (quote p)).
Proof.
  intros [Hpb Hpq] [Hqb Hqq] Hs1 Hs2. unfold price_ltb, price_eqb.
  rewrite Hs1, Hs2, !Z.ltb_irrefl, !Z.eqb_refl, !cross_exact by lia.
  rewrite Z.ltb_lt, andb_true_l, Z.eqb_eq. lia.
Qed.
End theorems.

(** ** Witnesses *)

(** At "7.005 VIZ". *)
Lemma asset_string_roundtrip_witness :
  symbol_ok TOKEN_SYMBOL = true ∧
  @to_string plain_text (mk_asset 7005 TOKEN_SYMBOL) = Ok "7.005 VIZ" ∧
  rbind (@to_string plain_text (mk_asset 7005 TOKEN_SYMBOL)) (@from_string plain_text)
    = Ok (mk_asset 7005 TOKEN_SYMBOL).
Proof.
  split; [by vm_compute|]. split; [by vm_compute|].
  apply (asset_string_roundtrip (mk_asset 7005 TOKEN_SYMBOL)); by vm_compute.
Defined.

(** At 1000 tokens through the price 3 tokens : 7 shares. *)
Lemma price_conversion_no_gain_witness :
  let p := mk_price (mk_asset 3 TOKEN_SYMBOL) (mk_asset 7 SHARES_SYMBOL) in
  @asset_mul_price uint128 (mk_asset 1000 TOKEN_SYMBOL) p = Ok (mk_asset 2333 SHARES_SYMBOL) ∧
  @asset_mul_price uint128 (mk_asset 2333 SHARES_SYMBOL) p = Ok (mk_asset 999 TOKEN_SYMBOL) ∧
  999 ≤ 1000.
Proof.
  intros p. split; [by vm_compute|]. split; [by vm_compute|].
  apply (@price_conversion_no_gain uint128 (mk_asset 1000 TOKEN_SYMBOL)
           (mk_asset 2333 SHARES_SYMBOL) (mk_asset 999 TOKEN_SYMBOL) p);
    by vm_compute.
Defined.

(** At 1/2 and 2/3. *)
Lemma price_compare_exact_witness :
  let p := mk_price (mk_asset 1 TOKEN_SYMBOL) (mk_asset 2 SHARES_SYMBOL) in
  let q := mk_price (mk_asset 2 TOKEN_SYMBOL) (mk_asset 3 SHARES_SYMBOL) in
  (@price_ltb uint128 p q = true ↔ 1 * 3 < 2 * 2) ∧
  (@price_eqb uint128 p q = true ↔ 1 * 3 = 2 * 2).
Proof.
  intros p q. apply (@price_compare_exact uint128 p q); by vm_compute.
Defined.
