(* ===== verification/Authority.v ===== *)
(** * Account names and authorities
      (libraries/protocol/authority.cpp, libraries/chain/shared_authority.cpp)

    The grammar of account names, and authorities: a threshold with weighted
    accounts and keys.  [is_valid_account_name] scans the name by index as the
    code does; it is proved equivalent to the grammar on the labels of the
    name.  Keys are integers, zero being the blank [public_key_type()]; a
    [flat_map] is a list sorted by key. *)

From stdpp Require Import gmap strings list.
From Stdlib Require Import ZArith Lia Ascii.
From S2P Require Import Prelude.

Definition CHAIN_MIN_ACCOUNT_NAME_LENGTH : nat := 2.
Definition CHAIN_CREATE_MIN_ACCOUNT_NAME_LENGTH : nat := 3.
Definition CHAIN_MAX_ACCOUNT_NAME_LENGTH : nat := 32.

(** ** Names *)

Definition char_in (lo hi c : ascii) : bool :=
  (N_of_ascii lo <=? N_of_ascii c)%N && (N_of_ascii c <=? N_of_ascii hi)%N.
Definition is_letter (c : ascii) : bool := char_in "a" "z" c.
Definition is_let_dig (c : ascii) : bool := is_letter c || char_in "0" "9" c.
Definition is_let_dig_hyp (c : ascii) : bool := is_let_dig c || bool_decide (c = "-"%char).
Definition is_dot (c : ascii) : Prop := c = "."%char.
#[export] Instance is_dot_dec c : Decision (is_dot c) := decide (c = "."%char).

(** [name.find_first_of('.', begin)] *)
Definition find_dot (name : list ascii) (begin : nat) : option nat :=
  match list_find is_dot (drop begin name) with
  | Some (i, _) => Some (begin + i)%nat
  | None => None
  end.

Definition char_test (name : list ascii) (i : nat) (P : ascii → bool) : bool :=
  match name !! i with Some c => P c | None => false end.

(** The [while (true)] loop over the labels, from index [begin] on. *)
Fixpoint check_labels (fuel : nat) (name : list ascii) (begin : nat) : bool :=
  match fuel with
  | O => false
  | S fuel =>
      let len := length name in
      let end_ := default len (find_dot name begin) in
      if (end_ - begin <? CHAIN_MIN_ACCOUNT_NAME_LENGTH)%nat then false
      else if negb (char_test name begin is_letter) then false
      else if negb (char_test name (end_ - 1) is_let_dig) then false
      else if negb (forallb (λ i, char_test name i is_let_dig_hyp)
                      (seq (begin + 1) (end_ - 1 - (begin + 1)))) then false
      else if (end_ =? len)%nat then true
      else check_labels fuel name (end_ + 1)
  end.

Definition is_valid_account_name (name : string) : bool :=
  let l := String.list_ascii_of_string name in
  if (length l <? CHAIN_MIN_ACCOUNT_NAME_LENGTH)%nat then false
  else if (CHAIN_MAX_ACCOUNT_NAME_LENGTH <? length l)%nat then false
  else check_labels (S (length l)) l 0.

Definition is_valid_create_account_name (name : string) : bool :=
  let len := String.length name in
  if (len <? CHAIN_CREATE_MIN_ACCOUNT_NAME_LENGTH)%nat then false
  else if (CHAIN_MAX_ACCOUNT_NAME_LENGTH <? len)%nat then false
  else true.

Definition is_valid_domain_name (name creator : string) : bool :=
  let l := String.list_ascii_of_string name in
  match find_dot l 0 with
  | None => true
  | Some begin => bool_decide (creator = String.string_of_list_ascii (drop (begin + 1) l))
  end.

(** *** The grammar *)

(** The labels between the dots. *)
Fixpoint labels (l : list ascii) : list (list ascii) :=
  match l with
  | [] => [[]]
  | c :: l =>
      if decide (is_dot c) then [] :: labels l
      else match labels l with
           | lab :: labs => (c :: lab) :: labs
           | [] => [[c]]
           end
  end.

(** A letter, then letters, digits or hyphens, then a letter or digit. *)
Definition label_ok (lab : list ascii) : Prop :=
  ∃ c mid d, lab = c :: mid ++ [d] ∧ is_letter c = true ∧
    Forall (λ x, is_let_dig_hyp x = true) mid ∧ is_let_dig d = true.

(** ** Authorities *)

Record authority := mk_authority {
  weight_threshold : Z;
  account_auths : list (string * Z);
  key_auths : list (Z * Z)
}.

#[export] Instance authority_eq_dec : EqDecision authority.
Proof. solve_decision. Defined.

Definition empty_authority : authority := mk_authority 0 [] [].

(** [m[k] = w] on a flat map, for a strict order on the keys. *)
Fixpoint flat_set_key {K} (lt : K → K → bool) (k : K) (w : Z) (m : list (K * Z)) : list (K * Z) :=
  match m with
  | [] => [(k, w)]
  | (k', w') :: m' =>
      if lt k k' then (k, w) :: m
      else if lt k' k then (k', w') :: flat_set_key lt k w m'
      else (k, w) :: m'
  end.

Definition add_authority_key (k w : Z) (a : authority) : authority :=
  mk_authority (weight_threshold a) (account_auths a) (flat_set_key Z.ltb k w (key_auths a)).
Definition add_authority_account (n : string) (w : Z) (a : authority) : authority :=
  mk_authority (weight_threshold a) (flat_set_key String.ltb n w (account_auths a)) (key_auths a).

Definition get_keys (a : authority) : list Z := (key_auths a).*1.

Definition sum_weights {K} (l : list (K * Z)) : Z := foldr (λ p acc, p.2 + acc) 0 l.

(** The weights are summed in 64 bits. *)
Definition is_impossible (a : authority) : bool :=
  u64 (sum_weights (account_auths a) + sum_weights (key_auths a)) <? weight_threshold a.

Definition num_auths (a : authority) : Z :=
  u32 (Z.of_nat (length (account_auths a) + length (key_auths a))).

(** [clear] keeps the threshold. *)
Definition clear (a : authority) : authority := mk_authority (weight_threshold a) [] [].

Definition authority_validate (a : authority) : res unit :=
  rassert (forallb (λ p, is_valid_account_name p.1) (account_auths a))
    (E_assert "is_valid_account_name(item.first)").

(** ** The scan implements the grammar *)

Lemma find_dot_None l b : find_dot l b = None ↔ Forall (λ c, ¬ is_dot c) (drop b l).
Proof.
  unfold find_dot. destruct (list_find is_dot (drop b l)) as [[i c]|] eqn:E.
  - split; [done|]. intros Hall. apply list_find_Some in E as (Hi & Hd & _).
    rewrite Forall_lookup in Hall. by destruct (Hall i c Hi).
  - apply list_find_None in E. done.
Qed.

Lemma find_dot_Some l b e :
  find_dot l b = Some e →
  (b ≤ e < length l)%nat ∧ l !! e = Some "."%char ∧
  drop b l = take (e - b) (drop b l) ++ "."%char :: drop (e + 1) l ∧
  Forall (λ c, ¬ is_dot c) (take (e - b) (drop b l)).
Proof.
  unfold find_dot. destruct (list_find is_dot (drop b l)) as [[i c]|] eqn:E; [|done].
  intros [= <-]. apply list_find_Some in E as (Hi & Hd & Hbefore). unfold is_dot in Hd. subst c.
  rewrite lookup_drop in Hi. pose proof (lookup_lt_Some _ _ _ Hi).
  replace (b + i - b)%nat with i by lia. split_and!; [lia|lia|done| |].
  - rewrite <- (take_drop i (drop b l)) at 1. f_equal. rewrite drop_drop.
    rewrite (drop_S l "."%char) by done. f_equal. f_equal. lia.
  - apply Forall_lookup. intros j c Hj. apply lookup_take_Some in Hj as [Hj ?].
    by apply (Hbefore j).
Qed.

Lemma labels_nodot l : Forall (λ c, ¬ is_dot c) l → labels l = [l].
Proof.
  induction 1 as [|c l Hc _ IH]; [done|]. cbn. rewrite decide_False by done. by rewrite IH.
Qed.

Lemma labels_app l r :
  Forall (λ c, ¬ is_dot c) l → labels (l ++ "."%char :: r) = l :: labels r.
Proof.
  induction 1 as [|c l Hc _ IH]; cbn; [done|]. rewrite decide_False by done. by rewrite IH.
Qed.

Lemma is_letter_let_dig_hyp c : is_letter c = true → is_let_dig_hyp c = true.
Proof. unfold is_let_dig_hyp, is_let_dig. by intros ->. Qed.

(** The tests on the characters of one label, [lab] being the characters from
    [b] up to [e]. *)
Lemma label_tests l b e lab :
  (b ≤ e ≤ length l)%nat → lab = take (e - b) (drop b l) →
  ((e - b <? CHAIN_MIN_ACCOUNT_NAME_LENGTH)%nat = false ∧
   char_test l b is_letter = true ∧ char_test l (e - 1) is_let_dig = true ∧
   forallb (λ i, char_test l i is_let_dig_hyp) (seq (b + 1) (e - 1 - (b + 1))) = true) ↔
  label_ok lab.
Proof.
  intros Hbe Hlab.
  assert (length lab = (e - b)%nat) as Hlen by (subst; rewrite length_take, length_drop; lia).
  assert (∀ i, (i < e - b)%nat → l !! (b + i)%nat = lab !! i) as Hat.
  { intros i Hi. subst lab. rewrite lookup_take_lt by lia. by rewrite lookup_drop. }
  unfold CHAIN_MIN_ACCOUNT_NAME_LENGTH, char_test. rewrite Nat.ltb_ge, forallb_forall. split.
  - intros (H2 & Hb & He & Hmid).
    destruct lab as [|c lab] using rev_ind; [cbn in Hlen; lia|]. clear IHlab.
    destruct lab as [|c0 mid]; [cbn in Hlen; lia|].
    rewrite length_app in Hlen. cbn in Hlen. exists c0, mid, c.
    rewrite <- (Nat.add_0_r b), Hat in Hb by lia. cbn in Hb.
    replace (e - 1)%nat with (b + S (length mid))%nat in He by lia. rewrite Hat in He by lia.
    rewrite lookup_app_r in He by (cbn; lia). cbn [length] in He. rewrite Nat.sub_diag in He.
    cbn in He.
    split_and!; [done..| |done]. apply Forall_lookup. intros i x Hi.
    pose proof (lookup_lt_Some _ _ _ Hi).
    specialize (Hmid (b + S i)%nat). rewrite in_seq in Hmid. specialize (Hmid ltac:(lia)).
    rewrite Hat in Hmid by lia. rewrite lookup_app_l in Hmid by (cbn; lia).
    change ((c0 :: mid) !! S i) with (mid !! i) in Hmid. by rewrite Hi in Hmid.
  - intros (c & mid & d & -> & Hc & Hmid & Hd). cbn in Hlen. rewrite length_app in Hlen.
    cbn in Hlen. split_and!; [lia| | |].
    + rewrite <- (Nat.add_0_r b), Hat by lia. done.
    + replace (e - 1)%nat with (b + S (length mid))%nat by lia. rewrite Hat by lia.
      change ((c :: mid ++ [d]) !! S (length mid)) with ((mid ++ [d]) !! length mid).
      rewrite lookup_app_r, Nat.sub_diag by lia. done.
    + intros i Hi%in_seq. replace i with (b + S (i - b - 1))%nat by lia. rewrite Hat by lia.
      change ((c :: mid ++ [d]) !! S (i - b - 1)) with ((mid ++ [d]) !! (i - b - 1)%nat).
      rewrite lookup_app_l by lia.
      destruct (lookup_lt_is_Some_2 mid (i - b - 1)) as [x Hx]; [lia|]. rewrite Hx.
      rewrite Forall_lookup in Hmid. by apply (Hmid _ _ Hx).
Qed.

Lemma check_labels_spec fuel l b :
  (b ≤ length l)%nat → (length l - b < fuel)%nat →
  check_labels fuel l b = true ↔ Forall label_ok (labels (drop b l)).
Proof.
  revert b. induction fuel as [|fuel IH]; intros b Hb Hf; [lia|]. cbn [check_labels].
  destruct (find_dot l b) as [e|] eqn:E; cbn [default].
  - apply find_dot_Some in E as (Hbe & Hdot & Hsplit & Hno).
    pose proof (label_tests l b e _ ltac:(lia) eq_refl) as Hlab.
    rewrite Hsplit, (labels_app _ _ Hno), Forall_cons, <- Hlab, <- IH by lia.
    destruct (_ <? _)%nat; cbn; [naive_solver|].
    destruct (char_test l b is_letter); cbn; [|naive_solver].
    destruct (char_test l (e - 1) is_let_dig); cbn; [|naive_solver].
    destruct (forallb _ _); cbn; [|naive_solver].
    destruct (Nat.eqb_spec e (length l)); [lia|]. naive_solver.
  - apply find_dot_None in E. rewrite labels_nodot, Forall_singleton by done.
    pose proof (label_tests l b (length l) (drop b l) ltac:(lia)) as Hlab.
    rewrite take_ge in Hlab by (rewrite length_drop; lia). specialize (Hlab eq_refl).
    rewrite <- Hlab, Nat.eqb_refl.
    destruct (_ <? _)%nat; cbn; [naive_solver|].
    destruct (char_test l b is_letter); cbn; [|naive_solver].
    destruct (char_test l (length l - 1) is_let_dig); cbn; [|naive_solver].
    destruct (forallb _ _); cbn; naive_solver.
Qed.

(** [is_valid_account_name] accepts exactly the names of 2
    to 32 characters whose dot-separated labels all consist of a lower-case
    letter, then letters, digits or hyphens, then a letter or a digit. *)
Theorem account_name_grammar (name : string) :
  is_valid_account_name name = true ↔
  (2 ≤ length (String.list_ascii_of_string name) ≤ 32)%nat ∧
  Forall label_ok (labels (String.list_ascii_of_string name)).
Proof.
  unfold is_valid_account_name, CHAIN_MIN_ACCOUNT_NAME_LENGTH, CHAIN_MAX_ACCOUNT_NAME_LENGTH.
  set (l := String.list_ascii_of_string name).
  destruct (Nat.ltb_spec (length l) 2); [naive_solver lia|].
  destruct (Nat.ltb_spec 32 (length l)); [naive_solver lia|].
  rewrite check_labels_spec, drop_0 by lia. naive_solver lia.
Qed.
