(* ===== verification/SignState.v ===== *)
(** * Authority checks (libraries/protocol/sign_state.cpp, transaction.cpp)

    [sign_state] decides whether the signatures of a transaction, together with
    prior approvals, satisfy an authority: keys count directly, an account
    counts when its own authority is satisfied, up to a recursion depth, and
    approvals found on the way are remembered.  The check is proved sound and
    complete against a definition without memory. *)

From stdpp Require Import gmap strings list.
From Stdlib Require Import ZArith Lia.
From S2P Require Import Prelude Authority.

Record sign_state := mk_sign_state {
  provided_signatures : gmap Z bool;
  approved_by : gmap string bool
}.
Definition eta_sign_state (s : sign_state) : sign_state :=
  {| provided_signatures := provided_signatures s; approved_by := approved_by s |}.
#[export] Instance set_provided : Setter provided_signatures :=
  ltac:(derive_setter eta_sign_state provided_signatures).
#[export] Instance set_approved : Setter approved_by :=
  ltac:(derive_setter eta_sign_state approved_by).

Definition CHAIN_MAX_SIG_CHECK_DEPTH : nat := 2.

(** The constructor: every signature unused, and the account [temp] approved. *)
Definition new_sign_state (sigs : gset Z) : sign_state :=
  mk_sign_state (gset_to_gmap false sigs) {["temp"%string := true]}.

Section sign_state.
(** The authority getter may throw for an unknown account. *)
Context (get_active : string → res authority) (available_keys : gset Z).

Definition signed_by (k : Z) : SM sign_state bool := λ s,
  match provided_signatures s !! k with
  | None =>
      if decide (k ∈ available_keys)
      then Ok (true, s <| provided_signatures ::= <[k:=true]> |>)
      else Ok (false, s)
  | Some _ => Ok (true, s <| provided_signatures ::= <[k:=true]> |>)
  end.

(** The loops return early with [None] once the threshold is reached, and the
    accumulated 32-bit weight otherwise. *)
Fixpoint check_keys (ks : list (Z * Z)) (total threshold : Z) : SM sign_state (option Z) :=
  match ks with
  | [] => sret (Some total)
  | k :: ks =>
      let* b := signed_by k.1 in
      if b : bool
      then let total := u32 (total + k.2) in
           if threshold <=? total then sret None else check_keys ks total threshold
      else check_keys ks total threshold
  end.

(** [rec] is the recursive check, absent at the maximal depth. *)
Fixpoint check_accounts (rec : option (authority → SM sign_state bool))
    (l : list (string * Z)) (total threshold : Z) : SM sign_state bool :=
  match l with
  | [] => sret (threshold <=? total)
  | a :: l =>
      let* known := sgets (λ s, approved_by s !! a.1) in
      match known with
      | Some _ =>
          let total := u32 (total + a.2) in
          if threshold <=? total then sret true else check_accounts rec l total threshold
      | None =>
          match rec with
          | None => check_accounts rec l total threshold
          | Some check =>
              let* auth := slift (get_active a.1) in
              let* b := check auth in
              if b : bool
              then
                do* supd (λ s, s <| approved_by ::= <[a.1:=true]> |>) in
                let total := u32 (total + a.2) in
                if threshold <=? total then sret true else check_accounts rec l total threshold
              else check_accounts rec l total threshold
          end
      end
  end.

(** [n] is [max_recursion - depth]. *)
Fixpoint check_authority (n : nat) (auth : authority) : SM sign_state bool :=
  let* r := check_keys (key_auths auth) 0 (weight_threshold auth) in
  match r with
  | None => sret true
  | Some total =>
      check_accounts (match n with O => None | S n => Some (check_authority n) end)
        (account_auths auth) total (weight_threshold auth)
  end.

(** [check_authority(const account_name_type&)] *)
Definition check_authority_id (n : nat) (id : string) : SM sign_state bool := λ s,
  match approved_by s !! id with
  | Some _ => Ok (true, s <| approved_by ::= <[id:=true]> |>)
  | None => (let* auth := slift (get_active id) in check_authority n auth) s
  end.

Definition unused_signatures (s : sign_state) : gset Z :=
  dom (filter (λ p, p.2 = false) (provided_signatures s)).
Definition used_signatures (s : sign_state) : gset Z :=
  dom (filter (λ p, p.2 = true) (provided_signatures s)).
(** The unused signatures, which are dropped. *)
Definition remove_unused_signatures : SM sign_state (gset Z) := λ s,
  Ok (unused_signatures s,
      s <| provided_signatures := filter (λ p, p.2 = true) (provided_signatures s) |>).
Definition filter_unused_approvals : SM sign_state (gset string) := λ s,
  Ok (dom (filter (λ p, p.2 = false) (approved_by s)), s).
End sign_state.

Definition assert_unused_approvals : SM sign_state unit :=
  let* sigs := remove_unused_signatures in
  do* slift (rassert (bool_decide (sigs = ∅)) (E_tx_irrelevant_sig (elements sigs))) in
  let* apps := filter_unused_approvals in
  slift (rassert (bool_decide (apps = ∅)) (E_tx_irrelevant_approval (elements apps))).

(** [s.approved_by[id] = false] for every given approval. *)
Definition approve_all (ids : list string) : SM sign_state unit :=
  sfor ids (λ id, supd (λ s, s <| approved_by ::= <[id:=false]> |>)).

(** [missing_accounts], for a test of each required account. *)
Fixpoint collect_missing {A} (ids : list A) (test : A → SM sign_state bool)
    : SM sign_state (list A) :=
  match ids with
  | [] => sret []
  | id :: ids =>
      let* b := test id in
      let* rest := collect_missing ids test in
      sret (if b : bool then rest else id :: rest)
  end.

(** [CHAIN_CTOR_ASSERT(missing_accounts.empty(), ...)]: the error tells who is
    missing and which signatures were used. *)
Definition assert_missing (which : string) (missing : list string) : SM sign_state unit :=
  let* used := sgets used_signatures in
  slift (rassert (bool_decide (missing = [])) (E_tx_missing which missing (elements used))).

(** [!a && !b] on tests, negated: the second test runs when the first fails. *)
Definition or_else (a b : SM sign_state bool) : SM sign_state bool :=
  let* x := a in if x : bool then sret true else b.

(** The authorities the operations of a transaction require. *)
Record required_auths := mk_required {
  required_active : list string;
  required_master : list string;
  required_regular : list string;
  other_auths : list authority
}.

Section verify.
Context (get_active get_master get_regular : string → res authority).

Definition verify_regular (n : nat) (ids regular_approvals : list string) : SM sign_state unit :=
  do* approve_all regular_approvals in
  let* missing := collect_missing ids (λ id,
    or_else (check_authority_id get_regular ∅ n id)
      (or_else (let* a := slift (get_active id) in check_authority get_regular ∅ n a)
               (let* a := slift (get_master id) in check_authority get_regular ∅ n a))) in
  do* assert_missing "regular" missing in
  assert_unused_approvals.

Definition verify_active (n : nat) (req : required_auths)
    (active_approvals master_approvals : list string) : SM sign_state unit :=
  do* approve_all active_approvals in
  do* approve_all master_approvals in
  let* missing := collect_missing (other_auths req) (check_authority get_active ∅ n) in
  do* slift (rassert (bool_decide (missing = [])) (E_tx_missing "other" [] [])) in
  let* missing := collect_missing (required_active req) (λ id,
    or_else (check_authority_id get_active ∅ n id)
      (let* a := slift (get_master id) in check_authority get_active ∅ n a)) in
  do* assert_missing "active" missing in
  let* missing := collect_missing (required_master req) (λ id,
    let* b := (if bool_decide (id ∈ master_approvals) then sret true
               else let* a := slift (get_master id) in check_authority get_active ∅ n a) in
    if b : bool
    then do* supd (λ s, s <| approved_by ::= <[id:=true]> |>) in sret true
    else sret false) in
  do* assert_missing "master" missing in
  assert_unused_approvals.

Definition verify_authority (req : required_auths) (sigs : gset Z) (max_recursion : nat)
    (active_approvals master_approvals regular_approvals : list string) : res unit :=
  let? r :=
    match required_regular req with
    | [] => verify_active max_recursion req active_approvals master_approvals (new_sign_state sigs)
    | ids =>
        do? rassert (bool_decide (required_active req = [])) (E_assert "required_active.size() == 0") in
        do? rassert (bool_decide (required_master req = [])) (E_assert "required_master.size() == 0") in
        do? rassert (bool_decide (length (other_auths req) = 0%nat)) (E_assert "other.size() == 0") in
        verify_regular max_recursion ids regular_approvals (new_sign_state sigs)
    end in
  Ok r.1.
End verify.

(** ** Specification: satisfaction without memory *)

Definition weight_in {K} `{Countable K} (S : gset K) (l : list (K * Z)) : Z :=
  foldr (λ p acc, (if decide (p.1 ∈ S) then p.2 else 0) + acc) 0 l.

Definition weights_ok (a : authority) : Prop :=
  Forall (λ p, 0 ≤ p.2) (key_auths a) ∧ Forall (λ p, 0 ≤ p.2) (account_auths a) ∧
  sum_weights (key_auths a) + sum_weights (account_auths a) < 2 ^ 32.

Section spec.
Context (get : string → res authority) (keys : gset Z) (pre : gset string).

(** An account approves when it is approved beforehand, or when keys and
    approving accounts reach the threshold of its authority. *)
Inductive approves : string → Prop :=
| approves_pre a : a ∈ pre → approves a
| approves_auth a auth (A : gset string) :
    get a = Ok auth → (∀ x, x ∈ A → approves x) →
    weight_threshold auth ≤ weight_in keys (key_auths auth) + weight_in A (account_auths auth) →
    approves a.

Definition satisfied (auth : authority) : Prop :=
  ∃ A : gset string, (∀ x, x ∈ A → approves x) ∧
    weight_threshold auth ≤ weight_in keys (key_auths auth) + weight_in A (account_auths auth).

(** Satisfaction by chains of at most [n] accounts, computed directly. *)
Fixpoint satisfied_within (n : nat) (auth : authority) : bool :=
  weight_threshold auth <=?
    weight_in keys (key_auths auth) +
    foldr (λ p acc,
      (if decide (p.1 ∈ pre) then p.2
       else match n with
            | O => 0
            | S n => match get p.1 with
                     | Ok b => if satisfied_within n b then p.2 else 0
                     | Err _ => 0
                     end
            end) + acc) 0 (account_auths auth).
End spec.

(** ** Soundness and completeness of the check *)

Lemma weight_in_range {K} `{Countable K} (S : gset K) l :
  Forall (λ p, 0 ≤ p.2) l → 0 ≤ weight_in S l ≤ sum_weights l.
Proof.
  unfold weight_in, sum_weights. induction 1 as [|[k w] l Hw _ IH]; cbn in *; [done|].
  destruct (decide (k ∈ S)); lia.
Qed.

Lemma weight_in_mono {K} `{Countable K} (S T : gset K) l :
  Forall (λ p, 0 ≤ p.2) l → S ⊆ T → weight_in S l ≤ weight_in T l.
Proof.
  unfold weight_in. intros Hl HST. induction Hl as [|[k w] l Hw _ IH]; cbn in *; [done|].
  destruct (decide (k ∈ S)), (decide (k ∈ T)); [lia|set_solver|lia|lia].
Qed.

Lemma u32_le x : 0 ≤ x → 0 ≤ u32 x ≤ x.
Proof.
  intros Hx. unfold u32. split; [by apply Z.mod_pos_bound|]. by apply Z.mod_le.
Qed.

Lemma u32_small x : 0 ≤ x < 2 ^ 32 → u32 x = x.
Proof. intros. unfold u32. by apply Z.mod_small. Qed.

Section soundness.
Context (get : string → res authority) (avail keys : gset Z) (pre : gset string).

(** The signatures never change what counts as signed, and every remembered
    approval is a real one. *)
Record state_ok (s : sign_state) : Prop := {
  ok_keys : ∀ k, k ∈ keys ↔ is_Some (provided_signatures s !! k) ∨ k ∈ avail;
  ok_approved : ∀ a, is_Some (approved_by s !! a) → approves get keys pre a;
  ok_pre : ∀ a, a ∈ pre → is_Some (approved_by s !! a)
}.

Lemma state_ok_signed s k :
  state_ok s → k ∈ keys → state_ok (s <| provided_signatures ::= <[k:=true]> |>).
Proof.
  intros [Hk Ha Hp] Hin. split; [|done..]. intros k'. cbn. rewrite lookup_insert_is_Some', Hk.
  split; [naive_solver|]. intros [[<-|?]|?]; [by apply Hk|tauto..].
Qed.

Lemma state_ok_approved s a b :
  state_ok s → approves get keys pre a → state_ok (s <| approved_by ::= <[a:=b]> |>).
Proof.
  intros [Hk Ha Hp] Hin. split; [done|cbn..].
  - intros a' [<-|?]%lookup_insert_is_Some'; auto.
  - intros a' ?. apply lookup_insert_is_Some'. auto.
Qed.

Lemma signed_by_spec s k :
  state_ok s →
  ∃ s', signed_by avail k s = Ok (bool_decide (k ∈ keys), s') ∧ state_ok s'.
Proof.
  intros Hs. unfold signed_by. destruct (provided_signatures s !! k) as [b|] eqn:E.
  - assert (k ∈ keys) by (apply (ok_keys s Hs); rewrite E; eauto).
    rewrite bool_decide_true by done. eauto using state_ok_signed.
  - destruct (decide (k ∈ avail)).
    + assert (k ∈ keys) by (apply (ok_keys s Hs); auto).
      rewrite bool_decide_true by done. eauto using state_ok_signed.
    + rewrite bool_decide_false; [eauto|]. intros [[? Hb]|?]%(ok_keys s Hs); congruence.
Qed.

(** Outcome of a loop that has counted [total]: an early return or the final
    test is right for the counted weight, which never exceeds the true one. *)
Lemma check_keys_spec ks total thr s :
  state_ok s → Forall (λ p, 0 ≤ p.2) ks → 0 ≤ total →
  ∃ r s', check_keys avail ks total thr s = Ok (r, s') ∧ state_ok s' ∧
    match r with
    | None => thr ≤ total + weight_in keys ks
    | Some t => 0 ≤ t ≤ total + weight_in keys ks ∧
                (total + sum_weights ks < 2 ^ 32 → t = total + weight_in keys ks)
    end.
Proof.
  intros Hs Hks Ht. revert s total Hs Ht.
  induction Hks as [|[k w] ks Hw Hks IH]; intros s total Hs Ht; cbn [check_keys].
  { eexists _, _. split; [done|]. cbn. split; [done|lia]. }
  destruct (signed_by_spec s k Hs) as (s1 & E & Hs1). unfold sbind. cbn [fst snd]. rewrite E.
  pose proof (weight_in_range keys ks Hks). cbn [weight_in foldr sum_weights fst snd] in *.
  fold (weight_in keys ks) in *. fold (sum_weights ks) in *.
  case_bool_decide.
  - rewrite decide_True by done. pose proof (u32_le (total + w) ltac:(lia)).
    destruct (Z.leb_spec thr (u32 (total + w))).
    + eexists _, _. split; [done|]. split; [done|lia].
    + destruct (IH s1 (u32 (total + w)) Hs1 ltac:(lia)) as (r & s2 & -> & Hs2 & Hr).
      eexists _, _. split; [done|]. split; [done|]. destruct r as [t|]; [|lia].
      destruct Hr as [? Hr]. split; [lia|]. intros. rewrite u32_small in Hr by lia. lia.
  - rewrite decide_False by done.
    destruct (IH s1 total Hs1 Ht) as (r & s2 & -> & Hs2 & Hr).
    eexists _, _. split; [done|]. split; [done|]. destruct r as [t|]; [|lia].
    destruct Hr as [? Hr]. split; [lia|]. lia.
Qed.

Definition within_sum (n : nat) (l : list (string * Z)) : Z :=
  foldr (λ p acc,
    (if decide (p.1 ∈ pre) then p.2
     else match n with
          | O => 0
          | S n => match get p.1 with
                   | Ok b => if satisfied_within get keys pre n b then p.2 else 0
                   | Err _ => 0
                   end
          end) + acc) 0 l.

Lemma satisfied_within_eq n auth :
  satisfied_within get keys pre n auth =
  (weight_threshold auth <=? weight_in keys (key_auths auth) + within_sum n (account_auths auth)).
Proof. by destruct n. Qed.

(** What the recursive check has to guarantee at depth [n]. *)
Definition check_spec (n : nat) (check : authority → SM sign_state bool) : Prop :=
  ∀ auth s, state_ok s → weights_ok auth →
    match check auth s with
    | Ok (b, s') =>
        state_ok s' ∧ (b = true → satisfied get keys pre auth) ∧
        (satisfied_within get keys pre n auth = true → b = true)
    | Err e => ∃ a, get a = Err e
    end.

Definition rec_spec (n : nat) (rec : option (authority → SM sign_state bool)) : Prop :=
  match rec with
  | None => n = O
  | Some check => ∃ m, n = S m ∧ check_spec m check
  end.

Ltac destruct_loop :=
  match goal with
  | |- context [(if ?b then ?p else ?q) ?s] =>
      destruct ((if b then p else q) s) as [[? ?]|]
  end.

Lemma check_accounts_spec n rec l total thr s :
  rec_spec n rec → (∀ a b, get a = Ok b → weights_ok b) →
  state_ok s → Forall (λ p, 0 ≤ p.2) l → 0 ≤ total →
  match check_accounts get rec l total thr s with
  | Ok (b, s') =>
      state_ok s' ∧
      (b = true → ∃ A, (∀ x, x ∈ A → approves get keys pre x) ∧ thr ≤ total + weight_in A l) ∧
      (total + sum_weights l < 2 ^ 32 → thr ≤ total + within_sum n l → b = true)
  | Err e => ∃ a, get a = Err e
  end.
Proof.
  intros Hrec Hget Hs Hl Ht. revert s total Hs Ht.
  induction Hl as [|[a w] l Hw Hl IH]; intros s total Hs Ht; cbn [check_accounts].
  { cbn. split; [done|]. split; [|lia]. intros ?%Z.leb_le. exists ∅. split; [set_solver|lia]. }
  unfold sbind, sgets. cbn [fst snd sum_weights foldr within_sum] in *.
  fold (sum_weights l) in *. fold (within_sum n l).
  (* counting [a] when it approves *)
  assert (∀ s', state_ok s' → approves get keys pre a →
    match (if thr <=? u32 (total + w) then sret true
           else check_accounts get rec l (u32 (total + w)) thr) s' with
    | Ok (b, s2) =>
        state_ok s2 ∧
        (b = true → ∃ A, (∀ x, x ∈ A → approves get keys pre x) ∧
           thr ≤ total + weight_in A ((a, w) :: l)) ∧
        (total + (w + sum_weights l) < 2 ^ 32 → ∀ c, c ≤ w → thr ≤ total + (c + within_sum n l) → b = true)
    | Err e => ∃ a, get a = Err e
    end) as Hcount.
  { intros s' Hs' Ha. pose proof (u32_le (total + w) ltac:(lia)).
    destruct (Z.leb_spec thr (u32 (total + w))); cbn.
    - split; [done|]. split; [|done]. intros _. exists {[a]}.
      split; [by intros x ->%elem_of_singleton|].
      rewrite decide_True by set_solver. pose proof (weight_in_range {[a]} l Hl). unfold weight_in in *. lia.
    - specialize (IH s' (u32 (total + w)) Hs' ltac:(lia)).
      destruct (check_accounts _ _ _ _ _ _) as [[b s2]|]; [|done].
      destruct IH as (? & Hsnd & Hcmp). split; [done|]. split.
      + intros Hb. destruct (Hsnd Hb) as (A & HA & Hle). exists (A ∪ {[a]}).
        split; [set_solver|]. rewrite decide_True by set_solver.
        pose proof (weight_in_mono A (A ∪ {[a]}) l Hl ltac:(set_solver)). unfold weight_in in *. lia.
      + intros Hlt c Hc Hle. pose proof (weight_in_range (∅ : gset string) l Hl).
        rewrite u32_small in Hcmp by lia. apply Hcmp; lia. }
  (* not counting it *)
  assert (∀ s', state_ok s' →
    match check_accounts get rec l total thr s' with
    | Ok (b, s2) =>
        state_ok s2 ∧
        (b = true → ∃ A, (∀ x, x ∈ A → approves get keys pre x) ∧
           thr ≤ total + weight_in A ((a, w) :: l)) ∧
        (total + (w + sum_weights l) < 2 ^ 32 → thr ≤ total + (0 + within_sum n l) → b = true)
    | Err e => ∃ a, get a = Err e
    end) as Hskip.
  { intros s' Hs'. specialize (IH s' total Hs' Ht).
    destruct (check_accounts _ _ _ _ _ _) as [[b s2]|]; [|done].
    destruct IH as (? & Hsnd & Hcmp). split; [done|]. split; [|intros; apply Hcmp; lia].
    intros Hb. destruct (Hsnd Hb) as (A & HA & Hle). exists A. split; [done|]. cbn.
    case_decide; cbn; unfold weight_in in *; lia. }
  destruct (approved_by s !! a) as [b0|] eqn:Eapp.
  { specialize (Hcount s Hs (ok_approved s Hs a ltac:(by rewrite Eapp))).
    destruct_loop. 2:{ done. } destruct Hcount as (? & ? & Hc).
    split; [done|]. split; [done|]. intros Hlt. apply (Hc Hlt). repeat case_match; lia. }
  assert (a ∉ pre) as Hpre.
  { intros Hin. apply (ok_pre s Hs) in Hin as [? ?]. congruence. }
  rewrite decide_False by done.
  destruct rec as [check|]; cbn in Hrec.
  2:{ subst n. apply Hskip, Hs. }
  destruct Hrec as (m & -> & Hcheck). unfold slift.
  destruct (get a) as [auth|e] eqn:Eget; [|eauto].
  pose proof (Hcheck auth s Hs (Hget a auth Eget)) as Hc.
  destruct (check auth s) as [[b1 s1]|e]; [|done]. destruct Hc as (Hs1 & Hsnd & Hcmp).
  destruct b1.
  - destruct (Hsnd eq_refl) as (A & HA & Hle).
    assert (approves get keys pre a) as Ha by by eapply approves_auth.
    specialize (Hcount _ (state_ok_approved s1 a true Hs1 Ha) Ha).
    unfold supd. cbn beta iota. destruct_loop. 2:{ done. }
    destruct Hcount as (? & ? & Hc). split; [done|]. split; [done|].
    intros Hlt. apply (Hc Hlt). case_match; lia.
  - specialize (Hskip s1 Hs1). destruct (check_accounts _ _ _ _ _ s1) as [[b2 s2]|]; [|done].
    destruct (satisfied_within _ _ _ m auth); [by specialize (Hcmp eq_refl)|]. done.
Qed.

Lemma check_authority_spec n :
  (∀ a b, get a = Ok b → weights_ok b) → check_spec n (check_authority get avail n).
Proof.
  intros Hget. induction n as [|n IH]; intros auth s Hs (Hk & Ha & Hsum); cbn [check_authority].
  all: destruct (check_keys_spec (key_auths auth) 0 (weight_threshold auth) s Hs Hk ltac:(lia))
    as (r & s1 & E & Hs1 & Hr); unfold sbind; rewrite E.
  all: pose proof (weight_in_range keys (key_auths auth) Hk).
  all: pose proof (weight_in_range (∅ : gset string) (account_auths auth) Ha).
  all: destruct r as [t|];
    [|split; [done|]; split; [|done]; intros _; exists ∅; split; [set_solver|lia]].
  - pose proof (check_accounts_spec 0 None (account_auths auth) t (weight_threshold auth) s1
      eq_refl Hget Hs1 Ha ltac:(lia)) as Hc.
    destruct (check_accounts _ _ _ _ _ _) as [[b s2]|]; [|done].
    destruct Hc as (? & Hsnd & Hcmp). split; [done|]. split.
    + intros Hb. destruct (Hsnd Hb) as (A & HA & ?). exists A. split; [done|lia].
    + rewrite satisfied_within_eq, Z.leb_le. intros. apply Hcmp; lia.
  - pose proof (check_accounts_spec (S n) (Some (check_authority get avail n)) (account_auths auth) t
      (weight_threshold auth) s1 ltac:(by exists n) Hget Hs1 Ha ltac:(lia)) as Hc.
    destruct (check_accounts _ _ _ _ _ _) as [[b s2]|]; [|done].
    destruct Hc as (? & Hsnd & Hcmp). split; [done|]. split.
    + intros Hb. destruct (Hsnd Hb) as (A & HA & ?). exists A. split; [done|lia].
    + rewrite satisfied_within_eq, Z.leb_le. intros. apply Hcmp; lia.
Qed.
End soundness.

(** ** How far the check looks *)

(** The accounts whose authorities are asked for: those of chains of at most [n]
    accounts. *)
Fixpoint asked (get : string → res authority) (n : nat) (auth : authority) : list string :=
  match n with
  | O => []
  | S n => account_auths auth ≫= λ p,
      p.1 :: match get p.1 with Ok b => asked get n b | Err _ => [] end
  end.

Lemma asked_head get n auth p : p ∈ account_auths auth → p.1 ∈ asked get (S n) auth.
Proof. intros Hp. cbn. apply list_elem_of_bind. exists p. split; [left|done]. Qed.
Lemma asked_deeper get n auth p b a :
  p ∈ account_auths auth → get p.1 = Ok b → a ∈ asked get n b → a ∈ asked get (S n) auth.
Proof. intros Hp Hg Ha. cbn. apply list_elem_of_bind. exists p. rewrite Hg. split; [by right|done]. Qed.

Section locality.
Context (avail : gset Z) (get : string → res authority).

(** The loop over the accounts depends on the getter at them alone. *)
Lemma check_accounts_local get' rec rec' l total thr s :
  match rec, rec' with
  | Some c, Some c' => ∀ p, p ∈ l → get' p.1 = get p.1 ∧ ∀ b, get p.1 = Ok b → ∀ s, c' b s = c b s
  | None, None => True
  | _, _ => False
  end →
  check_accounts get' rec' l total thr s = check_accounts get rec l total thr s.
Proof.
  revert total s. induction l as [|p l IH]; intros total s Hr; [done|].
  assert (∀ total s, check_accounts get' rec' l total thr s = check_accounts get rec l total thr s) as Hl.
  { intros t s'. apply IH. destruct rec, rec'; try done. intros q Hq. apply Hr. by right. }
  cbn [check_accounts]. unfold sbind, sgets. destruct (approved_by s !! p.1) as [b|].
  { destruct (_ <=? _); [done|apply Hl]. }
  destruct rec as [c|], rec' as [c'|]; [|done..].
  destruct (Hr p) as [Hg Hc]; [by left|]. unfold slift. rewrite Hg.
  destruct (get p.1) as [auth|e]; [|done]. rewrite (Hc auth eq_refl).
  destruct (c auth s) as [[[] s']|e]; [|apply Hl|done]. unfold supd. cbn beta iota.
  destruct (_ <=? _); [done|apply Hl].
Qed.

Lemma check_authority_local get' n auth s :
  (∀ a, a ∈ asked get n auth → get' a = get a) →
  check_authority get' avail n auth s = check_authority get avail n auth s.
Proof.
  revert auth s. induction n as [|n IH]; intros auth s Ha; cbn [check_authority]; unfold sbind;
    (destruct (check_keys _ _ _ _ s) as [[[t|] s1]|e]; [|done..]); apply check_accounts_local; try done.
  intros p Hp. split; [by apply Ha, asked_head|]. intros b Hb s'. apply IH. intros a Hin.
  by eapply Ha, asked_deeper.
Qed.

Lemma check_keys_no_error ks total thr s e : check_keys avail ks total thr s ≠ Err e.
Proof.
  revert total s. induction ks as [|k ks IH]; intros total s; cbn [check_keys]; [done|].
  unfold sbind, signed_by. destruct (_ !! _); [|destruct (decide _)]; cbn; repeat case_match; first [done|apply IH].
Qed.

Lemma check_accounts_error rec l total thr s e :
  check_accounts get rec l total thr s = Err e →
  ∃ c p, rec = Some c ∧ p ∈ l ∧ (get p.1 = Err e ∨ ∃ b s', get p.1 = Ok b ∧ c b s' = Err e).
Proof.
  revert total s. induction l as [|p l IH]; intros total s; [done|].
  assert (∀ total s, check_accounts get rec l total thr s = Err e → ∃ c q, rec = Some c ∧ q ∈ p :: l ∧
    (get q.1 = Err e ∨ ∃ b s', get q.1 = Ok b ∧ c b s' = Err e)) as Hl.
  { intros t s' (c & q & ? & ? & ?)%IH. exists c, q. split_and!; [done|by right|done]. }
  cbn [check_accounts]. unfold sbind, sgets. destruct (approved_by s !! p.1) as [b|].
  { destruct (_ <=? _); [done|apply Hl]. }
  destruct rec as [c|]; [|apply Hl]. unfold slift. destruct (get p.1) as [auth|e'] eqn:Hg.
  2:{ intros [= ->]. exists c, p. split_and!; [done|by left|by left]. }
  destruct (c auth s) as [[[] s']|e'] eqn:Hc; [|apply Hl|].
  - unfold supd. cbn beta iota. destruct (_ <=? _); [done|apply Hl].
  - intros [= ->]. exists c, p. split_and!; [done|by left|right; by exists auth, s].
Qed.

Lemma check_authority_error n auth s e :
  check_authority get avail n auth s = Err e → ∃ a, a ∈ asked get n auth ∧ get a = Err e.
Proof.
  revert auth s. induction n as [|n IH]; intros auth s H; cbn [check_authority] in H; unfold sbind in H;
    (destruct (check_keys _ _ _ _ s) as [[[t|] s1]|e'] eqn:Ek; [|done|by apply check_keys_no_error in Ek]);
    apply check_accounts_error in H as (c & p & Hc & Hp & H); try done.
  injection Hc as <-. destruct H as [Hg|(b & s' & Hg & H)].
  - exists p.1. split; [by apply asked_head|done].
  - apply IH in H as (a & Ha & He). exists a. split; [by eapply asked_deeper|done].
Qed.
End locality.

(** ** Verification of a transaction *)

Lemma approves_mono get keys pre pre' a :
  pre ⊆ pre' → approves get keys pre a → approves get keys pre' a.
Proof.
  intros Hsub. induction 1 as [a Ha|a auth A Hget HA IH Hle].
  - apply approves_pre. set_solver.
  - by eapply approves_auth.
Qed.

Lemma state_ok_more get avail keys pre s id :
  state_ok get avail keys pre s →
  state_ok get avail keys (pre ∪ {[id]}) (s <| approved_by ::= <[id:=true]> |>).
Proof.
  intros [Hk Ha Hp]. split; [done|cbn..].
  - intros a [<-|Hs]%lookup_insert_is_Some'.
    + apply approves_pre. set_solver.
    + eapply approves_mono; [|by apply Ha]. set_solver.
  - intros a Hin. apply lookup_insert_is_Some'.
    apply elem_of_union in Hin as [?|Hin]; [auto|]. apply elem_of_singleton in Hin. auto.
Qed.

Lemma approve_all_spec get keys ids pre s u s' :
  state_ok get ∅ keys pre s → approve_all ids s = Ok (u, s') →
  state_ok get ∅ keys (pre ∪ list_to_set ids) s'.
Proof.
  unfold approve_all. revert pre s.
  induction ids as [|id ids IH]; intros pre s [Hk Ha Hp] H; cbn [sfor] in H; inv_ok.
  - cbn. rewrite union_empty_r_L. by split.
  - replace (pre ∪ list_to_set (id :: ids)) with ((pre ∪ {[id]}) ∪ list_to_set ids : gset string)
      by set_solver.
    eapply IH; [|done]. split; [done|cbn..].
    + intros a [<-|Hs]%lookup_insert_is_Some'; [apply approves_pre; set_solver|].
      eapply approves_mono; [|by apply Ha]. set_solver.
    + intros a Hin. apply lookup_insert_is_Some'.
      apply elem_of_union in Hin as [?|Hin]; [auto|]. apply elem_of_singleton in Hin. auto.
Qed.

Lemma collect_missing_spec {A} (I : sign_state → Prop) (P : A → Prop) test ids s s' :
  (∀ id s b s', id ∈ ids → I s → test id s = Ok (b, s') → I s' ∧ (b = true → P id)) →
  I s → collect_missing ids test s = Ok ([], s') → I s' ∧ ∀ id, id ∈ ids → P id.
Proof.
  revert s. induction ids as [|id ids IH]; intros s Htest HI H; cbn [collect_missing] in H.
  { inv_ok. split; [done|]. by intros id ?%elem_of_nil. }
  apply sbind_Ok in H as (b & s1 & H1 & H). apply sbind_Ok in H as (rest & s2 & H2 & H).
  apply sret_Ok in H. injection H as Hrest ->.
  destruct (Htest id s b s1) as [HI1 HP]; [by left|done..|].
  destruct b; [|done]. subst rest. destruct (IH s1) as [HI2 Hall]; [|done..|].
  { intros id' ? ? ? Hin. apply Htest. by right. }
  split; [done|]. intros id' [->|?]%elem_of_cons; auto.
Qed.

(** The approvals every check starts from. *)
Definition preapproved (ids : list string) : gset string := {["temp"%string]} ∪ list_to_set ids.

(** [id] signs by the authority [get] gives it, as judged with [rec]. *)
Definition signs (rec get : string → res authority) sigs pre id : Prop :=
  ∃ auth, get id = Ok auth ∧ satisfied rec sigs pre auth.

Lemma new_state_ok get sigs : state_ok get ∅ sigs {["temp"%string]} (new_sign_state sigs).
Proof.
  split; cbn.
  - intros k. rewrite lookup_gset_to_gmap, option_guard_bool_decide.
    case_bool_decide; split; try set_solver; eauto.
  - intros a [? [<- _]%lookup_singleton_Some]. apply approves_pre. set_solver.
  - intros a ->%elem_of_singleton. by rewrite lookup_singleton_eq.
Qed.

Lemma check_auth_Ok rec n pre sigs auth s b s' :
  (∀ a b, rec a = Ok b → weights_ok b) → weights_ok auth → state_ok rec ∅ sigs pre s →
  check_authority rec ∅ n auth s = Ok (b, s') →
  state_ok rec ∅ sigs pre s' ∧ (b = true → satisfied rec sigs pre auth).
Proof.
  intros Hrec Hw Hs H. pose proof (check_authority_spec rec ∅ sigs pre n Hrec auth s Hs Hw) as Hc.
  rewrite H in Hc. tauto.
Qed.

Lemma check_get_Ok rec get n pre sigs id s b s' :
  (∀ a b, rec a = Ok b → weights_ok b) → (∀ a b, get a = Ok b → weights_ok b) →
  state_ok rec ∅ sigs pre s →
  (let* a := slift (get id) in check_authority rec ∅ n a) s = Ok (b, s') →
  state_ok rec ∅ sigs pre s' ∧ (b = true → signs rec get sigs pre id).
Proof.
  intros Hrec Hget Hs H. apply sbind_Ok in H as (auth & s1 & H1 & H).
  apply slift_Ok in H1 as (? & Hg & [= <- ->]).
  destruct (check_auth_Ok rec n pre sigs auth s b s' Hrec (Hget _ _ Hg) Hs H) as [? Hb].
  split; [done|]. intros Ht. exists auth. auto.
Qed.

Lemma check_id_Ok rec n pre sigs id s b s' :
  (∀ a b, rec a = Ok b → weights_ok b) → state_ok rec ∅ sigs pre s →
  check_authority_id rec ∅ n id s = Ok (b, s') →
  state_ok rec ∅ sigs pre s' ∧ (b = true → approves rec sigs pre id).
Proof.
  intros Hrec Hs H. unfold check_authority_id in H. destruct (approved_by s !! id) eqn:E.
  - inv_ok. assert (approves rec sigs pre id) by (apply (ok_approved _ _ _ _ s Hs); by rewrite E).
    split; [by apply state_ok_approved|done].
  - destruct (check_get_Ok rec rec n pre sigs id s b s' Hrec Hrec Hs H) as [? Hb]. split; [done|].
    intros Ht. destruct (Hb Ht) as (auth & Hget & A & HA & Hle). by eapply approves_auth.
Qed.

Lemma or_else_Ok (I : sign_state → Prop) (P Q : Prop) a b s r s' :
  (∀ x s', a s = Ok (x, s') → I s' ∧ (x = true → P)) →
  (∀ s x s', I s → b s = Ok (x, s') → I s' ∧ (x = true → Q)) →
  or_else a b s = Ok (r, s') → I s' ∧ (r = true → P ∨ Q).
Proof.
  intros Ha Hb H. unfold or_else in H. apply sbind_Ok in H as (x & s1 & H1 & H).
  destruct (Ha x s1 H1) as [HI HP]. destruct x.
  - apply sret_Ok in H as [= -> ->]. auto.
  - destruct (Hb s1 r s' HI H). split; [done|]. auto.
Qed.

Lemma master_loop_Ok get_active get_master n sigs pre (ma ids : list string) s s' :
  (∀ a b, get_active a = Ok b → weights_ok b) → (∀ a b, get_master a = Ok b → weights_ok b) →
  state_ok get_active ∅ sigs pre s →
  collect_missing ids (λ id,
    let* b := (if bool_decide (id ∈ ma) then sret true
               else let* a := slift (get_master id) in check_authority get_active ∅ n a) in
    if b : bool
    then do* supd (λ s, s <| approved_by ::= <[id:=true]> |>) in sret true
    else sret false) s = Ok ([], s') →
  ∀ l1 id l2, ids = l1 ++ id :: l2 →
    id ∈ ma ∨ signs get_active get_master sigs (pre ∪ list_to_set l1) id.
Proof.
  intros Hactive Hmaster. revert pre s.
  induction ids as [|x ids IH]; intros pre s Hs H l1 id l2 E.
  { by destruct l1. }
  cbn [collect_missing] in H. apply sbind_Ok in H as (b & s1 & H1 & H).
  apply sbind_Ok in H as (rest & s2 & H2 & H). apply sret_Ok in H. injection H as Hrest ->.
  destruct b; [|done]. subst rest. apply sbind_Ok in H1 as (b & s0 & H0 & H1).
  assert (state_ok get_active ∅ sigs pre s0 ∧ (b = true → x ∈ ma ∨ signs get_active get_master sigs pre x))
    as [Hs0 Hx].
  { case_bool_decide; [inv_ok; auto|].
    edestruct (check_get_Ok get_active get_master n pre sigs x s b s0) as [? Hb]; auto. }
  clear H0. destruct b; inv_ok.
  destruct l1 as [|y l1]; cbn in E; injection E as -> ->.
  - cbn. rewrite union_empty_r_L. auto.
  - cbn. rewrite (assoc_L (∪)). eapply IH; [by eapply state_ok_more|done|done].
Qed.
(** ** Theorems *)

(** C37 (refinement).  From a state whose remembered approvals are real, the
    check of an authority keeps them real.  A positive answer means that keys
    and approving accounts reach the threshold, through chains of any length
    since approvals are remembered (so neither memory nor 32-bit wrap-around
    grants authority); and the answer is positive whenever chains of at most the
    allowed depth reach it.  The check looks no further than that: answer and
    state depend only on the authorities of the accounts of such chains, and it
    fails only when the getter fails for one of them. *)
Theorem check_authority_correct get avail keys pre n auth s :
  (∀ a b, get a = Ok b → weights_ok b) → weights_ok auth → state_ok get avail keys pre s →
  match check_authority get avail n auth s with
  | Ok (b, s') =>
      state_ok get avail keys pre s' ∧
      (b = true → satisfied get keys pre auth) ∧
      (satisfied_within get keys pre n auth = true → b = true)
  | Err e => ∃ a, a ∈ asked get n auth ∧ get a = Err e
  end ∧
  (∀ get', (∀ a, a ∈ asked get n auth → get' a = get a) →
     check_authority get' avail n auth s = check_authority get avail n auth s).
Proof.
  intros Hget Hw Hs. split; [|intros get'; apply check_authority_local].
  pose proof (check_authority_spec get avail keys pre n Hget auth s Hs Hw) as H.
  destruct (check_authority get avail n auth s) as [[b s']|e] eqn:E; [done|]. by eapply check_authority_error.
Qed.

(** C38 (safety).  A transaction that passes [verify_authority] has what it
    needs: in the regular case every required account signs by its regular,
    active or master authority; otherwise every other required authority is
    satisfied, every required active account signs by its active or master
    authority, and every required master account by its master authority,
    prior approvals counting as signatures.  Regular authorities are never
    combined with stronger ones. *)
Theorem verify_authority_sound get_active get_master get_regular req sigs n aa ma ra :
  (∀ a b, get_active a = Ok b → weights_ok b) → (∀ a b, get_master a = Ok b → weights_ok b) →
  (∀ a b, get_regular a = Ok b → weights_ok b) → Forall weights_ok (other_auths req) →
  verify_authority get_active get_master get_regular req sigs n aa ma ra = Ok tt →
  match required_regular req with
  | [] =>
      let pre := preapproved aa ∪ list_to_set ma in
      (∀ auth, auth ∈ other_auths req → satisfied get_active sigs pre auth) ∧
      (∀ id, id ∈ required_active req →
         approves get_active sigs pre id ∨ signs get_active get_master sigs pre id) ∧
      (∀ l1 id l2, required_master req = l1 ++ id :: l2 →
         id ∈ ma ∨ signs get_active get_master sigs (pre ∪ list_to_set l1) id)
  | ids =>
      required_active req = [] ∧ required_master req = [] ∧ other_auths req = [] ∧
      ∀ id, id ∈ ids → approves get_regular sigs (preapproved ra) id ∨
        signs get_regular get_active sigs (preapproved ra) id ∨
        signs get_regular get_master sigs (preapproved ra) id
  end.
Proof.
  intros Ha Hm Hr Ho H. unfold verify_authority in H. apply rbind_Ok in H as ([[] sf] & H & _).
  destruct (required_regular req) as [|r0 rs].
  - unfold verify_active, assert_missing in H.
    apply sbind_Ok in H as (u1 & s1 & H1 & H). apply sbind_Ok in H as (u2 & s2 & H2 & H).
    apply (approve_all_spec get_active sigs _ _ _ _ _ (new_state_ok get_active sigs)) in H1.
    apply (approve_all_spec get_active sigs _ _ _ _ _ H1) in H2.
    apply sbind_Ok in H as (m1 & s3 & H3 & H). inv_ok. propify. subst.
    fold (preapproved aa) in *. set (pre := preapproved aa ∪ list_to_set ma) in *. cbn zeta.
    apply (collect_missing_spec (state_ok get_active ∅ sigs pre)
      (satisfied get_active sigs pre)) in H3 as [Hs3 Hother]; [|clear -Ha Ho|done].
    2:{ intros auth s b s' Hin Hs Hc. eapply check_auth_Ok; [done| |done..].
        rewrite Forall_forall in Ho. by apply Ho. }
    match goal with H : collect_missing (required_active req) _ _ = _ |- _ => rename H into HA end.
    apply (collect_missing_spec (state_ok get_active ∅ sigs pre) (λ id,
      approves get_active sigs pre id ∨ signs get_active get_master sigs pre id)) in HA
      as [Hs4 Hact]; [|clear -Ha Hm|done].
    2:{ intros id s b s' _ Hs Hc. eapply or_else_Ok; [| |exact Hc].
        - intros. by eapply check_id_Ok.
        - intros. by eapply check_get_Ok. }
    split; [done|]. split; [done|]. intros l1 id l2. by eapply master_loop_Ok.
  - inv_ok. propify.
    unfold verify_regular, assert_missing in H. apply sbind_Ok in H as (u1 & s1 & Happ & H).
    apply (approve_all_spec get_regular sigs _ _ _ _ _ (new_state_ok get_regular sigs)) in Happ.
    fold (preapproved ra) in Happ. inv_ok. propify. subst.
    split; [done|]. split; [done|]. split; [by apply nil_length_inv|].
    match goal with H : collect_missing (r0 :: rs) _ _ = _ |- _ => rename H into HA end.
    apply (collect_missing_spec (state_ok get_regular ∅ sigs (preapproved ra)) (λ id,
      approves get_regular sigs (preapproved ra) id ∨
      (signs get_regular get_active sigs (preapproved ra) id ∨
       signs get_regular get_master sigs (preapproved ra) id))) in HA as [_ Hreg]; [done|clear -Ha Hm Hr|done].
    intros id s b s' _ Hs Hc. eapply or_else_Ok; [| |exact Hc].
    + intros. by eapply check_id_Ok.
    + intros s0 x s2 Hs0 Hx. eapply or_else_Ok; [| |exact Hx].
      * intros. by eapply check_get_Ok.
      * intros. by eapply check_get_Ok.
Qed.

(** The account named [temp] is approved from the start: an
    operation that requires its active authority passes with no signature at
    all, whatever the authorities of the accounts are. *)
Theorem temp_needs_no_signature get_active get_master get_regular n :
  verify_authority get_active get_master get_regular (mk_required ["temp"%string] [] [] [])
    ∅ n [] [] [] = Ok tt.
Proof. by vm_compute. Qed.

(** ** Examples *)

(** [alice] delegates to [bob], who has one key. *)
Definition ex_getter (n : string) : res authority :=
  if bool_decide (n = "alice"%string) then Ok (mk_authority 2 [("bob"%string, 1)] [(11, 1)])
  else if bool_decide (n = "bob"%string) then Ok (mk_authority 1 [] [(22, 1)])
  else Err (E_not_found n).

Lemma ex_getter_weights a b : ex_getter a = Ok b → weights_ok b.
Proof.
  unfold ex_getter. repeat case_bool_decide; intros [= <-]; split_and!; repeat constructor; cbn; lia.
Qed.

Lemma check_authority_correct_witness :
  satisfied_within ex_getter {[11; 22]} {["temp"%string]} 2 (mk_authority 2 [("bob"%string, 1)] [(11, 1)]) = true ∧
  match check_authority ex_getter ∅ 2 (mk_authority 2 [("bob"%string, 1)] [(11, 1)])
          (new_sign_state {[11; 22]}) with
  | Ok (b, _) => b = true
  | Err _ => False
  end.
Proof.
  split; [by vm_compute|].
  pose proof (check_authority_correct ex_getter ∅ {[11; 22]} {["temp"%string]} 2
    (mk_authority 2 [("bob"%string, 1)] [(11, 1)]) (new_sign_state {[11; 22]})
    ex_getter_weights ltac:(split_and!; repeat constructor; cbn; lia) (new_state_ok _ _)) as H.
  assert (is_Ok (check_authority ex_getter ∅ 2 (mk_authority 2 [("bob"%string, 1)] [(11, 1)])
    (new_sign_state {[11; 22]})) = true) as Hok by (by vm_compute).
  destruct H as [H _]. destruct (check_authority _ _ _ _ _) as [[b s']|]; [|discriminate Hok].
  apply H. by vm_compute.
Defined.

Lemma verify_authority_sound_witness :
  verify_authority ex_getter ex_getter ex_getter (mk_required ["alice"%string] [] [] [])
    {[11; 22]} 2 [] [] [] = Ok tt ∧
  (approves ex_getter {[11; 22]} (preapproved [] ∪ ∅) "alice" ∨
   signs ex_getter ex_getter {[11; 22]} (preapproved [] ∪ ∅) "alice").
Proof.
  assert (verify_authority ex_getter ex_getter ex_getter (mk_required ["alice"%string] [] [] [])
    {[11; 22]} 2 [] [] [] = Ok tt) as H by (by vm_compute).
  split; [exact H|].
  destruct (verify_authority_sound ex_getter ex_getter ex_getter
    (mk_required ["alice"%string] [] [] []) _ _ _ _ _ ex_getter_weights
    ex_getter_weights ex_getter_weights (Forall_nil_2 _) H) as (_ & Hact & _).
  apply Hact. cbn. by left.
Defined.
