(* ===== verification/Operations.v ===== *)
(** * Operations (libraries/protocol/chain_operations.hpp, chain_operations.cpp)

    The operations users put into transactions, the checks of [validate] that
    need no chain state, and the authorities each operation requires. *)

From stdpp Require Import gmap strings list.
From Stdlib Require Import ZArith Lia.
From S2P Require Import Prelude Fc Text Asset Authority SignState.

Definition CHAIN_MAX_MEMO_LENGTH : nat := 2048.
Definition CHAIN_MAX_VALIDATOR_URL_LENGTH : nat := 2048.
Definition CHAIN_MAX_URL_LENGTH : nat := 256.
Definition PAID_SUBSCRIPTION_MAX_LEVEL : Z := 1000.
Definition PAID_SUBSCRIPTION_MAX_PERIOD : Z := 1000.
Definition COMMITTEE_MIN_DURATION : Z := 60 * 60 * 24 * 5.
Definition COMMITTEE_MAX_DURATION : Z := 60 * 60 * 24 * 30.
Definition COMMITTEE_MAX_REQUIRED_AMOUNT : Z := 500000000.

Record account_create_operation := mk_account_create {
  ac_fee : asset;
  ac_delegation : asset;
  ac_creator : string;
  ac_new_account_name : string;
  ac_master : authority;
  ac_active : authority;
  ac_regular : authority;
  ac_memo_key : Z;
  ac_json_metadata : string;
  ac_referrer : string
}.

Record account_update_operation := mk_account_update {
  au_account : string;
  au_master : option authority;
  au_active : option authority;
  au_regular : option authority;
  au_memo_key : Z;
  au_json_metadata : string
}.

Record account_metadata_operation := mk_account_metadata {
  am_account : string;
  am_json_metadata : string
}.

Record transfer_operation := mk_transfer {
  tr_from : string;
  tr_to : string;
  tr_amount : asset;
  tr_memo : string
}.

Record escrow_transfer_operation := mk_escrow_transfer {
  et_from : string;
  et_to : string;
  et_agent : string;
  et_escrow_id : Z;
  et_token_amount : asset;
  et_fee : asset;
  et_ratification_deadline : Z;
  et_escrow_expiration : Z;
  et_json_metadata : string
}.

Record escrow_approve_operation := mk_escrow_approve {
  ea_from : string;
  ea_to : string;
  ea_agent : string;
  ea_who : string;
  ea_escrow_id : Z;
  ea_approve : bool
}.

Record escrow_dispute_operation := mk_escrow_dispute {
  ed_from : string;
  ed_to : string;
  ed_agent : string;
  ed_who : string;
  ed_escrow_id : Z
}.

Record escrow_release_operation := mk_escrow_release {
  er_from : string;
  er_to : string;
  er_agent : string;
  er_who : string;
  er_receiver : string;
  er_escrow_id : Z;
  er_token_amount : asset
}.

Record transfer_to_vesting_operation := mk_transfer_to_vesting {
  tv_from : string;
  tv_to : string;
  tv_amount : asset
}.

Record withdraw_vesting_operation := mk_withdraw_vesting {
  wv_account : string;
  wv_vesting_shares : asset
}.

Record set_withdraw_vesting_route_operation := mk_set_withdraw_vesting_route {
  wr_from_account : string;
  wr_to_account : string;
  wr_percent : Z;
  wr_auto_vest : bool
}.

Record validator_update_operation := mk_validator_update {
  vu_owner : string;
  vu_url : string;
  vu_block_signing_key : Z
}.

Record account_validator_vote_operation := mk_account_validator_vote {
  vv_account : string;
  vv_validator : string;
  vv_approve : bool
}.

Record account_validator_proxy_operation := mk_account_validator_proxy {
  vp_account : string;
  vp_proxy : string
}.

Record custom_operation := mk_custom {
  cu_required_active_auths : list string;
  cu_required_regular_auths : list string;
  cu_id : string;
  cu_json : string
}.

Record request_account_recovery_operation := mk_request_account_recovery {
  rr_recovery_account : string;
  rr_account_to_recover : string;
  rr_new_master_authority : authority
}.

Record recover_account_operation := mk_recover_account {
  ra_account_to_recover : string;
  ra_new_master_authority : authority;
  ra_recent_master_authority : authority
}.

Record change_recovery_account_operation := mk_change_recovery_account {
  cr_account_to_recover : string;
  cr_new_recovery_account : string
}.

Record delegate_vesting_shares_operation := mk_delegate_vesting_shares {
  dv_delegator : string;
  dv_delegatee : string;
  dv_vesting_shares : asset
}.

Record committee_worker_create_request_operation := mk_committee_worker_create_request {
  cw_creator : string;
  cw_url : string;
  cw_worker : string;
  cw_required_amount_min : asset;
  cw_required_amount_max : asset;
  cw_duration : Z
}.

Record committee_worker_cancel_request_operation := mk_committee_worker_cancel_request {
  cc_creator : string;
  cc_request_id : Z
}.

Record committee_vote_request_operation := mk_committee_vote_request {
  cv_voter : string;
  cv_request_id : Z;
  cv_vote_percent : Z
}.

Record create_invite_operation := mk_create_invite {
  ci_creator : string;
  ci_balance : asset;
  ci_invite_key : Z
}.

Record claim_invite_balance_operation := mk_claim_invite_balance {
  cl_initiator : string;
  cl_receiver : string;
  cl_invite_secret : string
}.

Record invite_registration_operation := mk_invite_registration {
  ir_initiator : string;
  ir_new_account_name : string;
  ir_invite_secret : string;
  ir_new_account_key : Z
}.

Record award_operation := mk_award {
  aw_initiator : string;
  aw_receiver : string;
  aw_energy : Z;
  aw_custom_sequence : Z;
  aw_memo : string;
  aw_beneficiaries : list (string * Z)
}.

Record set_paid_subscription_operation := mk_set_paid_subscription {
  sp_account : string;
  sp_url : string;
  sp_levels : Z;
  sp_amount : asset;
  sp_period : Z
}.

Record paid_subscribe_operation := mk_paid_subscribe {
  pb_subscriber : string;
  pb_account : string;
  pb_level : Z;
  pb_amount : asset;
  pb_period : Z;
  pb_auto_renewal : bool
}.

Record set_account_price_operation := mk_set_account_price {
  sa_account : string;
  sa_account_seller : string;
  sa_account_offer_price : asset;
  sa_account_on_sale : bool
}.

Record set_subaccount_price_operation := mk_set_subaccount_price {
  ss_account : string;
  ss_subaccount_seller : string;
  ss_subaccount_offer_price : asset;
  ss_subaccount_on_sale : bool
}.

Record buy_account_operation := mk_buy_account {
  ba_buyer : string;
  ba_account : string;
  ba_account_offer_price : asset;
  ba_account_authorities_key : Z;
  ba_tokens_to_shares : asset
}.

Record use_invite_balance_operation := mk_use_invite_balance {
  ui_initiator : string;
  ui_receiver : string;
  ui_invite_secret : string
}.

Record fixed_award_operation := mk_fixed_award {
  fa_initiator : string;
  fa_receiver : string;
  fa_reward_amount : asset;
  fa_max_energy : Z;
  fa_custom_sequence : Z;
  fa_memo : string;
  fa_beneficiaries : list (string * Z)
}.

Record target_account_sale_operation := mk_target_account_sale {
  ta_account : string;
  ta_account_seller : string;
  ta_target_buyer : string;
  ta_account_offer_price : asset;
  ta_account_on_sale : bool
}.

Record set_reward_sharing_operation := mk_set_reward_sharing {
  rs_owner : string;
  rs_sharing_rate : Z
}.

(** The operations of a transaction. *)
Inductive operation :=
| op_account_create (o : account_create_operation)
| op_account_update (o : account_update_operation)
| op_account_metadata (o : account_metadata_operation)
| op_transfer (o : transfer_operation)
| op_escrow_transfer (o : escrow_transfer_operation)
| op_escrow_approve (o : escrow_approve_operation)
| op_escrow_dispute (o : escrow_dispute_operation)
| op_escrow_release (o : escrow_release_operation)
| op_transfer_to_vesting (o : transfer_to_vesting_operation)
| op_withdraw_vesting (o : withdraw_vesting_operation)
| op_set_withdraw_vesting_route (o : set_withdraw_vesting_route_operation)
| op_validator_update (o : validator_update_operation)
| op_account_validator_vote (o : account_validator_vote_operation)
| op_account_validator_proxy (o : account_validator_proxy_operation)
| op_custom (o : custom_operation)
| op_request_account_recovery (o : request_account_recovery_operation)
| op_recover_account (o : recover_account_operation)
| op_change_recovery_account (o : change_recovery_account_operation)
| op_delegate_vesting_shares (o : delegate_vesting_shares_operation)
| op_committee_worker_create_request (o : committee_worker_create_request_operation)
| op_committee_worker_cancel_request (o : committee_worker_cancel_request_operation)
| op_committee_vote_request (o : committee_vote_request_operation)
| op_create_invite (o : create_invite_operation)
| op_claim_invite_balance (o : claim_invite_balance_operation)
| op_invite_registration (o : invite_registration_operation)
| op_award (o : award_operation)
| op_set_paid_subscription (o : set_paid_subscription_operation)
| op_paid_subscribe (o : paid_subscribe_operation)
| op_set_account_price (o : set_account_price_operation)
| op_set_subaccount_price (o : set_subaccount_price_operation)
| op_buy_account (o : buy_account_operation)
| op_use_invite_balance (o : use_invite_balance_operation)
| op_fixed_award (o : fixed_award_operation)
| op_target_account_sale (o : target_account_sale_operation)
| op_set_reward_sharing (o : set_reward_sharing_operation).

(** ** Validation *)

Section validate.
Context {T : FcText}.

(** [FC_ASSERT] in a function without a result. *)
#[local] Notation "'check!' b 'in' k" := (rbind (rassert b (E_assert "validate")) (λ _, k))
  (at level 10, b at level 100, k at level 200).

Definition validate_account_name (n : string) : res unit :=
  rassert (is_valid_account_name n) (E_assert "Account name is invalid").
Definition validate_create_account_name (n : string) : res unit :=
  rassert (is_valid_create_account_name n) (E_assert "Account name is invalid").
Definition validate_domain_name (n creator : string) : res unit :=
  rassert (is_valid_domain_name n creator) (E_assert "Domain name is invalid").
Definition validate_json_metadata (j : string) : res unit :=
  if bool_decide (j ≠ "")
  then check! fc_is_utf8 j in check! fc_json_is_valid j in Ok tt
  else Ok tt.
Definition is_asset_type (a : asset) (sym : Z) : bool := symbol a =? sym.

Definition validate_account_create (o : account_create_operation) : res unit :=
  do? validate_create_account_name (ac_new_account_name o) in
  do? validate_account_name (ac_new_account_name o) in
  do? validate_account_name (ac_creator o) in
  do? validate_domain_name (ac_new_account_name o) (ac_creator o) in
  check! is_asset_type (ac_fee o) TOKEN_SYMBOL in
  check! is_asset_type (ac_delegation o) SHARES_SYMBOL in
  check! 0 <=? amount (ac_fee o) in
  check! 0 <=? amount (ac_delegation o) in
  do? authority_validate (ac_master o) in
  do? authority_validate (ac_active o) in
  do? authority_validate (ac_regular o) in
  validate_json_metadata (ac_json_metadata o).

Definition validate_account_update (o : account_update_operation) : res unit :=
  do? validate_account_name (au_account o) in validate_json_metadata (au_json_metadata o).

Definition validate_account_metadata (o : account_metadata_operation) : res unit :=
  do? validate_account_name (am_account o) in
  check! bool_decide (am_json_metadata o ≠ "") in
  validate_json_metadata (am_json_metadata o).

Definition validate_transfer (o : transfer_operation) : res unit :=
  do? validate_account_name (tr_from o) in
  do? validate_account_name (tr_to o) in
  check! negb (symbol (tr_amount o) =? SHARES_SYMBOL) in
  check! 0 <? amount (tr_amount o) in
  check! Nat.ltb (String.length (tr_memo o)) CHAIN_MAX_MEMO_LENGTH in
  check! fc_is_utf8 (tr_memo o) in Ok tt.

Definition validate_transfer_to_vesting (o : transfer_to_vesting_operation) : res unit :=
  do? validate_account_name (tv_from o) in
  check! is_asset_type (tv_amount o) TOKEN_SYMBOL in
  do? (if bool_decide (tv_to o ≠ "") then validate_account_name (tv_to o) else Ok tt) in
  let? gt := asset_gtb (tv_amount o) (token 0) in
  check! gt in Ok tt.

Definition validate_withdraw_vesting (o : withdraw_vesting_operation) : res unit :=
  do? validate_account_name (wv_account o) in
  check! is_asset_type (wv_vesting_shares o) SHARES_SYMBOL in
  check! 0 <=? amount (wv_vesting_shares o) in Ok tt.

Definition validate_set_withdraw_vesting_route (o : set_withdraw_vesting_route_operation) : res unit :=
  do? validate_account_name (wr_from_account o) in
  do? validate_account_name (wr_to_account o) in
  check! (0 <=? wr_percent o) && (wr_percent o <=? CHAIN_100_PERCENT) in Ok tt.

Definition validate_validator_update (o : validator_update_operation) : res unit :=
  do? validate_account_name (vu_owner o) in
  check! Nat.ltb 0 (String.length (vu_url o)) in
  check! Nat.ltb (String.length (vu_url o)) CHAIN_MAX_VALIDATOR_URL_LENGTH in
  check! fc_is_utf8 (vu_url o) in Ok tt.

Definition validate_account_validator_vote (o : account_validator_vote_operation) : res unit :=
  do? validate_account_name (vv_account o) in validate_account_name (vv_validator o).

Definition validate_account_validator_proxy (o : account_validator_proxy_operation) : res unit :=
  do? validate_account_name (vp_account o) in
  do? (if bool_decide (vp_proxy o ≠ "") then validate_account_name (vp_proxy o) else Ok tt) in
  check! bool_decide (vp_proxy o ≠ vp_account o) in Ok tt.

Definition validate_custom (o : custom_operation) : res unit :=
  check! Nat.ltb 0 (length (cu_required_active_auths o) + length (cu_required_regular_auths o)) in
  check! Nat.leb (String.length (cu_id o)) 32 in
  check! fc_is_utf8 (cu_json o) in
  check! fc_json_is_valid (cu_json o) in Ok tt.

Definition validate_escrow_transfer (o : escrow_transfer_operation) : res unit :=
  do? validate_account_name (et_from o) in
  do? validate_account_name (et_to o) in
  do? validate_account_name (et_agent o) in
  check! 0 <=? amount (et_fee o) in
  check! 0 <=? amount (et_token_amount o) in
  check! bool_decide (et_from o ≠ et_agent o) && bool_decide (et_to o ≠ et_agent o) in
  check! symbol (et_fee o) =? TOKEN_SYMBOL in
  check! symbol (et_token_amount o) =? TOKEN_SYMBOL in
  check! et_ratification_deadline o <? et_escrow_expiration o in
  validate_json_metadata (et_json_metadata o).

Definition validate_escrow_approve (o : escrow_approve_operation) : res unit :=
  do? validate_account_name (ea_from o) in
  do? validate_account_name (ea_to o) in
  do? validate_account_name (ea_agent o) in
  do? validate_account_name (ea_who o) in
  check! bool_decide (ea_who o = ea_to o) || bool_decide (ea_who o = ea_agent o) in Ok tt.

Definition validate_escrow_dispute (o : escrow_dispute_operation) : res unit :=
  do? validate_account_name (ed_from o) in
  do? validate_account_name (ed_to o) in
  do? validate_account_name (ed_agent o) in
  do? validate_account_name (ed_who o) in
  check! bool_decide (ed_who o = ed_from o) || bool_decide (ed_who o = ed_to o) in Ok tt.

Definition validate_escrow_release (o : escrow_release_operation) : res unit :=
  do? validate_account_name (er_from o) in
  do? validate_account_name (er_to o) in
  do? validate_account_name (er_agent o) in
  do? validate_account_name (er_who o) in
  do? validate_account_name (er_receiver o) in
  check! bool_decide (er_who o = er_from o) || bool_decide (er_who o = er_to o) ||
         bool_decide (er_who o = er_agent o) in
  check! bool_decide (er_receiver o = er_from o) || bool_decide (er_receiver o = er_to o) in
  check! 0 <=? amount (er_token_amount o) in
  check! 0 <? amount (er_token_amount o) in
  check! symbol (er_token_amount o) =? TOKEN_SYMBOL in Ok tt.

Definition validate_request_account_recovery (o : request_account_recovery_operation) : res unit :=
  do? validate_account_name (rr_recovery_account o) in
  do? validate_account_name (rr_account_to_recover o) in
  authority_validate (rr_new_master_authority o).

Definition validate_recover_account (o : recover_account_operation) : res unit :=
  do? validate_account_name (ra_account_to_recover o) in
  check! negb (bool_decide (ra_new_master_authority o = ra_recent_master_authority o)) in
  check! negb (is_impossible (ra_new_master_authority o)) in
  check! negb (is_impossible (ra_recent_master_authority o)) in
  check! negb (weight_threshold (ra_new_master_authority o) =? 0) in
  do? authority_validate (ra_new_master_authority o) in
  authority_validate (ra_recent_master_authority o).

Definition validate_change_recovery_account (o : change_recovery_account_operation) : res unit :=
  do? validate_account_name (cr_account_to_recover o) in
  validate_account_name (cr_new_recovery_account o).

Definition validate_delegate_vesting_shares (o : delegate_vesting_shares_operation) : res unit :=
  do? validate_account_name (dv_delegator o) in
  do? validate_account_name (dv_delegatee o) in
  check! bool_decide (dv_delegator o ≠ dv_delegatee o) in
  check! is_asset_type (dv_vesting_shares o) SHARES_SYMBOL in
  check! 0 <=? amount (dv_vesting_shares o) in Ok tt.

Definition validate_committee_worker_create_request
    (o : committee_worker_create_request_operation) : res unit :=
  check! Nat.ltb 0 (String.length (cw_url o)) in
  check! Nat.ltb (String.length (cw_url o)) CHAIN_MAX_URL_LENGTH in
  check! 0 <=? amount (cw_required_amount_min o) in
  check! symbol (cw_required_amount_min o) =? TOKEN_SYMBOL in
  check! amount (cw_required_amount_min o) <? amount (cw_required_amount_max o) in
  check! symbol (cw_required_amount_max o) =? TOKEN_SYMBOL in
  check! COMMITTEE_MIN_DURATION <=? cw_duration o in
  check! cw_duration o <=? COMMITTEE_MAX_DURATION in
  check! amount (cw_required_amount_max o) <=? COMMITTEE_MAX_REQUIRED_AMOUNT in Ok tt.

Definition validate_committee_vote_request (o : committee_vote_request_operation) : res unit :=
  check! - CHAIN_100_PERCENT <=? cv_vote_percent o in
  check! cv_vote_percent o <=? CHAIN_100_PERCENT in Ok tt.

Definition validate_create_invite (o : create_invite_operation) : res unit :=
  do? validate_account_name (ci_creator o) in
  check! is_asset_type (ci_balance o) TOKEN_SYMBOL in
  let? gt := asset_gtb (ci_balance o) (token 0) in
  check! gt in Ok tt.

Definition validate_claim_invite_balance (o : claim_invite_balance_operation) : res unit :=
  do? validate_account_name (cl_initiator o) in validate_account_name (cl_receiver o).

Definition validate_invite_registration (o : invite_registration_operation) : res unit :=
  do? validate_account_name (ir_initiator o) in
  do? validate_account_name (ir_new_account_name o) in
  validate_domain_name (ir_new_account_name o) (ir_initiator o).

(** The loop over the beneficiaries, with the 32-bit sum so far. *)
Fixpoint validate_beneficiaries (l : list (string * Z)) (sum : Z) : res unit :=
  match l with
  | [] => Ok tt
  | b :: l =>
      do? validate_account_name b.1 in
      check! b.2 <=? CHAIN_100_PERCENT in
      let sum := u32 (sum + b.2) in
      check! sum <=? CHAIN_100_PERCENT in
      validate_beneficiaries l sum
  end.

(** The memo, sequence and beneficiary checks that both kinds of award share. *)
Definition validate_award_rest (energy custom_sequence : Z) (memo : string)
    (beneficiaries : list (string * Z)) : res unit :=
  check! 0 <=? energy in
  check! energy <=? CHAIN_100_PERCENT in
  check! 0 <=? custom_sequence in
  check! custom_sequence <=? i64_max in
  check! Nat.ltb (String.length memo) CHAIN_MAX_MEMO_LENGTH in
  check! fc_is_utf8 memo in
  check! Nat.ltb (length beneficiaries) 128 in
  validate_beneficiaries beneficiaries 0.

Definition validate_award (o : award_operation) : res unit :=
  do? validate_account_name (aw_initiator o) in
  do? validate_account_name (aw_receiver o) in
  validate_award_rest (aw_energy o) (aw_custom_sequence o) (aw_memo o) (aw_beneficiaries o).

Definition validate_fixed_award (o : fixed_award_operation) : res unit :=
  do? validate_account_name (fa_initiator o) in
  do? validate_account_name (fa_receiver o) in
  check! is_asset_type (fa_reward_amount o) TOKEN_SYMBOL in
  check! 0 <? amount (fa_reward_amount o) in
  validate_award_rest (fa_max_energy o) (fa_custom_sequence o) (fa_memo o) (fa_beneficiaries o).

Definition validate_set_paid_subscription (o : set_paid_subscription_operation) : res unit :=
  do? validate_account_name (sp_account o) in
  check! Nat.ltb (String.length (sp_url o)) CHAIN_MAX_MEMO_LENGTH in
  check! fc_is_utf8 (sp_url o) in
  check! 0 <=? sp_levels o in
  check! sp_levels o <=? PAID_SUBSCRIPTION_MAX_LEVEL in
  check! negb (symbol (sp_amount o) =? SHARES_SYMBOL) in
  check! 0 <? amount (sp_amount o) in
  check! 0 <? sp_period o in
  check! sp_period o <=? PAID_SUBSCRIPTION_MAX_PERIOD in Ok tt.

Definition validate_paid_subscribe (o : paid_subscribe_operation) : res unit :=
  do? validate_account_name (pb_subscriber o) in
  do? validate_account_name (pb_account o) in
  check! 0 <=? pb_level o in
  check! pb_level o <=? PAID_SUBSCRIPTION_MAX_LEVEL in
  check! negb (symbol (pb_amount o) =? SHARES_SYMBOL) in
  check! 0 <? amount (pb_amount o) in
  check! 0 <? pb_period o in
  check! pb_period o <=? PAID_SUBSCRIPTION_MAX_PERIOD in Ok tt.

Definition validate_set_account_price (o : set_account_price_operation) : res unit :=
  do? validate_account_name (sa_account o) in
  do? validate_account_name (sa_account_seller o) in
  check! is_asset_type (sa_account_offer_price o) TOKEN_SYMBOL in
  check! 0 <? amount (sa_account_offer_price o) in Ok tt.

Definition validate_set_subaccount_price (o : set_subaccount_price_operation) : res unit :=
  do? validate_account_name (ss_account o) in
  do? validate_account_name (ss_subaccount_seller o) in
  check! is_asset_type (ss_subaccount_offer_price o) TOKEN_SYMBOL in
  check! 0 <? amount (ss_subaccount_offer_price o) in Ok tt.

Definition validate_buy_account (o : buy_account_operation) : res unit :=
  do? validate_account_name (ba_buyer o) in
  do? validate_account_name (ba_account o) in
  check! is_asset_type (ba_account_offer_price o) TOKEN_SYMBOL in
  check! 0 <? amount (ba_account_offer_price o) in
  check! is_asset_type (ba_tokens_to_shares o) TOKEN_SYMBOL in
  check! 0 <? amount (ba_tokens_to_shares o) in Ok tt.

Definition validate_use_invite_balance (o : use_invite_balance_operation) : res unit :=
  do? validate_account_name (ui_initiator o) in validate_account_name (ui_receiver o).

Definition validate_target_account_sale (o : target_account_sale_operation) : res unit :=
  do? validate_account_name (ta_account o) in
  do? validate_account_name (ta_account_seller o) in
  do? validate_account_name (ta_target_buyer o) in
  check! is_asset_type (ta_account_offer_price o) TOKEN_SYMBOL in
  check! 0 <? amount (ta_account_offer_price o) in Ok tt.

Definition validate_set_reward_sharing (o : set_reward_sharing_operation) : res unit :=
  do? validate_account_name (rs_owner o) in
  check! rs_sharing_rate o <=? CHAIN_100_PERCENT in Ok tt.

Definition operation_validate (op : operation) : res unit :=
  match op with
  | op_account_create o => validate_account_create o
  | op_account_update o => validate_account_update o
  | op_account_metadata o => validate_account_metadata o
  | op_transfer o => validate_transfer o
  | op_escrow_transfer o => validate_escrow_transfer o
  | op_escrow_approve o => validate_escrow_approve o
  | op_escrow_dispute o => validate_escrow_dispute o
  | op_escrow_release o => validate_escrow_release o
  | op_transfer_to_vesting o => validate_transfer_to_vesting o
  | op_withdraw_vesting o => validate_withdraw_vesting o
  | op_set_withdraw_vesting_route o => validate_set_withdraw_vesting_route o
  | op_validator_update o => validate_validator_update o
  | op_account_validator_vote o => validate_account_validator_vote o
  | op_account_validator_proxy o => validate_account_validator_proxy o
  | op_custom o => validate_custom o
  | op_request_account_recovery o => validate_request_account_recovery o
  | op_recover_account o => validate_recover_account o
  | op_change_recovery_account o => validate_change_recovery_account o
  | op_delegate_vesting_shares o => validate_delegate_vesting_shares o
  | op_committee_worker_create_request o => validate_committee_worker_create_request o
  | op_committee_worker_cancel_request o => Ok tt
  | op_committee_vote_request o => validate_committee_vote_request o
  | op_create_invite o => validate_create_invite o
  | op_claim_invite_balance o => validate_claim_invite_balance o
  | op_invite_registration o => validate_invite_registration o
  | op_award o => validate_award o
  | op_set_paid_subscription o => validate_set_paid_subscription o
  | op_paid_subscribe o => validate_paid_subscribe o
  | op_set_account_price o => validate_set_account_price o
  | op_set_subaccount_price o => validate_set_subaccount_price o
  | op_buy_account o => validate_buy_account o
  | op_use_invite_balance o => validate_use_invite_balance o
  | op_fixed_award o => validate_fixed_award o
  | op_target_account_sale o => validate_target_account_sale o
  | op_set_reward_sharing o => validate_set_reward_sharing o
  end.

(** A validated list of beneficiaries takes at most 100% in all. *)
Lemma validate_beneficiaries_sum l sum :
  Forall (λ b, 0 ≤ b.2) l → 0 ≤ sum ≤ CHAIN_100_PERCENT →
  validate_beneficiaries l sum = Ok tt → sum + sum_weights l ≤ CHAIN_100_PERCENT.
Proof.
  intros Hl. revert sum. induction Hl as [|[b w] l Hw _ IH]; intros sum Hs H; cbn in *; [lia|].
  inv_ok. propify. unfold CHAIN_100_PERCENT in *.
  rewrite u32_small in * by (change (2 ^ 32) with 4294967296; lia).
  specialize (IH (sum + w) ltac:(lia) H). unfold sum_weights in *. lia.
Qed.
End validate.
