(* ===== verification/ChainOperations.v ===== *)
(** * Proposals and transactions
      (libraries/protocol/proposal_operations.hpp, proposal_operations.cpp,
       operation_util_impl.hpp, operations.cpp, transaction.hpp)

    A proposal carries operations, which can be proposals again.
    [chain_operation] is the whole variant [operation] of the sources: the
    operations of [Operations.v] and those on proposals.  A transaction is a
    list of them. *)

From stdpp Require Import gmap strings list sorting.
From Stdlib Require Import ZArith Lia.
From S2P Require Import Prelude Fc Text Asset Authority SignState Operations.

Record proposal_create_operation (Op : Type) := mk_proposal_create {
  pc_author : string;
  pc_title : string;
  pc_memo : string;
  pc_expiration_time : Z;
  pc_proposed_operations : list Op;
  pc_review_period_time : option Z
}.
Arguments mk_proposal_create {Op}.
Arguments pc_author {Op}.
Arguments pc_title {Op}.
Arguments pc_memo {Op}.
Arguments pc_expiration_time {Op}.
Arguments pc_proposed_operations {Op}.
Arguments pc_review_period_time {Op}.

Record proposal_update_operation := mk_proposal_update {
  pu_author : string;
  pu_title : string;
  active_approvals_to_add : gset string;
  active_approvals_to_remove : gset string;
  master_approvals_to_add : gset string;
  master_approvals_to_remove : gset string;
  regular_approvals_to_add : gset string;
  regular_approvals_to_remove : gset string;
  key_approvals_to_add : gset Z;
  key_approvals_to_remove : gset Z
}.

Record proposal_delete_operation := mk_proposal_delete {
  pd_author : string;
  pd_title : string;
  pd_requester : string
}.

Inductive chain_operation :=
| op_plain (o : operation)
| op_proposal_create (o : proposal_create_operation chain_operation)
| op_proposal_update (o : proposal_update_operation)
| op_proposal_delete (o : proposal_delete_operation).

Record transaction := mk_transaction {
  ref_block_num : Z;
  ref_block_prefix : Z;
  expiration : Z;
  operations : list chain_operation
}.

Record signed_transaction := mk_signed_transaction {
  tx : transaction;
  signatures : list Z
}.

(** ** Validation *)

Section validate.
Context {T : FcText}.

#[local] Notation "'check!' b 'in' k" := (rbind (rassert b (E_assert "validate")) (λ _, k))
  (at level 10, b at level 100, k at level 200).

Definition validate_title (title : string) : res unit :=
  check! negb (bool_decide (title = ""%string)) in
  check! fc_is_utf8 title in Ok tt.

Definition validate_proposal_update (o : proposal_update_operation) : res unit :=
  do? validate_account_name (pu_author o) in
  do? validate_title (pu_title o) in
  check! negb (bool_decide (active_approvals_to_add o = ∅) && bool_decide (active_approvals_to_remove o = ∅) &&
               bool_decide (master_approvals_to_add o = ∅) && bool_decide (master_approvals_to_remove o = ∅) &&
               bool_decide (regular_approvals_to_add o = ∅) && bool_decide (regular_approvals_to_remove o = ∅) &&
               bool_decide (key_approvals_to_add o = ∅) && bool_decide (key_approvals_to_remove o = ∅)) in
  check! bool_decide (active_approvals_to_add o ## active_approvals_to_remove o) in
  check! bool_decide (master_approvals_to_add o ## master_approvals_to_remove o) in
  check! bool_decide (regular_approvals_to_add o ## regular_approvals_to_remove o) in
  check! bool_decide (key_approvals_to_add o ## key_approvals_to_remove o) in Ok tt.

Definition validate_proposal_delete (o : proposal_delete_operation) : res unit :=
  do? validate_account_name (pd_author o) in validate_title (pd_title o).

(** [operation_validate] of the whole variant. *)
Fixpoint chain_operation_validate (op : chain_operation) : res unit :=
  match op with
  | op_plain o => operation_validate o
  | op_proposal_create o =>
      do? validate_account_name (pc_author o) in
      check! negb (bool_decide (pc_title o = ""%string)) in
      check! Nat.ltb (String.length (pc_title o)) 256 in
      check! fc_is_utf8 (pc_title o) in
      check! match pc_proposed_operations o with [] => false | _ => true end in
      do? foldr (λ op k, do? chain_operation_validate op in k) (Ok tt) (pc_proposed_operations o) in
      if Nat.ltb 0 (String.length (pc_memo o))
      then check! Nat.ltb (String.length (pc_memo o)) 4096 in check! fc_is_utf8 (pc_memo o) in Ok tt
      else Ok tt
  | op_proposal_update o => validate_proposal_update o
  | op_proposal_delete o => validate_proposal_delete o
  end.

(** [transaction::validate] *)
Definition transaction_validate (t : transaction) : res unit :=
  do? rassert (match operations t with [] => false | _ => true end)
    (E_assert "A transaction must have at least one operation") in
  foldr (λ op k, do? chain_operation_validate op in k) (Ok tt) (operations t).
End validate.

(** ** The authorities operations require (chain_operations.hpp) *)

Definition plain_active_authorities (op : operation) : list string :=
  match op with
  | op_account_create o => [ac_creator o]
  | op_account_update o => match au_master o with None => [au_account o] | Some _ => [] end
  | op_transfer o => if negb (symbol (tr_amount o) =? SHARES_SYMBOL) then [tr_from o] else []
  | op_escrow_transfer o => [et_from o]
  | op_escrow_approve o => [ea_who o]
  | op_escrow_dispute o => [ed_who o]
  | op_escrow_release o => [er_who o]
  | op_transfer_to_vesting o => [tv_from o]
  | op_withdraw_vesting o => [wv_account o]
  | op_set_withdraw_vesting_route o => [wr_from_account o]
  | op_validator_update o => [vu_owner o]
  | op_account_validator_vote o => [vv_account o]
  | op_account_validator_proxy o => [vp_account o]
  | op_custom o => cu_required_active_auths o
  | op_request_account_recovery o => [rr_recovery_account o]
  | op_delegate_vesting_shares o => [dv_delegator o]
  | op_create_invite o => [ci_creator o]
  | op_claim_invite_balance o => [cl_initiator o]
  | op_invite_registration o => [ir_initiator o]
  | op_set_paid_subscription o => [sp_account o]
  | op_paid_subscribe o => [pb_subscriber o]
  | op_buy_account o => [ba_buyer o]
  | op_use_invite_balance o => [ui_initiator o]
  | op_set_reward_sharing o => [rs_owner o]
  | _ => []
  end.

Definition plain_master_authorities (op : operation) : list string :=
  match op with
  | op_account_update o => match au_master o with Some _ => [au_account o] | None => [] end
  | op_transfer o => if symbol (tr_amount o) =? SHARES_SYMBOL then [tr_from o] else []
  | op_change_recovery_account o => [cr_account_to_recover o]
  | op_set_account_price o => [sa_account o]
  | op_set_subaccount_price o => [ss_account o]
  | op_target_account_sale o => [ta_account o]
  | _ => []
  end.

Definition plain_regular_authorities (op : operation) : list string :=
  match op with
  | op_account_metadata o => [am_account o]
  | op_custom o => cu_required_regular_auths o
  | op_committee_worker_create_request o => [cw_creator o]
  | op_committee_worker_cancel_request o => [cc_creator o]
  | op_committee_vote_request o => [cv_voter o]
  | op_award o => [aw_initiator o]
  | op_fixed_award o => [fa_initiator o]
  | _ => []
  end.

(** [get_required_authorities(vector<authority>&)] *)
Definition plain_other_authorities (op : operation) : list authority :=
  match op with
  | op_recover_account o => [ra_new_master_authority o; ra_recent_master_authority o]
  | _ => []
  end.

(** The authority that a change of key approvals needs: every key. *)
Definition key_approvals_authority (o : proposal_update_operation) : list authority :=
  let keys := merge_sort Z.le (elements (key_approvals_to_add o ∪ key_approvals_to_remove o)) in
  match keys with
  | [] => []
  | _ => [mk_authority (Z.of_nat (length keys)) [] ((λ k, (k, 1)) <$> keys)]
  end.

Definition get_required_active_authorities (op : chain_operation) : list string :=
  match op with
  | op_plain o => plain_active_authorities o
  | op_proposal_create o => [pc_author o]
  | op_proposal_update o => elements (active_approvals_to_add o ∪ active_approvals_to_remove o)
  | op_proposal_delete o => [pd_requester o]
  end.
Definition get_required_master_authorities (op : chain_operation) : list string :=
  match op with
  | op_plain o => plain_master_authorities o
  | op_proposal_update o => elements (master_approvals_to_add o ∪ master_approvals_to_remove o)
  | _ => []
  end.
Definition get_required_regular_authorities (op : chain_operation) : list string :=
  match op with
  | op_plain o => plain_regular_authorities o
  | op_proposal_update o => elements (regular_approvals_to_add o ∪ regular_approvals_to_remove o)
  | _ => []
  end.
Definition get_other_authorities (op : chain_operation) : list authority :=
  match op with
  | op_plain o => plain_other_authorities o
  | op_proposal_update o => key_approvals_authority o
  | _ => []
  end.

(** A [flat_set] of names: sorted, without repetitions. *)
Definition name_le : relation string := λ x y, String.leb x y = true.
#[export] Instance name_le_dec : RelDecision name_le.
Proof. unfold name_le. intros x y. apply _. Defined.
Definition flat_set (l : list string) : list string := merge_sort name_le (remove_dups l).

(** [operation_get_required_authorities] over the operations, into four sets. *)
Definition required_authorities (ops : list chain_operation) : required_auths := mk_required
  (flat_set (ops ≫= get_required_active_authorities))
  (flat_set (ops ≫= get_required_master_authorities))
  (flat_set (ops ≫= get_required_regular_authorities))
  (ops ≫= get_other_authorities).

(** [get_required_authorities(required, required, required, other)]: one set. *)
Definition required_accounts (ops : list chain_operation) : list string :=
  flat_set (ops ≫= λ op, get_required_active_authorities op ++ get_required_master_authorities op ++
    get_required_regular_authorities op).

Definition is_data_operation (op : chain_operation) : bool :=
  match op with
  | op_plain (op_custom _ | op_account_create _ | op_account_update _ | op_account_metadata _
              | op_escrow_transfer _) => true
  | _ => false
  end.
