(* ===== verification/Block.v ===== *)
(** * Blocks (libraries/protocol/block_header.hpp, block.hpp, block.cpp)

    Block numbers and identifiers, and the merkle root of the transactions.
    Identifiers are 160-bit hashes, taken as the integers their bytes denote
    from the most significant on, so that [<] on them is the byte order of
    [fc::ripemd160].  The hash functions of [fc] are the class [BlockHash]. *)

From stdpp Require Import gmap strings list.
From Stdlib Require Import ZArith Lia.
From S2P Require Import Prelude Asset Authority SignState Operations ChainOperations.

(** [block_header_extensions]: [void_t], the version a validator runs, and its
    vote for a hardfork and its time. *)
Inductive block_header_extension :=
| ext_void
| ext_version (v : Z)
| ext_hardfork_version_vote (hf_version hf_time : Z).

#[export] Instance block_header_extension_eq_dec : EqDecision block_header_extension.
Proof. solve_decision. Defined.

Record signed_block := mk_block {
  previous : Z;
  timestamp : Z;
  validator : string;
  transaction_merkle_root : Z;
  validator_signature : Z;
  transactions : list signed_transaction;
  extensions : list block_header_extension
}.

Class BlockHash := {
  sha224_hash : signed_block → Z;        (* fc::sha224::hash of the signed header *)
  merkle_digest : signed_transaction → Z;   (* signed_transaction::merkle_digest *)
  digest_pair : Z → Z → Z;               (* digest_type::hash of a pair *)
  checksum_hash : Z → Z;                 (* checksum_type::hash *)
  sha224_range b : 0 ≤ sha224_hash b < 2 ^ 224
}.

Definition num_from_id (id : Z) : Z := Z.shiftr id 128.

Definition block_num (b : signed_block) : Z := u32 (num_from_id (previous b) + 1).

Section ids.
Context {BH : BlockHash}.

(** The first four of the 28 bytes of the hash are overwritten by the block
    number, and the first twenty bytes are kept. *)
Definition block_id (b : signed_block) : Z :=
  block_num b * 2 ^ 128 + Z.shiftr (sha224_hash b) 64 mod 2 ^ 128.

(** ** The merkle root, computed in place in an array *)

(** [for (i = 0; i < i_max; i += 2) ids[k++] = hash (ids[i], ids[i + 1])], with
    [m] iterations left. *)
Fixpoint hash_pairs (m i k : nat) (ids : list Z) : res (list Z * nat) :=
  match m with
  | O => Ok (ids, k)
  | S m =>
      match ids !! i, ids !! (i + 1)%nat with
      | Some a, Some b => hash_pairs m (i + 2) (k + 1) (<[k := digest_pair a b]> ids)
      | _, _ => Err E_undefined
      end
  end.

(** One round of the [while] loop: the new array and number of hashes. *)
Definition merkle_round (ids : list Z) (n : nat) : res (list Z * nat) :=
  let i_max := (n - n mod 2)%nat in
  let? p := hash_pairs (i_max / 2) 0 0 ids in
  if decide (n mod 2 = 1)%nat
  then match p.1 !! i_max with
       | Some x => Ok (<[p.2 := x]> p.1, (p.2 + 1)%nat)
       | None => Err E_undefined
       end
  else Ok p.

Fixpoint merkle_loop (fuel : nat) (ids : list Z) (n : nat) : res (list Z) :=
  match fuel with
  | O => Err E_undefined
  | S fuel =>
      if Nat.ltb 1 n
      then let? p := merkle_round ids n in merkle_loop fuel p.1 p.2
      else Ok ids
  end.

Definition calculate_merkle_root (b : signed_block) : res Z :=
  match transactions b with
  | [] => Ok 0
  | txs =>
      let ids := merkle_digest <$> txs in
      let? ids := merkle_loop (S (length ids)) ids (length ids) in
      match ids !! 0%nat with
      | Some x => Ok (checksum_hash x)
      | None => Err E_undefined
      end
  end.

(** ** Reference definition: a tree of pairwise hashes *)

Fixpoint pair_layer (l : list Z) : list Z :=
  match l with
  | a :: b :: l => digest_pair a b :: pair_layer l
  | l => l
  end.

Fixpoint merkle_tree (fuel : nat) (l : list Z) : option Z :=
  match fuel, l with
  | _, [] => None
  | _, [x] => Some x
  | O, _ => None
  | S fuel, l => merkle_tree fuel (pair_layer l)
  end.

(** ** Facts *)

Lemma block_num_range b : 0 ≤ block_num b < 2 ^ 32.
Proof. apply Z.mod_pos_bound. lia. Qed.

Lemma num_from_block_id b : num_from_id (block_id b) = block_num b.
Proof.
  unfold num_from_id, block_id. rewrite Z.shiftr_div_pow2 by lia.
  rewrite Z.div_add_l by lia. rewrite (Z.div_small (_ mod _)); [lia|].
  apply Z.mod_pos_bound. lia.
Qed.

(** An identifier of a later block is larger. *)
Lemma block_id_lt a b : block_num a < block_num b → block_id a < block_id b.
Proof.
  intros Hlt. unfold block_id.
  pose proof (Z.mod_pos_bound (Z.shiftr (sha224_hash a) 64) (2 ^ 128) ltac:(lia)).
  pose proof (Z.mod_pos_bound (Z.shiftr (sha224_hash b) 64) (2 ^ 128) ltac:(lia)). nia.
Qed.

Lemma pair_layer_length l :
  length (pair_layer l) = (length l / 2 + length l mod 2)%nat.
Proof.
  assert (∀ n l, (length l ≤ n)%nat →
    length (pair_layer l) = (length l / 2 + length l mod 2)%nat) as H; [|by apply (H (length l))].
  clear l. intros n. induction n as [|n IH]; intros l Hl; [by destruct l; simpl in *; [|lia]|].
  destruct l as [|a [|b l]]; [done..|]. cbn [pair_layer length] in *.
  rewrite IH by lia.
  replace (S (S (length l))) with (length l + 1 * 2)%nat by lia.
  rewrite Nat.div_add, Nat.Div0.mod_add by lia. lia.
Qed.

Lemma pair_layer_snoc h l x :
  length l = (2 * h)%nat → pair_layer l ++ [x] = pair_layer (l ++ [x]).
Proof.
  revert l. induction h as [|h IH]; intros l Hl; [by destruct l|].
  destruct l as [|a [|b l]]; cbn in Hl; [lia..|]. cbn. f_equal. apply IH. lia.
Qed.

(** The inner loop: the processed pairs sit at the front, the rest is intact. *)
Lemma hash_pairs_spec m i k ids :
  (k ≤ i)%nat → (i + 2 * m ≤ length ids)%nat →
  ∃ ids', hash_pairs m i k ids = Ok (ids', (k + m)%nat) ∧
    length ids' = length ids ∧
    take (k + m) ids' = take k ids ++ pair_layer (take (2 * m) (drop i ids)) ∧
    drop (i + 2 * m) ids' = drop (i + 2 * m) ids.
Proof.
  revert i k ids. induction m as [|m IH]; intros i k ids Hki Hlen.
  - exists ids. rewrite !Nat.add_0_r. simpl. rewrite app_nil_r. done.
  - cbn [hash_pairs].
    destruct (lookup_lt_is_Some_2 ids i) as [a Ha]; [lia|].
    destruct (lookup_lt_is_Some_2 ids (i + 1)) as [b Hb]; [lia|].
    rewrite Ha, Hb.
    destruct (IH (i + 2)%nat (k + 1)%nat (<[k:=digest_pair a b]> ids))
      as (ids' & -> & Hl & Ht & Hd); [lia|rewrite length_insert; lia|].
    exists ids'. rewrite length_insert in Hl.
    replace (k + S m)%nat with (k + 1 + m)%nat by lia.
    replace (i + 2 * S m)%nat with (i + 2 + 2 * m)%nat by lia.
    split_and!; [done|done| |].
    + rewrite Ht, drop_insert_lt by lia.
      rewrite (Nat.add_1_r k), (take_S_r _ k (digest_pair a b)) by (apply list_lookup_insert_eq; lia).
      rewrite take_insert_ge by lia. rewrite <- app_assoc. simpl. f_equal.
      replace (m + S (m + 0))%nat with (S (2 * m)) by lia.
      rewrite (drop_S ids a i), (drop_S ids b (S i)) by (done || by rewrite <- Nat.add_1_r).
      replace (i + 2)%nat with (S (S i)) by lia. done.
    + rewrite Hd. by rewrite drop_insert_lt by lia.
Qed.

(** One round on the first [n] entries computes the next layer of the tree. *)
Lemma merkle_round_spec ids n :
  (n ≤ length ids)%nat →
  ∃ ids', merkle_round ids n = Ok (ids', (n / 2 + n mod 2)%nat) ∧
    length ids' = length ids ∧
    take (n / 2 + n mod 2) ids' = pair_layer (take n ids).
Proof.
  intros Hn. unfold merkle_round.
  pose proof (Nat.div_mod_eq n 2) as Hdm.
  pose proof (Nat.mod_upper_bound n 2 ltac:(lia)) as Hm.
  replace ((n - n mod 2) / 2)%nat with (n / 2)%nat.
  2:{ replace (n - n mod 2)%nat with (n / 2 * 2)%nat by lia. by rewrite Nat.div_mul by lia. }
  destruct (hash_pairs_spec (n / 2) 0 0 ids) as (ids' & -> & Hl & Ht & Hd); [lia|lia|].
  cbn [rbind fst snd]. rewrite !Nat.add_0_l, drop_0 in *. rewrite take_0, app_nil_l in Ht.
  destruct (decide (n mod 2 = 1)%nat) as [E|E].
  - replace (n - n mod 2)%nat with (2 * (n / 2))%nat by lia.
    destruct (lookup_lt_is_Some_2 ids (2 * (n / 2))) as [x Hx]; [lia|].
    assert (ids' !! (2 * (n / 2))%nat = Some x) as ->.
    { rewrite <- Hx. rewrite <- (Nat.add_0_r (2 * (n / 2))).
      by rewrite <- !lookup_drop, Hd. }
    eexists. split; [by rewrite E|]. rewrite length_insert. split; [done|].
    rewrite E. rewrite Nat.add_1_r, (take_S_r _ _ x) by (apply list_lookup_insert_eq; lia).
    rewrite take_insert_ge, Ht by lia.
    assert (take n ids = take (2 * (n / 2)) ids ++ [x]) as ->.
    { rewrite <- (take_S_r ids _ x) by done. f_equal. lia. }
    apply (pair_layer_snoc (n / 2)). apply length_take_le. lia.
  - assert (n mod 2 = 0)%nat as E0 by lia.
    exists ids'. rewrite E0, Nat.add_0_r. split_and!; [done|done|].
    rewrite Ht. f_equal. f_equal. lia.
Qed.

(** The loop reduces the first [n] entries to the root of their tree. *)
Lemma merkle_loop_spec fuel ids n :
  (1 ≤ n ≤ length ids)%nat → (n < fuel)%nat →
  ∃ ids', merkle_loop fuel ids n = Ok ids' ∧
    ids' !! 0%nat = merkle_tree fuel (take n ids) ∧ is_Some (ids' !! 0%nat).
Proof.
  revert ids n. induction fuel as [|fuel IH]; intros ids n Hn Hf; [lia|].
  cbn [merkle_loop]. destruct (Nat.ltb_spec 1 n) as [Hlt|Hge].
  - destruct (merkle_round_spec ids n) as (ids1 & -> & Hl & Ht); [lia|].
    cbn [rbind fst snd]. pose proof (Nat.div_mod_eq n 2).
    pose proof (Nat.mod_upper_bound n 2 ltac:(lia)).
    destruct (IH ids1 (n / 2 + n mod 2)%nat) as (ids' & -> & E & HS); [lia..|].
    exists ids'. split_and!; [done| |done]. rewrite E, Ht.
    pose proof (length_take_le ids n ltac:(lia)) as Hlen.
    destruct (take n ids) as [|a [|b l]]; simpl in Hlen; [lia..|done].
  - replace n with 1%nat in * by lia. exists ids. destruct ids as [|x ids]; simpl in *; [lia|].
    split_and!; [done|by destruct ids|done].
Qed.

Definition merkle_root (txs : list signed_transaction) : option Z :=
  match txs with
  | [] => Some 0
  | txs => checksum_hash <$> merkle_tree (S (length txs)) (merkle_digest <$> txs)
  end.

Lemma merkle_root_tree (b : signed_block) :
  ∃ root, calculate_merkle_root b = Ok root ∧ merkle_root (transactions b) = Some root.
Proof.
  unfold calculate_merkle_root, merkle_root. destruct (transactions b) as [|t txs]; [by exists 0|].
  set (ids := merkle_digest <$> t :: txs).
  assert (length ids = length (t :: txs)) as Hlen by apply length_fmap.
  destruct (merkle_loop_spec (S (length ids)) ids (length ids)) as (ids' & -> & E0 & [x Hx]).
  { rewrite Hlen. simpl. lia. } { lia. }
  rewrite take_ge in E0 by lia. exists (checksum_hash x). cbn [rbind]. rewrite Hx. split; [done|].
  by rewrite <- Hlen, <- E0, Hx.
Qed.

(** C39 (equivalence).  The in-place loop of [calculate_merkle_root] terminates
    within the fuel, never reads outside its array, and returns the hash of the
    root of the balanced tree of pairwise hashes (an odd last hash moves up
    unchanged); an empty block has root zero. *)
Theorem merkle_root_correct (b : signed_block) :
  calculate_merkle_root b =
  match transactions b with
  | [] => Ok 0
  | txs =>
      match merkle_tree (S (length txs)) (merkle_digest <$> txs) with
      | Some root => Ok (checksum_hash root)
      | None => Err E_undefined
      end
  end ∧
  is_Ok (calculate_merkle_root b) = true.
Proof.
  destruct (merkle_root_tree b) as (root & -> & E). split; [|done]. unfold merkle_root in E.
  destruct (transactions b) as [|t txs]; [by injection E as <-|].
  cbv zeta. destruct (merkle_tree _ _); [by injection E as <-|done].
Qed.

(** The identifier of a block carries its number in its top
    32 bits, so that [num_from_id] recovers it and the number of a block is one
    more than that of the block it links to (modulo 2^32). *)
Theorem block_id_carries_num (parent child : signed_block) :
  num_from_id (block_id parent) = block_num parent ∧
  (previous child = block_id parent → block_num child = u32 (block_num parent + 1)).
Proof.
  split; [apply num_from_block_id|]. intros Hp. unfold block_num at 1.
  by rewrite Hp, num_from_block_id.
Qed.
End ids.

(** A concrete hash, for examples: the signature field itself. *)
Definition signature_hash : BlockHash.
Proof.
  refine {| sha224_hash b := (validator_signature b * 2 ^ 64) mod 2 ^ 224;
            merkle_digest t := ref_block_prefix (tx t); digest_pair x y := 31 * x + y + 7; checksum_hash x := x |}.
  intros b. by apply Z.mod_pos_bound.
Defined.

Definition example_block (parent_id salt : Z) : signed_block :=
  mk_block parent_id 0 "init" 0 salt [] [].

Lemma block_id_carries_num_witness :
  let g := example_block 0 5 in
  let c := example_block (@block_id signature_hash g) 9 in
  num_from_id (@block_id signature_hash g) = 1 ∧ block_num c = 2.
Proof.
  intros g c. destruct (@block_id_carries_num signature_hash g c) as [H1 H2].
  split; [exact H1|exact (H2 eq_refl)].
Defined.
