(* ===== verification/ForkDb.v ===== *)
(** * The fork database (libraries/chain/fork_database.hpp, fork_database.cpp)

    The fork database keeps the recent blocks as a tree: [_index] holds the
    blocks that link to the known chain, [_unlinked_index] those that wait for
    their parent, [_head] the tip.  Blocks are shared objects: the items live in
    a [heap] under addresses, the indexes and [_head] hold addresses
    ([shared_ptr]), and [item_prev] is a [weak_ptr], which [lock] resolves only
    while an index or [_head] still owns the object.

    An operation that throws keeps the changes made before the exception, so
    the state is threaded through failures as well ([FM]). *)

From stdpp Require Import gmap strings list.
From Stdlib Require Import ZArith Lia.
From S2P Require Import Prelude Block.

(** ** State *)

Record fork_item := mk_item {
  item_prev : option nat;
  item_num : Z;
  item_invalid : bool;
  item_id : Z;
  item_data : signed_block
}.
Definition eta_fork_item (i : fork_item) : fork_item :=
  {| item_prev := item_prev i; item_num := item_num i; item_invalid := item_invalid i;
     item_id := item_id i; item_data := item_data i |}.
#[export] Instance set_item_prev : Setter item_prev := ltac:(derive_setter eta_fork_item item_prev).

Record fork_database := mk_fork_database {
  heap : gmap nat fork_item;
  next_addr : nat;
  _max_size : Z;
  _emergency_consensus_active : bool;
  _unlinked_index : gmap Z nat;
  _index : gmap Z nat;
  _head : option nat
}.
Definition eta_fork_database (d : fork_database) : fork_database :=
  {| heap := heap d; next_addr := next_addr d; _max_size := _max_size d;
     _emergency_consensus_active := _emergency_consensus_active d;
     _unlinked_index := _unlinked_index d; _index := _index d; _head := _head d |}.
#[export] Instance set_heap : Setter heap := ltac:(derive_setter eta_fork_database heap).
#[export] Instance set_next_addr : Setter next_addr := ltac:(derive_setter eta_fork_database next_addr).
#[export] Instance set__max_size : Setter _max_size := ltac:(derive_setter eta_fork_database _max_size).
#[export] Instance set__emergency : Setter _emergency_consensus_active :=
  ltac:(derive_setter eta_fork_database _emergency_consensus_active).
#[export] Instance set__unlinked_index : Setter _unlinked_index :=
  ltac:(derive_setter eta_fork_database _unlinked_index).
#[export] Instance set__index : Setter _index := ltac:(derive_setter eta_fork_database _index).
#[export] Instance set__head : Setter _head := ltac:(derive_setter eta_fork_database _head).

Definition empty_fork_database : fork_database :=
  mk_fork_database ∅ 0 2400 false ∅ ∅ None.

(** Computations that keep the state when they throw. *)
Definition FM (A : Type) : Type := fork_database → fork_database * (fc_error + A).
Definition fret {A} (a : A) : FM A := λ s, (s, inr a).
Definition fthrow {A} (e : fc_error) : FM A := λ s, (s, inl e).
Definition fbind {A B} (m : FM A) (k : A → FM B) : FM B :=
  λ s, match m s with (s', inr a) => k a s' | (s', inl e) => (s', inl e) end.
Definition fupd (f : fork_database → fork_database) : FM unit := λ s, (f s, inr tt).
Definition fgets {A} (f : fork_database → A) : FM A := λ s, (s, inr (f s)).
Definition fassert (b : bool) (e : fc_error) : FM unit :=
  if b then fret tt else fthrow e.
#[local] Notation "'let&' x := m 'in' k" := (fbind m (λ x, k))
  (at level 10, x name, m at level 100, k at level 200).
#[local] Notation "'do&' m 'in' k" := (fbind m (λ _, k))
  (at level 10, m at level 100, k at level 200).

(** ** Pointers *)

(** Whether some [shared_ptr] of the database owns the object. *)
Definition owned (s : fork_database) (a : nat) : bool :=
  bool_decide (_head s = Some a) ||
  bool_decide (map_Exists (λ _ b, b = a) (_index s)) ||
  bool_decide (map_Exists (λ _ b, b = a) (_unlinked_index s)).

(** [weak_ptr::lock]. *)
Definition lock (s : fork_database) (p : option nat) : option nat :=
  match p with
  | Some a => if owned s a then Some a else None
  | None => None
  end.

(** Dereference; an address outside the heap is undefined behaviour. *)
Definition deref (a : nat) : FM fork_item :=
  λ s, match heap s !! a with Some i => (s, inr i) | None => (s, inl E_undefined) end.

(** [multi_index_container::insert]: nothing happens when the id is taken. *)
Definition index_insert (k : Z) (a : nat) (m : gmap Z nat) : gmap Z nat :=
  match m !! k with Some _ => m | None => <[k:=a]> m end.

(** The items of an index that satisfy a test on the item. *)
Definition item_test (s : fork_database) (P : fork_item → bool) (a : nat) : bool :=
  match heap s !! a with Some i => P i | None => false end.
Definition select (s : fork_database) (m : gmap Z nat) (P : fork_item → bool) : list (Z * nat) :=
  filter (λ p, item_test s P p.2 = true) (map_to_list m).

(** [find] in the non-unique hashed index [by_previous] returns one of the
    matching items; which one is left to the container. *)
Class BucketOrder := {
  pick : list (Z * nat) → option (Z * nat);
  pick_nil : pick [] = None;
  pick_elem l : l ≠ [] → ∃ x, pick l = Some x ∧ x ∈ l
}.

Definition first_in_bucket : BucketOrder.
Proof.
  refine {| pick l := head l |}; [done|].
  intros [|x l]; [done|]. intros _. exists x. split; [done|]. by left.
Defined.

Section fork_database.
Context {BH : BlockHash} {BO : BucketOrder}.

(** ** Operations *)

Definition reset : FM unit :=
  fupd (λ s, s <| _head := None |> <| _index := ∅ |> <| _unlinked_index := ∅ |>).

(** [std::make_shared<fork_item>(b)] *)
Definition make_shared (b : signed_block) : FM nat :=
  λ s, let a := next_addr s in
       (s <| heap := <[a := mk_item None (block_num b) false (block_id b) b]> (heap s) |>
          <| next_addr := S a |>, inr a).

Definition pop_block : FM unit :=
  let& h := fgets _head in
  match h with
  | None => fthrow (E_assert "cannot pop an empty fork database")
  | Some a =>
      let& i := deref a in
      let& p := fgets (λ s, lock s (item_prev i)) in
      match p with
      | None => fthrow (E_assert "popping head block would leave fork DB empty")
      | Some p => fupd (λ s, s <| _head := Some p |>)
      end
  end.

Definition start_block (b : signed_block) : FM unit :=
  let& a := make_shared b in
  do& fupd (λ s, s <| _index ::= index_insert (block_id b) a |>) in
  fupd (λ s, s <| _head := Some a |>).

(** The children of [parent] in [_index] whose [prev] does not lock get
    [parent]. *)
Definition _repair_child_prev_links (parent : nat) : FM unit :=
  let& p := deref parent in
  let& l := fgets (λ s, select s (_index s) (λ i, item_num i =? u32 (item_num p + 1))) in
  foldr (λ c k,
    do& (λ s,
      match heap s !! c.2 with
      | Some i =>
          if bool_decide (previous (item_data i) = item_id p) &&
             bool_decide (lock s (item_prev i) = None)
          then (s <| heap := <[c.2 := i <| item_prev := Some parent |>]> (heap s) |>, inr tt)
          else (s, inr tt)
      | None => (s, inl E_undefined)
      end) in k) (fret tt) l.

(** The tail of [_push_block] decides the head: a longer chain wins, and in
    emergency mode the smaller id wins at equal height. *)
Definition take_head (a : nat) (i : fork_item) (s : fork_database) : fork_database :=
  match _head s with
  | None => s <| _head := Some a |>
  | Some h =>
      match heap s !! h with
      | Some hi =>
          if item_num hi <? item_num i then s <| _head := Some a |>
          else if (item_num i =? item_num hi) && (item_id i <? item_id hi) &&
                  _emergency_consensus_active s
          then s <| _head := Some a |>
          else s
      | None => s
      end
  end.

(** The checks of [_push_block] on a block that is not yet in [_index]: the
    window of cached numbers, and the link to the parent. *)
Definition link_item (a : nat) (i : fork_item) : FM unit :=
  let& h := fgets _head in
  match h with
  | None => fret tt
  | Some h =>
      let& hi := deref h in
      let& m := fgets _max_size in
      do& fassert (negb (item_num i <=? Z.max 0 (item_num hi - m))) E_block_too_old in
      if bool_decide (previous (item_data i) = 0) then fret tt
      else
        let& q := fgets (λ s, _index s !! previous (item_data i)) in
        match q with
        | None => fthrow E_unlinkable_block
        | Some q =>
            let& qi := deref q in
            do& fassert (negb (item_invalid qi)) (E_assert "!(*itr)->invalid") in
            fupd (λ s, s <| heap ::= <[a := i <| item_prev := Some q |>]> |>)
        end
  end.

Fixpoint _push_block (fuel : nat) (a : nat) : FM unit :=
  match fuel with
  | O => fthrow E_undefined
  | S fuel =>
      let& i := deref a in
      let& known := fgets (λ s, _index s !! item_id i) in
      match known with
      | Some _ => fret tt
      | None =>
          do& link_item a i in
          do& fupd (λ s, s <| _index ::= <[item_id i := a]> |>) in
          do& fupd (take_head a i) in
          _push_next fuel (item_id i)
      end
  end
with _push_next (fuel : nat) (new_id : Z) : FM unit :=
  match fuel with
  | O => fthrow E_undefined
  | S fuel =>
      let& itr := fgets (λ s, pick (select s (_unlinked_index s)
                                      (λ i, previous (item_data i) =? new_id))) in
      match itr with
      | None => fret tt
      | Some tmp =>
          do& fupd (λ s, s <| _unlinked_index ::= delete tmp.1 |>) in
          do& _push_block fuel tmp.2 in
          _push_next fuel new_id
      end
  end.

(** The fuel the recursion needs: two calls per waiting block. *)
Definition push_fuel (s : fork_database) : nat := (2 * size (_unlinked_index s) + 2)%nat.

Definition insert_as_base (b : signed_block) : FM unit :=
  let& existing := fgets (λ s, _index s !! block_id b) in
  match existing with
  | Some e => _repair_child_prev_links e
  | None =>
      let& a := make_shared b in
      do& fupd (λ s, s <| _index ::= <[block_id b := a]> |>) in
      let& f := fgets push_fuel in
      do& _push_next f (block_id b) in
      _repair_child_prev_links a
  end.

Definition push_block (b : signed_block) : FM (option nat) :=
  let& a := make_shared b in
  let& f := fgets push_fuel in
  λ s, match _push_block f a s with
       | (s', inl E_unlinkable_block) =>
           (s' <| _unlinked_index ::= index_insert (block_id b) a |>, inl E_unlinkable_block)
       | (s', inl e) => (s', inl e)
       | (s', inr _) => (s', inr (_head s'))
       end.

(** Erase, from the front of the [block_num] index, what is below the window. *)
Definition prune (s : fork_database) (bound : Z) (m : gmap Z nat) : gmap Z nat :=
  filter (λ p, item_test s (λ i, item_num i <? bound) p.2 = false) m.

Definition set_max_size (sz : Z) : FM unit := λ s,
  let s := s <| _max_size := sz |> in
  match _head s with
  | None => (s, inr tt)
  | Some h =>
      match heap s !! h with
      | None => (s, inl E_undefined)
      | Some hi =>
          let bound := Z.max 0 (item_num hi - sz) in
          (s <| _index := prune s bound (_index s) |>
             <| _unlinked_index := prune s bound (_unlinked_index s) |>, inr tt)
      end
  end.

Definition is_known_block (k : Z) (s : fork_database) : bool :=
  match _index s !! k with
  | Some _ => true
  | None => match _unlinked_index s !! k with Some _ => true | None => false end
  end.

Definition fetch_block (k : Z) (s : fork_database) : option nat :=
  match _index s !! k with
  | Some a => Some a
  | None => _unlinked_index s !! k
  end.

Definition fetch_block_by_number (n : Z) (s : fork_database) : list (Z * nat) :=
  select s (_index s) (λ i, item_num i =? n).

Definition set_head (h : option nat) : FM unit := fupd (λ s, s <| _head := h |>).

Definition set_emergency_mode (active : bool) : FM unit :=
  fupd (λ s, s <| _emergency_consensus_active := active |>).

Definition remove (k : Z) : FM unit := fupd (λ s, s <| _index ::= delete k |>).

Definition remove_blocks_by_number (n : Z) : FM unit :=
  let& blocks := fgets (fetch_block_by_number n) in
  foldr (λ b k, do& fupd (λ s, s <| _index ::= delete b.1 |>) in k) (fret tt) blocks.

(** ** Walking the tree *)

Definition branch_broken : fc_error := E_assert "broken prev chain".

(** Follow [prev] from [cur] while its number is above [target]; the visited
    addresses and the block reached. *)
Fixpoint walk_down (fuel : nat) (s : fork_database) (cur : nat) (target : Z)
    : res (list nat * nat) :=
  match fuel with
  | O => Err E_undefined
  | S fuel =>
      match heap s !! cur with
      | None => Err E_undefined
      | Some i =>
          if target <? block_num (item_data i)
          then match lock s (item_prev i) with
               | None => Err branch_broken
               | Some p => let? r := walk_down fuel s p target in Ok (cur :: r.1, r.2)
               end
          else Ok ([], cur)
      end
  end.

(** Step both branches back until they have the same parent. *)
Fixpoint walk_both (fuel : nat) (s : fork_database) (x y : nat)
    : res (list nat * list nat) :=
  match fuel with
  | O => Err E_undefined
  | S fuel =>
      match heap s !! x, heap s !! y with
      | Some xi, Some yi =>
          if bool_decide (previous (item_data xi) = previous (item_data yi))
          then Ok ([x], [y])
          else
            match lock s (item_prev xi), lock s (item_prev yi) with
            | Some x', Some y' =>
                let? r := walk_both fuel s x' y' in Ok (x :: r.1, y :: r.2)
            | _, _ => Err branch_broken
            end
      | _, _ => Err E_undefined
      end
  end.

Definition walk_fuel (i : fork_item) : nat := S (Z.to_nat (item_num i)).

Definition fetch_branch_from (first second : Z) (s : fork_database)
    : res (list nat * list nat) :=
  let? fa := res_of_option (_index s !! first) (E_assert "first block not found in fork_db") in
  let? sa := res_of_option (_index s !! second) (E_assert "second block not found in fork_db") in
  let? fi := res_of_option (heap s !! fa) E_undefined in
  let? si := res_of_option (heap s !! sa) E_undefined in
  let? r1 := walk_down (walk_fuel fi) s fa (block_num (item_data si)) in
  let? fi' := res_of_option (heap s !! r1.2) E_undefined in
  let? r2 := walk_down (walk_fuel si) s sa (block_num (item_data fi')) in
  let? r := walk_both (walk_fuel fi') s r1.2 r2.2 in
  Ok (r1.1 ++ r.1, r2.1 ++ r.2).

Fixpoint walk_main (fuel : nat) (s : fork_database) (cur : option nat) (n : Z)
    : res (option nat) :=
  match fuel with
  | O => Err E_undefined
  | S fuel =>
      match cur with
      | None => Ok None
      | Some a =>
          match heap s !! a with
          | None => Err E_undefined
          | Some i => if n <? item_num i then walk_main fuel s (lock s (item_prev i)) n
                      else Ok (Some a)
          end
      end
  end.

Definition walk_main_branch_to_num (n : Z) (s : fork_database) : res (option nat) :=
  match _head s with
  | None => Err E_undefined
  | Some h =>
      match heap s !! h with
      | None => Err E_undefined
      | Some hi => if item_num hi <? n then Ok None else walk_main (S (walk_fuel hi)) s (Some h) n
      end
  end.

Definition fetch_block_on_main_branch_by_number (n : Z) (s : fork_database) : res (option nat) :=
  match fetch_block_by_number n s with
  | [b] => Ok (Some b.2)
  | [] => Ok None
  | _ => walk_main_branch_to_num n s
  end.
End fork_database.
