(* ===== verification/ForkDbProofs.v ===== *)
(** * Correctness of the fork database

    The representation invariant [fdb_wf] and its preservation by every
    operation, termination of the recursive linking of waiting blocks, the
    choice of the head, and the two branches of [fetch_branch_from]. *)

From stdpp Require Import gmap strings list.
From Stdlib Require Import ZArith Lia.
From S2P Require Import Prelude Block ForkDb.

(** ** Weakest preconditions of computations that keep the state on failure *)

Section fwp.
Context {A B : Type}.
Implicit Types (s : fork_database).

Definition fwp {A} (m : FM A) (Q : fork_database → fc_error + A → Prop) (s : fork_database) : Prop :=
  Q (m s).1 (m s).2.

Lemma fwp_mono (m : FM A) (Q R : fork_database → fc_error + A → Prop) s :
  (∀ s' r, Q s' r → R s' r) → fwp m Q s → fwp m R s.
Proof. unfold fwp. auto. Qed.

Lemma fwp_bind (m : FM A) (k : A → FM B) Q s :
  fwp m (λ s' r, match r with inr a => fwp (k a) Q s' | inl e => Q s' (inl e) end) s →
  fwp (fbind m k) Q s.
Proof. unfold fwp, fbind. destruct (m s) as [s' [e|a]]; done. Qed.

Lemma fwp_deref a (Q : fork_database → fc_error + fork_item → Prop) s i :
  heap s !! a = Some i → Q s (inr i) → fwp (deref a) Q s.
Proof. unfold fwp, deref. by intros ->. Qed.

Lemma fwp_fgets (f : fork_database → A) (Q : fork_database → fc_error + A → Prop) s :
  Q s (inr (f s)) → fwp (fgets f) Q s.
Proof. done. Qed.

Lemma fwp_fupd f (Q : fork_database → fc_error + unit → Prop) s :
  Q (f s) (inr tt) → fwp (fupd f) Q s.
Proof. done. Qed.

Lemma fwp_fret (x : A) (Q : fork_database → fc_error + A → Prop) s :
  Q s (inr x) → fwp (fret x) Q s.
Proof. done. Qed.

Lemma fwp_fthrow e (Q : fork_database → fc_error + A → Prop) s :
  Q s (inl e) → fwp (fthrow e) Q s.
Proof. done. Qed.

Lemma fwp_fassert (b : bool) e (Q : fork_database → fc_error + unit → Prop) s :
  (b = true → Q s (inr tt)) → (b = false → Q s (inl e)) → fwp (fassert b e) Q s.
Proof. unfold fwp, fassert. destruct b; auto. Qed.
End fwp.

Ltac fwp_step :=
  lazymatch goal with
  | |- fwp (fbind _ _) _ _ => apply fwp_bind
  | |- fwp (fgets _) _ _ => apply fwp_fgets; cbn beta iota
  | |- fwp (fupd _) _ _ => apply fwp_fupd; cbn beta iota
  | |- fwp (fret _) _ _ => apply fwp_fret; cbn beta iota
  | |- fwp (fthrow _) _ _ => apply fwp_fthrow; cbn beta iota
  | H : heap ?s !! ?a = Some ?i |- fwp (deref ?a) _ ?s => apply (fwp_deref a _ s i H)
  | |- fwp (fassert _ _) _ _ => apply fwp_fassert; intros
  end.

Section facts.
Context {BH : BlockHash} {BO : BucketOrder}.
Implicit Types (s : fork_database) (i : fork_item) (a p h : nat) (k : Z).

(** ** The representation invariant *)

Definition item_ok s i : Prop :=
  item_id i = block_id (item_data i) ∧ item_num i = block_num (item_data i) ∧
  0 < item_num i ∧
  ∀ p, item_prev i = Some p →
    ∃ j, heap s !! p = Some j ∧ item_id j = previous (item_data i).

Definition index_ok s (m : gmap Z nat) : Prop :=
  ∀ k a, m !! k = Some a → ∃ i, heap s !! a = Some i ∧ item_id i = k.

Record fdb_wf s : Prop := {
  wf_fresh : ∀ a, (next_addr s ≤ a)%nat → heap s !! a = None;
  wf_heap : ∀ a i, heap s !! a = Some i → item_ok s i;
  wf_index : index_ok s (_index s);
  wf_unlinked : index_ok s (_unlinked_index s);
  wf_head : ∀ h, _head s = Some h → is_Some (heap s !! h)
}.

(** What no operation changes: the blocks already on the heap. *)
Definition same_blocks s s' : Prop :=
  ∀ a i, heap s !! a = Some i →
    ∃ i', heap s' !! a = Some i' ∧ item_id i' = item_id i ∧
          item_num i' = item_num i ∧ item_data i' = item_data i.

#[global] Instance same_blocks_preorder : PreOrder same_blocks.
Proof.
  split.
  - intros s a i Hi. eauto.
  - intros s1 s2 s3 H12 H23 a i Hi. destruct (H12 a i Hi) as (i2 & Hi2 & E1 & E2 & E3).
    destruct (H23 a i2 Hi2) as (i3 & ? & ? & ? & ?). exists i3. split_and!; congruence.
Qed.

Lemma index_ok_mono s s' m : same_blocks s s' → index_ok s m → index_ok s' m.
Proof.
  intros Hs Hm k a Hk. destruct (Hm k a Hk) as (i & Hi & <-).
  destruct (Hs a i Hi) as (i' & ? & ? & _). eauto.
Qed.

Lemma index_ok_subseteq s m m' : m' ⊆ m → index_ok s m → index_ok s m'.
Proof. intros Hsub Hm k a Hk. apply Hm. by eapply lookup_weaken. Qed.

Lemma index_ok_insert s m k a i :
  index_ok s m → heap s !! a = Some i → item_id i = k → index_ok s (<[k:=a]> m).
Proof.
  intros Hm Hi Hk k' a' [[<- <-]|[_ ?]]%lookup_insert_Some; eauto.
Qed.

Lemma item_ok_mono s s' i : same_blocks s s' → item_ok s i → item_ok s' i.
Proof.
  intros Hs (? & ? & ? & Hp). split_and!; [done..|]. intros p Hpi.
  destruct (Hp p Hpi) as (j & Hj & <-). destruct (Hs p j Hj) as (j' & ? & ? & _). eauto.
Qed.

(** A new set of indexes over the same heap. *)
Lemma wf_reindex s s' :
  fdb_wf s → heap s' = heap s → next_addr s' = next_addr s →
  index_ok s (_index s') → index_ok s (_unlinked_index s') →
  (∀ h, _head s' = Some h → is_Some (heap s !! h)) → fdb_wf s'.
Proof.
  intros [Hf Hh _ _ _] Eh En Hi Hu Hd.
  assert (same_blocks s s') as Hs by (intros a i Ha; rewrite Eh; eauto).
  split.
  - rewrite En, Eh. done.
  - intros a i. rewrite Eh. eauto using item_ok_mono.
  - eauto using index_ok_mono.
  - eauto using index_ok_mono.
  - rewrite Eh. done.
Qed.

(** [item->prev = p] *)
Lemma wf_set_prev s a p i j :
  fdb_wf s → heap s !! a = Some i → heap s !! p = Some j →
  item_id j = previous (item_data i) →
  let s' := s <| heap ::= <[a := i <| item_prev := Some p |>]> |> in
  fdb_wf s' ∧ same_blocks s s'.
Proof.
  intros Hwf Ha Hp Hj s'.
  assert (same_blocks s s') as Hs.
  { intros a' i' Ha'. subst s'. cbn. destruct (decide (a' = a)) as [->|].
    - rewrite Ha in Ha'. injection Ha' as <-. rewrite lookup_insert_eq. eauto.
    - rewrite lookup_insert_ne by done. eauto. }
  split; [|done]. destruct Hwf as [Hf Hh Hix Hu Hd]. split.
  - intros a' Ha'. subst s'. cbn in *. rewrite lookup_insert_ne; [by apply Hf|].
    intros <-. rewrite Hf in Ha; done.
  - intros a' i' Ha'. unfold s' in Ha'. cbn in Ha'. apply lookup_insert_Some in Ha' as [[<- <-]|[_ Ha']].
    + apply (item_ok_mono s); [done|]. destruct (Hh a i Ha) as (? & ? & ? & ?).
      split_and!; [done..|]. cbn. intros p' [= <-]. eauto.
    + apply (item_ok_mono s); eauto.
  - by apply (index_ok_mono s).
  - by apply (index_ok_mono s).
  - intros h Hh'. destruct (Hd h Hh') as [x Hx]. destruct (Hs h x Hx) as (? & ? & _). eauto.
Qed.

Lemma wf_make_shared s b :
  fdb_wf s → 0 < block_num b →
  let s' := (make_shared b s).1 in
  fdb_wf s' ∧ same_blocks s s' ∧
  heap s' !! next_addr s = Some (mk_item None (block_num b) false (block_id b) b).
Proof.
  intros [Hf Hh Hix Hu Hd] Hb s'. subst s'. unfold make_shared; cbn.
  set (it := mk_item _ _ _ _ _).
  assert (same_blocks s (s <| heap := <[next_addr s := it]> (heap s) |> <| next_addr := S (next_addr s) |>)) as Hs.
  { intros a i Ha. cbn. rewrite lookup_insert_ne; [eauto|].
    intros <-. rewrite Hf in Ha; [done|lia]. }
  split_and!; [split|done|apply lookup_insert_eq].
  - intros a Ha. cbn in *. rewrite lookup_insert_ne by lia. apply Hf. lia.
  - intros a i Ha. cbn in Ha. apply lookup_insert_Some in Ha as [[<- <-]|[_ Ha]].
    + split_and!; [done..|]. intros p [=].
    + apply (item_ok_mono s); eauto.
  - by apply (index_ok_mono s).
  - by apply (index_ok_mono s).
  - intros h Hh'. destruct (Hd h Hh') as [x Hx]. destruct (Hs h x Hx) as (? & ? & _). eauto.
Qed.

(** ** Linking blocks *)

(** The head is the best linked block: the highest number, and in emergency
    mode the smallest identifier among those. *)
Definition head_best s : Prop :=
  match _head s with
  | None => _index s = ∅
  | Some h =>
      ∃ hi, heap s !! h = Some hi ∧ _index s !! item_id hi = Some h ∧
        ∀ k a i, _index s !! k = Some a → heap s !! a = Some i →
          item_num i ≤ item_num hi ∧
          (_emergency_consensus_active s = true → item_num i = item_num hi →
           item_id hi ≤ item_id i)
  end.

(** No block waits for a linked parent, the parents in [X] excepted. *)
Definition none_ready (X : gset Z) s : Prop :=
  ∀ k a i, _unlinked_index s !! k = Some a → heap s !! a = Some i →
    is_Some (_index s !! previous (item_data i)) → previous (item_data i) ∈ X.

Lemma lookup_back s s' m k a i' :
  same_blocks s s' → index_ok s m → m !! k = Some a → heap s' !! a = Some i' →
  ∃ i, heap s !! a = Some i ∧ item_id i' = item_id i ∧
       item_num i' = item_num i ∧ item_data i' = item_data i.
Proof.
  intros Hs Hm Hk Hi'. destruct (Hm k a Hk) as (i & Hi & _).
  destruct (Hs a i Hi) as (i2 & Hi2 & ? & ? & ?). rewrite Hi2 in Hi'. injection Hi' as <-. eauto 6.
Qed.

Lemma none_ready_mono X s s' :
  fdb_wf s → same_blocks s s' → _index s' = _index s →
  _unlinked_index s' ⊆ _unlinked_index s → none_ready X s → none_ready X s'.
Proof.
  intros Hwf Hs Ei Eu Hr k a i' Hk Hi'.
  assert (_unlinked_index s !! k = Some a) as Hk0 by (by eapply lookup_weaken).
  destruct (lookup_back s s' _ k a i' Hs (wf_unlinked s Hwf) Hk0 Hi') as (i & ? & _ & _ & ->).
  rewrite Ei. eauto.
Qed.

Lemma head_best_mono s s' :
  fdb_wf s → same_blocks s s' → _index s' = _index s → _head s' = _head s →
  _emergency_consensus_active s' = _emergency_consensus_active s →
  head_best s → head_best s'.
Proof.
  intros Hwf Hs Ei Eh Ee. unfold head_best. rewrite Ei, Eh, Ee.
  destruct (_head s) as [h|]; [|done]. intros (hi & Hh & Hin & Hbest).
  destruct (Hs h hi Hh) as (hi' & Hh' & Eid & Enum & _).
  exists hi'. rewrite Eid, Enum. split_and!; [done..|]. intros k a i' Hk Hi'.
  destruct (lookup_back s s' _ k a i' Hs (wf_index s Hwf) Hk Hi') as (i & Hi & -> & -> & _). eauto.
Qed.

(** What linking may change. *)
Record links s s' : Prop := {
  links_wf : fdb_wf s';
  links_blocks : same_blocks s s';
  links_index : _index s ⊆ _index s';
  links_unlinked : _unlinked_index s' ⊆ _unlinked_index s;
  links_emergency : _emergency_consensus_active s' = _emergency_consensus_active s;
  links_head : head_best s → head_best s'
}.

Lemma links_refl s : fdb_wf s → links s s.
Proof. by split. Qed.

Lemma links_trans s1 s2 s3 : links s1 s2 → links s2 s3 → links s1 s3.
Proof.
  intros [] []. split; [done| |etrans; eassumption..|congruence|auto].
  by transitivity s2.
Qed.

Lemma link_item_spec s a i :
  fdb_wf s → heap s !! a = Some i →
  fwp (link_item a i) (λ s' r,
    r ≠ inl E_undefined ∧
    (r = inl E_unlinkable_block → _index s !! previous (item_data i) = None) ∧
    (∀ e, r = inl e → s' = s) ∧
    links s s' ∧ _index s' = _index s ∧ _unlinked_index s' = _unlinked_index s ∧
    _head s' = _head s) s.
Proof.
  intros Hwf Ha. pose proof (links_refl s Hwf) as Hrefl. unfold link_item.
  repeat fwp_step. destruct (_head s) as [h|] eqn:Eh; [|by repeat fwp_step].
  destruct (wf_head s Hwf h Eh) as [hi Hhi]. repeat fwp_step; [|by split_and!].
  case_bool_decide; [by repeat fwp_step|]. repeat fwp_step.
  destruct (_index s !! previous (item_data i)) as [q|] eqn:Eq; [|by repeat fwp_step].
  destruct (wf_index s Hwf _ q Eq) as (qi & Hqi & Eid). repeat fwp_step; [|by split_and!].
  destruct (wf_set_prev s a q i qi Hwf Ha Hqi Eid) as [Hwf' Hs].
  split_and!; [done..| |done|done|by rewrite <- Eh].
  split; [done..|]. by apply head_best_mono.
Qed.

Lemma take_head_spec s a i :
  fdb_wf s → heap s !! a = Some i → _index s !! item_id i = None →
  let s1 := s <| _index ::= <[item_id i := a]> |> in
  let s' := take_head a i s1 in
  links s s' ∧ _index s' = <[item_id i := a]> (_index s) ∧
  _unlinked_index s' = _unlinked_index s ∧ heap s' = heap s.
Proof.
  intros Hwf Ha Hnew s1 s'.
  assert (heap s' = heap s ∧ next_addr s' = next_addr s ∧
    _index s' = <[item_id i := a]> (_index s) ∧
    _unlinked_index s' = _unlinked_index s ∧
    _emergency_consensus_active s' = _emergency_consensus_active s ∧
    (_head s' = _head s ∨ _head s' = Some a)) as (Eh & En & Ei & Eu & Ee & Ed).
  { subst s' s1. unfold take_head. repeat case_match; cbn; auto 10. }
  assert (index_ok s (_index s')) as Hix.
  { rewrite Ei. eapply index_ok_insert; eauto using wf_index. }
  assert (fdb_wf s') as Hwf'.
  { apply (wf_reindex s); [done..| |].
    - rewrite Eu. by apply wf_unlinked.
    - intros h Hh. destruct Ed as [Ed|Ed]; rewrite Ed in Hh; [by eapply wf_head|].
      injection Hh as <-. by rewrite Ha. }
  split_and!; [|done..]. split; [done| | |by rewrite Eu|done|].
  - intros b j Hb. rewrite Eh. eauto.
  - rewrite Ei. by apply insert_subseteq.
  - intros Hbest. unfold head_best in *. rewrite Ei, Eh, Ee.
    subst s' s1. unfold take_head. cbn [_head heap set_field set__index].
    destruct (_head s) as [h|] eqn:Ehead.
    + destruct Hbest as (hi & Hhi & Hin & Hall). cbn. rewrite Hhi.
      assert (item_id hi ≠ item_id i) as Hne by (intros E; congruence).
      assert (∀ k b j, <[item_id i:=a]> (_index s) !! k = Some b → heap s !! b = Some j →
        j = i ∨ _index s !! k = Some b) as Hcase.
      { intros k b j [[_ <-]|[_ ?]]%lookup_insert_Some ?; [left; congruence|by right]. }
      destruct (Z.ltb_spec (item_num hi) (item_num i)) as [Hlt|Hge]; cbn.
      * exists i. split_and!; [done|apply lookup_insert_eq|]. intros k b j Hk Hj.
        destruct (Hcase k b j Hk Hj) as [->|Hk']; [lia|].
        destruct (Hall k b j Hk' Hj). lia.
      * destruct (_ && _) eqn:Etie; cbn; propify.
        -- exists i. split_and!; [done|apply lookup_insert_eq|]. intros k b j Hk Hj.
           destruct (Hcase k b j Hk Hj) as [->|Hk']; [lia|].
           destruct (Hall k b j Hk' Hj) as [? Hmin]. split; [lia|]. intros Hem Hn.
           specialize (Hmin Hem). lia.
        -- rewrite Ehead. exists hi. rewrite lookup_insert_ne by done. split_and!; [done..|].
           intros k b j Hk Hj. destruct (Hcase k b j Hk Hj) as [->|Hk']; [|by apply (Hall k b)].
           split; [done|]. intros Hem Hn. rewrite Hem, andb_true_r in Etie.
           destruct (Z.eqb_spec (item_num i) (item_num hi)); [|lia]. cbn in Etie. propify. lia.
    + cbn. exists i. rewrite Hbest, insert_empty. split_and!; [done|apply lookup_singleton_eq|].
      intros k b j [<- <-]%lookup_singleton_Some ?. replace j with i by congruence. lia.
Qed.

(** What [_push_block] and [_push_next] guarantee. *)
Definition pushed i s s' (r : fc_error + unit) : Prop :=
  r ≠ inl E_undefined ∧ links s s' ∧
  (r = inl E_unlinkable_block → s' = s ∧ _index s !! previous (item_data i) = None) ∧
  (r = inr tt → is_Some (_index s' !! item_id i) ∧
                ∀ X, none_ready X s → none_ready X s').

Definition pushed_next k s s' (r : fc_error + unit) : Prop :=
  r ≠ inl E_undefined ∧ r ≠ inl E_unlinkable_block ∧ links s s' ∧
  (r = inr tt → ∀ X, none_ready (X ∪ {[k]}) s → none_ready X s').

Lemma select_elem s m P k a :
  (k, a) ∈ select s m P ↔ m !! k = Some a ∧ ∃ i, heap s !! a = Some i ∧ P i = true.
Proof.
  unfold select. rewrite list_elem_of_filter, elem_of_map_to_list.
  unfold item_test; cbn. destruct (heap s !! a); naive_solver.
Qed.

Lemma pick_select_None s m P k a i :
  pick (select s m P) = None → m !! k = Some a → heap s !! a = Some i → P i = false.
Proof.
  intros Hp Hk Hi. destruct (P i) eqn:HP; [|done].
  assert ((k, a) ∈ select s m P) as Hin by (apply select_elem; eauto).
  destruct (pick_elem (select s m P)) as (x & Hx & _); [|congruence].
  intros E. rewrite E in Hin. by apply elem_of_nil in Hin.
Qed.

Lemma pick_select_Some s m P x :
  pick (select s m P) = Some x →
  m !! x.1 = Some x.2 ∧ ∃ i, heap s !! x.2 = Some i ∧ P i = true.
Proof.
  intros Hp. destruct (pick_elem (select s m P)) as (y & Hy & Hin).
  { intros E. rewrite E, pick_nil in Hp. done. }
  rewrite Hy in Hp. injection Hp as ->. destruct x as [k a]. by apply select_elem in Hin.
Qed.

Lemma push_next_spec_step fuel k s :
  (∀ s a i, fdb_wf s → heap s !! a = Some i →
    (2 * size (_unlinked_index s) + 2 ≤ fuel)%nat → fwp (_push_block fuel a) (pushed i s) s) →
  (∀ s, fdb_wf s → is_Some (_index s !! k) →
    (2 * size (_unlinked_index s) + 1 ≤ fuel)%nat → fwp (_push_next fuel k) (pushed_next k s) s) →
  fdb_wf s → is_Some (_index s !! k) → (2 * size (_unlinked_index s) + 1 ≤ S fuel)%nat →
  fwp (_push_next (S fuel) k) (pushed_next k s) s.
Proof.
  intros IHb IHn Hwf Hk Hf. cbn [_push_next]. repeat fwp_step.
  destruct (pick _) as [x|] eqn:Epick; fwp_step.
  2:{ split_and!; [done..|by apply links_refl|]. intros _ X Hr k' a i Hk' Hi Hin.
      specialize (Hr k' a i Hk' Hi Hin).
      apply (pick_select_None _ _ _ k' a i) in Epick; [|done..].
      cbn beta in Epick. propify. set_solver. }
  apply pick_select_Some in Epick as (Hx & i & Hi & Hprev). cbn beta in Hprev. propify.
  set (s1 := s <| _unlinked_index ::= delete x.1 |>).
  assert (same_blocks s s1) as Hs by (intros b j Hb; eauto).
  assert (fdb_wf s1) as Hwf1.
  { apply (wf_reindex s); [done..|exact (wf_index s Hwf)| |exact (wf_head s Hwf)].
    eapply index_ok_subseteq; [|by apply wf_unlinked]. apply delete_subseteq. }
  assert (links s s1) as L01.
  { split; [done..|apply delete_subseteq|done|]. by apply head_best_mono. }
  assert (size (_unlinked_index s) = S (size (_unlinked_index s1))) as Hsize.
  { subst s1. cbn. erewrite map_size_delete_Some by done.
    assert (size (_unlinked_index s) ≠ 0)%nat; [|lia].
    apply map_size_ne_0_lookup. eauto. }
  repeat fwp_step. fold s1.
  eapply fwp_mono; [|apply (IHb s1 x.2 i); [done|done|lia]].
  intros s2 r (Hu & L12 & Hunl & Hok). destruct r as [e|[]].
  { split_and!; [done| |by eapply links_trans|done].
    intros [= ->]. destruct Hunl as [_ Hno]; [done|]. rewrite Hprev in Hno.
    change (_index s1) with (_index s) in Hno. destruct Hk. congruence. }
  destruct Hok as [_ Hready]; [done|].
  assert (size (_unlinked_index s2) ≤ size (_unlinked_index s1))%nat
    by (apply map_subseteq_size, (links_unlinked _ _ L12)).
  eapply fwp_mono; [|apply IHn; [by eapply links_wf| |lia]].
  - intros s3 r (? & ? & L23 & Hok). split_and!; [done..|by eauto using links_trans|].
    intros Hr X HX. apply Hok; [done|]. apply Hready.
    apply (none_ready_mono _ s); [done..|apply delete_subseteq|done].
  - destruct Hk as [b Hb]. exists b. eapply lookup_weaken; [|apply (links_index _ _ L12)]. done.
Qed.

Lemma push_spec fuel :
  (∀ s a i, fdb_wf s → heap s !! a = Some i →
    (2 * size (_unlinked_index s) + 2 ≤ fuel)%nat → fwp (_push_block fuel a) (pushed i s) s) ∧
  (∀ k s, fdb_wf s → is_Some (_index s !! k) →
    (2 * size (_unlinked_index s) + 1 ≤ fuel)%nat → fwp (_push_next fuel k) (pushed_next k s) s).
Proof.
  induction fuel as [|fuel [IHb IHn]]; [split; intros; lia|].
  split; [|by intros; apply push_next_spec_step; auto].
  intros s a i Hwf Ha Hf. cbn [_push_block]. repeat fwp_step.
  destruct (_index s !! item_id i) eqn:Ek; fwp_step.
  { split_and!; [done|by apply links_refl|done|]. rewrite Ek. eauto. }
  eapply fwp_mono; [|by apply link_item_spec].
  intros s1 r (Hu & Hno & Hsame & L1 & Ei & Eu & Eh). destruct r as [e|[]].
  { split_and!; [done..| |done]. intros [= ->]. split; [by eapply Hsame|auto]. }
  repeat fwp_step.
  destruct (links_blocks _ _ L1 a i Ha) as (i1 & Ha1 & Eid & Enum & Edata).
  rewrite <- Ei in Ek. rewrite <- Eid in Ek.
  destruct (take_head_spec s1 a i1 (links_wf _ _ L1) Ha1 Ek) as (L2 & Ei2 & Eu2 & Eh2).
  assert (take_head a i1 (s1 <| _index ::= <[item_id i1 := a]> |>) =
          take_head a i (s1 <| _index ::= <[item_id i := a]> |>)) as Eth.
  { unfold take_head. by rewrite Enum, Eid. }
  rewrite Eth in *. set (s2 := take_head a i _) in *. clearbody s2.
  assert (is_Some (_index s2 !! item_id i)) as Hin2.
  { rewrite Ei2, Eid, lookup_insert_eq. eauto. }
  eapply fwp_mono; [|apply IHn; [by eapply links_wf|done|rewrite Eu2, Eu; lia]].
  intros s3 r (? & ? & L3 & Hok). split_and!; [done|by eauto using links_trans|done|].
  intros Hr. split.
  { destruct Hin2 as [b Hb]. exists b. eapply lookup_weaken; [done|apply (links_index _ _ L3)]. }
  intros X HX. apply Hok; [done|]. intros k b j Hk Hj Hin.
  rewrite Eu2, Eu in Hk. rewrite Eh2 in Hj.
  destruct (lookup_back s s1 _ k b j (links_blocks _ _ L1) (wf_unlinked s Hwf) Hk Hj)
    as (j0 & Hj0 & _ & _ & Edj).
  rewrite Ei2, Ei, Eid, lookup_insert_is_Some in Hin.
  destruct Hin as [->|[_ Hin]]; [set_solver|].
  rewrite Edj in *. specialize (HX k b j0 Hk Hj0 Hin). set_solver.
Qed.

(** ** The public operations *)

Lemma push_block_spec s b :
  fdb_wf s → 0 < block_num b →
  fwp (push_block b) (λ s' r,
    fdb_wf s' ∧ r ≠ inl E_undefined ∧ same_blocks s s' ∧
    _emergency_consensus_active s' = _emergency_consensus_active s ∧
    _index s ⊆ _index s' ∧ (head_best s → head_best s') ∧
    match r with
    | inr h => h = _head s' ∧ is_Some (_index s' !! block_id b) ∧
               (none_ready ∅ s → none_ready ∅ s')
    | inl E_unlinkable_block =>
        _index s' = _index s ∧ _index s !! previous b = None ∧
        is_known_block (block_id b) s' = true ∧
        (none_ready ∅ s → none_ready ∅ s')
    | inl _ => True
    end) s.
Proof.
  intros Hwf Hb. destruct (wf_make_shared s b Hwf Hb) as (Hwf1 & Hs1 & Ha).
  unfold push_block. repeat fwp_step. unfold fwp at 1.
  change ((make_shared b s).2) with (@inr fc_error nat (next_addr s)). cbv iota.
  set (s1 := (make_shared b s).1) in *. set (it := mk_item _ _ _ _ _) in Ha.
  assert (head_best s → head_best s1) as Hbest1 by by apply head_best_mono.
  assert (none_ready ∅ s → none_ready ∅ s1) as Hready1 by by apply none_ready_mono.
  assert (_index s1 = _index s ∧
    _emergency_consensus_active s1 = _emergency_consensus_active s) as [Ei1 Ee1] by done.
  clearbody s1.
  repeat fwp_step.
  pose proof (proj1 (push_spec (push_fuel s1)) s1 (next_addr s) it Hwf1 Ha) as Hp.
  unfold fwp in Hp |- *. unfold push_fuel in Hp at 1. specialize (Hp ltac:(lia)).
  destruct (_push_block (push_fuel s1) (next_addr s) s1) as [s2 r]; cbn in Hp.
  destruct Hp as (Hu & L & Hunl & Hok).
  pose proof (links_wf _ _ L) as Hwf2. pose proof (links_head _ _ L) as Hh2.
  pose proof (links_emergency _ _ L) as He2. pose proof (links_index _ _ L) as Hi2.
  rewrite Ei1 in Hi2. rewrite Ee1 in He2.
  assert (same_blocks s s2) as Hs2 by (transitivity s1; [done|by eapply links_blocks]).
  destruct r as [e|[]]; cbn.
  2:{ destruct Hok as [? Hr]; [done|]. split_and!; auto. }
  destruct e; cbn; try (split_and!; by auto).
  destruct Hunl as [-> Hno]; [done|]. cbn in Hno. clear Hok Hu. rewrite <- Ei1.
  assert (_unlinked_index s1 !! block_id b = None ∨ is_Some (_unlinked_index s1 !! block_id b))
    as Hcase by (destruct (_unlinked_index s1 !! block_id b); eauto).
  split_and!; [|done|done|done|done|by auto|done|done| |].
  - apply (wf_reindex s1); [done..|exact (wf_index _ Hwf1)| |exact (wf_head _ Hwf1)].
    cbn. unfold index_insert. destruct (_unlinked_index s1 !! block_id b);
      [by apply wf_unlinked|]. eapply index_ok_insert; eauto using wf_unlinked.
  - unfold is_known_block. cbn. destruct (_index s1 !! block_id b); [done|].
    unfold index_insert. destruct Hcase as [->|[x Hx]]; [by rewrite lookup_insert_eq|].
    by rewrite Hx, Hx.
  - intros Hr k a i Hk Hi Hin. cbn in *. unfold index_insert in Hk.
    destruct Hcase as [Hn|[x Hx]]; [rewrite Hn in Hk|rewrite Hx in Hk; by eapply Hready1].
    apply lookup_insert_Some in Hk as [[_ <-]|[_ Hk]]; [|by eapply Hready1].
    rewrite Ha in Hi. injection Hi as <-. cbn in Hin. rewrite Hno in Hin. by destruct Hin.
Qed.

Lemma repair_spec s p pi :
  fdb_wf s → heap s !! p = Some pi →
  fwp (_repair_child_prev_links p) (λ s' r,
    r = inr tt ∧ fdb_wf s' ∧ same_blocks s s' ∧ _index s' = _index s) s.
Proof.
  intros Hwf Hp. unfold _repair_child_prev_links. repeat fwp_step.
  assert (∀ c, c ∈ select s (_index s) (λ i, item_num i =? u32 (item_num pi + 1)) →
    is_Some (heap s !! c.2)) as Hin.
  { intros [k a] (_ & i & ? & _)%select_elem. eauto. }
  generalize (select s (_index s) (λ i, item_num i =? u32 (item_num pi + 1))), Hin. clear Hin.
  intros l. revert s pi Hwf Hp. induction l as [|c l IH]; intros s pi Hwf Hp Hin; cbn [foldr].
  { fwp_step. split_and!; [done..|reflexivity|done]. }
  fwp_step. unfold fwp at 1. destruct (Hin c) as [i Hi]; [by left|]. rewrite Hi.
  destruct (_ && _) eqn:E; cbn [fst snd]; propify.
  2:{ apply (IH s pi); [done..|]. intros c' Hc'. apply Hin. by right. }
  destruct (wf_set_prev s c.2 p i pi Hwf Hi Hp) as [Hwf' Hs']; [done|].
  change (s <| heap := <[c.2:=i <| item_prev := Some p |>]> (heap s) |>)
    with (s <| heap ::= <[c.2:=i <| item_prev := Some p |>]> |>).
  set (s' := s <| heap ::= _ |>) in *. destruct (Hs' p pi Hp) as (pi' & Hp' & Eid & Enum & _).
  rewrite <- Eid. eapply fwp_mono; [|apply (IH s' pi'); [done..|]].
  - intros s2 r (? & ? & ? & ?). split_and!; [done..| |done]. by transitivity s'.
  - intros c' Hc'. destruct (Hin c') as [j Hj]; [by right|].
    destruct (Hs' c'.2 j Hj) as (? & ? & _). eauto.
Qed.

Lemma insert_as_base_spec s b :
  fdb_wf s → 0 < block_num b →
  fwp (insert_as_base b) (λ s' r,
    fdb_wf s' ∧ r ≠ inl E_undefined ∧ r ≠ inl E_unlinkable_block ∧ same_blocks s s' ∧
    is_Some (_index s' !! block_id b)) s.
Proof.
  intros Hwf Hb. unfold insert_as_base. repeat fwp_step.
  destruct (_index s !! block_id b) as [e|] eqn:Ee.
  { destruct (wf_index s Hwf _ e Ee) as (ei & Hei & Eid).
    eapply fwp_mono; [|by eapply repair_spec].
    intros s' r (-> & Hwf' & Hs & ->). split_and!; [done..|by rewrite Ee]. }
  destruct (wf_make_shared s b Hwf Hb) as (Hwf1 & Hs1 & Ha).
  repeat fwp_step. unfold fwp at 1.
  change ((make_shared b s).2) with (@inr fc_error nat (next_addr s)). cbv iota.
  set (s1 := (make_shared b s).1) in *. set (it := mk_item _ _ _ _ _) in Ha. clearbody s1.
  repeat fwp_step. set (s2 := s1 <| _index ::= _ |>).
  assert (same_blocks s s2) as Hs2 by (intros x i Hx; apply (Hs1 x i Hx)).
  assert (fdb_wf s2) as Hwf2.
  { apply (wf_reindex s1); [done..| |exact (wf_unlinked _ Hwf1)|exact (wf_head _ Hwf1)].
    eapply index_ok_insert; eauto using wf_index. }
  assert (_index s2 !! block_id b = Some (next_addr s)) as Hin by apply lookup_insert_eq.
  eapply fwp_mono; [|apply (proj2 (push_spec (push_fuel s2))); [done|by rewrite Hin|]].
  2:{ unfold push_fuel. lia. }
  intros s3 r (? & ? & L & _).
  pose proof (lookup_weaken _ _ _ _ Hin (links_index _ _ L)) as Hin3.
  assert (same_blocks s s3) by (transitivity s2; [done|by eapply links_blocks]).
  destruct r as [e|[]]; [split_and!; eauto using links_wf|].
  destruct (links_blocks _ _ L (next_addr s) it Ha) as (it3 & Hit3 & _).
  eapply fwp_mono; [|by eapply repair_spec; eauto using links_wf].
  intros s4 r (-> & ? & ? & ->). split_and!; [done..|by transitivity s3|eauto].
Qed.

Lemma wf_pop_block s : fdb_wf s → fdb_wf (pop_block s).1.
Proof.
  intros Hwf. change (fwp pop_block (λ s' _, fdb_wf s') s).
  unfold pop_block. repeat fwp_step. destruct (_head s) as [h|] eqn:Eh; [|by repeat fwp_step].
  destruct (wf_head s Hwf h Eh) as [hi Hh]. repeat fwp_step.
  destruct (lock s (item_prev hi)) as [q|] eqn:El; [|by repeat fwp_step]. repeat fwp_step.
  apply (wf_reindex s); [done..|exact (wf_index _ Hwf)|exact (wf_unlinked _ Hwf)|].
  cbn. intros h' [= <-]. unfold lock in El. destruct (item_prev hi) as [q'|] eqn:Ep; [|done].
  destruct (owned s q'); [|done]. injection El as ->.
  destruct (wf_heap s Hwf h hi Hh) as (_ & _ & _ & Hp). destruct (Hp q Ep) as (j & Hj & _). eauto.
Qed.

Lemma wf_start_block s b : fdb_wf s → 0 < block_num b → fdb_wf (start_block b s).1.
Proof.
  intros Hwf Hb. destruct (wf_make_shared s b Hwf Hb) as (Hwf1 & _ & Ha).
  apply (wf_reindex (make_shared b s).1); [done..| |exact (wf_unlinked _ Hwf1)|].
  - change (_index (start_block b s).1) with (index_insert (block_id b) (next_addr s) (_index s)).
    unfold index_insert. destruct (_index s !! block_id b); [exact (wf_index _ Hwf1)|].
    eapply index_ok_insert; [exact (wf_index _ Hwf1)|exact Ha|done].
  - cbn. intros h [= <-]. by rewrite lookup_insert_eq.
Qed.

Lemma wf_set_max_size s sz : fdb_wf s → fdb_wf (set_max_size sz s).1.
Proof.
  intros Hwf. unfold set_max_size. cbn.
  assert (fdb_wf (s <| _max_size := sz |>)) as Hwf1.
  { apply (wf_reindex s); try done; by destruct Hwf. }
  destruct (_head s) as [h|]; [|done]. destruct (heap s !! h); [|done]. cbn [fst].
  apply (wf_reindex s); [done..| | |exact (wf_head _ Hwf)]; cbn; unfold prune.
  - eapply index_ok_subseteq; [apply map_filter_subseteq|exact (wf_index _ Hwf)].
  - eapply index_ok_subseteq; [apply map_filter_subseteq|exact (wf_unlinked _ Hwf)].
Qed.

Lemma wf_delete s k : fdb_wf s → fdb_wf (s <| _index ::= delete k |>).
Proof.
  intros Hwf. apply (wf_reindex s); [done..| |exact (wf_unlinked _ Hwf)|exact (wf_head _ Hwf)].
  eapply index_ok_subseteq; [apply delete_subseteq|exact (wf_index _ Hwf)].
Qed.

Lemma wf_remove_blocks s n : fdb_wf s → fdb_wf (remove_blocks_by_number n s).1.
Proof.
  intros Hwf. change (fwp (remove_blocks_by_number n) (λ s' _, fdb_wf s') s).
  unfold remove_blocks_by_number. repeat fwp_step.
  generalize (fetch_block_by_number n s). intros l. revert s Hwf.
  induction l as [|c l IH]; intros s Hwf; cbn [foldr]; repeat fwp_step; [done|].
  by apply IH, wf_delete.
Qed.

(** ** Reachable states *)

(** One call on the fork database, failing calls included.  New blocks have a
    number that has not wrapped around to zero; [set_head] gets a live item. *)
Inductive fdb_step s : fork_database → Prop :=
| step_reset : fdb_step s (reset s).1
| step_pop_block : fdb_step s (pop_block s).1
| step_start_block b : 0 < block_num b → fdb_step s (start_block b s).1
| step_insert_as_base b : 0 < block_num b → fdb_step s (insert_as_base b s).1
| step_push_block b : 0 < block_num b → fdb_step s (push_block b s).1
| step_set_max_size sz : fdb_step s (set_max_size sz s).1
| step_set_head o : (∀ a, o = Some a → is_Some (heap s !! a)) → fdb_step s (set_head o s).1
| step_set_emergency_mode x : fdb_step s (set_emergency_mode x s).1
| step_remove k : fdb_step s (remove k s).1
| step_remove_blocks n : fdb_step s (remove_blocks_by_number n s).1.

Lemma wf_step s s' : fdb_wf s → fdb_step s s' → fdb_wf s'.
Proof.
  intros Hwf []; auto using wf_pop_block, wf_start_block, wf_set_max_size, wf_delete,
    wf_remove_blocks.
  - by apply (wf_reindex s).
  - by destruct (insert_as_base_spec s b Hwf).
  - by destruct (push_block_spec s b Hwf).
  - apply (wf_reindex s); [done..|exact (wf_index _ Hwf)|exact (wf_unlinked _ Hwf)|by eauto].
  - apply (wf_reindex s); try done; by destruct Hwf.
  - by apply wf_delete.
Qed.

Lemma wf_empty : fdb_wf empty_fork_database.
Proof. by split. Qed.

(** ** Branches *)

Definition num_at s a : Z := match heap s !! a with Some i => item_num i | None => 0 end.
Definition previous_at s a : Z :=
  match heap s !! a with Some i => previous (item_data i) | None => 0 end.

(** [prev_path s x l y]: following [prev] from [x] visits the blocks [l], [x]
    and the last one [y] included. *)
Inductive prev_path s : nat → list nat → nat → Prop :=
| path_end x : is_Some (heap s !! x) → prev_path s x [x] x
| path_step x i p l y :
    heap s !! x = Some i → lock s (item_prev i) = Some p →
    prev_path s p l y → prev_path s x (x :: l) y.

Lemma lock_parent s x i p :
  fdb_wf s → heap s !! x = Some i → lock s (item_prev i) = Some p →
  is_Some (heap s !! p) ∧ num_at s p = item_num i - 1.
Proof.
  intros Hwf Hx Hl. destruct (wf_heap s Hwf x i Hx) as (Eid & Enum & Hpos & Hp).
  unfold lock in Hl. destruct (item_prev i) as [q|] eqn:Eq; [|done].
  destruct (owned s q); [|done]. injection Hl as ->.
  destruct (Hp p eq_refl) as (j & Hj & Ej). split; [eauto|]. unfold num_at. rewrite Hj.
  destruct (wf_heap s Hwf p j Hj) as (Eidj & Enumj & _ & _).
  pose proof (block_num_range (item_data j)) as Hr. rewrite <- Enumj in Hr.
  rewrite Enum in Hpos. unfold block_num in Enum, Hpos.
  rewrite <- Ej, Eidj, num_from_block_id, <- Enumj in Enum, Hpos. unfold u32 in *.
  destruct (decide (item_num j + 1 = 2 ^ 32)) as [E|]; [rewrite E in Hpos; done|].
  rewrite Z.mod_small in Enum by lia. lia.
Qed.

Lemma path_app s x l e l' y :
  prev_path s x (l ++ [e]) e → prev_path s e l' y → prev_path s x (l ++ l') y.
Proof.
  revert x. induction l as [|z l IH]; intros x Hx He; cbn in *.
  - inversion Hx as [|? ? ? ? ? ? ? Hnil]; subst; [done|]. by inversion Hnil.
  - inversion Hx; subst; [by destruct l|]. by eapply path_step; eauto.
Qed.

Lemma path_num s x l y z : fdb_wf s → prev_path s x l y → z ∈ l → num_at s z ≤ num_at s x.
Proof.
  intros Hwf Hpath. induction Hpath as [x _|x i p l y Hx Hl Hp IH]; intros Hz.
  - apply list_elem_of_singleton in Hz as ->. done.
  - apply elem_of_cons in Hz as [->|Hz]; [done|].
    destruct (lock_parent s x i p Hwf Hx Hl) as [_ Hn]. specialize (IH Hz).
    unfold num_at at 2. rewrite Hx. lia.
Qed.

Lemma path_start s x l y : prev_path s x l y → is_Some (heap s !! x).
Proof. intros []; eauto. Qed.

(** [walk_down] stops at the wanted height, or at once below it. *)
Lemma walk_down_spec fuel s x i target :
  fdb_wf s → heap s !! x = Some i → 0 ≤ target → (Z.to_nat (item_num i) < fuel)%nat →
  match walk_down fuel s x target with
  | Ok (l, e) =>
      prev_path s x (l ++ [e]) e ∧ (∀ z, z ∈ l → target < num_at s z) ∧
      num_at s e = Z.min (item_num i) target
  | Err err => err = branch_broken
  end.
Proof.
  intros Hwf. revert x i. induction fuel as [|fuel IH]; intros x i Hx Ht Hf; [lia|].
  cbn [walk_down]. rewrite Hx. destruct (wf_heap s Hwf x i Hx) as (_ & <- & Hpos & _).
  destruct (Z.ltb_spec target (item_num i)).
  - destruct (lock s (item_prev i)) as [q|] eqn:El; [|done].
    destruct (lock_parent s x i q Hwf Hx El) as [[j Hj] Hn].
    unfold num_at in Hn. rewrite Hj in Hn.
    specialize (IH q j Hj Ht ltac:(lia)). destruct (walk_down fuel s q target) as [[l e]|];
      cbn; [|done]. destruct IH as (Hpath & Hl & He). split_and!.
    + by eapply path_step.
    + intros z [->|Hz]%elem_of_cons; [unfold num_at; by rewrite Hx|auto].
    + lia.
  - split_and!; [apply path_end; eauto| |unfold num_at; rewrite Hx; lia].
    by intros z ?%elem_of_nil.
Qed.

(** The last blocks of two branches have the same parent, and no earlier pair
    of blocks at the same height has. *)
Definition fork_point s (l1 l2 : list nat) x y : Prop :=
  num_at s x = num_at s y ∧ previous_at s x = previous_at s y ∧
  ∀ u v, u ∈ l1 → v ∈ l2 → num_at s u = num_at s v →
    previous_at s u = previous_at s v → u = x ∧ v = y.

Lemma walk_both_spec fuel s x y i j :
  fdb_wf s → heap s !! x = Some i → heap s !! y = Some j → item_num i = item_num j →
  (Z.to_nat (item_num i) < fuel)%nat →
  match walk_both fuel s x y with
  | Ok (l1, l2) => ∃ x' y', prev_path s x l1 x' ∧ prev_path s y l2 y' ∧ fork_point s l1 l2 x' y'
  | Err err => err = branch_broken
  end.
Proof.
  intros Hwf. revert x y i j.
  induction fuel as [|fuel IH]; intros x y i j Hx Hy Hnum Hf; [lia|].
  cbn [walk_both]. rewrite Hx, Hy. destruct (wf_heap s Hwf x i Hx) as (_ & _ & Hpos & _).
  case_bool_decide as Hprev.
  - exists x, y. split_and!; [apply path_end; eauto..|].
    split; [unfold num_at; by rewrite Hx, Hy|].
    split; [unfold previous_at; by rewrite Hx, Hy|].
    by intros u v ->%list_elem_of_singleton ->%list_elem_of_singleton.
  - destruct (lock s (item_prev i)) as [x1|] eqn:Elx; [|done].
    destruct (lock s (item_prev j)) as [y1|] eqn:Ely; [|done].
    destruct (lock_parent s x i x1 Hwf Hx Elx) as [[i1 Hx1] Hnx].
    destruct (lock_parent s y j y1 Hwf Hy Ely) as [[j1 Hy1] Hny].
    assert (item_num i1 = num_at s x1) as Ei1 by (unfold num_at; by rewrite Hx1).
    assert (item_num j1 = num_at s y1) as Ej1 by (unfold num_at; by rewrite Hy1).
    specialize (IH x1 y1 i1 j1 Hx1 Hy1 ltac:(lia) ltac:(lia)).
    destruct (walk_both fuel s x1 y1) as [[l1 l2]|]; cbn; [|done].
    destruct IH as (x' & y' & Hp1 & Hp2 & En & Ep & Hu). exists x', y'.
    split_and!; [by eapply path_step..|]. split_and!; [done..|].
    assert (num_at s x = item_num i) as Enx by (unfold num_at; by rewrite Hx).
    assert (num_at s y = item_num j) as Eny by (unfold num_at; by rewrite Hy).
    intros u v [->|Hul]%elem_of_cons [->|Hvl]%elem_of_cons Huv Hpuv.
    + unfold previous_at in Hpuv. rewrite Hx, Hy in Hpuv. done.
    + pose proof (path_num s y1 l2 y' v Hwf Hp2 Hvl). lia.
    + pose proof (path_num s x1 l1 x' u Hwf Hp1 Hul). lia.
    + by apply Hu.
Qed.

Lemma fetch_branch_spec s f g :
  fdb_wf s →
  match fetch_branch_from f g s with
  | Ok (l1, l2) =>
      ∃ fa ga x y, _index s !! f = Some fa ∧ _index s !! g = Some ga ∧
        prev_path s fa l1 x ∧ prev_path s ga l2 y ∧ fork_point s l1 l2 x y
  | Err e => e ≠ E_undefined
  end.
Proof.
  intros Hwf. unfold fetch_branch_from.
  destruct (_index s !! f) as [fa|] eqn:Ef; [|done].
  destruct (_index s !! g) as [ga|] eqn:Eg; [|done]. cbn [res_of_option rbind].
  destruct (wf_index s Hwf f fa Ef) as (fi & Hfa & _).
  destruct (wf_index s Hwf g ga Eg) as (gi & Hga & _). rewrite Hfa, Hga. cbn [res_of_option rbind].
  destruct (wf_heap s Hwf fa fi Hfa) as (_ & _ & Hpf & _).
  destruct (wf_heap s Hwf ga gi Hga) as (_ & <- & Hpg & _).
  pose proof (walk_down_spec (walk_fuel fi) s fa fi (item_num gi) Hwf Hfa
    ltac:(lia) ltac:(unfold walk_fuel; lia)) as H1.
  destruct (walk_down (walk_fuel fi) s fa (item_num gi)) as [[l1 e1]|]; [|by subst].
  destruct H1 as (Hpath1 & Hl1 & Hn1). cbn [rbind fst snd].
  assert (is_Some (heap s !! e1)) as [ei He1].
  { clear -Hpath1. remember (l1 ++ [e1]) as l eqn:E. clear E. induction Hpath1; auto. }
  rewrite He1. cbn [res_of_option rbind].
  assert (item_num ei = num_at s e1) as Eei by (unfold num_at; by rewrite He1).
  destruct (wf_heap s Hwf e1 ei He1) as (_ & <- & Hpe & _).
  pose proof (walk_down_spec (walk_fuel gi) s ga gi (item_num ei) Hwf Hga
    ltac:(lia) ltac:(unfold walk_fuel; lia)) as H2.
  destruct (walk_down (walk_fuel gi) s ga (item_num ei)) as [[l2 e2]|]; [|by subst].
  destruct H2 as (Hpath2 & Hl2 & Hn2). cbn [rbind fst snd].
  assert (is_Some (heap s !! e2)) as [ei2 He2].
  { clear -Hpath2. remember (l2 ++ [e2]) as l eqn:E. clear E. induction Hpath2; auto. }
  assert (item_num ei2 = num_at s e2) as Eei2 by (unfold num_at; by rewrite He2).
  pose proof (walk_both_spec (walk_fuel ei) s e1 e2 ei ei2 Hwf He1 He2
    ltac:(lia) ltac:(unfold walk_fuel; lia)) as H3.
  destruct (walk_both (walk_fuel ei) s e1 e2) as [[m1 m2]|]; [|by subst].
  destruct H3 as (x & y & Hp1 & Hp2 & En & Ep & Hu). cbn [rbind fst snd].
  exists fa, ga, x, y. split_and!; [done..|by eapply path_app|by eapply path_app|].
  split_and!; [done..|]. intros u v [Hu1|Hu1]%elem_of_app [Hv1|Hv1]%elem_of_app Huv Hpuv.
  - specialize (Hl1 u Hu1). specialize (Hl2 v Hv1).
    pose proof (path_num s fa _ e1 u Hwf Hpath1 ltac:(set_solver)).
    pose proof (path_num s ga _ e2 v Hwf Hpath2 ltac:(set_solver)).
    unfold num_at in *. rewrite Hfa, Hga, He1 in *. lia.
  - specialize (Hl1 u Hu1). pose proof (path_num s e2 m2 y v Hwf Hp2 Hv1). lia.
  - specialize (Hl2 v Hv1). pose proof (path_num s e1 m1 x u Hwf Hp1 Hu1). lia.
  - by apply Hu.
Qed.

(** ** Agreement in emergency mode *)

Definition head_id s : option Z :=
  match _head s with
  | Some h => item_id <$> heap s !! h
  | None => None
  end.

Definition push_all (bs : list signed_block) s : fork_database :=
  foldl (λ s b, (push_block b s).1) s bs.

Lemma push_all_spec bs s :
  fdb_wf s → head_best s → Forall (λ b, 0 < block_num b) bs →
  fdb_wf (push_all bs s) ∧ head_best (push_all bs s) ∧
  _emergency_consensus_active (push_all bs s) = _emergency_consensus_active s.
Proof.
  intros Hwf Hbest Hbs. revert s Hwf Hbest.
  induction Hbs as [|b bs Hb _ IH]; intros s Hwf Hbest; [done|]. cbn.
  destruct (push_block_spec s b Hwf Hb) as (Hwf' & _ & _ & <- & _ & Hbest' & _).
  by apply IH; auto.
Qed.

Lemma head_best_unique s1 s2 :
  fdb_wf s1 → fdb_wf s2 → head_best s1 → head_best s2 →
  _emergency_consensus_active s1 = true → _emergency_consensus_active s2 = true →
  dom (_index s1) = dom (_index s2) → head_id s1 = head_id s2.
Proof.
  assert (∀ s s' h hi h' hi', fdb_wf s → fdb_wf s' → head_best s →
    _emergency_consensus_active s = true → _head s = Some h → heap s !! h = Some hi →
    heap s' !! h' = Some hi' → _index s' !! item_id hi' = Some h' →
    dom (_index s) = dom (_index s') →
    item_num hi' ≤ item_num hi ∧ (item_num hi' = item_num hi → item_id hi ≤ item_id hi')) as Hle.
  { intros s s' h hi h' hi' Hwf Hwf' Hbest Hem Eh Hh Hh' Hin Hdom.
    unfold head_best in Hbest. rewrite Eh in Hbest. destruct Hbest as (hi0 & Hh0 & _ & Hall).
    replace hi0 with hi in * by congruence.
    assert (is_Some (_index s !! item_id hi')) as [a Ha].
    { apply elem_of_dom. rewrite Hdom. apply elem_of_dom. eauto. }
    destruct (wf_index s Hwf _ a Ha) as (i & Hi & Eid).
    destruct (Hall _ a i Ha Hi) as [Hn Hid]. specialize (Hid Hem).
    destruct (wf_heap s Hwf a i Hi) as (Ei & En & _).
    destruct (wf_heap s' Hwf' h' hi' Hh') as (Ei' & En' & _).
    assert (item_num i = item_num hi') as Enum.
    { rewrite En, En', <- !num_from_block_id, <- Ei, <- Ei'. by f_equal. }
    rewrite <- Enum, <- Eid. auto. }
  intros Hwf1 Hwf2 Hb1 Hb2 He1 He2 Hdom. pose proof Hb1 as Hb1'. pose proof Hb2 as Hb2'.
  unfold head_best in Hb1', Hb2'. unfold head_id.
  destruct (_head s1) as [h1|] eqn:Eh1, (_head s2) as [h2|] eqn:Eh2; [| | |done].
  - destruct Hb1' as (i1 & Hi1 & Hin1 & _), Hb2' as (i2 & Hi2 & Hin2 & _).
    destruct (Hle s1 s2 h1 i1 h2 i2) as [Hn12 Hid12]; [done..|].
    destruct (Hle s2 s1 h2 i2 h1 i1) as [Hn21 Hid21]; [done..|].
    rewrite Hi1, Hi2. cbn. f_equal. lia.
  - destruct Hb1' as (i1 & _ & Hin1 & _). apply elem_of_dom_2 in Hin1.
    rewrite Hdom, Hb2', dom_empty_L in Hin1. by apply elem_of_empty in Hin1.
  - destruct Hb2' as (i2 & _ & Hin2 & _). apply elem_of_dom_2 in Hin2.
    rewrite <- Hdom, Hb1', dom_empty_L in Hin2. by apply elem_of_empty in Hin2.
Qed.

(** ** Theorems *)

(** C35 (invariant).  In every state reachable by calls of the fork database,
    failing ones included, the indexes and the head hold live items, every item
    is filed under its block's identifier, and every [prev] link points to the
    block that the child's header names as its predecessor. *)
Theorem fork_db_invariant s :
  rtc fdb_step empty_fork_database s → fdb_wf s.
Proof.
  intros Hs. pose proof wf_empty as Hwf. revert Hwf.
  induction Hs as [|x y z Hstep _ IH]; intros Hwf; [done|]. by eapply IH, wf_step.
Qed.

(** C36 (termination).  Pushing a block terminates within the recursion bound
    [push_fuel] and never follows a dangling pointer.  On success the block is
    linked and the result is the head; an unlinkable block has no linked parent,
    leaves the linked tree alone and is cached; in both cases, if no cached
    block was waiting for a linked parent before, none is after, so the
    depth-first linking leaves nothing behind. *)
Theorem fork_db_push_complete s b :
  fdb_wf s → 0 < block_num b →
  match push_block b s with
  | (s', inr h) =>
      h = _head s' ∧ is_Some (_index s' !! block_id b) ∧
      (none_ready ∅ s → none_ready ∅ s')
  | (s', inl E_unlinkable_block) =>
      _index s' = _index s ∧ _index s !! previous b = None ∧
      is_known_block (block_id b) s' = true ∧ (none_ready ∅ s → none_ready ∅ s')
  | (_, inl e) => e ≠ E_undefined
  end.
Proof.
  intros Hwf Hb. pose proof (push_block_spec s b Hwf Hb) as H. unfold fwp in H.
  destruct (push_block b s) as [s' [e|h]]; cbn in H; destruct H as (_ & Hu & _ & _ & _ & _ & H).
  - by destruct e.
  - done.
Qed.

(** In emergency mode the head is a function of the set of
    linked blocks: two nodes that start from sound states and push any two
    sequences of blocks, in any order and with any outcome, have the same head
    as soon as they have linked the same blocks. *)
Theorem emergency_heads_agree s1 s2 bs1 bs2 :
  fdb_wf s1 → fdb_wf s2 → head_best s1 → head_best s2 →
  _emergency_consensus_active s1 = true → _emergency_consensus_active s2 = true →
  Forall (λ b, 0 < block_num b) bs1 → Forall (λ b, 0 < block_num b) bs2 →
  dom (_index (push_all bs1 s1)) = dom (_index (push_all bs2 s2)) →
  head_id (push_all bs1 s1) = head_id (push_all bs2 s2).
Proof.
  intros Hwf1 Hwf2 Hb1 Hb2 He1 He2 Hbs1 Hbs2 Hdom.
  destruct (push_all_spec bs1 s1 Hwf1 Hb1 Hbs1) as (? & ? & ?).
  destruct (push_all_spec bs2 s2 Hwf2 Hb2 Hbs2) as (? & ? & ?).
  apply head_best_unique; congruence || done.
Qed.

(** [fetch_branch_from] terminates, and when it succeeds the
    two branches start at the two given blocks, follow the [prev] links, and
    end in two blocks of equal height with the same parent; no other pair of
    blocks of equal height on them has a common parent, so that parent is the
    most recent common ancestor. *)
Theorem fetch_branch_common_ancestor s f g :
  fdb_wf s →
  match fetch_branch_from f g s with
  | Ok (l1, l2) =>
      ∃ fa ga x y, _index s !! f = Some fa ∧ _index s !! g = Some ga ∧
        prev_path s fa l1 x ∧ prev_path s ga l2 y ∧ fork_point s l1 l2 x y
  | Err e => e ≠ E_undefined
  end.
Proof. apply fetch_branch_spec. Qed.
End facts.

(** ** Examples *)

Section examples.
#[local] Existing Instance signature_hash.
#[local] Existing Instance first_in_bucket.

(** A root, two children of it that compete, and a grandchild. *)
Definition ex_root : signed_block := example_block 0 1.
Definition ex_left : signed_block := example_block (block_id ex_root) 2.
Definition ex_right : signed_block := example_block (block_id ex_root) 3.
Definition ex_tip : signed_block := example_block (block_id ex_right) 4.

Definition ex_start : fork_database :=
  (set_emergency_mode true (start_block ex_root empty_fork_database).1).1.

Lemma ex_start_reachable : rtc fdb_step empty_fork_database ex_start.
Proof.
  apply rtc_l with (start_block ex_root empty_fork_database).1; [by apply step_start_block|].
  apply rtc_once, step_set_emergency_mode.
Qed.

Lemma ex_start_wf : fdb_wf ex_start.
Proof. eapply wf_step; [|by apply step_set_emergency_mode]. by apply wf_start_block; [apply wf_empty|]. Qed.

Lemma ex_start_best : head_best ex_start.
Proof.
  eexists. split; [reflexivity|]. split; [by vm_compute|].
  intros k a i Hk Hi. revert Hk.
  change (_index ex_start) with ({[block_id ex_root := 0%nat]} : gmap Z nat).
  intros [<- <-]%lookup_singleton_Some. revert Hi. vm_compute. intros [= <-]. split; [done|].
  intros _ _. done.
Qed.

Lemma fork_db_invariant_witness : fdb_wf ex_start.
Proof. apply fork_db_invariant. apply ex_start_reachable. Defined.

(** The grandchild arrives first and is cached; its parent then links both. *)
Lemma fork_db_push_complete_witness :
  let s1 := (push_block ex_tip ex_start).1 in
  (push_block ex_tip ex_start).2 = inl E_unlinkable_block ∧
  _index ex_start !! previous ex_tip = None ∧
  is_known_block (block_id ex_tip) s1 = true.
Proof.
  intros s1. pose proof (fork_db_push_complete ex_start ex_tip ex_start_wf eq_refl) as H.
  assert (push_block ex_tip ex_start = (s1, inl E_unlinkable_block)) as E by (by vm_compute).
  rewrite E in H |- *. destruct H as (_ & H1 & H2 & _). split; [done|]. split; assumption.
Defined.

Lemma emergency_heads_agree_witness :
  head_id (push_all [ex_left; ex_right] ex_start) = head_id (push_all [ex_right; ex_left] ex_start).
Proof.
  apply emergency_heads_agree;
    [apply ex_start_wf|apply ex_start_wf|apply ex_start_best|apply ex_start_best|reflexivity|
     reflexivity|by repeat constructor|by repeat constructor|by vm_compute].
Defined.

Definition ex_forked : fork_database := push_all [ex_left; ex_right; ex_tip] ex_start.

Lemma ex_forked_wf : fdb_wf ex_forked.
Proof. by apply push_all_spec; [apply ex_start_wf|apply ex_start_best|repeat constructor]. Qed.

Lemma fetch_branch_common_ancestor_witness :
  fetch_branch_from (block_id ex_tip) (block_id ex_left) ex_forked = Ok ([3; 2]%nat, [1]%nat) ∧
  previous_at ex_forked 2 = previous_at ex_forked 1.
Proof.
  pose proof (fetch_branch_common_ancestor ex_forked (block_id ex_tip) (block_id ex_left)
    ex_forked_wf) as H.
  assert (fetch_branch_from (block_id ex_tip) (block_id ex_left) ex_forked =
          Ok ([3; 2]%nat, [1]%nat)) as E by (by vm_compute).
  rewrite E in H. split; [exact E|].
  destruct H as (fa & ga & x & y & _ & _ & P1 & P2 & _ & Ep & _).
  inversion P1 as [|? ? ? ? ? _ _ P1' ]; subst. inversion P1' as [|? ? ? ? ? _ _ P1'']; subst;
    [|by inversion P1'']. inversion P2 as [|? ? ? ? ? _ _ P2']; subst; [|by inversion P2'].
  exact Ep.
Defined.
End examples.
