(* ===== verification/Objects.v ===== *)
(** * The objects of the chain (libraries/chain/include/graphene/chain/*_object*.hpp)

    One record per object type, one table per object index, in the record
    [database] that every operation transforms.  A table is keyed by what its
    unique index is keyed by; times are seconds since the epoch. *)

From stdpp Require Import gmap strings list.
From Stdlib Require Import ZArith Lia.
From S2P Require Import Prelude Fc Text Asset Authority SignState Operations ChainOperations Block ForkDb.

Definition CHAIN_MAX_PROXY_RECURSION_DEPTH : nat := 4.
Definition CHAIN_ENERGY_REGENERATION_SECONDS : Z := 5 * 60 * 60 * 24.
Definition time_point_sec_min : Z := 0.
Definition time_point_sec_maximum : Z := 2 ^ 32 - 1.


(** [account_object] *)
Record account_object := mk_account {
  acc_id : Z;
  acc_name : string;
  memo_key : Z;
  proxy : string;
  referrer : string;
  last_account_update : Z;
  acc_created : Z;
  recovery_account : string;
  last_account_recovery : Z;
  subcontent_count : Z;
  vote_count : Z;
  content_count : Z;
  awarded_rshares : Z;
  custom_sequence : Z;
  custom_sequence_block_num : Z;
  energy : Z;
  last_vote_time : Z;
  balance : asset;
  curation_rewards : Z;
  posting_rewards : Z;
  receiver_awards : Z;
  benefactor_awards : Z;
  vesting_shares : asset;
  delegated_vesting_shares : asset;
  received_vesting_shares : asset;
  vesting_withdraw_rate : asset;
  next_vesting_withdrawal : Z;
  withdrawn : Z;
  to_withdraw : Z;
  withdraw_routes : Z;
  proxied_vsf_votes : list Z;
  validators_voted_for : Z;
  validators_vote_weight : Z;
  last_root_post : Z;
  last_post : Z;
  average_bandwidth : Z;
  lifetime_bandwidth : Z;
  last_bandwidth_update : Z;
  valid : bool;
  account_seller : string;
  account_offer_price : asset;
  account_on_sale : bool;
  account_on_sale_start_time : Z;
  reserved_balance : asset;
  target_buyer : string;
  account_on_auction : bool;
  current_bid : asset;
  current_bidder : string;
  current_bidder_key : Z;
  last_bid : asset;
  subaccount_seller : string;
  subaccount_offer_price : asset;
  subaccount_on_sale : bool
}.
Definition eta_account_object (r : account_object) : account_object :=
  {| acc_id := acc_id r; acc_name := acc_name r; memo_key := memo_key r; proxy := proxy r;
     referrer := referrer r; last_account_update := last_account_update r; acc_created :=
     acc_created r; recovery_account := recovery_account r; last_account_recovery :=
     last_account_recovery r; subcontent_count := subcontent_count r; vote_count := vote_count r;
     content_count := content_count r; awarded_rshares := awarded_rshares r; custom_sequence :=
     custom_sequence r; custom_sequence_block_num := custom_sequence_block_num r; energy :=
     energy r; last_vote_time := last_vote_time r; balance := balance r; curation_rewards :=
     curation_rewards r; posting_rewards := posting_rewards r; receiver_awards := receiver_awards
     r; benefactor_awards := benefactor_awards r; vesting_shares := vesting_shares r;
     delegated_vesting_shares := delegated_vesting_shares r; received_vesting_shares :=
     received_vesting_shares r; vesting_withdraw_rate := vesting_withdraw_rate r;
     next_vesting_withdrawal := next_vesting_withdrawal r; withdrawn := withdrawn r; to_withdraw
     := to_withdraw r; withdraw_routes := withdraw_routes r; proxied_vsf_votes :=
     proxied_vsf_votes r; validators_voted_for := validators_voted_for r; validators_vote_weight
     := validators_vote_weight r; last_root_post := last_root_post r; last_post := last_post r;
     average_bandwidth := average_bandwidth r; lifetime_bandwidth := lifetime_bandwidth r;
     last_bandwidth_update := last_bandwidth_update r; valid := valid r; account_seller :=
     account_seller r; account_offer_price := account_offer_price r; account_on_sale :=
     account_on_sale r; account_on_sale_start_time := account_on_sale_start_time r;
     reserved_balance := reserved_balance r; target_buyer := target_buyer r; account_on_auction
     := account_on_auction r; current_bid := current_bid r; current_bidder := current_bidder r;
     current_bidder_key := current_bidder_key r; last_bid := last_bid r; subaccount_seller :=
     subaccount_seller r; subaccount_offer_price := subaccount_offer_price r; subaccount_on_sale
     := subaccount_on_sale r |}.
#[export] Instance set_acc_id : Setter acc_id := ltac:(derive_setter eta_account_object acc_id).
#[export] Instance set_acc_name : Setter acc_name :=
  ltac:(derive_setter eta_account_object acc_name).
#[export] Instance set_memo_key : Setter memo_key :=
  ltac:(derive_setter eta_account_object memo_key).
#[export] Instance set_proxy : Setter proxy := ltac:(derive_setter eta_account_object proxy).
#[export] Instance set_referrer : Setter referrer :=
  ltac:(derive_setter eta_account_object referrer).
#[export] Instance set_last_account_update : Setter last_account_update :=
  ltac:(derive_setter eta_account_object last_account_update).
#[export] Instance set_acc_created : Setter acc_created :=
  ltac:(derive_setter eta_account_object acc_created).
#[export] Instance set_recovery_account : Setter recovery_account :=
  ltac:(derive_setter eta_account_object recovery_account).
#[export] Instance set_last_account_recovery : Setter last_account_recovery :=
  ltac:(derive_setter eta_account_object last_account_recovery).
#[export] Instance set_subcontent_count : Setter subcontent_count :=
  ltac:(derive_setter eta_account_object subcontent_count).
#[export] Instance set_vote_count : Setter vote_count :=
  ltac:(derive_setter eta_account_object vote_count).
#[export] Instance set_content_count : Setter content_count :=
  ltac:(derive_setter eta_account_object content_count).
#[export] Instance set_awarded_rshares : Setter awarded_rshares :=
  ltac:(derive_setter eta_account_object awarded_rshares).
#[export] Instance set_custom_sequence : Setter custom_sequence :=
  ltac:(derive_setter eta_account_object custom_sequence).
#[export] Instance set_custom_sequence_block_num : Setter custom_sequence_block_num :=
  ltac:(derive_setter eta_account_object custom_sequence_block_num).
#[export] Instance set_energy : Setter energy := ltac:(derive_setter eta_account_object energy).
#[export] Instance set_last_vote_time : Setter last_vote_time :=
  ltac:(derive_setter eta_account_object last_vote_time).
#[export] Instance set_balance : Setter balance := ltac:(derive_setter eta_account_object balance).
#[export] Instance set_curation_rewards : Setter curation_rewards :=
  ltac:(derive_setter eta_account_object curation_rewards).
#[export] Instance set_posting_rewards : Setter posting_rewards :=
  ltac:(derive_setter eta_account_object posting_rewards).
#[export] Instance set_receiver_awards : Setter receiver_awards :=
  ltac:(derive_setter eta_account_object receiver_awards).
#[export] Instance set_benefactor_awards : Setter benefactor_awards :=
  ltac:(derive_setter eta_account_object benefactor_awards).
#[export] Instance set_vesting_shares : Setter vesting_shares :=
  ltac:(derive_setter eta_account_object vesting_shares).
#[export] Instance set_delegated_vesting_shares : Setter delegated_vesting_shares :=
  ltac:(derive_setter eta_account_object delegated_vesting_shares).
#[export] Instance set_received_vesting_shares : Setter received_vesting_shares :=
  ltac:(derive_setter eta_account_object received_vesting_shares).
#[export] Instance set_vesting_withdraw_rate : Setter vesting_withdraw_rate :=
  ltac:(derive_setter eta_account_object vesting_withdraw_rate).
#[export] Instance set_next_vesting_withdrawal : Setter next_vesting_withdrawal :=
  ltac:(derive_setter eta_account_object next_vesting_withdrawal).
#[export] Instance set_withdrawn : Setter withdrawn :=
  ltac:(derive_setter eta_account_object withdrawn).
#[export] Instance set_to_withdraw : Setter to_withdraw :=
  ltac:(derive_setter eta_account_object to_withdraw).
#[export] Instance set_withdraw_routes : Setter withdraw_routes :=
  ltac:(derive_setter eta_account_object withdraw_routes).
#[export] Instance set_proxied_vsf_votes : Setter proxied_vsf_votes :=
  ltac:(derive_setter eta_account_object proxied_vsf_votes).
#[export] Instance set_validators_voted_for : Setter validators_voted_for :=
  ltac:(derive_setter eta_account_object validators_voted_for).
#[export] Instance set_validators_vote_weight : Setter validators_vote_weight :=
  ltac:(derive_setter eta_account_object validators_vote_weight).
#[export] Instance set_last_root_post : Setter last_root_post :=
  ltac:(derive_setter eta_account_object last_root_post).
#[export] Instance set_last_post : Setter last_post :=
  ltac:(derive_setter eta_account_object last_post).
#[export] Instance set_average_bandwidth : Setter average_bandwidth :=
  ltac:(derive_setter eta_account_object average_bandwidth).
#[export] Instance set_lifetime_bandwidth : Setter lifetime_bandwidth :=
  ltac:(derive_setter eta_account_object lifetime_bandwidth).
#[export] Instance set_last_bandwidth_update : Setter last_bandwidth_update :=
  ltac:(derive_setter eta_account_object last_bandwidth_update).
#[export] Instance set_valid : Setter valid := ltac:(derive_setter eta_account_object valid).
#[export] Instance set_account_seller : Setter account_seller :=
  ltac:(derive_setter eta_account_object account_seller).
#[export] Instance set_account_offer_price : Setter account_offer_price :=
  ltac:(derive_setter eta_account_object account_offer_price).
#[export] Instance set_account_on_sale : Setter account_on_sale :=
  ltac:(derive_setter eta_account_object account_on_sale).
#[export] Instance set_account_on_sale_start_time : Setter account_on_sale_start_time :=
  ltac:(derive_setter eta_account_object account_on_sale_start_time).
#[export] Instance set_reserved_balance : Setter reserved_balance :=
  ltac:(derive_setter eta_account_object reserved_balance).
#[export] Instance set_target_buyer : Setter target_buyer :=
  ltac:(derive_setter eta_account_object target_buyer).
#[export] Instance set_account_on_auction : Setter account_on_auction :=
  ltac:(derive_setter eta_account_object account_on_auction).
#[export] Instance set_current_bid : Setter current_bid :=
  ltac:(derive_setter eta_account_object current_bid).
#[export] Instance set_current_bidder : Setter current_bidder :=
  ltac:(derive_setter eta_account_object current_bidder).
#[export] Instance set_current_bidder_key : Setter current_bidder_key :=
  ltac:(derive_setter eta_account_object current_bidder_key).
#[export] Instance set_last_bid : Setter last_bid :=
  ltac:(derive_setter eta_account_object last_bid).
#[export] Instance set_subaccount_seller : Setter subaccount_seller :=
  ltac:(derive_setter eta_account_object subaccount_seller).
#[export] Instance set_subaccount_offer_price : Setter subaccount_offer_price :=
  ltac:(derive_setter eta_account_object subaccount_offer_price).
#[export] Instance set_subaccount_on_sale : Setter subaccount_on_sale :=
  ltac:(derive_setter eta_account_object subaccount_on_sale).

(** [account_authority_object] *)
Record account_authority_object := mk_account_authority {
  master : authority;
  active : authority;
  regular : authority;
  last_master_update : Z
}.
Definition eta_account_authority_object (r : account_authority_object) : account_authority_object :=
  {| master := master r; active := active r; regular := regular r; last_master_update :=
     last_master_update r |}.
#[export] Instance set_master : Setter master :=
  ltac:(derive_setter eta_account_authority_object master).
#[export] Instance set_active : Setter active :=
  ltac:(derive_setter eta_account_authority_object active).
#[export] Instance set_regular : Setter regular :=
  ltac:(derive_setter eta_account_authority_object regular).
#[export] Instance set_last_master_update : Setter last_master_update :=
  ltac:(derive_setter eta_account_authority_object last_master_update).

(** [vesting_delegation_object] *)
Record vesting_delegation_object := mk_delegation {
  dlg_vesting_shares : asset;
  min_delegation_time : Z
}.
Definition eta_vesting_delegation_object (r : vesting_delegation_object) : vesting_delegation_object :=
  {| dlg_vesting_shares := dlg_vesting_shares r; min_delegation_time := min_delegation_time r |}.
#[export] Instance set_dlg_vesting_shares : Setter dlg_vesting_shares :=
  ltac:(derive_setter eta_vesting_delegation_object dlg_vesting_shares).
#[export] Instance set_min_delegation_time : Setter min_delegation_time :=
  ltac:(derive_setter eta_vesting_delegation_object min_delegation_time).

(** [vesting_delegation_expiration_object] *)
Record vesting_delegation_expiration_object := mk_delegation_expiration {
  dexp_delegator : string;
  dexp_vesting_shares : asset;
  dexp_expiration : Z
}.
Definition eta_vesting_delegation_expiration_object (r : vesting_delegation_expiration_object) : vesting_delegation_expiration_object :=
  {| dexp_delegator := dexp_delegator r; dexp_vesting_shares := dexp_vesting_shares r;
     dexp_expiration := dexp_expiration r |}.
#[export] Instance set_dexp_delegator : Setter dexp_delegator :=
  ltac:(derive_setter eta_vesting_delegation_expiration_object dexp_delegator).
#[export] Instance set_dexp_vesting_shares : Setter dexp_vesting_shares :=
  ltac:(derive_setter eta_vesting_delegation_expiration_object dexp_vesting_shares).
#[export] Instance set_dexp_expiration : Setter dexp_expiration :=
  ltac:(derive_setter eta_vesting_delegation_expiration_object dexp_expiration).

(** [escrow_object]; [from] and [escrow_id] are its key *)
Record escrow_object := mk_escrow {
  esc_to : string;
  esc_agent : string;
  ratification_deadline : Z;
  escrow_expiration : Z;
  token_balance : asset;
  pending_fee : asset;
  to_approved : bool;
  agent_approved : bool;
  disputed : bool
}.
Definition eta_escrow_object (r : escrow_object) : escrow_object :=
  {| esc_to := esc_to r; esc_agent := esc_agent r; ratification_deadline := ratification_deadline
     r; escrow_expiration := escrow_expiration r; token_balance := token_balance r; pending_fee
     := pending_fee r; to_approved := to_approved r; agent_approved := agent_approved r; disputed
     := disputed r |}.
#[export] Instance set_esc_to : Setter esc_to := ltac:(derive_setter eta_escrow_object esc_to).
#[export] Instance set_esc_agent : Setter esc_agent :=
  ltac:(derive_setter eta_escrow_object esc_agent).
#[export] Instance set_ratification_deadline : Setter ratification_deadline :=
  ltac:(derive_setter eta_escrow_object ratification_deadline).
#[export] Instance set_escrow_expiration : Setter escrow_expiration :=
  ltac:(derive_setter eta_escrow_object escrow_expiration).
#[export] Instance set_token_balance : Setter token_balance :=
  ltac:(derive_setter eta_escrow_object token_balance).
#[export] Instance set_pending_fee : Setter pending_fee :=
  ltac:(derive_setter eta_escrow_object pending_fee).
#[export] Instance set_to_approved : Setter to_approved :=
  ltac:(derive_setter eta_escrow_object to_approved).
#[export] Instance set_agent_approved : Setter agent_approved :=
  ltac:(derive_setter eta_escrow_object agent_approved).
#[export] Instance set_disputed : Setter disputed :=
  ltac:(derive_setter eta_escrow_object disputed).

(** [withdraw_vesting_route_object]; the two account ids are its key *)
Record withdraw_vesting_route_object := mk_route {
  route_percent : Z;
  auto_vest : bool
}.
Definition eta_withdraw_vesting_route_object (r : withdraw_vesting_route_object) : withdraw_vesting_route_object :=
  {| route_percent := route_percent r; auto_vest := auto_vest r |}.
#[export] Instance set_route_percent : Setter route_percent :=
  ltac:(derive_setter eta_withdraw_vesting_route_object route_percent).
#[export] Instance set_auto_vest : Setter auto_vest :=
  ltac:(derive_setter eta_withdraw_vesting_route_object auto_vest).

(** [invite_object]; the invite key is its key *)
Record invite_object := mk_invite {
  inv_creator : string;
  inv_receiver : string;
  invite_secret : string;
  inv_balance : asset;
  claimed_balance : asset;
  create_time : Z;
  claim_time : Z;
  inv_status : Z
}.
Definition eta_invite_object (r : invite_object) : invite_object :=
  {| inv_creator := inv_creator r; inv_receiver := inv_receiver r; invite_secret := invite_secret
     r; inv_balance := inv_balance r; claimed_balance := claimed_balance r; create_time :=
     create_time r; claim_time := claim_time r; inv_status := inv_status r |}.
#[export] Instance set_inv_creator : Setter inv_creator :=
  ltac:(derive_setter eta_invite_object inv_creator).
#[export] Instance set_inv_receiver : Setter inv_receiver :=
  ltac:(derive_setter eta_invite_object inv_receiver).
#[export] Instance set_invite_secret : Setter invite_secret :=
  ltac:(derive_setter eta_invite_object invite_secret).
#[export] Instance set_inv_balance : Setter inv_balance :=
  ltac:(derive_setter eta_invite_object inv_balance).
#[export] Instance set_claimed_balance : Setter claimed_balance :=
  ltac:(derive_setter eta_invite_object claimed_balance).
#[export] Instance set_create_time : Setter create_time :=
  ltac:(derive_setter eta_invite_object create_time).
#[export] Instance set_claim_time : Setter claim_time :=
  ltac:(derive_setter eta_invite_object claim_time).
#[export] Instance set_inv_status : Setter inv_status :=
  ltac:(derive_setter eta_invite_object inv_status).

(** [committee_request_object]; [request_id] is its key *)
Record committee_request_object := mk_committee_request {
  req_url : string;
  req_creator : string;
  worker : string;
  required_amount_min : asset;
  required_amount_max : asset;
  req_start_time : Z;
  duration : Z;
  req_end_time : Z;
  req_status : Z;
  votes_count : Z;
  conclusion_time : Z;
  conclusion_payout_amount : asset;
  payout_amount : asset;
  remain_payout_amount : asset;
  last_payout_time : Z;
  payout_time : Z
}.
Definition eta_committee_request_object (r : committee_request_object) : committee_request_object :=
  {| req_url := req_url r; req_creator := req_creator r; worker := worker r; required_amount_min
     := required_amount_min r; required_amount_max := required_amount_max r; req_start_time :=
     req_start_time r; duration := duration r; req_end_time := req_end_time r; req_status :=
     req_status r; votes_count := votes_count r; conclusion_time := conclusion_time r;
     conclusion_payout_amount := conclusion_payout_amount r; payout_amount := payout_amount r;
     remain_payout_amount := remain_payout_amount r; last_payout_time := last_payout_time r;
     payout_time := payout_time r |}.
#[export] Instance set_req_url : Setter req_url :=
  ltac:(derive_setter eta_committee_request_object req_url).
#[export] Instance set_req_creator : Setter req_creator :=
  ltac:(derive_setter eta_committee_request_object req_creator).
#[export] Instance set_worker : Setter worker :=
  ltac:(derive_setter eta_committee_request_object worker).
#[export] Instance set_required_amount_min : Setter required_amount_min :=
  ltac:(derive_setter eta_committee_request_object required_amount_min).
#[export] Instance set_required_amount_max : Setter required_amount_max :=
  ltac:(derive_setter eta_committee_request_object required_amount_max).
#[export] Instance set_req_start_time : Setter req_start_time :=
  ltac:(derive_setter eta_committee_request_object req_start_time).
#[export] Instance set_duration : Setter duration :=
  ltac:(derive_setter eta_committee_request_object duration).
#[export] Instance set_req_end_time : Setter req_end_time :=
  ltac:(derive_setter eta_committee_request_object req_end_time).
#[export] Instance set_req_status : Setter req_status :=
  ltac:(derive_setter eta_committee_request_object req_status).
#[export] Instance set_votes_count : Setter votes_count :=
  ltac:(derive_setter eta_committee_request_object votes_count).
#[export] Instance set_conclusion_time : Setter conclusion_time :=
  ltac:(derive_setter eta_committee_request_object conclusion_time).
#[export] Instance set_conclusion_payout_amount : Setter conclusion_payout_amount :=
  ltac:(derive_setter eta_committee_request_object conclusion_payout_amount).
#[export] Instance set_payout_amount : Setter payout_amount :=
  ltac:(derive_setter eta_committee_request_object payout_amount).
#[export] Instance set_remain_payout_amount : Setter remain_payout_amount :=
  ltac:(derive_setter eta_committee_request_object remain_payout_amount).
#[export] Instance set_last_payout_time : Setter last_payout_time :=
  ltac:(derive_setter eta_committee_request_object last_payout_time).
#[export] Instance set_payout_time : Setter payout_time :=
  ltac:(derive_setter eta_committee_request_object payout_time).

(** [committee_vote_object]; the request and the voter are its key *)
Record committee_vote_object := mk_committee_vote {
  vote_percent : Z;
  cv_last_update : Z
}.
Definition eta_committee_vote_object (r : committee_vote_object) : committee_vote_object :=
  {| vote_percent := vote_percent r; cv_last_update := cv_last_update r |}.
#[export] Instance set_vote_percent : Setter vote_percent :=
  ltac:(derive_setter eta_committee_vote_object vote_percent).
#[export] Instance set_cv_last_update : Setter cv_last_update :=
  ltac:(derive_setter eta_committee_vote_object cv_last_update).

(** [paid_subscription_object]; the creator is its key *)
Record paid_subscription_object := mk_paid_subscription {
  ps_url : string;
  ps_levels : Z;
  ps_amount : Z;
  ps_period : Z;
  ps_update_time : Z
}.
Definition eta_paid_subscription_object (r : paid_subscription_object) : paid_subscription_object :=
  {| ps_url := ps_url r; ps_levels := ps_levels r; ps_amount := ps_amount r; ps_period :=
     ps_period r; ps_update_time := ps_update_time r |}.
#[export] Instance set_ps_url : Setter ps_url :=
  ltac:(derive_setter eta_paid_subscription_object ps_url).
#[export] Instance set_ps_levels : Setter ps_levels :=
  ltac:(derive_setter eta_paid_subscription_object ps_levels).
#[export] Instance set_ps_amount : Setter ps_amount :=
  ltac:(derive_setter eta_paid_subscription_object ps_amount).
#[export] Instance set_ps_period : Setter ps_period :=
  ltac:(derive_setter eta_paid_subscription_object ps_period).
#[export] Instance set_ps_update_time : Setter ps_update_time :=
  ltac:(derive_setter eta_paid_subscription_object ps_update_time).

(** [paid_subscribe_object]; subscriber and creator are its key *)
Record paid_subscribe_object := mk_paid_subscribe {
  sub_level : Z;
  sub_amount : Z;
  sub_period : Z;
  sub_start_time : Z;
  sub_next_time : Z;
  sub_end_time : Z;
  sub_active : bool;
  sub_auto_renewal : bool
}.
Definition eta_paid_subscribe_object (r : paid_subscribe_object) : paid_subscribe_object :=
  {| sub_level := sub_level r; sub_amount := sub_amount r; sub_period := sub_period r;
     sub_start_time := sub_start_time r; sub_next_time := sub_next_time r; sub_end_time :=
     sub_end_time r; sub_active := sub_active r; sub_auto_renewal := sub_auto_renewal r |}.
#[export] Instance set_sub_level : Setter sub_level :=
  ltac:(derive_setter eta_paid_subscribe_object sub_level).
#[export] Instance set_sub_amount : Setter sub_amount :=
  ltac:(derive_setter eta_paid_subscribe_object sub_amount).
#[export] Instance set_sub_period : Setter sub_period :=
  ltac:(derive_setter eta_paid_subscribe_object sub_period).
#[export] Instance set_sub_start_time : Setter sub_start_time :=
  ltac:(derive_setter eta_paid_subscribe_object sub_start_time).
#[export] Instance set_sub_next_time : Setter sub_next_time :=
  ltac:(derive_setter eta_paid_subscribe_object sub_next_time).
#[export] Instance set_sub_end_time : Setter sub_end_time :=
  ltac:(derive_setter eta_paid_subscribe_object sub_end_time).
#[export] Instance set_sub_active : Setter sub_active :=
  ltac:(derive_setter eta_paid_subscribe_object sub_active).
#[export] Instance set_sub_auto_renewal : Setter sub_auto_renewal :=
  ltac:(derive_setter eta_paid_subscribe_object sub_auto_renewal).

(** [chain_properties_hf13] with the fields it inherits *)
Record chain_properties := mk_chain_properties {
  account_creation_fee : asset;
  maximum_block_size : Z;
  create_account_delegation_ratio : Z;
  create_account_delegation_time : Z;
  min_delegation : asset;
  min_curation_percent : Z;
  max_curation_percent : Z;
  bandwidth_reserve_percent : Z;
  bandwidth_reserve_below : asset;
  flag_energy_additional_cost : Z;
  vote_accounting_min_rshares : Z;
  committee_request_approve_min_percent : Z;
  inflation_validator_percent : Z;
  inflation_ratio_committee_vs_reward_fund : Z;
  inflation_recalc_period : Z;
  data_operations_cost_additional_bandwidth : Z;
  validator_miss_penalty_percent : Z;
  validator_miss_penalty_duration : Z;
  create_invite_min_balance : asset;
  committee_create_request_fee : asset;
  create_paid_subscription_fee : asset;
  account_on_sale_fee : asset;
  subaccount_on_sale_fee : asset;
  validator_declaration_fee : asset;
  withdraw_intervals : Z;
  distribution_epoch_length : Z
}.
Definition eta_chain_properties (r : chain_properties) : chain_properties :=
  {| account_creation_fee := account_creation_fee r; maximum_block_size := maximum_block_size r;
     create_account_delegation_ratio := create_account_delegation_ratio r;
     create_account_delegation_time := create_account_delegation_time r; min_delegation :=
     min_delegation r; min_curation_percent := min_curation_percent r; max_curation_percent :=
     max_curation_percent r; bandwidth_reserve_percent := bandwidth_reserve_percent r;
     bandwidth_reserve_below := bandwidth_reserve_below r; flag_energy_additional_cost :=
     flag_energy_additional_cost r; vote_accounting_min_rshares := vote_accounting_min_rshares r;
     committee_request_approve_min_percent := committee_request_approve_min_percent r;
     inflation_validator_percent := inflation_validator_percent r;
     inflation_ratio_committee_vs_reward_fund := inflation_ratio_committee_vs_reward_fund r;
     inflation_recalc_period := inflation_recalc_period r;
     data_operations_cost_additional_bandwidth := data_operations_cost_additional_bandwidth r;
     validator_miss_penalty_percent := validator_miss_penalty_percent r;
     validator_miss_penalty_duration := validator_miss_penalty_duration r;
     create_invite_min_balance := create_invite_min_balance r; committee_create_request_fee :=
     committee_create_request_fee r; create_paid_subscription_fee := create_paid_subscription_fee
     r; account_on_sale_fee := account_on_sale_fee r; subaccount_on_sale_fee :=
     subaccount_on_sale_fee r; validator_declaration_fee := validator_declaration_fee r;
     withdraw_intervals := withdraw_intervals r; distribution_epoch_length :=
     distribution_epoch_length r |}.
#[export] Instance set_account_creation_fee : Setter account_creation_fee :=
  ltac:(derive_setter eta_chain_properties account_creation_fee).
#[export] Instance set_maximum_block_size : Setter maximum_block_size :=
  ltac:(derive_setter eta_chain_properties maximum_block_size).
#[export] Instance set_create_account_delegation_ratio : Setter create_account_delegation_ratio :=
  ltac:(derive_setter eta_chain_properties create_account_delegation_ratio).
#[export] Instance set_create_account_delegation_time : Setter create_account_delegation_time :=
  ltac:(derive_setter eta_chain_properties create_account_delegation_time).
#[export] Instance set_min_delegation : Setter min_delegation :=
  ltac:(derive_setter eta_chain_properties min_delegation).
#[export] Instance set_min_curation_percent : Setter min_curation_percent :=
  ltac:(derive_setter eta_chain_properties min_curation_percent).
#[export] Instance set_max_curation_percent : Setter max_curation_percent :=
  ltac:(derive_setter eta_chain_properties max_curation_percent).
#[export] Instance set_bandwidth_reserve_percent : Setter bandwidth_reserve_percent :=
  ltac:(derive_setter eta_chain_properties bandwidth_reserve_percent).
#[export] Instance set_bandwidth_reserve_below : Setter bandwidth_reserve_below :=
  ltac:(derive_setter eta_chain_properties bandwidth_reserve_below).
#[export] Instance set_flag_energy_additional_cost : Setter flag_energy_additional_cost :=
  ltac:(derive_setter eta_chain_properties flag_energy_additional_cost).
#[export] Instance set_vote_accounting_min_rshares : Setter vote_accounting_min_rshares :=
  ltac:(derive_setter eta_chain_properties vote_accounting_min_rshares).
#[export] Instance set_committee_request_approve_min_percent : Setter committee_request_approve_min_percent :=
  ltac:(derive_setter eta_chain_properties committee_request_approve_min_percent).
#[export] Instance set_inflation_validator_percent : Setter inflation_validator_percent :=
  ltac:(derive_setter eta_chain_properties inflation_validator_percent).
#[export] Instance set_inflation_ratio_committee_vs_reward_fund : Setter inflation_ratio_committee_vs_reward_fund :=
  ltac:(derive_setter eta_chain_properties inflation_ratio_committee_vs_reward_fund).
#[export] Instance set_inflation_recalc_period : Setter inflation_recalc_period :=
  ltac:(derive_setter eta_chain_properties inflation_recalc_period).
#[export] Instance set_data_operations_cost_additional_bandwidth : Setter data_operations_cost_additional_bandwidth :=
  ltac:(derive_setter eta_chain_properties data_operations_cost_additional_bandwidth).
#[export] Instance set_validator_miss_penalty_percent : Setter validator_miss_penalty_percent :=
  ltac:(derive_setter eta_chain_properties validator_miss_penalty_percent).
#[export] Instance set_validator_miss_penalty_duration : Setter validator_miss_penalty_duration :=
  ltac:(derive_setter eta_chain_properties validator_miss_penalty_duration).
#[export] Instance set_create_invite_min_balance : Setter create_invite_min_balance :=
  ltac:(derive_setter eta_chain_properties create_invite_min_balance).
#[export] Instance set_committee_create_request_fee : Setter committee_create_request_fee :=
  ltac:(derive_setter eta_chain_properties committee_create_request_fee).
#[export] Instance set_create_paid_subscription_fee : Setter create_paid_subscription_fee :=
  ltac:(derive_setter eta_chain_properties create_paid_subscription_fee).
#[export] Instance set_account_on_sale_fee : Setter account_on_sale_fee :=
  ltac:(derive_setter eta_chain_properties account_on_sale_fee).
#[export] Instance set_subaccount_on_sale_fee : Setter subaccount_on_sale_fee :=
  ltac:(derive_setter eta_chain_properties subaccount_on_sale_fee).
#[export] Instance set_validator_declaration_fee : Setter validator_declaration_fee :=
  ltac:(derive_setter eta_chain_properties validator_declaration_fee).
#[export] Instance set_withdraw_intervals : Setter withdraw_intervals :=
  ltac:(derive_setter eta_chain_properties withdraw_intervals).
#[export] Instance set_distribution_epoch_length : Setter distribution_epoch_length :=
  ltac:(derive_setter eta_chain_properties distribution_epoch_length).

(** [validator_object::validator_schedule_type] *)
Inductive validator_schedule_type := top | support | none.

(** [validator_object], the fields that the modelled operations use *)
Record validator_object := mk_validator {
  val_id : Z;
  owner : string;
  val_created : Z;
  val_url : string;
  signing_key : Z;
  props : chain_properties;
  votes : Z;
  penalty_percent : Z;
  counted_votes : Z;
  virtual_last_update : Z;
  virtual_position : Z;
  virtual_scheduled_time : Z;
  sharing_rate : Z;
  pending_stakeholder_reward : Z;
  val_schedule : validator_schedule_type;
  total_missed : Z;
  last_aslot : Z;
  last_confirmed_block_num : Z;
  current_run : Z;
  last_supported_block_num : Z;
  running_version : Z;
  hardfork_version_vote : Z;
  hardfork_time_vote : Z
}.
Definition eta_validator_object (r : validator_object) : validator_object :=
  {| val_id := val_id r; owner := owner r; val_created := val_created r; val_url := val_url r;
     signing_key := signing_key r; props := props r; votes := votes r; penalty_percent :=
     penalty_percent r; counted_votes := counted_votes r; virtual_last_update :=
     virtual_last_update r; virtual_position := virtual_position r; virtual_scheduled_time :=
     virtual_scheduled_time r; sharing_rate := sharing_rate r; pending_stakeholder_reward :=
     pending_stakeholder_reward r; val_schedule := val_schedule r; total_missed := total_missed
     r; last_aslot := last_aslot r; last_confirmed_block_num := last_confirmed_block_num r;
     current_run := current_run r; last_supported_block_num := last_supported_block_num r;
     running_version := running_version r; hardfork_version_vote := hardfork_version_vote r;
     hardfork_time_vote := hardfork_time_vote r |}.
#[export] Instance set_val_id : Setter val_id := ltac:(derive_setter eta_validator_object val_id).
#[export] Instance set_owner : Setter owner := ltac:(derive_setter eta_validator_object owner).
#[export] Instance set_val_created : Setter val_created :=
  ltac:(derive_setter eta_validator_object val_created).
#[export] Instance set_val_url : Setter val_url :=
  ltac:(derive_setter eta_validator_object val_url).
#[export] Instance set_signing_key : Setter signing_key :=
  ltac:(derive_setter eta_validator_object signing_key).
#[export] Instance set_props : Setter props := ltac:(derive_setter eta_validator_object props).
#[export] Instance set_votes : Setter votes := ltac:(derive_setter eta_validator_object votes).
#[export] Instance set_penalty_percent : Setter penalty_percent :=
  ltac:(derive_setter eta_validator_object penalty_percent).
#[export] Instance set_counted_votes : Setter counted_votes :=
  ltac:(derive_setter eta_validator_object counted_votes).
#[export] Instance set_virtual_last_update : Setter virtual_last_update :=
  ltac:(derive_setter eta_validator_object virtual_last_update).
#[export] Instance set_virtual_position : Setter virtual_position :=
  ltac:(derive_setter eta_validator_object virtual_position).
#[export] Instance set_virtual_scheduled_time : Setter virtual_scheduled_time :=
  ltac:(derive_setter eta_validator_object virtual_scheduled_time).
#[export] Instance set_sharing_rate : Setter sharing_rate :=
  ltac:(derive_setter eta_validator_object sharing_rate).
#[export] Instance set_pending_stakeholder_reward : Setter pending_stakeholder_reward :=
  ltac:(derive_setter eta_validator_object pending_stakeholder_reward).
#[export] Instance set_val_schedule : Setter val_schedule :=
  ltac:(derive_setter eta_validator_object val_schedule).
#[export] Instance set_total_missed : Setter total_missed :=
  ltac:(derive_setter eta_validator_object total_missed).
#[export] Instance set_last_aslot : Setter last_aslot :=
  ltac:(derive_setter eta_validator_object last_aslot).
#[export] Instance set_last_confirmed_block_num : Setter last_confirmed_block_num :=
  ltac:(derive_setter eta_validator_object last_confirmed_block_num).
#[export] Instance set_current_run : Setter current_run :=
  ltac:(derive_setter eta_validator_object current_run).
#[export] Instance set_last_supported_block_num : Setter last_supported_block_num :=
  ltac:(derive_setter eta_validator_object last_supported_block_num).
#[export] Instance set_running_version : Setter running_version :=
  ltac:(derive_setter eta_validator_object running_version).
#[export] Instance set_hardfork_version_vote : Setter hardfork_version_vote :=
  ltac:(derive_setter eta_validator_object hardfork_version_vote).
#[export] Instance set_hardfork_time_vote : Setter hardfork_time_vote :=
  ltac:(derive_setter eta_validator_object hardfork_time_vote).

(** [dynamic_global_property_object], the fields that the modelled operations use *)
Record dynamic_global_property_object := mk_dgpo {
  head_block_number : Z;
  time : Z;
  current_validator : string;
  committee_fund : asset;
  committee_requests_count : Z;
  current_supply : asset;
  total_vesting_fund : asset;
  total_vesting_shares : asset;
  total_reward_fund : asset;
  total_reward_shares : Z;
  dgp_inflation_validator_percent : Z;
  dgp_inflation_ratio : Z;
  current_aslot : Z;
  inflation_calc_block_num : Z;
  max_virtual_bandwidth : Z;
  bandwidth_reserve_candidates : Z;
  head_block_id : Z;
  average_block_size : Z;
  dgp_maximum_block_size : Z;
  recent_slots_filled : Z;
  participation_count : Z;
  last_irreversible_block_num : Z;
  current_reserve_ratio : Z;
  emergency_consensus_active : bool;
  emergency_consensus_start_block : Z;
  last_irreversible_block_id : Z;
  last_irreversible_block_ref_num : Z;
  last_irreversible_block_ref_prefix : Z;
  genesis_time : Z
}.
Definition eta_dynamic_global_property_object (r : dynamic_global_property_object) : dynamic_global_property_object :=
  {| head_block_number := head_block_number r; time := time r; current_validator :=
     current_validator r; committee_fund := committee_fund r; committee_requests_count :=
     committee_requests_count r; current_supply := current_supply r; total_vesting_fund :=
     total_vesting_fund r; total_vesting_shares := total_vesting_shares r; total_reward_fund :=
     total_reward_fund r; total_reward_shares := total_reward_shares r;
     dgp_inflation_validator_percent := dgp_inflation_validator_percent r; dgp_inflation_ratio
     := dgp_inflation_ratio r; current_aslot := current_aslot r; inflation_calc_block_num :=
     inflation_calc_block_num r; max_virtual_bandwidth := max_virtual_bandwidth r;
     bandwidth_reserve_candidates := bandwidth_reserve_candidates r; head_block_id :=
     head_block_id r; average_block_size := average_block_size r; dgp_maximum_block_size :=
     dgp_maximum_block_size r; recent_slots_filled := recent_slots_filled r; participation_count
     := participation_count r; last_irreversible_block_num := last_irreversible_block_num r;
     current_reserve_ratio := current_reserve_ratio r; emergency_consensus_active :=
     emergency_consensus_active r; emergency_consensus_start_block :=
     emergency_consensus_start_block r; last_irreversible_block_id := last_irreversible_block_id
     r; last_irreversible_block_ref_num := last_irreversible_block_ref_num r;
     last_irreversible_block_ref_prefix := last_irreversible_block_ref_prefix r; genesis_time :=
     genesis_time r |}.
#[export] Instance set_head_block_number : Setter head_block_number :=
  ltac:(derive_setter eta_dynamic_global_property_object head_block_number).
#[export] Instance set_time : Setter time :=
  ltac:(derive_setter eta_dynamic_global_property_object time).
#[export] Instance set_current_validator : Setter current_validator :=
  ltac:(derive_setter eta_dynamic_global_property_object current_validator).
#[export] Instance set_committee_fund : Setter committee_fund :=
  ltac:(derive_setter eta_dynamic_global_property_object committee_fund).
#[export] Instance set_committee_requests_count : Setter committee_requests_count :=
  ltac:(derive_setter eta_dynamic_global_property_object committee_requests_count).
#[export] Instance set_current_supply : Setter current_supply :=
  ltac:(derive_setter eta_dynamic_global_property_object current_supply).
#[export] Instance set_total_vesting_fund : Setter total_vesting_fund :=
  ltac:(derive_setter eta_dynamic_global_property_object total_vesting_fund).
#[export] Instance set_total_vesting_shares : Setter total_vesting_shares :=
  ltac:(derive_setter eta_dynamic_global_property_object total_vesting_shares).
#[export] Instance set_total_reward_fund : Setter total_reward_fund :=
  ltac:(derive_setter eta_dynamic_global_property_object total_reward_fund).
#[export] Instance set_total_reward_shares : Setter total_reward_shares :=
  ltac:(derive_setter eta_dynamic_global_property_object total_reward_shares).
#[export] Instance set_dgp_inflation_validator_percent : Setter dgp_inflation_validator_percent :=
  ltac:(derive_setter eta_dynamic_global_property_object dgp_inflation_validator_percent).
#[export] Instance set_dgp_inflation_ratio : Setter dgp_inflation_ratio :=
  ltac:(derive_setter eta_dynamic_global_property_object dgp_inflation_ratio).
#[export] Instance set_current_aslot : Setter current_aslot :=
  ltac:(derive_setter eta_dynamic_global_property_object current_aslot).
#[export] Instance set_inflation_calc_block_num : Setter inflation_calc_block_num :=
  ltac:(derive_setter eta_dynamic_global_property_object inflation_calc_block_num).
#[export] Instance set_max_virtual_bandwidth : Setter max_virtual_bandwidth :=
  ltac:(derive_setter eta_dynamic_global_property_object max_virtual_bandwidth).
#[export] Instance set_bandwidth_reserve_candidates : Setter bandwidth_reserve_candidates :=
  ltac:(derive_setter eta_dynamic_global_property_object bandwidth_reserve_candidates).
#[export] Instance set_head_block_id : Setter head_block_id :=
  ltac:(derive_setter eta_dynamic_global_property_object head_block_id).
#[export] Instance set_average_block_size : Setter average_block_size :=
  ltac:(derive_setter eta_dynamic_global_property_object average_block_size).
#[export] Instance set_dgp_maximum_block_size : Setter dgp_maximum_block_size :=
  ltac:(derive_setter eta_dynamic_global_property_object dgp_maximum_block_size).
#[export] Instance set_recent_slots_filled : Setter recent_slots_filled :=
  ltac:(derive_setter eta_dynamic_global_property_object recent_slots_filled).
#[export] Instance set_participation_count : Setter participation_count :=
  ltac:(derive_setter eta_dynamic_global_property_object participation_count).
#[export] Instance set_last_irreversible_block_num : Setter last_irreversible_block_num :=
  ltac:(derive_setter eta_dynamic_global_property_object last_irreversible_block_num).
#[export] Instance set_current_reserve_ratio : Setter current_reserve_ratio :=
  ltac:(derive_setter eta_dynamic_global_property_object current_reserve_ratio).
#[export] Instance set_emergency_consensus_active : Setter emergency_consensus_active :=
  ltac:(derive_setter eta_dynamic_global_property_object emergency_consensus_active).
#[export] Instance set_emergency_consensus_start_block : Setter emergency_consensus_start_block :=
  ltac:(derive_setter eta_dynamic_global_property_object emergency_consensus_start_block).
#[export] Instance set_last_irreversible_block_id : Setter last_irreversible_block_id :=
  ltac:(derive_setter eta_dynamic_global_property_object last_irreversible_block_id).
#[export] Instance set_last_irreversible_block_ref_num : Setter last_irreversible_block_ref_num :=
  ltac:(derive_setter eta_dynamic_global_property_object last_irreversible_block_ref_num).
#[export] Instance set_last_irreversible_block_ref_prefix : Setter last_irreversible_block_ref_prefix :=
  ltac:(derive_setter eta_dynamic_global_property_object last_irreversible_block_ref_prefix).
#[export] Instance set_genesis_time : Setter genesis_time :=
  ltac:(derive_setter eta_dynamic_global_property_object genesis_time).

(** [validator_schedule_object] *)
Record validator_schedule_object := mk_schedule {
  current_virtual_time : Z;
  current_shuffled_validators : list string;
  num_scheduled_validators : Z;
  median_props : chain_properties;
  next_shuffle_block_num : Z;
  majority_version : Z
}.
Definition eta_validator_schedule_object (r : validator_schedule_object) : validator_schedule_object :=
  {| current_virtual_time := current_virtual_time r; current_shuffled_validators :=
     current_shuffled_validators r; num_scheduled_validators := num_scheduled_validators r;
     median_props := median_props r; next_shuffle_block_num := next_shuffle_block_num r;
     majority_version := majority_version r |}.
#[export] Instance set_current_virtual_time : Setter current_virtual_time :=
  ltac:(derive_setter eta_validator_schedule_object current_virtual_time).
#[export] Instance set_current_shuffled_validators : Setter current_shuffled_validators :=
  ltac:(derive_setter eta_validator_schedule_object current_shuffled_validators).
#[export] Instance set_num_scheduled_validators : Setter num_scheduled_validators :=
  ltac:(derive_setter eta_validator_schedule_object num_scheduled_validators).
#[export] Instance set_median_props : Setter median_props :=
  ltac:(derive_setter eta_validator_schedule_object median_props).
#[export] Instance set_next_shuffle_block_num : Setter next_shuffle_block_num :=
  ltac:(derive_setter eta_validator_schedule_object next_shuffle_block_num).
#[export] Instance set_majority_version : Setter majority_version :=
  ltac:(derive_setter eta_validator_schedule_object majority_version).

(** The virtual operations that the modelled code emits. *)
Inductive virtual_operation :=
| benefactor_award_operation (initiator benefactor receiver : string) (custom_sequence : Z)
    (memo : string) (award : asset)
| receive_award_operation (initiator receiver : string) (custom_sequence : Z)
    (memo : string) (award : asset)
| outbid_operation (account bidder : string) (bid : asset)
| bid_operation (account bidder : string) (bid : asset)
| account_sale_operation (account : string) (price : asset) (buyer seller : string)
| fill_vesting_withdraw_operation (from to : string) (withdrawn deposited : asset)
| validator_reward_operation (validator : string) (award : asset)
| stakeholder_reward_operation (validator stakeholder : string) (award : asset)
| expire_escrow_ratification_operation (from to agent : string) (escrow_id : Z)
    (token_amount fee : asset) (deadline : Z)
| return_vesting_delegation_operation (account : string) (amount : asset)
| committee_cancel_request_operation (request_id : Z)
| committee_approve_request_operation (request_id : Z)
| committee_pay_request_operation (worker : string) (request_id : Z) (amount : asset)
| committee_payout_request_operation (request_id : Z)
| paid_subscription_action_operation (subscriber account : string) (level : Z) (amount : asset)
    (period summary_duration_sec : Z) (summary_amount : asset)
| cancel_paid_subscription_operation (subscriber account : string)
| shutdown_validator_operation (owner : string)
| hardfork_operation (hardfork_id : Z).

(** [hardfork_property_object]: the times of the hardforks that are processed, in
    order; [last_hardfork] is the number of the last of them. *)
Record hardfork_property_object := mk_hardfork_property {
  processed_hardfork_times : list Z;
  last_hardfork : Z;
  current_hardfork_version : Z;
  next_hardfork : Z;
  next_hardfork_time : Z
}.
Definition eta_hardfork_property_object (r : hardfork_property_object) : hardfork_property_object :=
  {| processed_hardfork_times := processed_hardfork_times r; last_hardfork := last_hardfork r;
     current_hardfork_version := current_hardfork_version r; next_hardfork := next_hardfork r;
     next_hardfork_time := next_hardfork_time r |}.
#[export] Instance set_processed_hardfork_times : Setter processed_hardfork_times :=
  ltac:(derive_setter eta_hardfork_property_object processed_hardfork_times).
#[export] Instance set_last_hardfork : Setter last_hardfork :=
  ltac:(derive_setter eta_hardfork_property_object last_hardfork).
#[export] Instance set_current_hardfork_version : Setter current_hardfork_version :=
  ltac:(derive_setter eta_hardfork_property_object current_hardfork_version).
#[export] Instance set_next_hardfork : Setter next_hardfork :=
  ltac:(derive_setter eta_hardfork_property_object next_hardfork).
#[export] Instance set_next_hardfork_time : Setter next_hardfork_time :=
  ltac:(derive_setter eta_hardfork_property_object next_hardfork_time).

(** [validator_penalty_expire_object] *)
Record validator_penalty_expire_object := mk_penalty_expire {
  wpe_validator : string;
  wpe_penalty_percent : Z;
  wpe_expires : Z
}.

(** [validator_confirmation_object]: a block, the validators that may confirm it,
    and which of them have; both arrays have [CHAIN_MAX_VALIDATORS] places. *)
Record validator_confirmation_object := mk_confirmation {
  vc_block_num : Z;
  vc_block_id : Z;
  vc_validators : list string;
  vc_validations : list bool
}.

(** [proposal_object]; the proposed operations are kept as a list, not packed. *)
Record proposal_object := mk_proposal {
  prop_id : Z;
  prop_author : string;
  prop_title : string;
  prop_memo : string;
  prop_expiration_time : Z;
  prop_review_period_time : option Z;
  proposed_operations : list chain_operation;
  required_active_approvals : gset string;
  available_active_approvals : gset string;
  required_master_approvals : gset string;
  available_master_approvals : gset string;
  required_regular_approvals : gset string;
  available_regular_approvals : gset string;
  available_key_approvals : gset Z
}.
Definition eta_proposal_object (r : proposal_object) : proposal_object :=
  {| prop_id := prop_id r; prop_author := prop_author r; prop_title := prop_title r; prop_memo :=
     prop_memo r; prop_expiration_time := prop_expiration_time r; prop_review_period_time :=
     prop_review_period_time r; proposed_operations := proposed_operations r;
     required_active_approvals := required_active_approvals r; available_active_approvals :=
     available_active_approvals r; required_master_approvals := required_master_approvals r;
     available_master_approvals := available_master_approvals r; required_regular_approvals :=
     required_regular_approvals r; available_regular_approvals := available_regular_approvals r;
     available_key_approvals := available_key_approvals r |}.
#[export] Instance set_available_active_approvals : Setter available_active_approvals :=
  ltac:(derive_setter eta_proposal_object available_active_approvals).
#[export] Instance set_available_master_approvals : Setter available_master_approvals :=
  ltac:(derive_setter eta_proposal_object available_master_approvals).
#[export] Instance set_available_regular_approvals : Setter available_regular_approvals :=
  ltac:(derive_setter eta_proposal_object available_regular_approvals).
#[export] Instance set_available_key_approvals : Setter available_key_approvals :=
  ltac:(derive_setter eta_proposal_object available_key_approvals).

(** The state of the chain: one table per object type *)
Record database := mk_database {
  accounts : gmap string account_object;
  authorities : gmap string account_authority_object;
  metadata : gmap string string;
  delegations : gmap (string * string) vesting_delegation_object;
  delegation_expirations : list vesting_delegation_expiration_object;
  escrows : gmap (string * Z) escrow_object;
  routes : gmap (Z * Z) withdraw_vesting_route_object;
  validators : gmap string validator_object;
  validator_votes : gmap (Z * Z) Z;
  invites : gmap Z invite_object;
  committee_requests : gmap Z committee_request_object;
  committee_votes : gmap (Z * string) committee_vote_object;
  paid_subscriptions : gmap string paid_subscription_object;
  paid_subscribes : gmap (string * string) paid_subscribe_object;
  recovery_requests : gmap string (authority * Z);
  change_recovery_requests : gmap string (string * Z);
  master_history : list (string * authority * Z);
  award_shares : list (Z * Z);
  transactions : gmap Z Z;
  block_summaries : gmap Z Z;
  dgpo : dynamic_global_property_object;
  schedule : validator_schedule_object;
  hardforks : hardfork_property_object;
  is_producing : bool;
  wall_clock : Z;
  virtual_ops : list virtual_operation;
  next_account_id : Z;
  next_validator_id : Z;
  penalty_expirations : list validator_penalty_expire_object;
  fork_db : fork_database;
  block_log : list signed_block;
  validator_confirmations : list validator_confirmation_object;
  proposals : gmap (string * string) proposal_object;
  required_approvals : gset (string * Z);
  next_proposal_id : Z
}.
Definition eta_database (r : database) : database :=
  {| accounts := accounts r; authorities := authorities r; metadata := metadata r; delegations
     := delegations r; delegation_expirations := delegation_expirations r; escrows := escrows r;
     routes := routes r; validators := validators r; validator_votes := validator_votes r;
     invites := invites r; committee_requests := committee_requests r; committee_votes :=
     committee_votes r; paid_subscriptions := paid_subscriptions r; paid_subscribes :=
     paid_subscribes r; recovery_requests := recovery_requests r; change_recovery_requests :=
     change_recovery_requests r; master_history := master_history r; award_shares :=
     award_shares r; transactions := transactions r; block_summaries := block_summaries r; dgpo
     := dgpo r; schedule := schedule r; hardforks := hardforks r; is_producing := is_producing
     r; wall_clock := wall_clock r; virtual_ops := virtual_ops r; next_account_id :=
     next_account_id r; next_validator_id := next_validator_id r; penalty_expirations :=
     penalty_expirations r; fork_db := fork_db r; block_log := block_log r;
     validator_confirmations := validator_confirmations r; proposals := proposals r;
     required_approvals := required_approvals r; next_proposal_id := next_proposal_id r |}.
#[export] Instance set_accounts : Setter accounts := ltac:(derive_setter eta_database accounts).
#[export] Instance set_authorities : Setter authorities :=
  ltac:(derive_setter eta_database authorities).
#[export] Instance set_metadata : Setter metadata := ltac:(derive_setter eta_database metadata).
#[export] Instance set_delegations : Setter delegations :=
  ltac:(derive_setter eta_database delegations).
#[export] Instance set_delegation_expirations : Setter delegation_expirations :=
  ltac:(derive_setter eta_database delegation_expirations).
#[export] Instance set_escrows : Setter escrows := ltac:(derive_setter eta_database escrows).
#[export] Instance set_routes : Setter routes := ltac:(derive_setter eta_database routes).
#[export] Instance set_validators : Setter validators :=
  ltac:(derive_setter eta_database validators).
#[export] Instance set_validator_votes : Setter validator_votes :=
  ltac:(derive_setter eta_database validator_votes).
#[export] Instance set_invites : Setter invites := ltac:(derive_setter eta_database invites).
#[export] Instance set_committee_requests : Setter committee_requests :=
  ltac:(derive_setter eta_database committee_requests).
#[export] Instance set_committee_votes : Setter committee_votes :=
  ltac:(derive_setter eta_database committee_votes).
#[export] Instance set_paid_subscriptions : Setter paid_subscriptions :=
  ltac:(derive_setter eta_database paid_subscriptions).
#[export] Instance set_paid_subscribes : Setter paid_subscribes :=
  ltac:(derive_setter eta_database paid_subscribes).
#[export] Instance set_recovery_requests : Setter recovery_requests :=
  ltac:(derive_setter eta_database recovery_requests).
#[export] Instance set_change_recovery_requests : Setter change_recovery_requests :=
  ltac:(derive_setter eta_database change_recovery_requests).
#[export] Instance set_master_history : Setter master_history :=
  ltac:(derive_setter eta_database master_history).
#[export] Instance set_award_shares : Setter award_shares :=
  ltac:(derive_setter eta_database award_shares).
#[export] Instance set_transactions : Setter transactions :=
  ltac:(derive_setter eta_database transactions).
#[export] Instance set_block_summaries : Setter block_summaries :=
  ltac:(derive_setter eta_database block_summaries).
#[export] Instance set_dgpo : Setter dgpo := ltac:(derive_setter eta_database dgpo).
#[export] Instance set_schedule : Setter schedule := ltac:(derive_setter eta_database schedule).
#[export] Instance set_hardforks : Setter hardforks :=
  ltac:(derive_setter eta_database hardforks).
#[export] Instance set_is_producing : Setter is_producing :=
  ltac:(derive_setter eta_database is_producing).
#[export] Instance set_wall_clock : Setter wall_clock :=
  ltac:(derive_setter eta_database wall_clock).
#[export] Instance set_virtual_ops : Setter virtual_ops :=
  ltac:(derive_setter eta_database virtual_ops).
#[export] Instance set_next_account_id : Setter next_account_id :=
  ltac:(derive_setter eta_database next_account_id).
#[export] Instance set_next_validator_id : Setter next_validator_id :=
  ltac:(derive_setter eta_database next_validator_id).
#[export] Instance set_penalty_expirations : Setter penalty_expirations :=
  ltac:(derive_setter eta_database penalty_expirations).
#[export] Instance set_fork_db : Setter fork_db :=
  ltac:(derive_setter eta_database fork_db).
#[export] Instance set_block_log : Setter block_log :=
  ltac:(derive_setter eta_database block_log).
#[export] Instance set_validator_confirmations : Setter validator_confirmations :=
  ltac:(derive_setter eta_database validator_confirmations).
#[export] Instance set_proposals : Setter proposals :=
  ltac:(derive_setter eta_database proposals).
#[export] Instance set_required_approvals : Setter required_approvals :=
  ltac:(derive_setter eta_database required_approvals).
#[export] Instance set_next_proposal_id : Setter next_proposal_id :=
  ltac:(derive_setter eta_database next_proposal_id).

(** ** Member functions of the objects *)

(** [processed_hardforks.size()] *)
Definition processed_hardforks (s : database) : Z :=
  Z.of_nat (length (processed_hardfork_times (hardforks s))).

Section members.
Context {SI : SafeInt64} {U : WideUInt 128}.

(** [std::accumulate] over [share_type]. *)
Fixpoint accumulate (l : list Z) (init : Z) : res Z :=
  match l with
  | [] => Ok init
  | x :: l => let? acc := safe_add init x in accumulate l acc
  end.

Definition validator_vote_weight (a : account_object) : res Z :=
  accumulate (proxied_vsf_votes a) (amount (vesting_shares a)).

(** [(fc::uint128_t(x) / n).to_uint64()] *)
Definition uint128_quotient (x n : Z) : res Z :=
  let? q := wu_div (wu_of_i64 x) (wu_of_i64 n) in
  let? v := wu_to_u64 q in Ok (to_i64 v).

Definition validator_vote_fair_weight_prehf5 (a : account_object) : res Z :=
  let? weight :=
    if 0 <? validators_voted_for a
    then uint128_quotient (amount (vesting_shares a)) (validators_voted_for a)
    else Ok 0 in
  accumulate (proxied_vsf_votes a) weight.

Definition validator_vote_fair_weight (a : account_object) : res Z :=
  let? weight := accumulate (proxied_vsf_votes a) (amount (vesting_shares a)) in
  if 0 <? validators_voted_for a
  then uint128_quotient weight (validators_voted_for a)
  else Ok 0.

Definition effective_vesting_shares (a : account_object) : res asset :=
  let? d := asset_sub (vesting_shares a) (delegated_vesting_shares a) in
  asset_add d (received_vesting_shares a).

Definition available_vesting_shares (a : account_object) (consider_withdrawal : bool) : res asset :=
  let? have := asset_sub (vesting_shares a) (delegated_vesting_shares a) in
  if consider_withdrawal
  then let? w := safe_sub (to_withdraw a) (withdrawn a) in asset_sub have (shares w)
  else Ok have.

Definition get_vesting_share_price (p : dynamic_global_property_object) : price :=
  if (amount (total_vesting_fund p) =? 0) || (amount (total_vesting_shares p) =? 0)
  then mk_price (token 1000) (shares 1000000)
  else mk_price (total_vesting_shares p) (total_vesting_fund p).

Definition is_approved (e : escrow_object) : bool := to_approved e && agent_approved e.
End members.

(** ** Default field values *)

Definition new_account (id : Z) (name : string) : account_object := {|
  acc_id := id; acc_name := name; memo_key := 0; proxy := ""; referrer := "";
  last_account_update := 0; acc_created := 0; recovery_account := "";
  last_account_recovery := 0; subcontent_count := 0; vote_count := 0; content_count := 0;
  awarded_rshares := 0; custom_sequence := 0; custom_sequence_block_num := 0;
  energy := CHAIN_100_PERCENT; last_vote_time := 0; balance := token 0;
  curation_rewards := 0; posting_rewards := 0; receiver_awards := 0; benefactor_awards := 0;
  vesting_shares := shares 0; delegated_vesting_shares := shares 0;
  received_vesting_shares := shares 0; vesting_withdraw_rate := shares 0;
  next_vesting_withdrawal := time_point_sec_maximum; withdrawn := 0; to_withdraw := 0;
  withdraw_routes := 0; proxied_vsf_votes := replicate CHAIN_MAX_PROXY_RECURSION_DEPTH 0;
  validators_voted_for := 0; validators_vote_weight := 0; last_root_post := 0; last_post := 0;
  average_bandwidth := 0; lifetime_bandwidth := 0; last_bandwidth_update := 0; valid := true;
  account_seller := ""; account_offer_price := token 0; account_on_sale := false;
  account_on_sale_start_time := time_point_sec_min; reserved_balance := token 0;
  target_buyer := ""; account_on_auction := false; current_bid := token 0;
  current_bidder := ""; current_bidder_key := 0; last_bid := token 0;
  subaccount_seller := ""; subaccount_offer_price := token 0; subaccount_on_sale := false |}.

Definition default_chain_properties : chain_properties := {|
  account_creation_fee := token 1000; maximum_block_size := 1024 * 64 * 2;
  create_account_delegation_ratio := 10; create_account_delegation_time := 30 * 86400;
  min_delegation := token 1; min_curation_percent := 1600; max_curation_percent := 1600;
  bandwidth_reserve_percent := 1000; bandwidth_reserve_below := shares 500000000;
  flag_energy_additional_cost := 0; vote_accounting_min_rshares := 5000000;
  committee_request_approve_min_percent := 1000; inflation_validator_percent := 2000;
  inflation_ratio_committee_vs_reward_fund := 5000; inflation_recalc_period := 28 * 28800;
  data_operations_cost_additional_bandwidth := 0; validator_miss_penalty_percent := 100;
  validator_miss_penalty_duration := 86400; create_invite_min_balance := token 10000;
  committee_create_request_fee := token 100000; create_paid_subscription_fee := token 100000;
  account_on_sale_fee := token 10000; subaccount_on_sale_fee := token 100000;
  validator_declaration_fee := token 10000; withdraw_intervals := 28;
  distribution_epoch_length := 28800 |}.

Definition new_validator (id : Z) (name : string) : validator_object := {|
  val_id := id; owner := name; val_created := 0; val_url := ""; signing_key := 0;
  props := default_chain_properties; votes := 0; penalty_percent := 0; counted_votes := 0;
  virtual_last_update := 0; virtual_position := 0; virtual_scheduled_time := 2 ^ 128 - 1;
  sharing_rate := 0; pending_stakeholder_reward := 0; val_schedule := none; total_missed := 0;
  last_aslot := 0; last_confirmed_block_num := 0; current_run := 0; last_supported_block_num := 0;
  running_version := 0; hardfork_version_vote := 0; hardfork_time_vote := 0 |}.
