(* ===== verification/Database.v ===== *)
(** * The database and its shared routines (libraries/chain/database.cpp)

    The primitives of the object store ([get], [find], [modify], [create],
    [remove]) on the tables of [Objects.database], and the routines that the
    evaluators and the block processing share: balances, vesting, voting
    weights, authorities, rewards.

    A C++ reference to an object is the key of the object: reading through it
    after a change is reading the table again. *)

From stdpp Require Import gmap strings list sorting.
From Stdlib Require Import ZArith Lia.
From S2P Require Import Prelude Fc Text Asset Authority Block ForkDb Objects.

(** What the chain code takes from libraries: checked and wide integers, text
    conversion, hashing, the order of hash buckets, the size of a packed block
    and key parsing. *)
Class ChainEnv := {
  env_safe :: SafeInt64;
  env_u128 :: WideUInt 128;
  env_u256 :: WideUInt 256;
  env_text :: FcText;
  env_hash :: BlockHash;
  env_buckets :: BucketOrder;
  pack_size : signed_block → Z;               (* fc::raw::pack_size *)
  parse_public_key : string → res Z;          (* public_key_type(const string&) *)
  wif_to_public_key : string → option Z       (* wif_to_key, then get_public_key *)
}.

Notation DB := (SM database).

Definition CHAIN_NULL_ACCOUNT : string := "null".
Definition CHAIN_COMMITTEE_ACCOUNT : string := "committee".
Definition CHAIN_ANONYMOUS_ACCOUNT : string := "anonymous".
Definition CHAIN_INVITE_ACCOUNT : string := "invite".
Definition CHAIN_PROXY_TO_SELF_ACCOUNT : string := "".
Definition CHAIN_BLOCK_INTERVAL : Z := 3.

(** Iteration in the order of a numeric key. *)
Definition by_key {V} : relation (Z * V) := λ p q, p.1 ≤ q.1.
#[export] Instance by_key_dec {V} : RelDecision (@by_key V) := λ p q, decide (p.1 ≤ q.1).

(** ** The object store *)

Definition find_in {K V} `{Countable K} (table : database → gmap K V) (k : K) : DB (option V) :=
  sgets (λ s, table s !! k).

Definition get_in {K V} `{Countable K} (table : database → gmap K V) (what : string) (k : K) : DB V :=
  λ s, match table s !! k with Some v => Ok (v, s) | None => Err (E_not_found what) end.

(** [modify(obj, f)]: the object must exist; [f] may throw. *)
Definition modify_in {K V} `{Countable K} (table : database → gmap K V) {St : Setter table}
    (k : K) (f : V → res V) : DB unit := λ s,
  match table s !! k with
  | Some v =>
      match f v with
      | Ok v' => Ok (tt, s <| table ::= <[k := v']> |>)
      | Err e => Err e
      end
  | None => Err E_undefined
  end.

(** [create]: a key that is taken breaks the unique index. *)
Definition create_in {K V} `{Countable K} (table : database → gmap K V) {St : Setter table}
    (what : string) (k : K) (v : V) : DB unit := λ s,
  match table s !! k with
  | Some _ => Err (E_unique what)
  | None => Ok (tt, s <| table ::= <[k := v]> |>)
  end.

Definition remove_in {K V} `{Countable K} (table : database → gmap K V) {St : Setter table}
    (k : K) : DB unit := λ s,
  match table s !! k with
  | Some _ => Ok (tt, s <| table ::= delete k |>)
  | None => Err E_undefined
  end.

Definition get_account (n : string) : DB account_object := get_in accounts "account" n.
Definition find_account (n : string) : DB (option account_object) := find_in accounts n.
Definition modify_account (n : string) (f : account_object → res account_object) : DB unit :=
  modify_in accounts n f.
Definition get_validator (n : string) : DB validator_object := get_in validators "validator" n.
Definition modify_validator (n : string) (f : validator_object → res validator_object) : DB unit :=
  modify_in validators n f.
Definition get_escrow (n : string) (id : Z) : DB escrow_object := get_in escrows "escrow" (n, id).

Definition get_dgpo : DB dynamic_global_property_object := sgets dgpo.
Definition modify_dgpo
    (f : dynamic_global_property_object → res dynamic_global_property_object) : DB unit := λ s,
  match f (dgpo s) with
  | Ok p => Ok (tt, s <| dgpo := p |>)
  | Err e => Err e
  end.

Definition head_block_time : DB Z := sgets (λ s, time (dgpo s)).
Definition head_block_num : DB Z := sgets (λ s, head_block_number (dgpo s)).
Definition get_median_props : DB chain_properties := sgets (λ s, median_props (schedule s)).

Definition has_hardfork (hf : Z) : DB bool := sgets (λ s, hf <? processed_hardforks s).

Definition push_virtual_operation (op : virtual_operation) : DB unit :=
  supd (λ s, s <| virtual_ops ::= λ l, l ++ [op] |>).

(** A new account gets the next id; its name must be free. *)
Definition create_account (n : string) (f : account_object → account_object) : DB unit :=
  let* id := sgets next_account_id in
  do* create_in accounts "account" n (f (new_account id n)) in
  supd (λ s, s <| next_account_id := id + 1 |>).

Definition create_validator (n : string) (f : validator_object → res validator_object) : DB unit :=
  let* id := sgets next_validator_id in
  let* v := slift (f (new_validator id n)) in
  do* create_in validators "validator" n v in
  supd (λ s, s <| next_validator_id := id + 1 |>).

(** [_db.get_account(a.first)] for every account of an authority. *)
Definition require_accounts (a : authority) : DB unit :=
  sfor (account_auths a) (λ p, let* x := get_account p.1 in sret tt).

Section env.
Context {CE : ChainEnv}.

(** ** Balances *)

Definition adjust_balance (n : string) (delta : asset) : DB unit :=
  modify_account n (λ a,
    if symbol delta =? TOKEN_SYMBOL
    then let? b := asset_add (balance a) delta in Ok (a <| balance := b |>)
    else Err (E_assert "invalid symbol")).

(** [adjust_balance(a, -delta)] *)
Definition debit (n : string) (delta : asset) : DB unit :=
  let* d := slift (asset_neg delta) in adjust_balance n d.

(** [assert(props.current_supply.amount.value >= 0)] is compiled out of release
    builds. *)
Definition burn_asset (delta : asset) : DB unit :=
  modify_dgpo (λ p,
    if symbol delta =? TOKEN_SYMBOL
    then let? v := asset_add (current_supply p) delta in Ok (p <| current_supply := v |>)
    else Err (E_assert "invalid symbol")).

Definition get_balance (n : string) (sym : Z) : DB asset :=
  let* a := get_account n in
  if sym =? TOKEN_SYMBOL then sret (balance a) else sthrow (E_assert "invalid symbol").

(** [dgp.committee_fund += fee] *)
Definition add_committee_fund (fee : asset) : DB unit :=
  modify_dgpo (λ p, let? v := asset_add (committee_fund p) fee in Ok (p <| committee_fund := v |>)).

(** ** Votes for validators *)

Definition VIRTUAL_SCHEDULE_LAP_LENGTH2 : Z := 2 ^ 128 - 1.

(** [to_uint64] stored in a [share_type]. *)
Definition to_share (x : Z) : res Z := let? v := wu_to_u64 x in Ok (to_i64 v).

Definition wide_i64 : Z → Z := wu_of_i64 (w := 128).

Definition recount_votes (hf6 : bool) (w : validator_object) : res Z :=
  if hf6
  then
    let v := wide_i64 (votes w) in
    let? q := wu_div (w := 128) (wu_mul (w := 128) v (Z.min (penalty_percent w) CHAIN_100_PERCENT))
                CHAIN_100_PERCENT in
    to_share (wu_sub (w := 128) v q)
  else Ok (votes w).

Definition adjust_validator_vote (n : string) (delta : Z) : DB unit :=
  let* vt := sgets (λ s, current_virtual_time (schedule s)) in
  let* hf5 := has_hardfork 5 in
  let* hf6 := has_hardfork 6 in
  let* p := get_dgpo in
  modify_validator n (λ w,
    let delta_pos := wu_mul (w := 128) (wide_i64 (counted_votes w))
                       (wu_sub (w := 128) vt (virtual_last_update w)) in
    let w := w <| virtual_position := wu_add (w := 128) (virtual_position w) delta_pos |> in
    let w := w <| virtual_last_update := vt |> in
    let? v := safe_add (votes w) delta in
    let w := w <| votes := if hf5 && (v <? 0) then 0 else v |> in
    let? c := recount_votes hf6 w in
    let w := w <| counted_votes := c |> in
    do? rassert (votes w <=? amount (total_vesting_shares p)) (E_assert "w.votes") in
    let? d := wu_div (w := 128)
                (wu_sub (w := 128) VIRTUAL_SCHEDULE_LAP_LENGTH2 (virtual_position w))
                (wide_i64 (counted_votes w + 1)) in
    let t := wu_add (w := 128) (virtual_last_update w) d in
    Ok (w <| virtual_scheduled_time := if t <? vt then 2 ^ 128 - 1 else t |>)).

(** The validators an account votes for, in the order of [by_account_validator]. *)
Definition voted_validators (s : database) (account : Z) : list Z :=
  merge_sort Z.le ((filter (λ p, p.1.1 = account) (map_to_list (validator_votes s))).*1.*2).

(** [get(validator_id_type)] *)
Definition get_validator_by_id (id : Z) : DB string := λ s,
  match list_find (λ p, val_id p.2 = id) (map_to_list (validators s)) with
  | Some (_, (n, _)) => Ok (n, s)
  | None => Err (E_not_found "validator")
  end.

(** [adjust_validator_vote] of every validator the account votes for. *)
Definition adjust_voted (account delta : Z) : DB unit :=
  let* ids := sgets (λ s, voted_validators s account) in
  sfor ids (λ id, let* n := get_validator_by_id id in adjust_validator_vote n delta).

Definition adjust_validator_votes (n : string) (delta : Z) : DB unit :=
  let* hf5 := has_hardfork 5 in
  let* a := get_account n in
  if hf5 : bool
  then
    if 0 <? validators_voted_for a
    then
      let* fair_delta := slift (safe_div delta (validators_voted_for a)) in
      do* modify_account n (λ a,
        let? v := safe_add (validators_vote_weight a) fair_delta in
        Ok (a <| validators_vote_weight := v |>)) in
      adjust_voted (acc_id a) fair_delta
    else sret tt
  else adjust_voted (acc_id a) delta.

(** [a.proxied_vsf_votes[i] += x]; the index is below the array size. *)
Definition add_proxied (i : nat) (x : Z) (a : account_object) : res account_object :=
  match proxied_vsf_votes a !! i with
  | Some v => let? v' := safe_add v x in Ok (a <| proxied_vsf_votes := <[i:=v']> (proxied_vsf_votes a) |>)
  | None => Err E_undefined
  end.

(** The loop [for (i = n - 1; i >= 0; --i) a.proxied_vsf_votes[i + depth] += delta[i]]. *)
Fixpoint add_proxied_all (n depth : nat) (delta : list Z) (a : account_object) : res account_object :=
  match n with
  | O => Ok a
  | S i =>
      match delta !! i with
      | Some x => let? a' := add_proxied (i + depth) x a in add_proxied_all i depth delta a'
      | None => Err E_undefined
      end
  end.

(** The sum of [delta[n - 1] ... delta[0]], added in that order. *)
Fixpoint sum_deltas (n : nat) (delta : list Z) (acc : Z) : res Z :=
  match n with
  | O => Ok acc
  | S i =>
      match delta !! i with
      | Some x => let? acc' := safe_add acc x in sum_deltas i delta acc'
      | None => Err E_undefined
      end
  end.

(** The overload for an array of changes, one per level; [left] counts the
    levels down from [CHAIN_MAX_PROXY_RECURSION_DEPTH - depth]. *)
Fixpoint adjust_proxied_validator_votes_array (left : nat) (n : string) (delta : list Z) : DB unit :=
  let* a := get_account n in
  if bool_decide (proxy a ≠ CHAIN_PROXY_TO_SELF_ACCOUNT)
  then
    match left with
    | O => sret tt
    | S left' =>
        do* (let* p := get_account (proxy a) in
             modify_account (proxy a)
               (add_proxied_all left (CHAIN_MAX_PROXY_RECURSION_DEPTH - left) delta)) in
        adjust_proxied_validator_votes_array left' (proxy a) delta
    end
  else
    let* total := slift (sum_deltas (left + 1) delta 0) in
    adjust_validator_votes n total.

Fixpoint adjust_proxied_validator_votes_at (left : nat) (n : string) (delta : Z) : DB unit :=
  let* a := get_account n in
  if bool_decide (proxy a ≠ CHAIN_PROXY_TO_SELF_ACCOUNT)
  then
    match left with
    | O => sret tt
    | S left' =>
        do* (let* p := get_account (proxy a) in
             modify_account (proxy a) (add_proxied (CHAIN_MAX_PROXY_RECURSION_DEPTH - left) delta)) in
        adjust_proxied_validator_votes_at left' (proxy a) delta
    end
  else adjust_validator_votes n delta.

Definition adjust_proxied_validator_votes (n : string) (delta : Z) : DB unit :=
  adjust_proxied_validator_votes_at CHAIN_MAX_PROXY_RECURSION_DEPTH n delta.

(** [delta[0] = -vesting_shares; delta[i + 1] = -proxied_vsf_votes[i]] *)
Fixpoint negate_all (l : list Z) : res (list Z) :=
  match l with
  | [] => Ok []
  | x :: l => let? y := safe_neg x in let? r := negate_all l in Ok (y :: r)
  end.
Definition withdraw_votes_delta (a : account_object) : res (list Z) :=
  negate_all (amount (vesting_shares a) :: proxied_vsf_votes a).

Definition clear_validator_votes (n : string) : DB unit :=
  let* a := get_account n in
  do* supd (λ s, s <| validator_votes ::= filter (λ p, p.1.1 ≠ acc_id a) |>) in
  let* hf5 := has_hardfork 5 in
  modify_account n (λ a,
    let a := a <| validators_voted_for := 0 |> in
    Ok (if hf5 : bool then a <| validators_vote_weight := 0 |> else a)).

(** ** Vesting *)

Definition create_vesting (to : string) (tokens : asset) : DB asset :=
  let* cprops := get_dgpo in
  let* new_vesting := slift (asset_mul_price tokens (get_vesting_share_price cprops)) in
  do* modify_account to (λ a,
    let? v := asset_add (vesting_shares a) new_vesting in Ok (a <| vesting_shares := v |>)) in
  do* modify_dgpo (λ p,
    let? f := asset_add (total_vesting_fund p) tokens in
    let? v := asset_add (total_vesting_shares p) new_vesting in
    Ok (p <| total_vesting_fund := f |> <| total_vesting_shares := v |>)) in
  do* adjust_proxied_validator_votes to (amount new_vesting) in
  sret new_vesting.

(** The energy an account has now: 100% regenerates in five days. *)
Definition current_energy (now : Z) (a : account_object) : Z :=
  Z.min (energy a + Z.quot (CHAIN_100_PERCENT * (now - last_vote_time a))
                      CHAIN_ENERGY_REGENERATION_SECONDS) CHAIN_100_PERCENT.

Definition shares_sender_recalc_energy (n : string) (tokens : asset) : DB unit :=
  let* a := get_account n in
  let* eff := slift (effective_vesting_shares a) in
  if 0 <? amount eff
  then
    let* now := head_block_time in
    modify_account n (λ s,
      let? m := raw_i64 (CHAIN_100_PERCENT * amount tokens) in
      let? eff := effective_vesting_shares s in
      let new_energy := Z.max (current_energy now s - Z.quot m (amount eff)) (- CHAIN_100_PERCENT) in
      Ok (s <| energy := to_i16 new_energy |> <| last_vote_time := now |>))
  else sret tt.

(** ** Accounts *)

Definition store_account_json_metadata (n json : string) (skip_empty : bool) : DB unit :=
  if skip_empty && bool_decide (json = "") then sret tt
  else supd (λ s, s <| metadata ::= <[n := json]> |>).

Definition update_master_authority (n : string) (a : authority) : DB unit :=
  let* num := head_block_num in
  let* now := head_block_time in
  let* old := get_in authorities "account_authority" n in
  do* swhen (1 <=? num)
    (supd (λ s, s <| master_history ::= λ l, l ++ [(n, master old, now)] |>)) in
  modify_in authorities n (λ o, Ok (o <| master := a |> <| last_master_update := now |>)).

(** ** Rewards *)

(** [(rf * rs) / total], checked to fit in 63 bits; [rs] is added to [total]. *)
Definition rshare_payout (p : dynamic_global_property_object) (rshares : Z) : res Z :=
  do? rassert (0 <? rshares) (E_assert "rshares > 0") in
  let rs := wu_of_i64 (w := 256) rshares in
  let rf := wu_of_i64 (w := 256) (amount (total_reward_fund p)) in
  let total := wu_add (w := 256) (total_reward_shares p) rs in
  let? payout := wu_div (w := 256) (wu_mul (w := 256) rf rs) total in
  do? rassert (payout <=? i64_max) (E_assert "payout_u256 <= int64 max") in
  Ok payout.

Definition calc_rshare_award (rshares : Z) : DB Z :=
  let* p := get_dgpo in slift (rshare_payout p rshares).

Definition claim_rshare_award (rshares : Z) : DB Z :=
  let* p := get_dgpo in
  let* payout := slift (rshare_payout p rshares) in
  let* now := head_block_time in
  do* modify_dgpo (λ p,
    let? f := safe_sub (amount (total_reward_fund p)) payout in
    Ok (p <| total_reward_fund ::= λ x, x <| amount := f |> |>
          <| total_reward_shares := wu_add (w := 128) (total_reward_shares p) (wide_i64 rshares) |>)) in
  do* supd (λ s, s <| award_shares ::= λ l,
    l ++ [(u32 (now + CHAIN_ENERGY_REGENERATION_SECONDS), rshares)] |>) in
  sret payout.
End env.
