(* ===== verification/Supply.v ===== *)
(** * Conservation of the token supply: the accounting

    [accounted] adds up every place that holds tokens: liquid and reserved
    balances, escrows with their pending fees, unclaimed invites, rewards
    pending for stakeholders, and the vesting, reward and committee funds.
    [gap] is its difference to the recorded [current_supply].  [eff s s' d]
    says that a step changes the gap by [d] and leaves escrows and invites
    alone; each primitive of the database has its [eff] lemma, collected in the
    hint database [eff], so that the effect of an evaluator is the sum of the
    effects of its steps. *)

From stdpp Require Import gmap strings list sorting.
From Stdlib Require Import ZArith Lia.
From S2P Require Import Prelude Fc Text Asset Authority Objects Database.

Definition liquid (a : account_object) : Z := amount (balance a) + amount (reserved_balance a).
Definition escrow_tokens (e : escrow_object) : Z := amount (token_balance e) + amount (pending_fee e).
Definition invite_tokens (i : invite_object) : Z := amount (inv_balance i).
Definition fund_tokens (p : dynamic_global_property_object) : Z :=
  amount (total_vesting_fund p) + amount (total_reward_fund p) + amount (committee_fund p).

Definition accounted (s : database) : Z :=
  msum liquid (accounts s) + msum escrow_tokens (escrows s) + msum invite_tokens (invites s) +
  msum pending_stakeholder_reward (validators s) + fund_tokens (dgpo s).

Definition gap (s : database) : Z := accounted s - amount (current_supply (dgpo s)).

Record eff (s s' : database) (d : Z) : Prop := {
  eff_gap : gap s' = gap s + d;
  eff_escrows : escrows s' = escrows s;
  eff_invites : invites s' = invites s
}.

(** The fee of an escrow is paid out when both parties have approved it. *)
Definition escrows_ok (s : database) : Prop :=
  ∀ k e, escrows s !! k = Some e → is_approved e = true → amount (pending_fee e) = 0.

(** An invite that was claimed holds nothing. *)
Definition invites_ok (s : database) : Prop :=
  ∀ k i, invites s !! k = Some i → inv_status i ≠ 0 → amount (inv_balance i) = 0.

(** The effect of an evaluator that does not handle escrows. *)
Definition keeps (s s' : database) : Prop :=
  gap s' = gap s ∧ escrows s' = escrows s ∧ (invites_ok s → invites_ok s').

Lemma invites_ok_same s s' : invites s' = invites s → invites_ok s → invites_ok s'.
Proof. unfold invites_ok. by intros ->. Qed.

Lemma eff_refl s : eff s s 0.
Proof. split; [lia|done..]. Qed.

Lemma eff_trans s1 s2 s3 d1 d2 : eff s1 s2 d1 → eff s2 s3 d2 → eff s1 s3 (d1 + d2).
Proof. intros [] []. split; [lia|congruence..]. Qed.

Lemma eff_eq s s' d d' : eff s s' d → d = d' → eff s s' d'.
Proof. by intros ? <-. Qed.

Lemma escrows_ok_same s s' : escrows_ok s → escrows s' = escrows s → escrows_ok s'.
Proof. intros Hok E k' e' Hk'. rewrite E in Hk'. eauto. Qed.

Lemma eff_keeps s s' d : eff s s' d → d = 0 → keeps s s'.
Proof. intros [? ? ?] ->. split_and!; [lia|done|by apply invites_ok_same]. Qed.

Lemma keeps_refl s : keeps s s.
Proof. done. Qed.

(** What the operations keep true of escrows and invites. *)
Definition holdings_ok (s : database) : Prop := escrows_ok s ∧ invites_ok s.

Lemma keeps_ok s s' : holdings_ok s → keeps s s' → gap s' = gap s ∧ holdings_ok s'.
Proof.
  intros [Hok Hi] (? & ? & ?). split; [done|]. split; [by eapply escrows_ok_same|auto].
Qed.

(** The liquid balance of an account, and what a payment adds to it. *)
Definition balance_of (s : database) (n : string) : Z :=
  from_option (λ a, amount (balance a)) 0 (accounts s !! n).

Definition paid_to (n : string) (p : string * Z) : Z := if decide (p.1 = n) then p.2 else 0.
Definition received (n : string) (l : list (string * Z)) : Z :=
  foldr (λ p acc, paid_to n p + acc) 0 l.

Lemma received_app n l l' : received n (l ++ l') = received n l + received n l'.
Proof. unfold received. induction l as [|p l IH]; cbn; lia. Qed.

Lemma received_perm n l l' : l ≡ₚ l' → received n l = received n l'.
Proof. unfold received. induction 1; cbn; lia. Qed.

(** ** Inversion of the store primitives *)

Section store.
Context {K V : Type} `{Countable K} (table : database → gmap K V) {St : Setter table}.

Lemma get_in_Ok what k s r :
  get_in table what k s = Ok r ↔ ∃ v, table s !! k = Some v ∧ r = (v, s).
Proof. unfold get_in. destruct (table s !! k); naive_solver. Qed.

Lemma find_in_Ok k s r : find_in table k s = Ok r ↔ r = (table s !! k, s).
Proof. unfold find_in, sgets. naive_solver. Qed.

Lemma modify_in_Ok k f s r :
  modify_in table k f s = Ok r ↔
  ∃ v v', table s !! k = Some v ∧ f v = Ok v' ∧ r = (tt, s <| table ::= <[k:=v']> |>).
Proof.
  unfold modify_in. destruct (table s !! k) as [v|]; [destruct (f v) as [v'|] eqn:E|].
  - split; [intros [= <-]; eauto 10|]. intros (? & ? & [= <-] & Hf & ->). congruence.
  - split; [done|]. intros (? & ? & [= <-] & Hf & _). congruence.
  - split; [done|]. intros (? & ? & [=] & _).
Qed.

Lemma create_in_Ok what k v s r :
  create_in table what k v s = Ok r ↔
  table s !! k = None ∧ r = (tt, s <| table ::= <[k:=v]> |>).
Proof. unfold create_in. destruct (table s !! k) as [?|]; naive_solver. Qed.

Lemma remove_in_Ok k s r :
  remove_in table k s = Ok r ↔
  ∃ v, table s !! k = Some v ∧ r = (tt, s <| table ::= delete k |>).
Proof. unfold remove_in. destruct (table s !! k) as [?|]; naive_solver. Qed.
End store.

Lemma modify_dgpo_Ok f s r :
  modify_dgpo f s = Ok r ↔ ∃ p, f (dgpo s) = Ok p ∧ r = (tt, s <| dgpo := p |>).
Proof. unfold modify_dgpo. destruct (f (dgpo s)); naive_solver. Qed.

(** ** Arithmetic of assets *)

Section arith.
Context {SI : SafeInt64}.

Lemma asset_add_Ok a b c :
  asset_add a b = Ok c → amount c = amount a + amount b ∧ symbol a = symbol b ∧ symbol c = symbol a.
Proof.
  unfold asset_add, same_symbol. intros. inv_ok. propify.
  match goal with H : safe_add _ _ = Ok _ |- _ => apply safe_add_sound in H as [-> _] end. done.
Qed.

Lemma asset_sub_Ok a b c :
  asset_sub a b = Ok c → amount c = amount a - amount b ∧ symbol a = symbol b ∧ symbol c = symbol a.
Proof.
  unfold asset_sub, same_symbol. intros. inv_ok. propify.
  match goal with H : safe_sub _ _ = Ok _ |- _ => apply safe_sub_sound in H as [-> _] end. done.
Qed.

Lemma asset_neg_Ok a c : asset_neg a = Ok c → amount c = - amount a ∧ symbol c = symbol a.
Proof.
  unfold asset_neg. intros. inv_ok.
  match goal with H : safe_neg _ = Ok _ |- _ => apply safe_neg_sound in H as [-> _] end. done.
Qed.

Lemma asset_ltb_Ok a b r :
  asset_ltb a b = Ok r → r = (amount a <? amount b) ∧ symbol a = symbol b.
Proof. unfold asset_ltb, same_symbol. intros. inv_ok. by propify. Qed.

Lemma asset_geb_Ok a b r :
  asset_geb a b = Ok r → r = (amount b <=? amount a) ∧ symbol a = symbol b.
Proof.
  unfold asset_geb. intros. inv_ok.
  match goal with H : asset_ltb _ _ = Ok _ |- _ => apply asset_ltb_Ok in H as [-> ?] end.
  split; [|done]. by rewrite Z.leb_antisym.
Qed.
End arith.

(** [inv_db] continues [inv_ok] through the store and asset operations. *)
Ltac inv_db_step :=
  match goal with
  | H : get_account _ _ = Ok _ |- _ => unfold get_account in H
  | H : find_account _ _ = Ok _ |- _ => unfold find_account in H
  | H : get_validator _ _ = Ok _ |- _ => unfold get_validator in H
  | H : get_escrow _ _ _ = Ok _ |- _ => unfold get_escrow in H
  | H : get_dgpo _ = Ok _ |- _ => unfold get_dgpo in H
  | H : head_block_time _ = Ok _ |- _ => unfold head_block_time in H
  | H : head_block_num _ = Ok _ |- _ => unfold head_block_num in H
  | H : get_median_props _ = Ok _ |- _ => unfold get_median_props in H
  | H : has_hardfork _ _ = Ok _ |- _ => unfold has_hardfork in H
  | H : get_in _ _ _ _ = Ok _ |- _ => apply get_in_Ok in H; destruct H as (? & ? & H)
  | H : find_in _ _ _ = Ok _ |- _ => apply find_in_Ok in H
  | H : asset_add _ _ = Ok _ |- _ => apply asset_add_Ok in H; destruct H as (? & ? & ?)
  | H : asset_sub _ _ = Ok _ |- _ => apply asset_sub_Ok in H; destruct H as (? & ? & ?)
  | H : asset_neg _ = Ok _ |- _ => apply asset_neg_Ok in H; destruct H
  | H : asset_geb _ _ = Ok _ |- _ => apply asset_geb_Ok in H; destruct H
  | H : asset_ltb _ _ = Ok _ |- _ => apply asset_ltb_Ok in H; destruct H
  | H : match ?o with Some _ => _ | None => _ end _ = Ok _ |- _ => destruct o eqn:?
  | H : match ?o with Some _ => _ | None => _ end = Ok _ |- _ => destruct o eqn:?
  end.
Ltac inv_db := inv_ok; repeat (inv_db_step; inv_ok).

(** ** Effects of single steps *)

Lemma eff_modify_in_other {K V} `{Countable K} (table : database → gmap K V) {St : Setter table} k f s u s' d :
  (∀ v v', table s !! k = Some v → f v = Ok v' → eff s (s <| table ::= <[k:=v']> |>) d) →
  modify_in table k f s = Ok (u, s') → eff s s' d.
Proof. intros Hd Hm. apply modify_in_Ok in Hm as (v & v' & Hk & Hf & [= _ ->]). eauto. Qed.

Lemma eff_accounts s n a a' :
  accounts s !! n = Some a → eff s (s <| accounts ::= <[n:=a']> |>) (liquid a' - liquid a).
Proof.
  intros Hn. split; [|done..]. unfold gap, accounted. cbn.
  rewrite (msum_insert liquid _ n a a' Hn). lia.
Qed.

Lemma eff_modify_account n f d s u s' :
  (∀ a a', accounts s !! n = Some a → f a = Ok a' → liquid a' = liquid a + d) →
  modify_account n f s = Ok (u, s') → eff s s' d.
Proof.
  intros Hf. apply eff_modify_in_other. intros a a' Hn Ha.
  eapply eff_eq; [by apply eff_accounts|]. specialize (Hf a a' Hn Ha). lia.
Qed.

Lemma eff_modify_validator n f s u s' :
  (∀ w w', f w = Ok w' → pending_stakeholder_reward w' = pending_stakeholder_reward w) →
  modify_validator n f s = Ok (u, s') → eff s s' 0.
Proof.
  intros Hf. apply eff_modify_in_other. intros w w' Hn Hw. split; [|done..].
  unfold gap, accounted. cbn. rewrite (msum_insert _ _ n w w' Hn), (Hf w w' Hw). lia.
Qed.

Lemma eff_modify_dgpo f s u s' :
  modify_dgpo f s = Ok (u, s') →
  ∃ p, f (dgpo s) = Ok p ∧
    eff s s' (fund_tokens p - fund_tokens (dgpo s) -
              (amount (current_supply p) - amount (current_supply (dgpo s)))).
Proof.
  intros (p & Hf & [= _ ->])%modify_dgpo_Ok. exists p. split; [done|]. split; [|done..].
  unfold gap, accounted. cbn. lia.
Qed.

(** Steps that touch none of the accounted tables. *)
Lemma eff_same s s' :
  accounts s' = accounts s → escrows s' = escrows s → invites s' = invites s →
  validators s' = validators s → dgpo s' = dgpo s → eff s s' 0.
Proof. intros Ha He Hi Hv Hd. split; [|done..]. unfold gap, accounted. rewrite Ha, He, Hi, Hv, Hd. lia. Qed.

Lemma eff_push_virtual_operation op s u s' :
  push_virtual_operation op s = Ok (u, s') → eff s s' 0.
Proof. intros [= _ <-]. by apply eff_same. Qed.

Lemma eff_create_account n f s u s' :
  (∀ a, liquid (f a) = liquid a) → create_account n f s = Ok (u, s') → eff s s' 0.
Proof.
  intros Hf H. unfold create_account in H. inv_ok.
  match goal with H : create_in _ _ _ _ _ = Ok _ |- _ => apply create_in_Ok in H as [Hn [= _ ->]] end.
  split; [|done..]. unfold gap, accounted. cbn. rewrite msum_insert_new by done.
  rewrite Hf. change (liquid (new_account _ _)) with 0. lia.
Qed.

Lemma eff_sfor {A} (l : list A) (body : A → DB unit) s u s' :
  (∀ x s u s', x ∈ l → body x s = Ok (u, s') → eff s s' 0) →
  sfor l body s = Ok (u, s') → eff s s' 0.
Proof.
  intros Hbody. revert s. induction l as [|x l IH]; intros s H; cbn [sfor] in H.
  - apply sret_Ok in H as [= _ ->]. apply eff_refl.
  - apply sbind_Ok in H as (a & s1 & H1 & H). apply (eff_eq _ _ (0 + 0)); [|lia].
    eapply eff_trans; [eapply Hbody; [by left|done]|]. eapply IH; [|done].
    intros y ? ? ? Hy. apply Hbody. by right.
Qed.

(** ** Effects of the shared routines *)

Section routines.
Context {CE : ChainEnv}.

Lemma eff_adjust_balance n x s u s' : adjust_balance n x s = Ok (u, s') → eff s s' (amount x).
Proof.
  apply eff_modify_account. intros a a' _ Ha. inv_db. unfold liquid. cbn. lia.
Qed.

Lemma balance_adjust n x s u s' m :
  adjust_balance n x s = Ok (u, s') → balance_of s' m = balance_of s m + paid_to m (n, amount x).
Proof.
  intros (a & a' & Hn & Ha & [= _ ->])%modify_in_Ok. unfold balance_of, paid_to. cbn.
  destruct (symbol x =? TOKEN_SYMBOL); [|done]. inv_db. case_decide as E.
  - cbn in E. subst m. rewrite lookup_insert_eq, Hn. cbn. lia.
  - rewrite lookup_insert_ne by done. lia.
Qed.

Lemma eff_debit n x s u s' : debit n x s = Ok (u, s') → eff s s' (- amount x).
Proof.
  unfold debit. intros H. inv_db. apply eff_adjust_balance in H. by eapply eff_eq.
Qed.

Lemma eff_add_committee_fund x s u s' : add_committee_fund x s = Ok (u, s') → eff s s' (amount x).
Proof.
  unfold add_committee_fund. intros H. apply eff_modify_dgpo in H as (p & Hp & He). inv_db.
  eapply eff_eq; [exact He|]. unfold fund_tokens. cbn. lia.
Qed.

Lemma eff_burn_asset x s u s' : burn_asset x s = Ok (u, s') → eff s s' (- amount x).
Proof.
  unfold burn_asset. intros H. apply eff_modify_dgpo in H as (p & Hp & He). inv_db.
  eapply eff_eq; [exact He|]. unfold fund_tokens. cbn. lia.
Qed.

Lemma eff_adjust_validator_vote n x s u s' : adjust_validator_vote n x s = Ok (u, s') → eff s s' 0.
Proof.
  unfold adjust_validator_vote. intros H. inv_db. revert H. apply eff_modify_validator.
  intros w w' Hw. inv_db. done.
Qed.

Lemma eff_adjust_voted i x s u s' : adjust_voted i x s = Ok (u, s') → eff s s' 0.
Proof.
  unfold adjust_voted. intros H. inv_db. revert H. apply eff_sfor.
  intros id s0 u0 s1 _ H. inv_ok. unfold get_validator_by_id in *.
  destruct (list_find _ _) as [[? [? ?]]|]; inv_ok. by eapply eff_adjust_validator_vote.
Qed.

Lemma eff_adjust_validator_votes n x s u s' : adjust_validator_votes n x s = Ok (u, s') → eff s s' 0.
Proof.
  unfold adjust_validator_votes. intros H. inv_db; [|apply eff_refl|by eapply eff_adjust_voted].
  apply (eff_eq _ _ (0 + 0)); [|lia].
  eapply eff_trans; [eapply eff_modify_account; [|done]|by eapply eff_adjust_voted].
  intros a a' _ Ha. inv_db. unfold liquid. cbn. lia.
Qed.

Lemma add_proxied_liquid i x a a' : add_proxied i x a = Ok a' → liquid a' = liquid a.
Proof. unfold add_proxied. intros. inv_db. done. Qed.

Lemma add_proxied_all_liquid n d l a a' : add_proxied_all n d l a = Ok a' → liquid a' = liquid a.
Proof.
  revert a. induction n as [|n IH]; intros a H; cbn in H; inv_db; [done|].
  apply IH in H. apply add_proxied_liquid in H0. congruence.
Qed.

Lemma eff_adjust_proxied_array left n l s u s' :
  adjust_proxied_validator_votes_array left n l s = Ok (u, s') → eff s s' 0.
Proof.
  revert n s. induction left as [|left IH]; intros n s H;
    cbn [adjust_proxied_validator_votes_array] in H; inv_db.
  - apply eff_refl.
  - by eapply eff_adjust_validator_votes.
  - apply (eff_eq _ _ (0 + 0)); [|lia]. eapply eff_trans; [|by eapply IH].
    eapply eff_modify_account; [|done]. intros a a' _ Ha.
    apply add_proxied_all_liquid in Ha. lia.
  - by eapply eff_adjust_validator_votes.
Qed.

Lemma eff_adjust_proxied n x s u s' : adjust_proxied_validator_votes n x s = Ok (u, s') → eff s s' 0.
Proof.
  unfold adjust_proxied_validator_votes. generalize CHAIN_MAX_PROXY_RECURSION_DEPTH. intros left.
  revert n s. induction left as [|left IH]; intros n s H;
    cbn [adjust_proxied_validator_votes_at] in H; inv_db.
  - apply eff_refl.
  - by eapply eff_adjust_validator_votes.
  - apply (eff_eq _ _ (0 + 0)); [|lia]. eapply eff_trans; [|by eapply IH].
    eapply eff_modify_account; [|done]. intros a a' _ Ha. apply add_proxied_liquid in Ha. lia.
  - by eapply eff_adjust_validator_votes.
Qed.

Lemma eff_create_vesting n x s r s' : create_vesting n x s = Ok (r, s') → eff s s' (amount x).
Proof.
  unfold create_vesting. intros H. inv_db.
  match goal with H : modify_account _ _ _ = Ok _ |- _ =>
    eapply (eff_modify_account _ _ 0) in H; [|intros a a' _ Ha; inv_db; unfold liquid; cbn; lia] end.
  match goal with H : modify_dgpo _ _ = Ok _ |- _ => apply eff_modify_dgpo in H as (p & Hp & He) end.
  match goal with H : adjust_proxied_validator_votes _ _ _ = Ok _ |- _ => apply eff_adjust_proxied in H end.
  inv_db. eapply eff_eq; [eapply eff_trans; [|eapply eff_trans]; eassumption|].
  unfold fund_tokens. cbn. lia.
Qed.

Lemma eff_shares_sender n x s u s' : shares_sender_recalc_energy n x s = Ok (u, s') → eff s s' 0.
Proof.
  unfold shares_sender_recalc_energy. intros H. inv_db; [|apply eff_refl].
  eapply eff_modify_account; [|done]. intros a a' _ Ha. inv_db. unfold liquid. cbn. lia.
Qed.

Lemma eff_clear_validator_votes n s u s' : clear_validator_votes n s = Ok (u, s') → eff s s' 0.
Proof.
  unfold clear_validator_votes. intros H. inv_db. eapply (eff_eq _ _ (0 + 0)); [|lia].
  eapply eff_trans; [|eapply eff_modify_account; [|exact H]; intros a a' _ Ha; inv_ok;
    unfold liquid; cbn; destruct (_ <? _); cbn; lia].
  by apply eff_same.
Qed.

Lemma eff_store_metadata n j b s u s' : store_account_json_metadata n j b s = Ok (u, s') → eff s s' 0.
Proof. unfold store_account_json_metadata. intros H. inv_db; by apply eff_same. Qed.

Lemma eff_modify_authority n f s u s' : modify_in authorities n f s = Ok (u, s') → eff s s' 0.
Proof. apply eff_modify_in_other. intros. by apply eff_same. Qed.

Lemma eff_update_master_authority n a s u s' : update_master_authority n a s = Ok (u, s') → eff s s' 0.
Proof.
  unfold update_master_authority. intros H. inv_db; apply eff_modify_authority in H; [|done].
  eapply eff_eq; [eapply eff_trans; [|exact H]; by apply eff_same|lia].
Qed.

Lemma eff_claim_rshare_award x s r s' : claim_rshare_award x s = Ok (r, s') → eff s s' (- r).
Proof.
  unfold claim_rshare_award. intros H. inv_db.
  match goal with H : modify_dgpo _ _ = Ok _ |- _ => apply eff_modify_dgpo in H as (p & Hp & He) end.
  inv_db. match goal with H : safe_sub _ _ = Ok _ |- _ => apply safe_sub_sound in H as [-> _] end.
  eapply eff_eq; [eapply eff_trans; [exact He|by apply eff_same]|]. unfold fund_tokens. cbn. lia.
Qed.
End routines.

Create HintDb eff discriminated.
#[export] Hint Resolve eff_refl eff_adjust_balance eff_debit eff_add_committee_fund eff_burn_asset
  eff_adjust_validator_vote eff_adjust_voted eff_adjust_validator_votes eff_adjust_proxied
  eff_adjust_proxied_array eff_create_vesting eff_shares_sender eff_clear_validator_votes
  eff_store_metadata eff_modify_authority eff_update_master_authority eff_claim_rshare_award
  eff_push_virtual_operation : eff.
