(* ===== verification/Frame.v ===== *)
(** * What moving vesting shares leaves alone

    [create_vesting] and the routines under it touch the shares, the proxied
    votes and the vote weight of accounts, the tallies of validators and the
    vesting totals, and nothing else.  A relation between states that ignores
    these ([VoteFrame]) is kept by all of them. *)

From stdpp Require Import gmap strings list sorting.
From Stdlib Require Import ZArith Lia.
From S2P Require Import Prelude Fc Text Asset Authority Objects Database Supply.

Definition only_votes (a a' : account_object) : Prop :=
  a' = a <| vesting_shares := vesting_shares a' |> <| proxied_vsf_votes := proxied_vsf_votes a' |>
         <| validators_vote_weight := validators_vote_weight a' |>.

Definition only_tally (w w' : validator_object) : Prop :=
  w' = w <| votes := votes w' |> <| counted_votes := counted_votes w' |>
         <| virtual_last_update := virtual_last_update w' |>
         <| virtual_position := virtual_position w' |>
         <| virtual_scheduled_time := virtual_scheduled_time w' |>.

Definition only_vesting_totals (p p' : dynamic_global_property_object) : Prop :=
  p' = p <| total_vesting_fund := total_vesting_fund p' |>
         <| total_vesting_shares := total_vesting_shares p' |>.

Class VoteFrame (R : relation database) := {
  vf_pre :: PreOrder R;
  vf_account s n a a' : accounts s !! n = Some a → only_votes a a' → R s (s <| accounts ::= <[n:=a']> |>);
  vf_validator s n w w' :
    validators s !! n = Some w → only_tally w w' → R s (s <| validators ::= <[n:=w']> |>);
  vf_dgpo s p' : only_vesting_totals (dgpo s) p' → R s (s <| dgpo := p' |>)
}.

Section frame.
Context {CE : ChainEnv} (R : relation database) `{!VoteFrame R}.

Lemma frame_account n f s u s' :
  (∀ a a', f a = Ok a' → only_votes a a') → modify_account n f s = Ok (u, s') → R s s'.
Proof.
  intros Hf (a & a' & Ha & Hfa & [= _ ->])%modify_in_Ok. eapply vf_account; eauto.
Qed.

Lemma frame_sfor {A} (l : list A) (body : A → DB unit) s u s' :
  (∀ x s u s', body x s = Ok (u, s') → R s s') → sfor l body s = Ok (u, s') → R s s'.
Proof.
  intros Hbody. revert s. induction l as [|x l IH]; intros s H; cbn [sfor] in H; inv_ok; [done|].
  etrans; eauto.
Qed.

Lemma frame_adjust_validator_vote n x s u s' : adjust_validator_vote n x s = Ok (u, s') → R s s'.
Proof.
  unfold adjust_validator_vote. intros H. inv_db.
  apply modify_in_Ok in H as (w & w' & Hw & Hf & [= _ ->]). eapply vf_validator; [done|].
  inv_ok. done.
Qed.

Lemma frame_adjust_voted i x s u s' : adjust_voted i x s = Ok (u, s') → R s s'.
Proof.
  unfold adjust_voted. intros H. inv_db. revert H. apply frame_sfor.
  intros id s0 u0 s1 H. inv_ok. unfold get_validator_by_id in *.
  destruct (list_find _ _) as [[? [? ?]]|]; inv_ok. by eapply frame_adjust_validator_vote.
Qed.

Lemma frame_adjust_validator_votes n x s u s' : adjust_validator_votes n x s = Ok (u, s') → R s s'.
Proof.
  unfold adjust_validator_votes. intros H. inv_db; [|done|by eapply frame_adjust_voted].
  etrans; [eapply frame_account; [|done]|by eapply frame_adjust_voted].
  intros a a' Ha. by inv_ok.
Qed.

Lemma add_proxied_votes i x a a' : add_proxied i x a = Ok a' → only_votes a a'.
Proof. unfold add_proxied. intros. by inv_db. Qed.

Lemma frame_adjust_proxied n x s u s' : adjust_proxied_validator_votes n x s = Ok (u, s') → R s s'.
Proof.
  unfold adjust_proxied_validator_votes. generalize CHAIN_MAX_PROXY_RECURSION_DEPTH. intros left.
  revert n s. induction left as [|left IH]; intros n s H;
    cbn [adjust_proxied_validator_votes_at] in H; inv_db;
    try done; try by eapply frame_adjust_validator_votes.
  etrans; [eapply frame_account; [|done]; intros a a' Ha; by eapply add_proxied_votes|by eapply IH].
Qed.

Lemma frame_create_vesting n x s r s' : create_vesting n x s = Ok (r, s') → R s s'.
Proof.
  unfold create_vesting. intros H. inv_ok. inv_db_step. inv_ok.
  match goal with H : modify_account _ _ _ = Ok _ |- _ => apply frame_account in H end.
  2:{ intros a a' Ha. by inv_ok. }
  match goal with H : modify_dgpo _ _ = Ok _ |- _ => apply modify_dgpo_Ok in H as (p & Hp & [= _ ->]) end.
  match goal with H : adjust_proxied_validator_votes _ _ _ = Ok _ |- _ =>
    apply frame_adjust_proxied in H end.
  etrans; [eassumption|]. etrans; [|eassumption]. apply vf_dgpo. by inv_ok.
Qed.
End frame.

(** The rewards that wait for stakeholders, by validator. *)
Definition pendings (s : database) : gmap string Z := pending_stakeholder_reward <$> validators s.

Definition same_pendings (s s' : database) : Prop :=
  pendings s' = pendings s ∧ validator_votes s' = validator_votes s.

#[export] Instance same_pendings_frame : VoteFrame same_pendings.
Proof.
  unfold same_pendings, pendings. split.
  - split; [by intros ?|by intros x y z [-> ->] [-> ->]].
  - done.
  - intros s n w w' Hw ->. split; [|done]. cbn. rewrite fmap_insert. apply insert_id.
    by rewrite lookup_fmap, Hw.
  - done.
Qed.

Lemma same_pendings_lookup s s' n w :
  same_pendings s s' → validators s !! n = Some w →
  ∃ w', validators s' !! n = Some w' ∧ pending_stakeholder_reward w' = pending_stakeholder_reward w.
Proof.
  unfold same_pendings, pendings. intros [E _] Hw.
  assert ((pending_stakeholder_reward <$> validators s') !! n = Some (pending_stakeholder_reward w)) as H
    by (rewrite E, lookup_fmap, Hw; done).
  rewrite lookup_fmap in H. destruct (validators s' !! n) as [w'|]; naive_solver.
Qed.

Lemma same_pendings_push op s u s' : push_virtual_operation op s = Ok (u, s') → same_pendings s s'.
Proof. by intros [= _ <-]. Qed.

(** ** Views of the accounts

    What a component looks at in each account, as a map. *)

Section view.
Context {V : Type} (v : account_object → V).

Definition view (s : database) : gmap string V := v <$> accounts s.

Definition same_view (s s' : database) : Prop :=
  view s' = view s ∧ time (dgpo s') = time (dgpo s).

#[export] Instance same_view_preorder : PreOrder same_view.
Proof. unfold same_view. split; [by intros ?|by intros x y z [-> ->] [-> ->]]. Qed.

Lemma view_get n s a : accounts s !! n = Some a → view s !! n = Some (v a).
Proof. intros Ha. unfold view. by rewrite lookup_fmap, Ha. Qed.

Lemma view_lookup n s x : view s !! n = Some x → ∃ a, accounts s !! n = Some a ∧ v a = x.
Proof. unfold view. rewrite lookup_fmap. destruct (accounts s !! n); naive_solver. Qed.

Lemma view_modify n f s u s' :
  modify_account n f s = Ok (u, s') →
  ∃ a a', accounts s !! n = Some a ∧ f a = Ok a' ∧
    view s' = <[n := v a']> (view s) ∧ time (dgpo s') = time (dgpo s).
Proof.
  intros (a & a' & Ha & Hf & [= _ ->])%modify_in_Ok. exists a, a'. split_and!; [done..| |done].
  unfold view. cbn. by rewrite fmap_insert.
Qed.

Lemma same_view_modify n f s u s' :
  (∀ a a', f a = Ok a' → v a' = v a) → modify_account n f s = Ok (u, s') → same_view s s'.
Proof.
  unfold same_view. intros Hf (a & a' & Ha & Hfa & -> & ?)%view_modify. split; [|done].
  apply insert_id. rewrite (view_get n s a) by done. by rewrite (Hf a a').
Qed.

Lemma same_view_push op s u s' : push_virtual_operation op s = Ok (u, s') → same_view s s'.
Proof. by intros [= _ <-]. Qed.

Lemma same_view_frame : (∀ a a', only_votes a a' → v a' = v a) → VoteFrame same_view.
Proof.
  intros Hv. split.
  - apply _.
  - intros s n a a' Ha Hvotes. unfold same_view, view. split; [|done]. cbn. rewrite fmap_insert.
    apply insert_id. rewrite lookup_fmap, Ha. cbn. by rewrite (Hv a a').
  - done.
  - unfold same_view. intros s p' ->. done.
Qed.
End view.

(** ** What a computation leaves alone

    [leaves P m]: the part [P] of the state is the same after [m].  The tactic
    [solve_leaves] follows the structure of [m]; the routines that recurse are
    in the hint database [leaves]. *)

Create HintDb leaves discriminated.

Definition leaves {X A} (P : database → X) (m : DB A) : Prop :=
  ∀ s r s', m s = Ok (r, s') → P s' = P s.

Section leaves.
Context {X : Type} {P : database → X}.

Lemma leaves_bind {A B} (m : DB A) (k : A → DB B) :
  leaves P m → (∀ a, leaves P (k a)) → leaves P (sbind m k).
Proof.
  intros Hm Hk s r s' H. apply sbind_Ok in H as (a & s1 & H1 & H).
  rewrite (Hk _ _ _ _ H). by eapply Hm.
Qed.

Lemma leaves_when b (m : DB unit) : leaves P m → leaves P (swhen b m).
Proof. intros Hm s r s' H. unfold swhen in H. destruct b; [by eapply Hm|by inv_ok]. Qed.

Lemma leaves_for {A} (l : list A) (body : A → DB unit) :
  (∀ x, leaves P (body x)) → leaves P (sfor l body).
Proof.
  intros Hb. induction l as [|x l IH]; cbn [sfor]; [|by apply leaves_bind].
  intros s r s' H. by inv_ok.
Qed.
End leaves.

Section primitives.
Context {X : Type} (P : database → X).

Lemma leaves_pure {A} (m : DB A) : (∀ s r s', m s = Ok (r, s') → s' = s) → leaves P m.
Proof. intros H s r s' Hm. by rewrite (H _ _ _ Hm). Qed.

Lemma leaves_sret {A} (a : A) : leaves P (sret a).
Proof. apply leaves_pure. by intros s r s' [= _ <-]. Qed.

Lemma leaves_sgets {A} (f : database → A) : leaves P (sgets f).
Proof. apply leaves_pure. by intros s r s' [= _ <-]. Qed.

Lemma leaves_sget : leaves P sget.
Proof. apply leaves_pure. by intros s r s' [= _ <-]. Qed.

Lemma leaves_slift {A} (r : res A) : leaves P (slift r).
Proof. apply leaves_pure. intros s x s' H. apply slift_Ok in H as (? & ? & [= _ ->]). done. Qed.

Lemma leaves_sassert b msg : leaves P (sassert b msg).
Proof. apply leaves_pure. intros s x s' H. apply sassert_Ok in H as (? & [= _ ->]). done. Qed.

Lemma leaves_sthrow {A} e : leaves P (sthrow (A := A) e).
Proof. by intros s x s' H%sthrow_Ok. Qed.

Lemma leaves_get_in {K V} `{Countable K} (table : database → gmap K V) what k : leaves P (get_in table what k).
Proof. apply leaves_pure. intros s x s' H'. apply get_in_Ok in H' as (? & ? & [= _ ->]). done. Qed.
End primitives.

Ltac leaves_change lem :=
  let s := fresh in let r := fresh in let s' := fresh in let H := fresh in
  intros s r s' H; lem H; reflexivity.
Ltac inv_modify_in H := apply modify_in_Ok in H as (? & ? & ? & ? & [= _ ->]).
Ltac inv_modify_dgpo H := apply modify_dgpo_Ok in H as (? & ? & [= _ ->]); inv_ok.
Ltac inv_create_in H := apply create_in_Ok in H as (? & [= _ ->]).
Ltac inv_remove_in H := apply remove_in_Ok in H as (? & ? & [= _ ->]).
Ltac inv_supd H := injection H as _ <-.
Ltac leaves_lambda :=
  let s := fresh in let r := fresh in let s' := fresh in let H := fresh in
  intros s r s' H; cbn beta in H; repeat case_match; try discriminate H;
  injection H as _ <-; reflexivity.
Ltac head_of t := lazymatch t with ?f _ => head_of f | _ => t end.
Ltac leaves_step :=
  lazymatch goal with
  | |- leaves _ (sbind _ _) => apply leaves_bind; [|intros ?]
  | |- leaves _ (swhen _ _) => apply leaves_when
  | |- leaves _ (sfor _ _) => apply leaves_for; intros ?
  | |- leaves _ (match ?x with _ => _ end) => destruct x
  | |- leaves _ (let _ := _ in _) => cbv zeta
  | |- leaves _ (modify_in _ _ _) => leaves_change inv_modify_in
  | |- leaves _ (create_in _ _ _ _) => leaves_change inv_create_in
  | |- leaves _ (remove_in _ _) => leaves_change inv_remove_in
  | |- leaves _ (modify_dgpo _) => leaves_change inv_modify_dgpo
  | |- leaves _ (supd _) => leaves_change inv_supd
  | |- leaves _ (get_in _ _ _) => apply leaves_get_in
  | |- leaves _ (slift _) => apply leaves_slift
  | |- leaves _ (sassert _ _) => apply leaves_sassert
  | |- leaves _ (sthrow _) => apply leaves_sthrow
  | |- leaves _ (sret _) => apply leaves_sret
  | |- leaves _ (sgets _) => apply leaves_sgets
  | |- leaves _ sget => apply leaves_sget
  | |- leaves _ (λ _, _) => leaves_lambda
  | |- leaves _ ?m =>
      first [ solve [eauto with leaves nocore]
            | let h := head_of m in progress (unfold h) ]
  end.
Ltac solve_leaves := repeat leaves_step.
