(* ===== verification/Scenario.v ===== *)
(** * A small chain

    A concrete environment and a concrete state, on which the theorems are
    applied: three users, one validator, a reward fund, and a median of chain
    properties, after the last hardfork. *)

From stdpp Require Import gmap strings list sorting.
From Stdlib Require Import ZArith Lia.
From S2P Require Import Prelude Fc Text Asset Authority Block ForkDb Objects Database Supply.

(** The key of a secret is 7 for ["secret"]; other secrets are not WIF. *)
Definition test_env : ChainEnv := {|
  env_safe := checked_int64; env_u128 := uint128; env_u256 := uint256; env_text := plain_text;
  env_hash := signature_hash; env_buckets := first_in_bucket; pack_size _ := 300;
  parse_public_key s := if bool_decide (s = "") then Err (E_parse "public_key_type") else Ok 5;
  wif_to_public_key s := if bool_decide (s = "secret") then Some 7 else None
|}.

Definition user (id : Z) (n : string) (tokens vests : Z) : account_object :=
  (new_account id n) <| balance := token tokens |> <| vesting_shares := shares vests |>
    <| last_vote_time := 1000000 |>.

Definition test_accounts : gmap string account_object :=
  <["alice" := user 1 "alice" 500000000 3000000000]>
  (<["bob" := user 2 "bob" 200000000 1000000000]>
  (<["carol" := user 3 "carol" 1000 0]>
  (<["null" := user 4 "null" 0 0]>
  (<["committee" := user 5 "committee" 0 0]>
  (<["anonymous" := user 6 "anonymous" 0 0]> ∅))))).

Definition user_auths : account_authority_object :=
  mk_account_authority (mk_authority 1 [] [(5, 1)]) (mk_authority 1 [] [(5, 1)])
    (mk_authority 1 [] [(5, 1)]) 0.

Definition test_db : database := {|
  accounts := test_accounts;
  authorities := (λ _, user_auths) <$> test_accounts;
  metadata := (λ _, "") <$> test_accounts;
  delegations := ∅; delegation_expirations := []; escrows := ∅; routes := ∅;
  validators := <["alice" := (new_validator 0 "alice") <| signing_key := 5 |>]> ∅;
  validator_votes := ∅; invites := ∅; committee_requests := ∅; committee_votes := ∅;
  paid_subscriptions := ∅; paid_subscribes := ∅; recovery_requests := ∅;
  change_recovery_requests := ∅; master_history := []; award_shares := [];
  transactions := ∅; block_summaries := <[1 := 77]> ∅;
  validator_confirmations := []; proposals := ∅; required_approvals := ∅; next_proposal_id := 0;
  dgpo := {|
    genesis_time := 0;
    head_block_number := 100; time := 1000000; current_validator := "alice";
    committee_fund := token 1000000; committee_requests_count := 0;
    current_supply := token 715001000;
    total_vesting_fund := token 4000000; total_vesting_shares := shares 4000000000;
    total_reward_fund := token 10000000; total_reward_shares := 1000000000;
    dgp_inflation_validator_percent := 2000; dgp_inflation_ratio := 5000; current_aslot := 100;
    inflation_calc_block_num := 0; max_virtual_bandwidth := 100000000000000;
    bandwidth_reserve_candidates := 1; head_block_id := 77; average_block_size := 300;
    dgp_maximum_block_size := 131072; recent_slots_filled := 2 ^ 128 - 1; participation_count := 128;
    last_irreversible_block_num := 90; last_irreversible_block_id := 0;
    last_irreversible_block_ref_num := 0; last_irreversible_block_ref_prefix := 0; current_reserve_ratio := 20000;
    emergency_consensus_active := false; emergency_consensus_start_block := 0 |};
  schedule := {|
    current_virtual_time := 0; current_shuffled_validators := ["alice"];
    num_scheduled_validators := 1; median_props := default_chain_properties; next_shuffle_block_num := 105;
    majority_version := 0 |};
  hardforks := mk_hardfork_property (replicate 14 0) 13 0 0 0; penalty_expirations := [];
  fork_db := empty_fork_database; block_log := []; is_producing := false; wall_clock := 1000000; virtual_ops := [];
  next_account_id := 7; next_validator_id := 1
|}.

Lemma test_db_balanced : gap test_db = 0.
Proof. vm_compute. reflexivity. Qed.

Lemma test_db_escrows : escrows_ok test_db.
Proof. intros k e Hk. cbn in Hk. by rewrite lookup_empty in Hk. Qed.

Lemma test_db_holdings : holdings_ok test_db.
Proof. split; [apply test_db_escrows|]. intros k i Hk. cbn in Hk. by rewrite lookup_empty in Hk. Qed.

(** The state after a run that succeeds. *)
Definition after {A} (m : DB A) (s : database) : database :=
  match m s with Ok (_, s') => s' | Err _ => s end.

Lemma after_Ok (m : DB unit) s : is_Ok (m s) = true → m s = Ok (tt, after m s).
Proof. unfold after. by destruct (m s) as [[[] ?]|]. Qed.
