(* ===== verification/EvalTransfer.v ===== *)
(** * Evaluators of transfers, escrow and vesting
      (libraries/chain/chain_evaluator.cpp, lines 688-1062)

    Each [..._apply] is the [do_apply] of one evaluator, in the order of its
    checks and changes. *)

From stdpp Require Import gmap strings list sorting.
From Stdlib Require Import ZArith Lia Ascii.
From S2P Require Import Prelude Fc Text Asset Authority Objects Database Operations Supply Frame.

Section evaluators.
Context {CE : ChainEnv}.

(** [FC_ASSERT(a >= b)] on assets. *)
Definition require_ge (a b : asset) (msg : string) : DB unit :=
  let* r := slift (asset_geb a b) in sassert r msg.

(** ** Escrow *)

Definition escrow_transfer_apply (o : escrow_transfer_operation) : DB unit :=
  let* from := get_account (et_from o) in
  let* to := get_account (et_to o) in
  let* agent := get_account (et_agent o) in
  let* now := head_block_time in
  do* sassert (now <? et_ratification_deadline o) "ratification deadline" in
  do* sassert (now <? et_escrow_expiration o) "escrow expiration" in
  let* token_spent :=
    (if symbol (et_fee o) =? TOKEN_SYMBOL then slift (asset_add (et_token_amount o) (et_fee o))
     else sret (et_token_amount o)) in
  do* require_ge (balance from) token_spent "Account cannot cover token costs of escrow" in
  do* debit (et_from o) token_spent in
  create_in escrows "escrow" (et_from o, et_escrow_id o)
    {| esc_to := et_to o; esc_agent := et_agent o;
       ratification_deadline := et_ratification_deadline o;
       escrow_expiration := et_escrow_expiration o;
       token_balance := et_token_amount o; pending_fee := et_fee o;
       to_approved := false; agent_approved := false; disputed := false |}.

Definition modify_escrow (from : string) (id : Z) (f : escrow_object → res escrow_object) : DB unit :=
  modify_in escrows (from, id) f.

Definition escrow_approve_apply (o : escrow_approve_operation) : DB unit :=
  let* escrow := get_escrow (ea_from o) (ea_escrow_id o) in
  do* sassert (bool_decide (esc_to escrow = ea_to o)) "Operation 'to' does not match" in
  do* sassert (bool_decide (esc_agent escrow = ea_agent o)) "Operation 'agent' does not match" in
  let* now := head_block_time in
  do* sassert (now <=? ratification_deadline escrow) "ratification deadline has passed" in
  let reject_escrow := negb (ea_approve o) in
  do* swhen (bool_decide (ea_who o = ea_to o))
    (do* sassert (negb (to_approved escrow)) "Account 'to' has already approved" in
     swhen (negb reject_escrow)
       (modify_escrow (ea_from o) (ea_escrow_id o) (λ e, Ok (e <| to_approved := true |>)))) in
  let* escrow := get_escrow (ea_from o) (ea_escrow_id o) in
  do* swhen (bool_decide (ea_who o = ea_agent o))
    (do* sassert (negb (agent_approved escrow)) "Account 'agent' has already approved" in
     swhen (negb reject_escrow)
       (modify_escrow (ea_from o) (ea_escrow_id o) (λ e, Ok (e <| agent_approved := true |>)))) in
  let* escrow := get_escrow (ea_from o) (ea_escrow_id o) in
  if reject_escrow : bool
  then
    let* from := get_account (ea_from o) in
    do* adjust_balance (ea_from o) (token_balance escrow) in
    do* adjust_balance (ea_from o) (pending_fee escrow) in
    remove_in escrows (ea_from o, ea_escrow_id o)
  else
    swhen (to_approved escrow && agent_approved escrow)
      (let* agent := get_account (ea_agent o) in
       do* adjust_balance (ea_agent o) (pending_fee escrow) in
       modify_escrow (ea_from o) (ea_escrow_id o)
         (λ e, Ok (e <| pending_fee ::= λ f, f <| amount := 0 |> |>))).

Definition escrow_dispute_apply (o : escrow_dispute_operation) : DB unit :=
  let* from := get_account (ed_from o) in
  let* e := get_escrow (ed_from o) (ed_escrow_id o) in
  let* now := head_block_time in
  do* sassert (now <? escrow_expiration e) "Disputing must happen before expiration" in
  do* sassert (to_approved e && agent_approved e) "must be approved by all parties" in
  do* sassert (negb (disputed e)) "The escrow is already under dispute" in
  do* sassert (bool_decide (esc_to e = ed_to o)) "Operation 'to' does not match" in
  do* sassert (bool_decide (esc_agent e = ed_agent o)) "Operation 'agent' does not match" in
  modify_escrow (ed_from o) (ed_escrow_id o) (λ e, Ok (e <| disputed := true |>)).

Definition escrow_release_apply (o : escrow_release_operation) : DB unit :=
  let* from := get_account (er_from o) in
  let* receiver := get_account (er_receiver o) in
  let* e := get_escrow (er_from o) (er_escrow_id o) in
  do* require_ge (token_balance e) (er_token_amount o) "Release amount exceeds escrow balance" in
  do* sassert (bool_decide (esc_to e = er_to o)) "Operation 'to' does not match" in
  do* sassert (bool_decide (esc_agent e = er_agent o)) "Operation 'agent' does not match" in
  do* sassert (bool_decide (er_receiver o = er_from o) || bool_decide (er_receiver o = esc_to e))
    "Funds must be released to 'from' or 'to'" in
  do* sassert (to_approved e && agent_approved e) "Funds cannot be released prior to approval" in
  let* now := head_block_time in
  do* (if disputed e
       then sassert (bool_decide (er_who o = esc_agent e)) "Only 'agent' can release"
       else
         do* sassert (bool_decide (er_who o = er_from o) || bool_decide (er_who o = esc_to e))
           "Only 'from' and 'to' can release" in
         swhen (now <? escrow_expiration e)
           (if bool_decide (er_who o = er_from o)
            then sassert (bool_decide (er_receiver o = esc_to e)) "'from' can release to 'to'"
            else swhen (bool_decide (er_who o = esc_to e))
              (sassert (bool_decide (er_receiver o = er_from o)) "'to' can release to 'from'"))) in
  do* adjust_balance (er_receiver o) (er_token_amount o) in
  do* modify_escrow (er_from o) (er_escrow_id o) (λ e,
    let? b := asset_sub (token_balance e) (er_token_amount o) in Ok (e <| token_balance := b |>)) in
  let* e := get_escrow (er_from o) (er_escrow_id o) in
  swhen (amount (token_balance e) =? 0) (remove_in escrows (er_from o, er_escrow_id o)).

(** ** Transfers *)

(** [std::stoi]: blanks, an optional sign, then as many digits as there are. *)
Fixpoint take_digits (s : string) : string :=
  match s with
  | String c s => if is_digit c then String c (take_digits s) else EmptyString
  | EmptyString => EmptyString
  end.
Definition stoi (s : string) : res Z :=
  let s := drop_blanks s in
  let '(sign, s) :=
    match s with
    | String "-"%char s => (-1, s)
    | String "+"%char s => (1, s)
    | s => (1, s)
    end in
  let d := take_digits s in
  do? rassert (negb (bool_decide (d = EmptyString))) (E_parse "stoi") in
  let v := sign * parse_digits 0 d in
  do? rassert ((- 2 ^ 31 <=? v) && (v <? 2 ^ 31)) (E_parse "stoi") in Ok v.

(** The next numbered anonymous account; the counter is the metadata of the
    account [anonymous]. *)
Definition next_anonymous_name : DB string :=
  let* meta := get_in metadata "account_metadata" CHAIN_ANONYMOUS_ACCOUNT in
  let* num := slift (stoi meta) in
  do* slift (rassert (num + 1 <? 2 ^ 31) E_undefined) in
  do* store_account_json_metadata CHAIN_ANONYMOUS_ACCOUNT (fc_to_string (num + 1)) false in
  sret ("n" +:+ fc_to_string (num + 1) +:+ "." +:+ CHAIN_ANONYMOUS_ACCOUNT)%string.

(** The name, the key and the validity flag of the account that a memo asks
    for. *)
Definition anonymous_request (memo : string) : DB (string * Z * bool) :=
  let* hf6 := has_hardfork 6 in
  let* hf7 := has_hardfork 7 in
  let numbered :=
    let* key := slift (parse_public_key memo) in
    let* name := next_anonymous_name in sret (name, key, true) in
  if hf6 : bool
  then
    let trimmed := fc_trim memo in
    match str_find ":" trimmed with
    | Some colon_pos =>
        let login_part := str_take colon_pos trimmed in
        let* acc := find_account login_part in
        do* sassert (bool_decide (acc = None)) "Account login must be free" in
        let domain_ok := is_valid_domain_name login_part CHAIN_ANONYMOUS_ACCOUNT in
        let name_ok := is_valid_account_name login_part in
        do* swhen hf7 (do* sassert domain_ok "Domain name is invalid" in
                       sassert name_ok "Account name is invalid") in
        let* key := slift (parse_public_key (str_drop (colon_pos + 1) trimmed)) in
        sret (login_part, key, hf7 || (domain_ok && name_ok))
    | None => numbered
    end
  else numbered.

(** An authority of one key of weight one. *)
Definition single_key_authority (key : Z) : authority := mk_authority 1 [] [(key, 1)].
Definition single_key_auths (key update : Z) : account_authority_object :=
  mk_account_authority (single_key_authority key) (single_key_authority key)
    (single_key_authority key) update.

Definition transfer_apply (o : transfer_operation) : DB unit :=
  let* from := get_account (tr_from o) in
  let* to := get_account (tr_to o) in
  let* b := get_balance (tr_from o) (symbol (tr_amount o)) in
  do* require_ge b (tr_amount o) "Account does not have sufficient funds for transfer" in
  do* debit (tr_from o) (tr_amount o) in
  do* adjust_balance (tr_to o) (tr_amount o) in
  swhen (bool_decide (CHAIN_ANONYMOUS_ACCOUNT = tr_to o))
    (let* median := get_median_props in
     do* require_ge (tr_amount o) (account_creation_fee median) "Inssufficient amount" in
     swhen (bool_decide (tr_memo o ≠ ""))
       (let* req := anonymous_request (tr_memo o) in
        let* now := head_block_time in
        do* create_account req.1.1 (λ a,
          a <| memo_key := req.1.2 |> <| acc_created := now |> <| energy := CHAIN_100_PERCENT |>
            <| last_vote_time := now |> <| recovery_account := ""%string |> <| valid := req.2 |>) in
        do* create_in authorities "account_authority" req.1.1 (single_key_auths req.1.2 0) in
        do* create_in metadata "account_metadata" req.1.1 "" in
        let* new_account := get_account req.1.1 in
        do* debit (tr_to o) (tr_amount o) in
        let* v := create_vesting req.1.1 (tr_amount o) in sret tt)).

(** ** Vesting *)

Definition transfer_to_vesting_apply (o : transfer_to_vesting_operation) : DB unit :=
  let* from := get_account (tv_from o) in
  let to := if bool_decide (tv_to o ≠ "") then tv_to o else tv_from o in
  let* to_account := get_account to in
  let* b := get_balance (tv_from o) TOKEN_SYMBOL in
  do* require_ge b (tv_amount o) "Account does not have sufficient TOKEN for transfer" in
  do* debit (tv_from o) (tv_amount o) in
  let* v := create_vesting to (tv_amount o) in sret tt.

Definition CHAIN_VESTING_WITHDRAW_INTERVALS : Z := 28.
Definition CHAIN_VESTING_WITHDRAW_INTERVAL_SECONDS : Z := 60 * 60 * 24.

Definition withdraw_vesting_apply (o : withdraw_vesting_operation) : DB unit :=
  let* median := get_median_props in
  let* account := get_account (wv_account o) in
  do* sassert (0 <=? amount (vesting_shares account)) "insufficient SHARES for withdraw" in
  let* avail := slift (available_vesting_shares account false) in
  do* require_ge avail (wv_vesting_shares o) "insufficient SHARES for withdraw" in
  do* sassert (0 <=? amount (wv_vesting_shares o)) "Cannot withdraw negative SHARES" in
  if amount (wv_vesting_shares o) =? 0
  then
    modify_account (wv_account o) (λ a,
      Ok (a <| vesting_withdraw_rate := shares 0 |>
            <| next_vesting_withdrawal := time_point_sec_maximum |>
            <| to_withdraw := 0 |> <| withdrawn := 0 |>))
  else
    let* hf5 := has_hardfork 5 in
    let* hf9 := has_hardfork 9 in
    let* now := head_block_time in
    let intervals := if hf9 : bool then withdraw_intervals median
                     else CHAIN_VESTING_WITHDRAW_INTERVALS in
    modify_account (wv_account o) (λ a,
      let? rate := safe_div (amount (wv_vesting_shares o)) intervals in
      let? rate :=
        (if hf5 : bool
         then let? av := available_vesting_shares a false in safe_div (amount av) intervals
         else Ok rate) in
      let rate := shares (if rate =? 0 then 1 else rate) in
      let? changed := asset_neb (vesting_withdraw_rate a) rate in
      do? rassert changed (E_assert "would not change the vesting withdraw rate") in
      Ok (a <| vesting_withdraw_rate := rate |>
            <| next_vesting_withdrawal := u32 (now + CHAIN_VESTING_WITHDRAW_INTERVAL_SECONDS) |>
            <| to_withdraw := amount (wv_vesting_shares o) |> <| withdrawn := 0 |>)).

Definition CHAIN_MAX_WITHDRAW_ROUTES : Z := 10.

(** The routes from an account that the loop from [upper_bound(from, 0)] visits,
    by destination: the route to account 0 is not one of them. *)
Definition routes_from (s : database) (from : Z) : list (Z * withdraw_vesting_route_object) :=
  merge_sort by_key
    ((λ p, (p.1.2, p.2)) <$>
     filter (λ p, p.1.1 = from ∧ 0 < p.1.2) (map_to_list (routes s))).

(** [uint16_t total_percent += itr->percent] *)
Definition total_percent (l : list (Z * withdraw_vesting_route_object)) : Z :=
  foldl (λ acc p, u16 (acc + route_percent p.2)) 0 l.

Definition set_withdraw_vesting_route_apply (o : set_withdraw_vesting_route_operation) : DB unit :=
  let* from := get_account (wr_from_account o) in
  let* to := get_account (wr_to_account o) in
  let key := (acc_id from, acc_id to) in
  let* itr := find_in routes key in
  do* match itr with
      | None =>
          do* sassert (negb (wr_percent o =? 0)) "Cannot create a 0% destination" in
          do* sassert (withdraw_routes from <? CHAIN_MAX_WITHDRAW_ROUTES) "maximum number of routes" in
          do* create_in routes "route" key (mk_route (wr_percent o) (wr_auto_vest o)) in
          modify_account (wr_from_account o) (λ a,
            Ok (a <| withdraw_routes := u16 (withdraw_routes a + 1) |>))
      | Some _ =>
          if wr_percent o =? 0
          then
            do* remove_in routes key in
            modify_account (wr_from_account o) (λ a,
              Ok (a <| withdraw_routes := u16 (withdraw_routes a - 1) |>))
          else modify_in routes key (λ _, Ok (mk_route (wr_percent o) (wr_auto_vest o)))
      end in
  let* total := sgets (λ s, total_percent (routes_from s (acc_id from))) in
  sassert (total <=? CHAIN_100_PERCENT) "More than 100% of vesting withdrawals".
End evaluators.

(** ** Effects on the supply *)

(** [eff_facts] turns every successful step into its effect on the gap, and
    [eff_lia] adds the effects up. *)
Ltac eff_other H :=
  lazymatch type of H with
  | modify_in _ _ _ _ = _ => apply modify_in_Ok in H; destruct H as (? & ? & ? & ? & H)
  | create_in _ _ _ _ _ = _ => apply create_in_Ok in H; destruct H as (? & H)
  | remove_in _ _ _ = _ => apply remove_in_Ok in H; destruct H as (? & ? & H)
  end; injection H as _ ->; apply eff_same; reflexivity.
Ltac eff_liquid :=
  solve [ let a := fresh in let a' := fresh in let Ha := fresh in
          intros a a' _ Ha; inv_db; unfold liquid; repeat case_match; cbn; lia
        | intros; reflexivity ].
(** The place where a component adds the effects of its own routines. *)
Ltac eff_fact_more := fail.
Ltac eff_facts :=
  repeat match goal with
  | H : debit _ _ ?s = Ok (_, ?s') |- _ => apply eff_debit in H
  | H : adjust_balance _ _ ?s = Ok (_, ?s') |- _ => apply eff_adjust_balance in H
  | H : add_committee_fund _ ?s = Ok (_, ?s') |- _ => apply eff_add_committee_fund in H
  | H : create_vesting _ _ ?s = Ok (_, ?s') |- _ => apply eff_create_vesting in H
  | H : burn_asset _ ?s = Ok (_, ?s') |- _ => apply eff_burn_asset in H
  | H : push_virtual_operation _ ?s = Ok (_, ?s') |- _ => apply eff_push_virtual_operation in H
  | H : claim_rshare_award _ ?s = Ok (_, ?s') |- _ => apply eff_claim_rshare_award in H
  | H : shares_sender_recalc_energy _ _ ?s = Ok (_, ?s') |- _ => apply eff_shares_sender in H
  | H : store_account_json_metadata _ _ _ ?s = Ok (_, ?s') |- _ => apply eff_store_metadata in H
  | H : update_master_authority _ _ ?s = Ok (_, ?s') |- _ => apply eff_update_master_authority in H
  | H : adjust_proxied_validator_votes_array _ _ _ ?s = Ok (_, ?s') |- _ =>
      apply eff_adjust_proxied_array in H
  | H : adjust_validator_vote _ _ ?s = Ok (_, ?s') |- _ => apply eff_adjust_validator_vote in H
  | H : adjust_voted _ _ ?s = Ok (_, ?s') |- _ => apply eff_adjust_voted in H
  | H : clear_validator_votes _ ?s = Ok (_, ?s') |- _ => apply eff_clear_validator_votes in H
  | H : create_account _ _ ?s = Ok (_, ?s') |- _ =>
      apply eff_create_account in H; [|eff_liquid]
  | H : modify_account _ _ ?s = Ok (_, ?s') |- _ =>
      eapply (eff_modify_account _ _ 0) in H; [|eff_liquid]
  | H : modify_in authorities _ _ ?s = Ok (_, ?s') |- _ => apply eff_modify_authority in H
  | H : create_in _ _ _ _ ?s = Ok (_, ?s') |- _ => assert (eff s s' 0) by eff_other H; clear H
  | H : modify_in _ _ _ ?s = Ok (_, ?s') |- _ => assert (eff s s' 0) by eff_other H; clear H
  | H : remove_in _ _ ?s = Ok (_, ?s') |- _ => assert (eff s s' 0) by eff_other H; clear H
  | |- _ => eff_fact_more
  end.

(** [eff_chain] composes the effects of consecutive steps. *)
Ltac eff_steps := first [eassumption | eapply eff_trans; [eassumption|eff_steps]].
Ltac eff_chain := eapply eff_eq; [eff_steps|lia].

(** [eff_lia] closes [keeps s s'] from the effects of the steps between [s]
    and [s']. *)
Ltac eff_lia :=
  first
  [ apply keeps_refl
  | eapply eff_keeps; [eff_steps|propify; lia]
  | repeat match goal with H : eff _ _ _ |- _ => destruct H as [? ? ?] end; propify;
    first [lia | split_and!; [lia|congruence|apply invites_ok_same; congruence]] ].

Lemma gap_create_escrow k e s u s' :
  create_in escrows "escrow" k e s = Ok (u, s') → gap s' = gap s + escrow_tokens e.
Proof.
  intros [Hk [= _ ->]]%create_in_Ok. unfold gap, accounted. cbn. rewrite msum_insert_new by done. lia.
Qed.

Lemma gap_modify_escrow n i f s u s' :
  modify_escrow n i f s = Ok (u, s') →
  ∃ e e', escrows s !! (n, i) = Some e ∧ f e = Ok e' ∧ escrows s' = <[(n, i) := e']> (escrows s) ∧
    gap s' = gap s - escrow_tokens e + escrow_tokens e'.
Proof.
  intros (e & e' & Hk & Hf & [= _ ->])%modify_in_Ok. exists e, e'. split_and!; [done..|].
  unfold gap, accounted. cbn. rewrite (msum_insert _ _ _ e e') by done. lia.
Qed.

Lemma gap_remove_escrow k s u s' :
  remove_in escrows k s = Ok (u, s') →
  ∃ e, escrows s !! k = Some e ∧ escrows s' = delete k (escrows s) ∧
    gap s' = gap s - escrow_tokens e.
Proof.
  intros (e & Hk & [= _ ->])%remove_in_Ok. exists e. split_and!; [done..|].
  unfold gap, accounted. cbn. rewrite (msum_delete _ _ k e) by done. lia.
Qed.

Section effects.
Context {CE : ChainEnv}.

Lemma require_ge_Ok a b msg s u s' :
  require_ge a b msg s = Ok (u, s') → s' = s ∧ amount b ≤ amount a ∧ symbol a = symbol b.
Proof. unfold require_ge. intros. inv_db. by propify. Qed.

Lemma require_accounts_Ok a s u s' : require_accounts a s = Ok (u, s') → s' = s.
Proof.
  unfold require_accounts. revert s. induction (account_auths a) as [|p l IH]; intros s H;
    cbn [sfor] in H; inv_db; [done|]. by apply IH.
Qed.

Lemma get_balance_Ok n sym s r s' :
  get_balance n sym s = Ok (r, s') →
  s' = s ∧ sym = TOKEN_SYMBOL ∧ ∃ a, accounts s !! n = Some a ∧ r = balance a.
Proof. unfold get_balance. intros. inv_db. propify. eauto. Qed.
End effects.

(** Guards return nothing and change nothing. *)
Ltac inv_guards :=
  repeat match goal with
  | H : require_ge _ _ _ _ = Ok _ |- _ => apply require_ge_Ok in H; destruct H as (-> & ? & ?)
  | H : get_balance _ _ _ = Ok _ |- _ =>
      apply get_balance_Ok in H; destruct H as (-> & ? & ? & ? & ?)
  | H : require_accounts _ _ = Ok _ |- _ => apply require_accounts_Ok in H; subst
  end.
Ltac inv_eval := inv_db; inv_guards.

Lemma leaves_require_ge {X} (P : database → X) a b msg : leaves P (require_ge a b msg).
Proof. intros s r s' H. by inv_guards. Qed.

Lemma leaves_get_balance {X} (P : database → X) n sym : leaves P (get_balance n sym).
Proof. intros s r s' H. by inv_guards. Qed.

Lemma leaves_require_accounts {X} (P : database → X) a : leaves P (require_accounts a).
Proof. intros s r s' H. by inv_guards. Qed.
#[export] Hint Resolve leaves_require_ge leaves_get_balance leaves_require_accounts : leaves.

(** Guards in front of [H]. *)
Ltac inv_db_guards :=
  repeat match goal with
  | H : sassert _ _ _ = Ok _ |- _ => apply sassert_Ok in H; destruct H as [? H]; injection H as _ ->
  | H : head_block_time _ = Ok _ |- _ => apply sgets_Ok in H; injection H as -> ->
  end.

Section gaps.
Context {CE : ChainEnv}.

Lemma escrows_ok_insert s s' k e :
  escrows_ok s → escrows s' = <[k := e]> (escrows s) →
  (is_approved e = true → amount (pending_fee e) = 0) → escrows_ok s'.
Proof.
  intros Hok E He k' e' Hk'. rewrite E in Hk'.
  apply lookup_insert_Some in Hk' as [[_ <-]|[_ ?]]; eauto.
Qed.

Lemma escrows_ok_delete s s' k :
  escrows_ok s → escrows s' = delete k (escrows s) → escrows_ok s'.
Proof. intros Hok E k' e' Hk'. rewrite E in Hk'. apply lookup_delete_Some in Hk' as [_ ?]. eauto. Qed.

Lemma escrow_transfer_conserves o s u s' :
  symbol (et_fee o) = TOKEN_SYMBOL → escrows_ok s → escrow_transfer_apply o s = Ok (u, s') →
  gap s' = gap s ∧ escrows_ok s'.
Proof.
  unfold escrow_transfer_apply. intros Hsym Hok H. rewrite Hsym, Z.eqb_refl in H. inv_eval.
  pose proof H as Hc. apply gap_create_escrow in H.
  apply create_in_Ok in Hc as [_ [= _ ->]]. eff_facts.
  unfold escrow_tokens in H. cbn in H. split; [eff_lia|].
  eapply escrows_ok_insert; [exact Hok|cbn; f_equal; eapply eff_escrows; eassumption|discriminate].
Qed.

(** All escrows but the one at [k] are in order, and [k] holds [e]. *)
Definition escrow_open k e s : Prop :=
  escrows s !! k = Some e ∧
  ∀ k' e', k' ≠ k → escrows s !! k' = Some e' → is_approved e' = true → amount (pending_fee e') = 0.

Lemma escrow_open_get k e s : escrows_ok s → escrows s !! k = Some e → escrow_open k e s.
Proof. intros Hok Hk. split; [done|]. eauto. Qed.

Lemma escrow_open_same k e s s' d : eff s s' d → escrow_open k e s → escrow_open k e s'.
Proof. intros [_ E _]. unfold escrow_open. by rewrite E. Qed.

Lemma escrow_open_modify n i f s u s' e :
  modify_escrow n i f s = Ok (u, s') → escrow_open (n, i) e s →
  ∃ e', f e = Ok e' ∧ escrow_open (n, i) e' s' ∧
    gap s' = gap s - escrow_tokens e + escrow_tokens e'.
Proof.
  intros (e0 & e' & Hk & Hf & E & Hg)%gap_modify_escrow [Hk' Hother].
  rewrite Hk in Hk'. injection Hk' as ->. exists e'. split; [done|]. split; [|done].
  split; rewrite E; [apply lookup_insert_eq|].
  intros k' e2 Hne. rewrite lookup_insert_ne by done. eauto.
Qed.

Lemma escrow_open_close k e s :
  escrow_open k e s → (is_approved e = true → amount (pending_fee e) = 0) → escrows_ok s.
Proof.
  intros [Hk Hother] He k' e' Hk'. destruct (decide (k' = k)) as [->|]; [|eauto].
  by replace e' with e by congruence.
Qed.

Lemma escrow_open_remove k e s u s' :
  remove_in escrows k s = Ok (u, s') → escrow_open k e s →
  escrows_ok s' ∧ gap s' = gap s - escrow_tokens e.
Proof.
  intros (e0 & Hk & E & Hg)%gap_remove_escrow [Hk' Hother].
  replace e0 with e in * by congruence. split; [|done]. intros k' e'. rewrite E.
  intros [? ?]%lookup_delete_Some. eauto.
Qed.

(** One of the two approvals of [escrow_approve]. *)
Lemma escrow_flag_block n i e b c d f msg s u s' :
  (∀ e, ∃ e', f e = Ok e' ∧ escrow_tokens e' = escrow_tokens e) →
  swhen b (do* sassert c msg in swhen d (modify_escrow n i f)) s = Ok (u, s') →
  escrow_open (n, i) e s →
  ∃ e', escrow_open (n, i) e' s' ∧ escrow_tokens e' = escrow_tokens e ∧ gap s' = gap s.
Proof.
  intros Hf H Ho. inv_ok; [|by eauto..].
  destruct (escrow_open_modify n i f s u s' e H Ho) as (e' & He' & Ho' & Hg).
  destruct (Hf e) as (e2 & He2 & Ht). replace e' with e2 in * by congruence.
  exists e2. split_and!; [done..|lia].
Qed.

Lemma escrow_approve_conserves o s u s' :
  escrows_ok s → escrow_approve_apply o s = Ok (u, s') → gap s' = gap s ∧ escrows_ok s'.
Proof.
  unfold escrow_approve_apply. intros Hok H.
  apply sbind_Ok in H as (e & s0 & He & H). apply get_in_Ok in He as (e0 & Hk & [= -> ->]).
  pose proof (escrow_open_get _ _ s Hok Hk) as Ho.
  do 4 (apply sbind_Ok in H; destruct H as (? & ? & ? & H)). inv_db_guards.
  apply sbind_Ok in H as (u1 & s1 & Hb1 & H).
  eapply escrow_flag_block in Hb1 as (e1 & Ho1 & Ht1 & Hg1); [|by eauto|exact Ho].
  apply sbind_Ok in H as (e1' & s1' & He1 & H). apply get_in_Ok in He1 as (ex & Hx & [= -> ->]).
  replace ex with e1 in * by (destruct Ho1; congruence).
  apply sbind_Ok in H as (u2 & s2 & Hb2 & H).
  eapply escrow_flag_block in Hb2 as (e2 & Ho2 & Ht2 & Hg2); [|by eauto|exact Ho1].
  apply sbind_Ok in H as (e2' & s2' & He2 & H). apply get_in_Ok in He2 as (ey & Hy & [= -> ->]).
  replace ey with e2 in * by (destruct Ho2; congruence). clear Hx Hy Hk.
  inv_db.
  - eff_facts. match goal with H : remove_in escrows _ _ = Ok _ |- _ => rename H into Hr end.
    eapply escrow_open_remove in Hr as [? ?]; [|eapply escrow_open_same, escrow_open_same; eassumption].
    split; [|done]. unfold escrow_tokens in *. eff_lia.
  - eff_facts. match goal with H : modify_escrow _ _ _ _ = Ok _ |- _ => rename H into Hm end.
    eapply escrow_open_modify in Hm as (e3 & He3 & Ho3 & ?); [|eapply escrow_open_same; eassumption].
    inv_ok. split; [unfold escrow_tokens in *; cbn in *; eff_lia|].
    by eapply escrow_open_close.
  - split; [lia|]. eapply escrow_open_close; [exact Ho2|]. unfold is_approved. congruence.
Qed.

Lemma escrow_dispute_conserves o s u s' :
  escrows_ok s → escrow_dispute_apply o s = Ok (u, s') → gap s' = gap s ∧ escrows_ok s'.
Proof.
  unfold escrow_dispute_apply. intros Hok H. inv_eval.
  match goal with H : escrows s !! _ = Some ?e |- _ => pose proof (escrow_open_get _ _ s Hok H) as Ho end.
  destruct (escrow_open_modify _ _ _ _ _ _ _ H Ho) as (e' & He' & Ho' & Hg). inv_ok.
  split; [unfold escrow_tokens in Hg; cbn in Hg; lia|].
  eapply escrow_open_close; [exact Ho'|].
  match goal with H : escrows s !! _ = Some ?e |- _ => intros Hap; exact (Hok _ e H Hap) end.
Qed.

Lemma escrow_release_conserves o s u s' :
  escrows_ok s → escrow_release_apply o s = Ok (u, s') → gap s' = gap s ∧ escrows_ok s'.
Proof.
  unfold escrow_release_apply. intros Hok H.
  do 2 (apply sbind_Ok in H as (? & ? & Hget & H); apply get_in_Ok in Hget as (? & _ & [= -> ->])).
  apply sbind_Ok in H as (e & s0 & He & H). apply get_in_Ok in He as (e0 & Hk & [= -> ->]).
  pose proof (escrow_open_get _ _ s Hok Hk) as Ho.
  do 6 (apply sbind_Ok in H as (? & ? & ? & H)). inv_guards. inv_db_guards. propify.
  assert (amount (pending_fee e0) = 0) as Hfee
    by (apply (Hok _ e0 Hk); unfold is_approved; apply andb_true_iff; done).
  apply sbind_Ok in H as (? & s1 & Hguard & H).
  assert (s1 = s) as -> by (clear -Hguard; by inv_ok). clear Hguard.
  apply sbind_Ok in H as (? & s2 & Hadj & H). apply eff_adjust_balance in Hadj.
  apply sbind_Ok in H as (? & s3 & Hmod & H).
  eapply escrow_open_modify in Hmod as (e1 & He1 & Ho1 & Hg1); [|by eapply escrow_open_same].
  apply sbind_Ok in H as (e1' & s3' & Hget & H). apply get_in_Ok in Hget as (ex & Hx & [= -> ->]).
  replace ex with e1 in * by (destruct Ho1; congruence). destruct Hadj as [Hg _ _].
  assert (escrow_tokens e1 = escrow_tokens e0 - amount (er_token_amount o) ∧
          amount (pending_fee e1) = 0) as [Ht Hfee1].
  { clear -He1 Hfee. unfold escrow_tokens. inv_db. cbn. lia. }
  unfold swhen in H. destruct (_ =? 0) eqn:Hz.
  - propify. eapply escrow_open_remove in H as [? ?]; [|exact Ho1].
    split; [|done]. unfold escrow_tokens in *. lia.
  - apply sret_Ok in H as [= _ ->]. split; [lia|]. by eapply escrow_open_close.
Qed.

(** *** The escrow evaluators and the invites *)

(** [m] does not touch the invites. *)
#[local] Abbreviation leaves_invites := (leaves invites).

Lemma li_adjust_balance n x : leaves_invites (adjust_balance n x).
Proof. intros s r s' H. apply eff_adjust_balance in H. apply H. Qed.

Lemma li_debit n x : leaves_invites (debit n x).
Proof. intros s r s' H. apply eff_debit in H. apply H. Qed.
#[local] Hint Resolve li_adjust_balance li_debit : leaves.

Lemma escrow_invites :
  (∀ o, leaves_invites (escrow_transfer_apply o)) ∧ (∀ o, leaves_invites (escrow_approve_apply o)) ∧
  (∀ o, leaves_invites (escrow_dispute_apply o)) ∧ (∀ o, leaves_invites (escrow_release_apply o)).
Proof.
  unfold escrow_transfer_apply, escrow_approve_apply, escrow_dispute_apply, escrow_release_apply.
  split_and!; intros o; solve_leaves.
Qed.

Lemma eff_next_anonymous s r s' : next_anonymous_name s = Ok (r, s') → eff s s' 0.
Proof. unfold next_anonymous_name. intros H. inv_eval. by eff_facts. Qed.

Lemma eff_anonymous_request m s r s' : anonymous_request m s = Ok (r, s') → eff s s' 0.
Proof.
  unfold anonymous_request. intros H. inv_eval; try apply eff_refl; by eapply eff_next_anonymous.
Qed.

Lemma keeps_transfer o s u s' : transfer_apply o s = Ok (u, s') → keeps s s'.
Proof.
  unfold transfer_apply. intros H. inv_eval; [|eff_facts; eff_lia..].
  match goal with H : anonymous_request _ _ = Ok _ |- _ => apply eff_anonymous_request in H end.
  eff_facts. eff_lia.
Qed.

Lemma keeps_transfer_to_vesting o s u s' :
  transfer_to_vesting_apply o s = Ok (u, s') → keeps s s'.
Proof. unfold transfer_to_vesting_apply. intros H. inv_eval. eff_facts. eff_lia. Qed.

Lemma keeps_withdraw_vesting o s u s' :
  withdraw_vesting_apply o s = Ok (u, s') → keeps s s'.
Proof. unfold withdraw_vesting_apply. intros H. inv_eval; eff_facts; eff_lia. Qed.

Lemma keeps_set_route o s u s' :
  set_withdraw_vesting_route_apply o s = Ok (u, s') → keeps s s'.
Proof. unfold set_withdraw_vesting_route_apply. intros H. inv_eval; eff_facts; eff_lia. Qed.
End gaps.
