(* ===== verification/EvalAccount.v ===== *)
(** * Evaluators of accounts
      (libraries/chain/chain_evaluator.cpp, lines 52-210, 1517-1692, 1783-2348)

    Creation and update of accounts, custom operations, account recovery, and
    the market for accounts and subaccounts.

    A lambda given to [modify] works on the stored object in place, so a
    lambda that calls other database operations is a sequence of smaller
    modifications. *)

From stdpp Require Import gmap strings list sorting.
From Stdlib Require Import ZArith Lia Ascii.
From S2P Require Import Prelude Fc Text Asset Authority SignState Objects Database Operations.
From S2P Require Import Supply EvalTransfer.

Definition CHAIN_MASTER_UPDATE_LIMIT : Z := 60 * 60.
Definition CHAIN_ACCOUNT_RECOVERY_REQUEST_EXPIRATION_PERIOD : Z := 86400.
Definition CHAIN_MASTER_AUTH_RECOVERY_PERIOD : Z := 30 * 86400.
Definition CHAIN_ACCOUNT_ON_SALE_DELAY : Z := 7 * 86400.
Definition CHAIN_ACCOUNT_AUCTION_MIN_STEP : Z := CHAIN_100_PERCENT / 10.
Definition CHAIN_ACCOUNT_AUCTION_EXTENSION_TIME : Z := 5 * 60.

(** [public_key_type()] *)
Definition blank_key : Z := 0.

(** The conversion of [uint32_t] to [int]. *)
Definition to_i32 (x : Z) : Z := (x + 2 ^ 31) mod 2 ^ 32 - 2 ^ 31.

(** The interpreters that plugins register for custom operations.  The generic
    interpreter runs in an undo session and writes the tables of its plugin,
    which are not chain state. *)
Class CustomInterpreters := {
  get_custom_evaluator : string → option (custom_operation → DB unit);
  custom_own_tables id f o s u s' :
    get_custom_evaluator id = Some f → f o s = Ok (u, s') → s' = s
}.

Section evaluators.
Context {CE : ChainEnv}.

(** ** Creation and update *)

(** [FC_ASSERT(current_energy >= 0)] where a delegation takes energy. *)
Definition require_energy (n : string) : DB unit :=
  let* a := get_account n in
  let* now := head_block_time in
  sassert (0 <=? current_energy now a) "Cannot delegate with negative energy.".

(** [ratio * fee * v_share_price] *)
Definition delegation_for_fee (ratio : Z) (fee : asset) (v_share_price : price) : res asset :=
  let? x := asset_scale fee (to_i32 ratio) in asset_mul_price x v_share_price.

Definition account_create_apply (o : account_create_operation) : DB unit :=
  let* creator := get_account (ac_creator o) in
  let* now := head_block_time in
  do* require_ge (balance creator) (ac_fee o) "Insufficient balance to create account." in
  let* avail := slift (available_vesting_shares creator true) in
  do* require_ge avail (ac_delegation o) "Insufficient vesting shares to delegate to new account." in
  let* hf6 := has_hardfork 6 in
  do* swhen hf6 (swhen (0 <? amount (ac_delegation o)) (require_energy (ac_creator o))) in
  let* p := get_dgpo in
  let v_share_price := get_vesting_share_price p in
  let* median := get_median_props in
  let ratio := create_account_delegation_ratio median in
  let* target_delegation :=
    slift (delegation_for_fee ratio (account_creation_fee median) v_share_price) in
  let* paid := slift (delegation_for_fee ratio (ac_fee o) v_share_price) in
  let* current_delegation := slift (asset_add paid (ac_delegation o)) in
  do* require_ge current_delegation target_delegation "Inssufficient Delegation" in
  do* require_accounts (ac_master o) in
  do* require_accounts (ac_active o) in
  do* require_accounts (ac_regular o) in
  do* shares_sender_recalc_energy (ac_creator o) (ac_delegation o) in
  do* modify_account (ac_creator o) (λ c,
    let? b := asset_sub (balance c) (ac_fee o) in
    let? d := asset_add (delegated_vesting_shares c) (ac_delegation o) in
    Ok (c <| balance := b |> <| delegated_vesting_shares := d |>)) in
  let* ref :=
    (if bool_decide (ac_referrer o ≠ "")
     then let* r := get_account (ac_referrer o) in sret (acc_name r)
     else sret ""%string) in
  do* create_account (ac_new_account_name o) (λ a,
    a <| memo_key := ac_memo_key o |> <| acc_created := now |> <| energy := CHAIN_100_PERCENT |>
      <| last_vote_time := now |> <| recovery_account := ac_creator o |>
      <| received_vesting_shares := ac_delegation o |> <| referrer := ref |>) in
  do* store_account_json_metadata (ac_new_account_name o) (ac_json_metadata o) false in
  do* create_in authorities "account_authority" (ac_new_account_name o)
    (mk_account_authority (ac_master o) (ac_active o) (ac_regular o) time_point_sec_min) in
  do* swhen (0 <? amount (ac_delegation o))
    (create_in delegations "vesting_delegation" (ac_creator o, ac_new_account_name o)
       (mk_delegation (ac_delegation o) (u32 (now + create_account_delegation_time median)))) in
  swhen (0 <? amount (ac_fee o))
    (let* v := create_vesting (ac_new_account_name o) (ac_fee o) in sret tt).

(** A check or a change that is made when the optional field is present. *)
Definition when_some {A} (x : option A) (f : A → DB unit) : DB unit :=
  match x with Some a => f a | None => sret tt end.

Definition account_update_apply (o : account_update_operation) : DB unit :=
  do* sassert (bool_decide (au_account o ≠ CHAIN_INVITE_ACCOUNT)) "Cannot update invite account." in
  do* when_some (au_regular o) (λ a, slift (authority_validate a)) in
  let* account := get_account (au_account o) in
  let* account_auth := get_in authorities "account_authority" (au_account o) in
  let* now := head_block_time in
  do* when_some (au_master o) (λ m,
    do* sassert (CHAIN_MASTER_UPDATE_LIMIT <? now - last_master_update account_auth)
      "Master authority can only be updated once an hour." in
    do* require_accounts m in
    update_master_authority (au_account o) m) in
  do* when_some (au_active o) require_accounts in
  do* when_some (au_regular o) require_accounts in
  do* modify_account (au_account o) (λ a,
    let a := if bool_decide (au_memo_key o ≠ blank_key) then a <| memo_key := au_memo_key o |> else a in
    Ok (a <| last_account_update := now |>)) in
  do* store_account_json_metadata (acc_name account) (au_json_metadata o) true in
  swhen (bool_decide (au_active o ≠ None) || bool_decide (au_regular o ≠ None))
    (modify_in authorities (au_account o) (λ auth,
       let auth := match au_active o with Some x => auth <| active := x |> | None => auth end in
       Ok (match au_regular o with Some x => auth <| regular := x |> | None => auth end))).

Definition account_metadata_apply (o : account_metadata_operation) : DB unit :=
  let* account := get_account (am_account o) in
  let* now := head_block_time in
  do* modify_account (am_account o) (λ a, Ok (a <| last_account_update := now |>)) in
  store_account_json_metadata (am_account o) (am_json_metadata o) false.

(** ** Custom operations *)

Definition bump_custom_sequence (names : list string) : DB unit :=
  sfor names (λ n,
    let* a := get_account n in
    let* num := head_block_num in
    modify_account n (λ a,
      Ok (a <| custom_sequence := u64 (custom_sequence a + 1) |>
            <| custom_sequence_block_num := u32 (1 + num) |>))).

(** An exception of the interpreter drops its undo session. *)
Definition custom_apply {CI : CustomInterpreters} (o : custom_operation) : DB unit :=
  do* bump_custom_sequence (cu_required_active_auths o) in
  do* bump_custom_sequence (cu_required_regular_auths o) in
  match get_custom_evaluator (cu_id o) with
  | None => sret tt
  | Some eval => λ s,
      match eval o s with
      | Ok r => Ok r
      | Err e => if is_producing s then Err e else Ok (tt, s)
      end
  end.

(** ** Recovery *)

(** [get<by_vote_name>().begin()]: the most votes, then the smallest name. *)
Definition better_validator (p q : string * validator_object) : bool :=
  (votes q.2 <? votes p.2) || ((votes p.2 =? votes q.2) && String.ltb p.1 q.1).
Definition top_validator (s : database) : option (string * validator_object) :=
  foldr (λ p best, match best with
                   | Some b => if better_validator p b then Some p else Some b
                   | None => Some p
                   end) None (map_to_list (validators s)).

Definition request_account_recovery_apply (o : request_account_recovery_operation) : DB unit :=
  let* partner := get_account (rr_recovery_account o) in
  let* account_to_recover := get_account (rr_account_to_recover o) in
  do* (if bool_decide (recovery_account account_to_recover ≠ "")
       then sassert (bool_decide (recovery_account account_to_recover = rr_recovery_account o))
              "Cannot recover an account that does not have you as there recovery partner."
       else
         let* top := sgets top_validator in
         let* t := slift (res_of_option top E_undefined) in
         sassert (bool_decide (t.1 = rr_recovery_account o))
           "Top validator must recover an account with no recovery partner.") in
  let* request := find_in recovery_requests (rr_account_to_recover o) in
  let* now := head_block_time in
  let entry := (rr_new_master_authority o,
                u32 (now + CHAIN_ACCOUNT_RECOVERY_REQUEST_EXPIRATION_PERIOD)) in
  match request with
  | None =>
      do* sassert (negb (is_impossible (rr_new_master_authority o))) "impossible authority" in
      do* sassert (negb (weight_threshold (rr_new_master_authority o) =? 0)) "open authority" in
      do* require_accounts (rr_new_master_authority o) in
      create_in recovery_requests "account_recovery_request" (rr_account_to_recover o) entry
  | Some _ =>
      if weight_threshold (rr_new_master_authority o) =? 0
      then remove_in recovery_requests (rr_account_to_recover o)
      else
        do* sassert (negb (is_impossible (rr_new_master_authority o))) "impossible authority" in
        do* require_accounts (rr_new_master_authority o) in
        modify_in recovery_requests (rr_account_to_recover o) (λ _, Ok entry)
  end.

(** Some recorded master authority of the account is [a]. *)
Definition in_master_history (l : list (string * authority * Z)) (n : string) (a : authority) : bool :=
  existsb (λ h, bool_decide (h.1.1 = n) && bool_decide (h.1.2 = a)) l.

Definition recover_account_apply (o : recover_account_operation) : DB unit :=
  let* account := get_account (ra_account_to_recover o) in
  let* now := head_block_time in
  do* sassert (CHAIN_MASTER_UPDATE_LIMIT <? now - last_account_recovery account)
    "Master authority can only be updated once an hour." in
  let* request := find_in recovery_requests (ra_account_to_recover o) in
  let* r := slift (res_of_option request (E_assert "There are no active recovery requests")) in
  do* sassert (bool_decide (r.1 = ra_new_master_authority o)) "does not match recovery request." in
  let* found := sgets (λ s,
    in_master_history (master_history s) (ra_account_to_recover o) (ra_recent_master_authority o)) in
  do* sassert found "Recent authority not found in authority history." in
  do* remove_in recovery_requests (ra_account_to_recover o) in
  do* update_master_authority (ra_account_to_recover o) (ra_new_master_authority o) in
  let* hf9 := has_hardfork 9 in
  modify_account (ra_account_to_recover o) (λ a,
    let a := a <| last_account_recovery := now |> in
    Ok (if hf9 : bool
        then a <| account_seller := ""%string |> <| account_offer_price := token 0 |>
               <| account_on_sale := false |> <| account_on_sale_start_time := time_point_sec_min |>
        else a)).

Definition change_recovery_account_apply (o : change_recovery_account_operation) : DB unit :=
  let* partner := get_account (cr_new_recovery_account o) in
  let* account_to_recover := get_account (cr_account_to_recover o) in
  let* request := find_in change_recovery_requests (cr_account_to_recover o) in
  let* now := head_block_time in
  let entry := (cr_new_recovery_account o, u32 (now + CHAIN_MASTER_AUTH_RECOVERY_PERIOD)) in
  match request with
  | None =>
      create_in change_recovery_requests "change_recovery_account" (cr_account_to_recover o) entry
  | Some _ =>
      if bool_decide (recovery_account account_to_recover ≠ cr_new_recovery_account o)
      then modify_in change_recovery_requests (cr_account_to_recover o) (λ _, Ok entry)
      else remove_in change_recovery_requests (cr_account_to_recover o)
  end.
(** ** The account market *)

(** The fee for a sale, paid to the committee. *)
Definition pay_committee_fee (n : string) (fee : asset) (msg : string) : DB unit :=
  let* a := get_account n in
  do* require_ge (balance a) fee msg in
  do* debit n fee in
  add_committee_fund fee.

(** The current bid on account [n] goes back to its bidder. *)
Definition return_bid (n : string) : DB unit :=
  let* account := get_account n in
  let* bidder := get_account (current_bidder account) in
  do* modify_account (current_bidder account) (λ ab,
    let? r := asset_sub (reserved_balance ab) (current_bid account) in
    let? b := asset_add (balance ab) (current_bid account) in
    Ok (ab <| reserved_balance := r |> <| balance := b |>)) in
  push_virtual_operation (outbid_operation (acc_name account) (acc_name bidder) (current_bid account)).

Definition clear_auction (a : account_object) : account_object :=
  a <| account_on_auction := false |> <| current_bid := token 0 |> <| current_bidder := ""%string |>
    <| current_bidder_key := blank_key |> <| last_bid := token 0 |>.

Definition reset_bid (n : string) : DB unit :=
  do* return_bid n in modify_account n (λ a, Ok (clear_auction a)).

(** Disabling a sale: the bid is returned and the sale is cleared. *)
Definition disable_sale (n : string) : DB unit :=
  let* a := get_account n in
  do* swhen (account_on_auction a && bool_decide (current_bidder a ≠ "")) (return_bid n) in
  modify_account n (λ a,
    Ok (clear_auction
      (a <| account_on_sale := false |> <| account_offer_price := token 0 |>
         <| account_on_sale_start_time := time_point_sec_min |>))).

(** The start of a sale that was not on. *)
Definition start_sale (now : Z) (on_sale : bool) (a : account_object) : account_object :=
  if negb (account_on_sale a) && on_sale
  then a <| account_on_sale_start_time := u32 (now + CHAIN_ACCOUNT_ON_SALE_DELAY) |>
  else a.

Definition sale_fee_msg : string := "Account does not have sufficient funds to place account for sale".

Definition set_account_price_apply (o : set_account_price_operation) : DB unit :=
  let n := sa_account o in
  let* account := get_account n in
  let* seller := get_account (sa_account_seller o) in
  let* hf9 := has_hardfork 9 in
  let* hf11 := has_hardfork 11 in
  let* now := head_block_time in
  let* median := get_median_props in
  let no_seller := bool_decide (account_seller account = "") in
  if hf11 : bool
  then
    do* swhen no_seller (pay_committee_fee n (account_on_sale_fee median) sale_fee_msg) in
    do* modify_account n (λ a, Ok (a <| account_seller := sa_account_seller o |>)) in
    do* (if sa_account_on_sale o
         then
           let* a := get_account n in
           let* greater := slift (asset_ltb (account_offer_price a) (sa_account_offer_price o)) in
           swhen (greater && bool_decide (current_bidder a ≠ "") &&
                  (amount (current_bid a) <? amount (sa_account_offer_price o)))
             (reset_bid n)
         else disable_sale n) in
    modify_account n (λ a,
      let a := a <| account_offer_price := sa_account_offer_price o |> in
      let a := start_sale now (sa_account_on_sale o) a in
      Ok (a <| account_on_sale := sa_account_on_sale o |>))
  else
    do* swhen (hf9 && no_seller) (pay_committee_fee n (account_on_sale_fee median) sale_fee_msg) in
    modify_account n (λ a,
      let a := a <| account_seller := sa_account_seller o |>
                 <| account_offer_price := sa_account_offer_price o |> in
      let a :=
        if hf9 : bool
        then
          let a := start_sale now (sa_account_on_sale o) a in
          if sa_account_on_sale o then a
          else a <| account_on_sale_start_time := time_point_sec_min |>
        else a in
      Ok (a <| account_on_sale := sa_account_on_sale o |>)).

Definition target_account_sale_apply (o : target_account_sale_operation) : DB unit :=
  let n := ta_account o in
  let* account := get_account n in
  let* seller := get_account (ta_account_seller o) in
  let* target := get_account (ta_target_buyer o) in
  let* now := head_block_time in
  let* median := get_median_props in
  do* swhen (bool_decide (account_seller account = ""))
    (pay_committee_fee n (account_on_sale_fee median) sale_fee_msg) in
  do* modify_account n (λ a, Ok (a <| account_seller := ta_account_seller o |>)) in
  do* (if ta_account_on_sale o
       then
         let* a := get_account n in
         let* greater := slift (asset_ltb (account_offer_price a) (ta_account_offer_price o)) in
         let other_bidder := bool_decide (current_bidder a ≠ ta_target_buyer o) in
         do* swhen (bool_decide (current_bidder a ≠ ""))
           (swhen (if greater && (amount (current_bid a) <? amount (ta_account_offer_price o))
                   then true else other_bidder)
              (reset_bid n)) in
         modify_account n (λ a,
           let a := a <| account_offer_price := ta_account_offer_price o |> in
           let a := start_sale now true a in
           Ok (a <| account_on_sale := true |> <| target_buyer := ta_target_buyer o |>))
       else
         do* disable_sale n in
         modify_account n (λ a, Ok (a <| target_buyer := ""%string |>))) in
  modify_account n (λ a,
    let a := a <| account_offer_price := ta_account_offer_price o |> in
    let a := start_sale now (ta_account_on_sale o) a in
    let a :=
      if ta_account_on_sale o then a <| target_buyer := ta_target_buyer o |>
      else a <| target_buyer := ""%string |> <| account_on_sale_start_time := time_point_sec_min |> in
    Ok (a <| account_on_sale := ta_account_on_sale o |>)).

Definition set_subaccount_price_apply (o : set_subaccount_price_operation) : DB unit :=
  let n := ss_account o in
  let* account := get_account n in
  let* seller := get_account (ss_subaccount_seller o) in
  let* hf9 := has_hardfork 9 in
  let* median := get_median_props in
  do* swhen (hf9 && bool_decide (subaccount_seller account = ""))
    (pay_committee_fee n (subaccount_on_sale_fee median)
       "Account does not have sufficient funds to place subaccount for sale") in
  modify_account n (λ a,
    Ok (a <| subaccount_seller := ss_subaccount_seller o |>
          <| subaccount_offer_price := ss_subaccount_offer_price o |>
          <| subaccount_on_sale := ss_subaccount_on_sale o |>)).

(** The smallest step of a bid. *)
Definition auction_min_step (account : account_object) : res asset :=
  let? m := raw_i64 (amount (account_offer_price account) * CHAIN_ACCOUNT_AUCTION_MIN_STEP) in
  let step := Z.quot m CHAIN_100_PERCENT in
  let? step :=
    (if amount (last_bid account) =? 0 then Ok step
     else let? d := raw_i64 (amount (current_bid account) - amount (last_bid account)) in
          Ok (Z.max step d)) in
  Ok (if amount (current_bid account) =? 0 then account_offer_price account else token step).

(** A bid while the auction runs. *)
Definition place_bid (o : buy_account_operation) : DB unit :=
  let n := ba_account o in
  let* account := get_account n in
  let* min_step := slift (auction_min_step account) in
  let* least := slift (asset_add (current_bid account) min_step) in
  do* require_ge (ba_account_offer_price o) least "Account offer price must be equal or greater minimal bid price" in
  do* swhen (bool_decide (current_bidder account ≠ ""))
    (do* return_bid n in
     swhen (bool_decide (current_bidder account ≠ ba_buyer o))
       (modify_account n (λ a, Ok (a <| last_bid := current_bid a |>)))) in
  let* clock := sgets wall_clock in
  do* modify_account n (λ a,
    Ok (a <| current_bid := ba_account_offer_price o |> <| current_bidder := ba_buyer o |>
          <| current_bidder_key := ba_account_authorities_key o |> <| account_on_auction := true |>
          <| account_on_sale_start_time :=
               Z.max (account_on_sale_start_time a) (u32 (clock + CHAIN_ACCOUNT_AUCTION_EXTENSION_TIME)) |>)) in
  let* new_bidder := get_account (ba_buyer o) in
  do* modify_account (ba_buyer o) (λ nab,
    let? r := asset_add (reserved_balance nab) (ba_account_offer_price o) in
    let? b := asset_sub (balance nab) (ba_account_offer_price o) in
    Ok (nab <| reserved_balance := r |> <| balance := b |>)) in
  let* a := get_account n in
  push_virtual_operation (bid_operation (acc_name account) (current_bidder a) (current_bid a)).

(** The payment for an account or subaccount: the price to the seller; the
    buyer must also cover [tokens_to_shares]. *)
Definition pay_seller (o : buy_account_operation) (seller : string) (offer : asset) : DB string :=
  let* account_seller := get_account seller in
  let* same := slift (asset_eqb offer (ba_account_offer_price o)) in
  do* sassert same "Account offer price must be equal account_offer_price in target account" in
  let* buyer := get_account (ba_buyer o) in
  let* total := slift (asset_add offer (ba_tokens_to_shares o)) in
  do* require_ge (balance buyer) total "Inssufficient balance" in
  do* debit (ba_buyer o) offer in
  do* adjust_balance seller offer in
  sret (acc_name account_seller).

Definition buy_now (o : buy_account_operation) : DB unit :=
  let n := ba_account o in
  let key := ba_account_authorities_key o in
  let* account := get_account n in
  let* seller := pay_seller o (account_seller account) (account_offer_price account) in
  do* debit (ba_buyer o) (ba_tokens_to_shares o) in
  let* v := create_vesting n (ba_tokens_to_shares o) in
  let* hf9 := has_hardfork 9 in
  let* now := head_block_time in
  do* modify_account n (λ a,
    let a := a <| account_seller := ""%string |> <| account_offer_price := token 0 |>
               <| account_on_sale := false |> in
    let a := if hf9 : bool then a <| account_on_sale_start_time := time_point_sec_min |> else a in
    Ok (a <| subaccount_seller := ""%string |> <| subaccount_offer_price := token 0 |>
          <| subaccount_on_sale := false |> <| memo_key := key |>
          <| recovery_account := ba_buyer o |> <| last_account_update := now |>)) in
  do* modify_in authorities n (λ _, Ok (single_key_auths key now)) in
  push_virtual_operation (account_sale_operation n (ba_account_offer_price o) (ba_buyer o) seller).

Definition buy_existing (o : buy_account_operation) (account : account_object) : DB unit :=
  let* account_auth := get_in authorities "account_authority" (ba_account o) in
  do* sassert (account_on_sale account) "Account not on sale." in
  let* hf9 := has_hardfork 9 in
  let* hf11 := has_hardfork 11 in
  let* now := head_block_time in
  let* request := find_in recovery_requests (ba_account o) in
  if hf11 : bool
  then
    do* sassert (bool_decide (request = None)) "Account have recovery request." in
    do* sassert (bool_decide (target_buyer account = "") || bool_decide (target_buyer account = ba_buyer o))
      "Account have target buyer" in
    if now <? account_on_sale_start_time account
    then place_bid o
    else
      do* sassert (bool_decide (current_bidder account = "")) "Account already have bid and waiting release." in
      buy_now o
  else
    do* swhen hf9
      (do* sassert (bool_decide (request = None)) "Account have recovery request." in
       sassert (account_on_sale_start_time account <=? now) "Account selling will start later") in
    buy_now o.

Definition buy_subaccount (o : buy_account_operation) : DB unit :=
  let account_string := fc_trim (ba_account o) in
  let key := ba_account_authorities_key o in
  match str_find "." account_string with
  | None => sthrow (E_assert "Account not found.")
  | Some dot_pos =>
      let subaccount_part := str_take dot_pos account_string in
      let account_part := str_drop (dot_pos + 1) account_string in
      let* acc := find_account account_part in
      do* sassert (bool_decide (acc ≠ None)) "Account not found." in
      do* sassert (is_valid_account_name account_part) "Account part is invalid" in
      do* sassert (is_valid_account_name subaccount_part) "Subaccount part name is invalid" in
      do* sassert (is_valid_domain_name subaccount_part account_part) "Subaccount part is invalid" in
      let* account := get_account account_part in
      do* sassert (subaccount_on_sale account) "Subccount not on sale." in
      let* seller := pay_seller o (subaccount_seller account) (subaccount_offer_price account) in
      let* now := head_block_time in
      do* create_account (ba_account o) (λ a,
        a <| memo_key := key |> <| acc_created := now |> <| energy := CHAIN_100_PERCENT |>
          <| last_vote_time := now |> <| recovery_account := ba_buyer o |>) in
      do* create_in authorities "account_authority" (ba_account o) (single_key_auths key 0) in
      do* create_in metadata "account_metadata" (ba_account o) "" in
      do* debit (ba_buyer o) (ba_tokens_to_shares o) in
      let* v := create_vesting (ba_account o) (ba_tokens_to_shares o) in
      push_virtual_operation
        (account_sale_operation (ba_account o) (ba_account_offer_price o) (ba_buyer o) seller)
  end.

Definition buy_account_apply (o : buy_account_operation) : DB unit :=
  let* buyer := get_account (ba_buyer o) in
  let* median := get_median_props in
  do* sassert (bool_decide (ba_account_authorities_key o ≠ blank_key))
    "Account authorities key cannot be blank." in
  do* require_ge (ba_tokens_to_shares o) (account_creation_fee median) "Inssufficient amount tokens_to_shares" in
  let* acc := find_account (ba_account o) in
  match acc with
  | Some account => buy_existing o account
  | None => buy_subaccount o
  end.
End evaluators.

(** ** Effects on the supply *)

Section effects.
Context {CE : ChainEnv}.

Lemma require_energy_Ok n s u s' : require_energy n s = Ok (u, s') → s' = s.
Proof. unfold require_energy. intros. by inv_db. Qed.

Lemma keeps_account_metadata o s u s' : account_metadata_apply o s = Ok (u, s') → keeps s s'.
Proof. unfold account_metadata_apply. intros H. inv_eval. eff_facts. eff_lia. Qed.

Lemma keeps_account_create o s u s' :
  0 ≤ amount (ac_fee o) → account_create_apply o s = Ok (u, s') → keeps s s'.
Proof.
  unfold account_create_apply. intros Hfee H. inv_eval;
    repeat match goal with
    | H : require_energy _ _ = Ok _ |- _ => apply require_energy_Ok in H; subst
    | H : modify_account (ac_creator o) _ _ = Ok _ |- _ =>
        eapply (eff_modify_account _ _ (- amount (ac_fee o))) in H; [|eff_liquid]
    end; eff_facts; eff_lia.
Qed.

Lemma keeps_account_update o s u s' : account_update_apply o s = Ok (u, s') → keeps s s'.
Proof.
  unfold account_update_apply, when_some. intros H.
  destruct (au_master o), (au_active o), (au_regular o); inv_eval; eff_facts; eff_lia.
Qed.

Lemma eff_bump_custom_sequence l s u s' : bump_custom_sequence l s = Ok (u, s') → eff s s' 0.
Proof.
  apply eff_sfor. intros n s0 u0 s1 _ H. inv_eval. by eff_facts.
Qed.

Lemma keeps_custom {CI : CustomInterpreters} o s u s' : custom_apply o s = Ok (u, s') → keeps s s'.
Proof.
  unfold custom_apply. intros H. inv_ok.
  repeat match goal with
  | H : bump_custom_sequence _ _ = Ok _ |- _ => apply eff_bump_custom_sequence in H
  end.
  destruct (get_custom_evaluator _) as [f|] eqn:Hf; [|inv_ok; eff_lia].
  destruct (f o _) as [[? ?]|] eqn:Hrun; [|inv_ok; eff_lia].
  apply (custom_own_tables _ _ _ _ _ _ Hf) in Hrun as ->. inv_ok. eff_lia.
Qed.

Lemma keeps_request_account_recovery o s u s' :
  request_account_recovery_apply o s = Ok (u, s') → keeps s s'.
Proof. unfold request_account_recovery_apply. intros H. inv_eval; eff_facts; eff_lia. Qed.

Lemma keeps_recover_account o s u s' : recover_account_apply o s = Ok (u, s') → keeps s s'.
Proof. unfold recover_account_apply. intros H. inv_eval; eff_facts; eff_lia. Qed.

Lemma keeps_change_recovery_account o s u s' :
  change_recovery_account_apply o s = Ok (u, s') → keeps s s'.
Proof. unfold change_recovery_account_apply. intros H. inv_eval; eff_facts; eff_lia. Qed.

(** *** The market *)

Lemma eff_pay_committee_fee n fee msg s u s' :
  pay_committee_fee n fee msg s = Ok (u, s') → eff s s' 0.
Proof.
  unfold pay_committee_fee. intros H. inv_eval. eff_facts.
  eff_chain.
Qed.

Lemma eff_return_bid n s u s' : return_bid n s = Ok (u, s') → eff s s' 0.
Proof.
  unfold return_bid. intros H. inv_eval. eff_facts.
  eff_chain.
Qed.

Lemma clear_auction_liquid a : liquid (clear_auction a) = liquid a.
Proof. done. Qed.

Lemma eff_reset_bid n s u s' : reset_bid n s = Ok (u, s') → eff s s' 0.
Proof.
  unfold reset_bid. intros H. inv_eval.
  match goal with H : return_bid _ _ = Ok _ |- _ => apply eff_return_bid in H end. eff_facts.
  eff_chain.
Qed.

Lemma eff_disable_sale n s u s' : disable_sale n s = Ok (u, s') → eff s s' 0.
Proof.
  unfold disable_sale. intros H. inv_eval; eff_facts; [|done].
  match goal with H : return_bid _ _ = Ok _ |- _ => apply eff_return_bid in H end.
  eff_chain.
Qed.

Lemma start_sale_liquid now b a : liquid (start_sale now b a) = liquid a.
Proof. unfold start_sale. by destruct (_ && _). Qed.

Lemma eff_pay_seller o n x s r s' : pay_seller o n x s = Ok (r, s') → eff s s' 0.
Proof.
  unfold pay_seller. intros H. inv_eval. eff_facts.
  eff_chain.
Qed.
End effects.

Ltac eff_fact_more ::=
  match goal with
  | H : pay_committee_fee _ _ _ _ = Ok _ |- _ => apply eff_pay_committee_fee in H
  | H : return_bid _ _ = Ok _ |- _ => apply eff_return_bid in H
  | H : reset_bid _ _ = Ok _ |- _ => apply eff_reset_bid in H
  | H : disable_sale _ _ = Ok _ |- _ => apply eff_disable_sale in H
  | H : pay_seller _ _ _ _ = Ok _ |- _ => apply eff_pay_seller in H
  end.

Section market_effects.
Context {CE : ChainEnv}.

Lemma keeps_set_account_price o s u s' : set_account_price_apply o s = Ok (u, s') → keeps s s'.
Proof.
  unfold set_account_price_apply, start_sale. intros H. inv_eval; eff_facts; eff_lia.
Qed.

Lemma keeps_target_account_sale o s u s' : target_account_sale_apply o s = Ok (u, s') → keeps s s'.
Proof.
  unfold target_account_sale_apply, start_sale. intros H. inv_eval; eff_facts; eff_lia.
Qed.

Lemma keeps_set_subaccount_price o s u s' : set_subaccount_price_apply o s = Ok (u, s') → keeps s s'.
Proof. unfold set_subaccount_price_apply. intros H. inv_eval; eff_facts; eff_lia. Qed.

Lemma keeps_place_bid o s u s' : place_bid o s = Ok (u, s') → keeps s s'.
Proof. unfold place_bid. intros H. inv_eval; eff_facts; eff_lia. Qed.

Lemma keeps_buy_now o s u s' : buy_now o s = Ok (u, s') → keeps s s'.
Proof. unfold buy_now. intros H. inv_eval; eff_facts; eff_lia. Qed.

Lemma keeps_buy_account o s u s' : buy_account_apply o s = Ok (u, s') → keeps s s'.
Proof.
  unfold buy_account_apply, buy_existing, buy_subaccount. intros H.
  inv_eval; solve [by eapply keeps_place_bid | by eapply keeps_buy_now | eff_facts; eff_lia].
Qed.
End market_effects.
