(* ===== verification/EvalGovern.v ===== *)
(** * Evaluators of governance
      (libraries/chain/chain_evaluator.cpp, lines 1079-1293 and 1694-1781,
       chain_properties_evaluators.cpp, committee_evaluator.cpp)

    Validators and the votes for them, proxies, delegation of shares, and the
    requests to the committee. *)

From stdpp Require Import gmap strings list sorting.
From Stdlib Require Import ZArith Lia.
From S2P Require Import Prelude Fc Text Asset Authority Objects Database Operations Supply.
From S2P Require Import EvalTransfer EvalAccount.

Definition CHAIN_MAX_ACCOUNT_VALIDATOR_VOTES : Z := 100.
Definition CHAIN_MAX_ACCOUNT_VALIDATOR_VOTES_PRE_HF4 : Z := 2.
Definition CHAIN_CASHOUT_WINDOW_SECONDS : Z := 60 * 60 * 24.
Definition COMMITTEE_REQUEST_PER_TIME : Z := 60 * 60 * 24.

Section evaluators.
Context {CE : ChainEnv}.

(** ** Validators *)

Definition validator_update_apply (o : validator_update_operation) : DB unit :=
  let* owner := get_account (vu_owner o) in
  let* itr := find_in validators (vu_owner o) in
  match itr with
  | Some _ =>
      modify_validator (vu_owner o) (λ w,
        Ok (w <| val_url := vu_url o |> <| signing_key := vu_block_signing_key o |>))
  | None =>
      let* hf9 := has_hardfork 9 in
      let* median := get_median_props in
      do* swhen hf9
        (pay_committee_fee (vu_owner o) (validator_declaration_fee median)
           "Account does not have sufficient funds to declare himself as validator") in
      let* now := head_block_time in
      create_validator (vu_owner o) (λ w,
        Ok (w <| val_url := vu_url o |> <| signing_key := vu_block_signing_key o |>
              <| val_created := now |>))
  end.

Definition set_reward_sharing_apply (o : set_reward_sharing_operation) : DB unit :=
  let* hf13 := has_hardfork 13 in
  do* sassert hf13 "set_reward_sharing_operation" in
  let* a := get_account (rs_owner o) in
  let* itr := find_in validators (rs_owner o) in
  do* sassert (bool_decide (itr ≠ None)) "not a registered validator" in
  modify_validator (rs_owner o) (λ w, Ok (w <| sharing_rate := rs_sharing_rate o |>)).

(** ** Proxies and votes *)

(** The walk along the proxies from [cprox]; the set of visited ids must grow
    and stay small, so that [CHAIN_MAX_PROXY_RECURSION_DEPTH] steps are
    enough. *)
Fixpoint check_proxy_chain (fuel : nat) (chain : gset Z) (cprox : account_object) : DB unit :=
  if bool_decide (proxy cprox = "") then sret tt
  else
    match fuel with
    | O => sthrow E_undefined
    | S fuel =>
        let* next := get_account (proxy cprox) in
        do* sassert (bool_decide (acc_id next ∉ chain)) "This proxy would create a proxy loop." in
        let chain := {[ acc_id next ]} ∪ chain in
        do* sassert (bool_decide (size chain ≤ CHAIN_MAX_PROXY_RECURSION_DEPTH)%nat)
          "Proxy chain is too long." in
        check_proxy_chain fuel chain next
    end.

Definition account_validator_proxy_apply (o : account_validator_proxy_operation) : DB unit :=
  let n := vp_account o in
  let* account := get_account n in
  do* sassert (bool_decide (proxy account ≠ vp_proxy o)) "Proxy must change." in
  let* delta := slift (withdraw_votes_delta account) in
  do* adjust_proxied_validator_votes_array CHAIN_MAX_PROXY_RECURSION_DEPTH n delta in
  if bool_decide (vp_proxy o ≠ "")
  then
    let* new_proxy := get_account (vp_proxy o) in
    do* check_proxy_chain CHAIN_MAX_PROXY_RECURSION_DEPTH
      {[ acc_id account; acc_id new_proxy ]} new_proxy in
    do* clear_validator_votes n in
    do* modify_account n (λ a, Ok (a <| proxy := vp_proxy o |>)) in
    let* delta := slift (negate_all delta) in
    adjust_proxied_validator_votes_array CHAIN_MAX_PROXY_RECURSION_DEPTH n delta
  else modify_account n (λ a, Ok (a <| proxy := vp_proxy o |>)).

(** [adjust_validator_vote] of every validator that [n] votes for, with a
    weight that is computed at each step. *)
Definition adjust_each (n : string) (weight : account_object → res Z) : DB unit :=
  let* a := get_account n in
  let* ids := sgets (λ s, voted_validators s (acc_id a)) in
  sfor ids (λ id,
    let* v := get_validator_by_id id in
    let* a := get_account n in
    let* w := slift (weight a) in
    adjust_validator_vote v w).

Definition negated (weight : account_object → res Z) (a : account_object) : res Z :=
  let? w := weight a in safe_neg w.

Definition add_voted_for (n : string) (d : Z) : DB unit :=
  modify_account n (λ a, Ok (a <| validators_voted_for := u16 (validators_voted_for a + d) |>)).

(** The vote [change]s between taking the old weights away and giving the new
    ones; [d] is the change of [validators_voted_for]. *)
Definition revote (hf5 : bool) (n : string) (d : Z) (change : DB unit) : DB unit :=
  let weight :=
    if hf5 then λ a, Ok (validators_vote_weight a) else validator_vote_fair_weight_prehf5 in
  do* adjust_each n (negated weight) in
  do* change in
  do* add_voted_for n d in
  do* swhen hf5
    (let* voter := get_account n in
     let* w := slift (validator_vote_fair_weight voter) in
     modify_account n (λ a, Ok (a <| validators_vote_weight := w |>))) in
  adjust_each n weight.

(** Voting directly ends the use of a proxy. *)
Definition leave_proxy (hf4 : bool) (n : string) : DB unit :=
  let* voter := get_account n in
  if hf4
  then
    swhen (bool_decide (proxy voter ≠ ""))
      (let* delta := slift (withdraw_votes_delta voter) in
       do* adjust_proxied_validator_votes_array CHAIN_MAX_PROXY_RECURSION_DEPTH n delta in
       modify_account n (λ a, Ok (a <| proxy := CHAIN_PROXY_TO_SELF_ACCOUNT |>)))
  else sassert (bool_decide (proxy voter = "")) "A proxy is currently set".

Definition account_validator_vote_apply (o : account_validator_vote_operation) : DB unit :=
  let n := vv_account o in
  let* voter := get_account n in
  let* hf4 := has_hardfork 4 in
  let* hf5 := has_hardfork 5 in
  do* leave_proxy hf4 n in
  let* v := get_validator (vv_validator o) in
  let* voter := get_account n in
  let key := (acc_id voter, val_id v) in
  let* itr := find_in validator_votes key in
  match itr with
  | None =>
      do* sassert (vv_approve o) "Vote doesn't exist" in
      do* sassert (validators_voted_for voter <?
                   (if hf4 : bool then CHAIN_MAX_ACCOUNT_VALIDATOR_VOTES
                    else CHAIN_MAX_ACCOUNT_VALIDATOR_VOTES_PRE_HF4))
        "Account has voted for too many validators." in
      let* num := head_block_num in
      let create := create_in validator_votes "validator_vote" key num in
      if hf4 || hf5 then revote hf5 n 1 create
      else
        do* create in
        let* w := slift (validator_vote_weight voter) in
        do* adjust_validator_vote (vv_validator o) w in
        add_voted_for n 1
  | Some _ =>
      do* sassert (negb (vv_approve o)) "Vote currently exists" in
      let remove := remove_in validator_votes key in
      if hf4 || hf5 then revote hf5 n (-1) remove
      else
        let* w := slift (negated validator_vote_weight voter) in
        do* adjust_validator_vote (vv_validator o) w in
        do* add_voted_for n (-1) in
        remove
  end.

(** ** Delegation *)

Definition create_delegation_expiration (e : vesting_delegation_expiration_object) : DB unit :=
  supd (λ s, s <| delegation_expirations ::= λ l, l ++ [e] |>).

Definition delegate_vesting_shares_apply (o : delegate_vesting_shares_operation) : DB unit :=
  let key := (dv_delegator o, dv_delegatee o) in
  let new_shares := dv_vesting_shares o in
  let* delegator := get_account (dv_delegator o) in
  let* delegatee := get_account (dv_delegatee o) in
  let* delegation := find_in delegations key in
  do* swhen (bool_decide (delegation = None))
    (sassert (negb (amount new_shares =? 0)) "Delegation did not exist for initiate revoke.") in
  let* median := get_median_props in
  let* p := get_dgpo in
  let* min_deleg := slift (asset_mul_price (min_delegation median) (get_vesting_share_price p)) in
  let* now := head_block_time in
  let* delta :=
    match delegation with
    | Some d => slift (asset_sub new_shares (dlg_vesting_shares d))
    | None => sret new_shares
    end in
  do* (if 0 <? amount delta
       then
         let* avail := slift (available_vesting_shares delegator true) in
         do* require_ge avail delta "Account does not have enough vesting shares to delegate." in
         let* hf6 := has_hardfork 6 in
         do* swhen hf6 (require_energy (dv_delegator o)) in
         do* swhen (bool_decide (delegation = None))
           (do* require_ge new_shares min_deleg "Account must delegate a minimum" in
            create_in delegations "vesting_delegation" key (mk_delegation new_shares now)) in
         do* shares_sender_recalc_energy (dv_delegator o) delta in
         modify_account (dv_delegator o) (λ a,
           let? d := asset_add (delegated_vesting_shares a) delta in
           Ok (a <| delegated_vesting_shares := d |>))
       else
         do* (if amount new_shares =? 0 then sret tt
              else require_ge new_shares min_deleg "leave minimum delegation amount") in
         let* d := slift (res_of_option delegation E_undefined) in
         let* back := slift (asset_neg delta) in
         let* hf10 := has_hardfork 10 in
         let delay := if hf10 : bool then CHAIN_ENERGY_REGENERATION_SECONDS
                      else CHAIN_CASHOUT_WINDOW_SECONDS in
         create_delegation_expiration
           (mk_delegation_expiration (dv_delegator o) back
              (Z.max (u32 (now + delay)) (min_delegation_time d)))) in
  do* modify_account (dv_delegatee o) (λ a,
    let? r := asset_add (received_vesting_shares a) delta in
    Ok (a <| received_vesting_shares := r |>)) in
  match delegation with
  | Some _ =>
      if 0 <? amount new_shares
      then modify_in delegations key (λ d, Ok (d <| dlg_vesting_shares := new_shares |>))
      else remove_in delegations key
  | None => sret tt
  end.

(** ** Committee *)

Definition requests_of (s : database) (creator : string) : list committee_request_object :=
  filter (λ r, req_creator r = creator) (map_to_list (committee_requests s)).*2.

Definition committee_worker_create_request_apply
    (o : committee_worker_create_request_operation) : DB unit :=
  let* median := get_median_props in
  let fee := committee_create_request_fee median in
  let* creator := get_account (cw_creator o) in
  let* worker := get_account (cw_worker o) in
  let* hf9 := has_hardfork 9 in
  do* swhen hf9 (require_ge (balance creator) fee "insufficient funds to create a committee request") in
  let* reqs := sgets (λ s, requests_of s (cw_creator o)) in
  let* now := head_block_time in
  do* sassert (forallb (λ r, bool_decide (req_url r ≠ cw_url o)) reqs)
    "Committee request with same creator and url already exist." in
  do* sassert (forallb (λ r, COMMITTEE_REQUEST_PER_TIME <=? now - req_start_time r) reqs)
    "Committee request can not be created by same creator before COMMITTEE_REQUEST_PER_TIME ends." in
  let* p := get_dgpo in
  let id := u32 (committee_requests_count p + 1) in
  do* create_in committee_requests "committee_request" id
    {| req_url := cw_url o; req_creator := cw_creator o; Objects.worker := cw_worker o;
       required_amount_min := cw_required_amount_min o;
       required_amount_max := cw_required_amount_max o;
       req_start_time := now; duration := cw_duration o; req_end_time := u32 (now + cw_duration o);
       req_status := 0; votes_count := 0; conclusion_time := 0;
       conclusion_payout_amount := token 0; payout_amount := token 0;
       remain_payout_amount := token 0; last_payout_time := 0; payout_time := 0 |} in
  do* modify_dgpo (λ p, Ok (p <| committee_requests_count := id |>)) in
  swhen hf9 (do* debit (cw_creator o) fee in add_committee_fund fee).

(** The request of an operation, which must exist. *)
Definition get_request (id : Z) : DB committee_request_object :=
  let* itr := find_in committee_requests id in
  slift (res_of_option itr (E_assert "Committee request id not found.")).

Definition committee_worker_cancel_request_apply
    (o : committee_worker_cancel_request_operation) : DB unit :=
  let* a := get_account (cc_creator o) in
  let* r := get_request (cc_request_id o) in
  do* sassert (bool_decide (req_creator r = cc_creator o)) "can canceled only by creator." in
  do* sassert (req_status r =? 0) "Committee request is not active." in
  let* now := head_block_time in
  modify_in committee_requests (cc_request_id o) (λ c,
    Ok (c <| req_status := 1 |> <| conclusion_time := now |>)).

Definition committee_vote_request_apply (o : committee_vote_request_operation) : DB unit :=
  let key := (cv_request_id o, cv_voter o) in
  let* a := get_account (cv_voter o) in
  let* r := get_request (cv_request_id o) in
  do* sassert (req_status r =? 0) "Committee request is not active." in
  let* now := head_block_time in
  let* vote := find_in committee_votes key in
  let entry := mk_committee_vote (cv_vote_percent o) now in
  match vote with
  | Some cur =>
      do* sassert (negb (vote_percent cur =? cv_vote_percent o)) "vote percent equal last vote." in
      modify_in committee_votes key (λ _, Ok entry)
  | None =>
      do* create_in committee_votes "committee_vote" key entry in
      modify_in committee_requests (cv_request_id o) (λ c,
        Ok (c <| votes_count := u32 (votes_count c + 1) |>))
  end.
End evaluators.

(** ** Effects on the supply *)

Section effects.
Context {CE : ChainEnv}.

Lemma eff_create_validator n f s u s' :
  (∀ w w', f w = Ok w' → pending_stakeholder_reward w' = pending_stakeholder_reward w) →
  create_validator n f s = Ok (u, s') → eff s s' 0.
Proof.
  intros Hf H. unfold create_validator in H. inv_ok.
  match goal with H : create_in _ _ _ _ _ = Ok _ |- _ => apply create_in_Ok in H as [Hn [= _ ->]] end.
  match goal with H : f _ = Ok _ |- _ => apply Hf in H as Hp end.
  split; [|done..]. unfold gap, accounted. cbn. rewrite msum_insert_new by done.
  rewrite Hp. cbn. lia.
Qed.

Lemma keeps_validator_update o s u s' : validator_update_apply o s = Ok (u, s') → keeps s s'.
Proof.
  unfold validator_update_apply. intros H. inv_eval;
    (first [eapply eff_modify_validator in H | eapply eff_create_validator in H];
     [|intros w w' Hw; by inv_ok]); eff_facts; eff_lia.
Qed.

Lemma keeps_set_reward_sharing o s u s' : set_reward_sharing_apply o s = Ok (u, s') → keeps s s'.
Proof.
  unfold set_reward_sharing_apply. intros H. inv_eval.
  eapply eff_modify_validator in H; [|intros w w' Hw; by inv_ok]. eff_lia.
Qed.

Lemma check_proxy_chain_Ok fuel chain c s u s' :
  check_proxy_chain fuel chain c s = Ok (u, s') → s' = s.
Proof.
  revert chain c. induction fuel as [|fuel IH]; intros chain c H; cbn in H; inv_db; [done..|].
  by eapply IH.
Qed.

Lemma keeps_account_validator_proxy o s u s' :
  account_validator_proxy_apply o s = Ok (u, s') → keeps s s'.
Proof.
  unfold account_validator_proxy_apply. intros H. inv_eval;
    repeat match goal with
    | H : check_proxy_chain _ _ _ _ = Ok _ |- _ => apply check_proxy_chain_Ok in H; subst
    end; eff_facts; eff_lia.
Qed.

Lemma eff_adjust_each n w s u s' : adjust_each n w s = Ok (u, s') → eff s s' 0.
Proof.
  unfold adjust_each. intros H. inv_eval. revert H. apply eff_sfor.
  intros id s0 u0 s1 _ H. inv_eval. unfold get_validator_by_id in *.
  destruct (list_find _ _) as [[? [? ?]]|]; inv_ok. by eapply eff_adjust_validator_vote.
Qed.

Lemma eff_add_voted_for n d s u s' : add_voted_for n d s = Ok (u, s') → eff s s' 0.
Proof. unfold add_voted_for. intros H. by eff_facts. Qed.

Lemma eff_revote hf5 n d change s u s' :
  (∀ s u s', change s = Ok (u, s') → eff s s' 0) →
  revote hf5 n d change s = Ok (u, s') → eff s s' 0.
Proof.
  unfold revote. intros Hc H. inv_eval;
    repeat match goal with
    | H : adjust_each _ _ _ = Ok _ |- _ => apply eff_adjust_each in H
    | H : add_voted_for _ _ _ = Ok _ |- _ => apply eff_add_voted_for in H
    | H : change _ = Ok _ |- _ => apply Hc in H
    end; eff_facts;
    eff_chain.
Qed.

Lemma eff_leave_proxy hf4 n s u s' : leave_proxy hf4 n s = Ok (u, s') → eff s s' 0.
Proof.
  unfold leave_proxy. intros H. inv_eval; [|apply eff_refl..]. eff_facts. eff_chain.
Qed.

Lemma eff_vote_created k num s u s' :
  create_in validator_votes "validator_vote" k num s = Ok (u, s') → eff s s' 0.
Proof. intros H. by eff_facts. Qed.

Lemma eff_vote_removed k s u s' : remove_in validator_votes k s = Ok (u, s') → eff s s' 0.
Proof. intros H. by eff_facts. Qed.

Lemma keeps_account_validator_vote o s u s' :
  account_validator_vote_apply o s = Ok (u, s') → keeps s s'.
Proof.
  unfold account_validator_vote_apply. intros H.
  inv_eval;
    repeat match goal with
    | H : leave_proxy _ _ _ = Ok _ |- _ => apply eff_leave_proxy in H
    | H : revote _ _ _ _ _ = Ok _ |- _ =>
        apply eff_revote in H; [|solve [apply eff_vote_created | apply eff_vote_removed]]
    | H : add_voted_for _ _ _ = Ok _ |- _ => apply eff_add_voted_for in H
    end; eff_facts; eff_lia.
Qed.

Lemma eff_delegation_expiration e s u s' :
  create_delegation_expiration e s = Ok (u, s') → eff s s' 0.
Proof. intros [= _ <-]. by apply eff_same. Qed.

Lemma keeps_delegate_vesting_shares o s u s' :
  delegate_vesting_shares_apply o s = Ok (u, s') → keeps s s'.
Proof.
  unfold delegate_vesting_shares_apply. intros H. inv_eval;
    repeat match goal with
    | H : require_energy _ _ = Ok _ |- _ => apply require_energy_Ok in H; subst
    | H : create_delegation_expiration _ _ = Ok _ |- _ => apply eff_delegation_expiration in H
    end; eff_facts; eff_lia.
Qed.

Lemma keeps_committee_create o s u s' :
  committee_worker_create_request_apply o s = Ok (u, s') → keeps s s'.
Proof.
  unfold committee_worker_create_request_apply. intros H. inv_eval;
    match goal with H : modify_dgpo _ _ = Ok _ |- _ =>
      apply eff_modify_dgpo in H as (p & Hp & Heff); injection Hp as <- end;
    unfold fund_tokens in Heff; cbn in Heff; eff_facts; eff_lia.
Qed.

Lemma keeps_committee_cancel o s u s' :
  committee_worker_cancel_request_apply o s = Ok (u, s') → keeps s s'.
Proof.
  unfold committee_worker_cancel_request_apply, get_request. intros H. inv_eval. eff_facts. eff_lia.
Qed.

Lemma keeps_committee_vote o s u s' :
  committee_vote_request_apply o s = Ok (u, s') → keeps s s'.
Proof.
  unfold committee_vote_request_apply, get_request. intros H. inv_eval; eff_facts; eff_lia.
Qed.
End effects.
