(* ===== verification/EvalAward.v ===== *)
(** * Evaluators of awards (libraries/chain/chain_evaluator.cpp, lines 305-548)

    An award spends energy of its initiator and pays from the reward fund to
    the receiver and the beneficiaries, as shares. *)

From stdpp Require Import gmap strings list sorting.
From Stdlib Require Import ZArith Lia.
From S2P Require Import Prelude Fc Text Asset Authority SignState Objects Database Operations.
From S2P Require Import Supply Scenario EvalTransfer.

Definition CHAIN_MAX_COMMENT_BENEFICIARIES : nat := 64.

Section evaluators.
Context {CE : ChainEnv}.

(** The current energy of the initiator, which must be positive and at least
    [used]. *)
Definition usable_energy (n : string) (used : Z) : DB Z :=
  let* a := get_account n in
  let* now := head_block_time in
  let e := current_energy now a in
  do* sassert (0 <? e) "Account currently does not have voting energy." in
  do* sassert (used <=? e) "Account does not have enough energy to award." in
  sret e.

(** [(uint128_t(effective_vesting_shares) * energy / CHAIN_100_PERCENT).to_uint64()] *)
Definition rshares_of (a : account_object) (energy : Z) : res Z :=
  let? eff := effective_vesting_shares a in
  let? q := wu_div (w := 128) (wu_mul (w := 128) (wide_i64 (amount eff)) (wide_i64 energy))
              (wide_i64 CHAIN_100_PERCENT) in
  to_share q.

Definition spend_energy (n : string) (left : Z) : DB unit :=
  let* now := head_block_time in
  modify_account n (λ a,
    Ok (a <| energy := to_i16 left |> <| last_vote_time := now |>
          <| vote_count := u32 (vote_count a + 1) |>)).

(** What an award says about itself in the operations it emits. *)
Record award_info := mk_award_info {
  info_initiator : string;
  info_receiver : string;
  info_custom_sequence : Z;
  info_memo : string
}.

(** The loop over the beneficiaries: the total they got. *)
Fixpoint pay_beneficiaries (i : award_info) (tokens : Z) (l : list (string * Z)) (total : Z) : DB Z :=
  match l with
  | [] => sret total
  | b :: l =>
      let* acc := find_account b.1 in
      do* sassert (bool_decide (acc ≠ None)) "Beneficiary must exist." in
      let* m := slift (safe_mul tokens b.2) in
      let* benefactor_tokens := slift (safe_div m CHAIN_100_PERCENT) in
      let* shares_created := create_vesting b.1 (token benefactor_tokens) in
      do* modify_account b.1 (λ a,
        let? v := safe_add (benefactor_awards a) benefactor_tokens in
        Ok (a <| benefactor_awards := v |>)) in
      do* push_virtual_operation
        (benefactor_award_operation (info_initiator i) b.1 (info_receiver i)
           (info_custom_sequence i) (info_memo i) shares_created) in
      let* total := slift (safe_add total benefactor_tokens) in
      pay_beneficiaries i tokens l total
  end.

(** The receiver gets what is left, if anything is. *)
Definition pay_receiver (i : award_info) (receiver_tokens : Z) : DB unit :=
  swhen (0 <? receiver_tokens)
    (let* shares_created := create_vesting (info_receiver i) (token receiver_tokens) in
     do* modify_account (info_receiver i) (λ a,
       let? v := safe_add (receiver_awards a) receiver_tokens in
       Ok (a <| receiver_awards := v |>)) in
     push_virtual_operation
       (receive_award_operation (info_initiator i) (info_receiver i) (info_custom_sequence i)
          (info_memo i) shares_created)).

Definition check_beneficiaries (l : list (string * Z)) : DB unit :=
  let* producing := sgets is_producing in
  swhen producing
    (sassert (length l <=? CHAIN_MAX_COMMENT_BENEFICIARIES)%nat "Cannot specify more beneficiaries.").

(** [tokens] are paid to the beneficiaries; of [receiver_tokens], the receiver
    gets what they leave. *)
Definition distribute (i : award_info) (l : list (string * Z)) (tokens receiver_tokens : Z) : DB unit :=
  let* total_beneficiary := pay_beneficiaries i tokens l 0 in
  let* receiver_tokens := slift (safe_sub receiver_tokens total_beneficiary) in
  pay_receiver i receiver_tokens.

Definition award_apply (o : award_operation) : DB unit :=
  let i := mk_award_info (aw_initiator o) (aw_receiver o) (aw_custom_sequence o) (aw_memo o) in
  let* hf4 := has_hardfork 4 in
  do* sassert hf4 "award_evaluator not enabled until HF 4" in
  let* median := get_median_props in
  let* initiator := get_account (aw_initiator o) in
  let* receiver := get_account (aw_receiver o) in
  let* cur := usable_energy (aw_initiator o) (aw_energy o) in
  let* rshares := slift (rshares_of initiator (aw_energy o)) in
  let* tokens :=
    (if rshares <? vote_accounting_min_rshares median then sret 0
     else claim_rshare_award rshares) in
  do* spend_energy (aw_initiator o) (cur - aw_energy o) in
  swhen (0 <? tokens)
    (do* check_beneficiaries (aw_beneficiaries o) in
     distribute i (aw_beneficiaries o) tokens tokens).

(** The reward shares that give [reward] of the fund:
    [ra * total_rshares / (rf - ra)]. *)
Definition rshares_for_reward (p : dynamic_global_property_object) (reward : Z) : res Z :=
  let ra := wu_of_i64 (w := 256) reward in
  let rf := wu_of_i64 (w := 256) (amount (total_reward_fund p)) in
  let? rs := wu_div (w := 256) (wu_mul (w := 256) ra (total_reward_shares p))
               (wu_sub (w := 256) rf ra) in
  do? rassert (rs <=? i64_max) (E_assert "rs_calc <= int64 max") in
  Ok rs.

(** The energy for [rs] of the [max_rshares] that [max_energy] gives, and a
    bit more. *)
Definition energy_for (rs max_energy max_rshares : Z) : res Z :=
  let? q := wu_div (w := 128) (wu_mul (w := 128) (wide_i64 rs) (wide_i64 max_energy))
              (wide_i64 max_rshares) in
  let? e := to_share q in
  let? e := raw_i64 (e + 1) in
  Ok (Z.min e CHAIN_100_PERCENT).

(** What the award claims over the fixed reward goes to the committee fund. *)
Definition donate (donation_tokens : Z) : DB unit :=
  modify_dgpo (λ p,
    let? c := safe_add (amount (committee_fund p)) donation_tokens in
    Ok (p <| committee_fund ::= λ x, x <| amount := c |> |>)).

Definition fixed_award_apply (o : fixed_award_operation) : DB unit :=
  let i := mk_award_info (fa_initiator o) (fa_receiver o) (fa_custom_sequence o) (fa_memo o) in
  let reward := amount (fa_reward_amount o) in
  let* hf11 := has_hardfork 11 in
  do* sassert hf11 "fixed_award_evaluator not enabled until HF 11" in
  let* p := get_dgpo in
  let* median := get_median_props in
  let* initiator := get_account (fa_initiator o) in
  let* receiver := get_account (fa_receiver o) in
  let* cur := usable_energy (fa_initiator o) (fa_max_energy o) in
  let* max_rshares := slift (rshares_of initiator (fa_max_energy o)) in
  let* max_reward := calc_rshare_award max_rshares in
  do* sassert (wide_i64 reward <=? wide_i64 max_reward) "Max available reward" in
  let* rs := slift (rshares_for_reward p reward) in
  do* sassert (rs <=? max_rshares) "Account does not have enough potential to fixed award." in
  let* need_energy := slift (energy_for rs (fa_max_energy o) max_rshares) in
  let* rshares := slift (rshares_of initiator need_energy) in
  let low := rshares <? vote_accounting_min_rshares median in
  let rshares := if low then 0 else rshares in
  let* tokens := (if low then sret 0 else calc_rshare_award rshares) in
  do* sassert (reward <=? tokens) "Calculated reward is lesser than fixed reward amount." in
  do* sassert (negb (rshares =? 0)) "Potential rshares is 0" in
  let* tokens := claim_rshare_award rshares in
  do* sassert (0 <? tokens) "Potential reward is 0" in
  do* spend_energy (fa_initiator o) (cur - need_energy) in
  do* check_beneficiaries (fa_beneficiaries o) in
  let* donation_tokens := slift (safe_sub tokens reward) in
  let* receiver_tokens := slift (safe_sub tokens donation_tokens) in
  do* distribute i (fa_beneficiaries o) tokens receiver_tokens in
  swhen (0 <? donation_tokens) (donate donation_tokens).
End evaluators.

(** ** Effects on the supply *)

Section effects.
Context {CE : ChainEnv}.

(** The part of [tokens] that a list of beneficiaries gets. *)
Definition beneficiaries_part (tokens : Z) (l : list (string * Z)) : Z :=
  foldr (λ b acc, Z.quot (tokens * b.2) CHAIN_100_PERCENT + acc) 0 l.

Lemma beneficiaries_part_bound tokens l :
  0 ≤ tokens → Forall (λ b, 0 ≤ b.2) l →
  0 ≤ beneficiaries_part tokens l ∧
  CHAIN_100_PERCENT * beneficiaries_part tokens l ≤ tokens * sum_weights l.
Proof.
  intros Ht. induction 1 as [|[b w] l Hw _ [IH0 IH]]; [cbn; unfold CHAIN_100_PERCENT; lia|].
  unfold beneficiaries_part, sum_weights in *. cbn in *.
  assert (0 ≤ tokens * w) by nia.
  pose proof (Z.quot_pos (tokens * w) CHAIN_100_PERCENT ltac:(lia) ltac:(done)).
  pose proof (Z.mul_quot_le (tokens * w) CHAIN_100_PERCENT ltac:(lia) ltac:(done)).
  rewrite (Z.mul_add_distr_l tokens). unfold CHAIN_100_PERCENT in *. lia.
Qed.

Lemma beneficiaries_part_cons tokens b l :
  beneficiaries_part tokens (b :: l) =
  Z.quot (tokens * b.2) CHAIN_100_PERCENT + beneficiaries_part tokens l.
Proof. done. Qed.

Lemma eff_pay_beneficiaries i tokens l total s r s' :
  pay_beneficiaries i tokens l total s = Ok (r, s') →
  r = total + beneficiaries_part tokens l ∧ eff s s' (beneficiaries_part tokens l).
Proof.
  revert total s. induction l as [|b l IH]; intros total s H; cbn in H; inv_eval.
  - split; [cbn; lia|apply eff_refl].
  - apply IH in H as [-> ?]. inv_safe. eff_facts. rewrite beneficiaries_part_cons. cbn [amount token] in *.
    split; [lia|]. eff_chain.
Qed.

Lemma eff_distribute i l tokens recv s u s' :
  distribute i l tokens recv s = Ok (u, s') →
  eff s s' (Z.max recv (beneficiaries_part tokens l)).
Proof.
  unfold distribute, pay_receiver. intros H. inv_eval;
    match goal with H : pay_beneficiaries _ _ _ _ _ = Ok _ |- _ =>
      apply eff_pay_beneficiaries in H as [-> ?] end; inv_safe; eff_facts; propify;
    cbn in *; eff_chain.
Qed.

(** What is claimed is between nothing and the reward fund. *)
Lemma rshare_payout_nonneg p rshares v : rshare_payout p rshares = Ok v → 0 ≤ v ≤ i64_max.
Proof.
  unfold rshare_payout. intros H. inv_ok. propify.
  match goal with H : wu_div _ _ = Ok _ |- _ =>
    apply wu_div_inv in H; [lia|apply wu_mul_range|apply wu_add_range] end.
Qed.

Lemma calc_Ok rshares s r s' :
  calc_rshare_award rshares s = Ok (r, s') → s' = s ∧ rshare_payout (dgpo s) rshares = Ok r.
Proof. unfold calc_rshare_award. intros. by inv_eval. Qed.

Lemma claim_payout rshares s r s' :
  claim_rshare_award rshares s = Ok (r, s') → rshare_payout (dgpo s) rshares = Ok r.
Proof. unfold claim_rshare_award. intros. by inv_eval. Qed.

Lemma eff_donate x s u s' : donate x s = Ok (u, s') → eff s s' x.
Proof.
  unfold donate. intros (p & Hp & He)%eff_modify_dgpo. inv_ok. inv_safe.
  eapply eff_eq; [exact He|]. unfold fund_tokens. cbn. lia.
Qed.

Lemma eff_spend_energy n e s u s' : spend_energy n e s = Ok (u, s') → eff s s' 0.
Proof. unfold spend_energy. intros H. inv_eval. by eff_facts. Qed.

Lemma usable_energy_Ok n used s r s' :
  usable_energy n used s = Ok (r, s') →
  s' = s ∧ 0 < r ∧ used ≤ r ∧ ∃ a, accounts s !! n = Some a ∧ r = current_energy (time (dgpo s)) a.
Proof. unfold usable_energy. intros. inv_eval. propify. eauto 10. Qed.

Lemma check_beneficiaries_Ok l s u s' : check_beneficiaries l s = Ok (u, s') → s' = s.
Proof. unfold check_beneficiaries. intros. by inv_eval. Qed.
End effects.

Ltac inv_award :=
  repeat match goal with
  | H : usable_energy _ _ _ = Ok _ |- _ =>
      apply usable_energy_Ok in H; destruct H as (-> & ? & ? & ? & ? & ?)
  | H : check_beneficiaries _ _ = Ok _ |- _ => apply check_beneficiaries_Ok in H; subst
  | H : spend_energy _ _ _ = Ok _ |- _ => apply eff_spend_energy in H
  | H : distribute _ _ _ _ _ = Ok _ |- _ => apply eff_distribute in H
  | H : claim_rshare_award _ _ = Ok _ |- _ =>
      let K := fresh in pose proof (claim_payout _ _ _ _ H) as K;
      apply eff_claim_rshare_award in H
  | H : calc_rshare_award _ _ = Ok _ |- _ => apply calc_Ok in H; destruct H as [-> H]
  | H : donate _ _ = Ok _ |- _ => apply eff_donate in H
  end.

Section award_effects.
Context {CE : ChainEnv}.

Lemma keeps_award o s u s' :
  Forall (λ b, 0 ≤ b.2) (aw_beneficiaries o) →
  sum_weights (aw_beneficiaries o) ≤ CHAIN_100_PERCENT →
  award_apply o s = Ok (u, s') → keeps s s'.
Proof.
  unfold award_apply. intros Hpos Hsum H. inv_eval; inv_award; eff_facts; propify; try eff_lia;
    match goal with H : rshare_payout _ _ = Ok _ |- _ => apply rshare_payout_nonneg in H end;
    try eff_lia.
  all: match goal with _ : 0 < ?t |- _ =>
    destruct (beneficiaries_part_bound t (aw_beneficiaries o) ltac:(lia) Hpos) as [? ?];
    assert (beneficiaries_part t (aw_beneficiaries o) ≤ t)
      by (unfold CHAIN_100_PERCENT in *; nia); eff_lia
  end.
Qed.

(** The beneficiaries of a fixed award share all that was claimed, not the
    fixed reward: what they get over the reward comes from nowhere. *)
Lemma fixed_award_effect o s u s' :
  fixed_award_apply o s = Ok (u, s') →
  ∃ tokens, amount (fa_reward_amount o) ≤ tokens ∧ 0 < tokens ∧
    gap s' = gap s + Z.max 0 (beneficiaries_part tokens (fa_beneficiaries o)
                              - amount (fa_reward_amount o)) ∧
    escrows s' = escrows s ∧ invites s' = invites s.
Proof.
  unfold fixed_award_apply. intros H. inv_eval; inv_award; eff_facts; inv_safe; propify; try lia;
    match goal with
    | H1 : rshare_payout (dgpo s) ?r = Ok ?v, H2 : rshare_payout (dgpo s) ?r = Ok ?w, _ : 0 < ?w |- _ =>
        replace v with w in * by congruence; exists w
    end;
    repeat match goal with H : eff _ _ _ |- _ => destruct H as [? ? ?] end;
    split_and!; first [lia|congruence].
Qed.

(** A fixed award conserves tokens exactly when its
    beneficiaries get no more than the fixed reward; otherwise the excess is
    paid a second time, to the beneficiaries and, as the donation, to the
    committee fund, and the tokens held outgrow the recorded supply. *)
Theorem fixed_award_balance o s u s' :
  fixed_award_apply o s = Ok (u, s') →
  ∃ tokens, amount (fa_reward_amount o) ≤ tokens ∧
    let part := beneficiaries_part tokens (fa_beneficiaries o) in
    (part ≤ amount (fa_reward_amount o) → gap s' = gap s) ∧
    (amount (fa_reward_amount o) < part →
     gap s' = gap s + (part - amount (fa_reward_amount o)) ∧ gap s < gap s').
Proof.
  intros (t & Ht & _ & Hg & _)%fixed_award_effect. exists t. cbn. split; [done|]. lia.
Qed.
End award_effects.

(** Alice awards Bob 50000, of which Carol gets 100%: 741 tokens come from
    nowhere. *)
Definition split_award : fixed_award_operation :=
  mk_fixed_award "alice" "bob" (token 50000) 5000 0 "" [("carol"%string, 10000)].

Lemma fixed_award_balance_witness :
  let run := @fixed_award_apply test_env split_award in
  @operation_validate plain_text (op_fixed_award split_award) = Ok tt ∧
  gap (after run test_db) = gap test_db + 741 ∧
  ∃ tokens, amount (fa_reward_amount split_award) ≤ tokens ∧
    (beneficiaries_part tokens (fa_beneficiaries split_award)
       ≤ amount (fa_reward_amount split_award) → gap (after run test_db) = gap test_db).
Proof.
  intros run. assert (run test_db = Ok (tt, after run test_db)) as H
    by (apply after_Ok; vm_compute; reflexivity).
  split; [reflexivity|]. split; [vm_compute; reflexivity|].
  destruct (@fixed_award_balance test_env split_award test_db tt _ H) as (t & Ht & Hc & _).
  exists t. split; [exact Ht|exact Hc].
Defined.
