(* ===== verification/EvalInvite.v ===== *)
(** * Evaluators of invites and paid subscriptions
      (libraries/chain/invite_evaluator.cpp, paid_subscription_evaluator.cpp)

    An invite holds tokens until whoever knows its secret claims them, to a
    balance, to a new account or to shares.  A paid subscription is an offer;
    a subscribe object is a subscription to it. *)

From stdpp Require Import gmap strings list sorting.
From Stdlib Require Import ZArith Lia.
From S2P Require Import Prelude Fc Text Asset Authority Objects Database Operations Supply.
From S2P Require Import EvalTransfer EvalAccount.

Section evaluators.
Context {CE : ChainEnv}.

(** ** Invites *)

Definition create_invite_apply (o : create_invite_operation) : DB unit :=
  let* creator := get_account (ci_creator o) in
  let* median := get_median_props in
  do* require_ge (balance creator) (ci_balance o) "Insufficient balance to create invite." in
  do* sassert (bool_decide (ci_invite_key o ≠ blank_key)) "Invite key cannot be blank." in
  let* hf9 := has_hardfork 9 in
  do* require_ge (ci_balance o)
    (if hf9 : bool then create_invite_min_balance median else account_creation_fee median)
    "Invite balance must be more or equal" in
  let* itr := find_in invites (ci_invite_key o) in
  do* sassert (bool_decide (itr = None)) "Invite with same key was found." in
  do* debit (ci_creator o) (ci_balance o) in
  let* now := head_block_time in
  create_in invites "invite" (ci_invite_key o)
    {| inv_creator := ci_creator o; inv_receiver := ""; invite_secret := "";
       inv_balance := ci_balance o; claimed_balance := token 0; create_time := now;
       claim_time := 0; inv_status := 0 |}.

(** The invite that the secret opens. *)
Definition open_invite (secret : string) : DB (Z * invite_object) :=
  do* sassert (bool_decide (secret ≠ "")) "Invite secret cannot be blank." in
  let* key := slift (res_of_option (wif_to_public_key secret) (E_assert "Invite secret must be WIF.")) in
  let* itr := find_in invites key in
  let* i := slift (res_of_option itr (E_assert "Invite was not found.")) in
  sret (key, i).

Definition require_unclaimed (i : invite_object) : DB unit :=
  sassert (inv_status i =? 0) "Invite already claimed.".

(** The invite is marked with how it was used. *)
Definition close_invite (key status : Z) (secret receiver : string) : DB unit :=
  let* now := head_block_time in
  modify_in invites key (λ c,
    Ok (c <| inv_status := status |> <| invite_secret := secret |> <| inv_receiver := receiver |>
          <| claimed_balance := inv_balance c |> <| inv_balance := token 0 |> <| claim_time := now |>)).

Definition claim_invite_balance_apply (o : claim_invite_balance_operation) : DB unit :=
  let* initiator := get_account (cl_initiator o) in
  let* receiver := get_account (cl_receiver o) in
  let* ki := open_invite (cl_invite_secret o) in
  do* require_unclaimed ki.2 in
  do* adjust_balance (cl_receiver o) (inv_balance ki.2) in
  close_invite ki.1 1 (cl_invite_secret o) (cl_receiver o).

Definition invite_registration_apply (o : invite_registration_operation) : DB unit :=
  let n := ir_new_account_name o in
  let key := ir_new_account_key o in
  do* sassert (bool_decide (ir_invite_secret o ≠ "")) "Invite secret cannot be blank." in
  let* initiator := get_account (ir_initiator o) in
  let* ki := open_invite (ir_invite_secret o) in
  do* require_unclaimed ki.2 in
  let* now := head_block_time in
  do* create_account n (λ a,
    a <| memo_key := key |> <| acc_created := now |> <| recovery_account := inv_creator ki.2 |>
      <| referrer := inv_creator ki.2 |>) in
  do* create_in authorities "account_authority" n (single_key_auths key 0) in
  do* create_in metadata "account_metadata" n "" in
  let* new_account := get_account n in
  let* v := create_vesting n (inv_balance ki.2) in
  close_invite ki.1 2 (ir_invite_secret o) n.

Definition use_invite_balance_apply (o : use_invite_balance_operation) : DB unit :=
  let* hf9 := has_hardfork 9 in
  do* sassert hf9 "use_invite_balance not enabled until HF 9" in
  let* initiator := get_account (ui_initiator o) in
  let* receiver := get_account (ui_receiver o) in
  let* ki := open_invite (ui_invite_secret o) in
  do* require_unclaimed ki.2 in
  let* v := create_vesting (ui_receiver o) (inv_balance ki.2) in
  close_invite ki.1 3 (ui_invite_secret o) (ui_receiver o).

(** ** Paid subscriptions *)

Definition set_paid_subscription_apply (o : set_paid_subscription_operation) : DB unit :=
  let n := sp_account o in
  let* hf5 := has_hardfork 5 in
  do* sassert hf5 "set_paid_subscription_evaluator not enabled until HF 5" in
  let* account := get_account n in
  let* now := head_block_time in
  let entry := mk_paid_subscription (sp_url o) (sp_levels o) (amount (sp_amount o)) (sp_period o) now in
  let* itr := find_in paid_subscriptions n in
  match itr with
  | Some _ => modify_in paid_subscriptions n (λ _, Ok entry)
  | None =>
      let* hf9 := has_hardfork 9 in
      let* median := get_median_props in
      do* swhen hf9
        (pay_committee_fee n (create_paid_subscription_fee median)
           "Account does not have sufficient funds to create a paid subscription") in
      create_in paid_subscriptions "paid_subscription" n entry
  end.

Definition SECONDS_PER_DAY : Z := 86400.

(** [uint64_t period_sec = period * 86400], a product of [int]s: periods are
    validated to be at most [PAID_SUBSCRIPTION_MAX_PERIOD], so it fits. *)
Definition period_seconds (period : Z) : Z := u64 (to_i32 (period * SECONDS_PER_DAY)).

(** The fields that every new agreement gets. *)
Definition agreed (o : paid_subscribe_operation) (now period_sec : Z) : paid_subscribe_object :=
  {| sub_level := pb_level o; sub_amount := amount (pb_amount o); sub_period := pb_period o;
     sub_start_time := now; sub_next_time := u32 (now + period_sec);
     sub_end_time := time_point_sec_maximum; sub_active := true;
     sub_auto_renewal := pb_auto_renewal o |}.

Definition pay_subscription (o : paid_subscribe_operation) (cost : asset) : DB unit :=
  let* b := get_balance (pb_subscriber o) TOKEN_SYMBOL in
  do* require_ge b cost "Account does not have sufficient TOKEN for paid subscribe." in
  do* debit (pb_subscriber o) cost in
  adjust_balance (pb_account o) cost.

Definition announce (o : paid_subscribe_operation) (seconds : Z) (paid : asset) : DB unit :=
  push_virtual_operation
    (paid_subscription_action_operation (pb_subscriber o) (pb_account o) (pb_level o) (pb_amount o)
       (pb_period o) seconds paid).

(** What is left of a running agreement, in tokens:
    [(old * seconds_left / old_period_sec).to_uint64()]. *)
Definition subscription_remain (old : paid_subscribe_object) (now : Z) : res Z :=
  let? old_summary := safe_mul (sub_amount old) (sub_level old) in
  let? q := wu_div (w := 128)
              (wu_mul (w := 128) (wide_i64 old_summary) (wide_i64 (sub_next_time old - now)))
              (wide_i64 (period_seconds (sub_period old))) in
  to_share q.

(** The model of a running subscription changes; the remainder of the old one
    counts. *)
Definition change_subscription (o : paid_subscribe_operation) (old : paid_subscribe_object)
    (summary period_sec : Z) : DB unit :=
  let key := (pb_subscriber o, pb_account o) in
  let* now := head_block_time in
  let* remain := slift (subscription_remain old now) in
  if summary <=? remain
  then
    let* q := slift (wu_div (w := 128)
      (wu_mul (w := 128) (wu_mul (w := 128) (wide_i64 remain) (wide_i64 (pb_period o)))
         (wide_i64 SECONDS_PER_DAY)) (wide_i64 summary)) in
    let* new_period_sec := slift (wu_to_u64 q) in
    do* modify_in paid_subscribes key (λ _, Ok (agreed o now new_period_sec)) in
    announce o new_period_sec (token 0)
  else
    let* d := slift (safe_sub summary remain) in
    do* pay_subscription o (token d) in
    do* modify_in paid_subscribes key (λ _, Ok (agreed o now period_sec)) in
    announce o period_sec (token d).

Definition paid_subscribe_apply (o : paid_subscribe_operation) : DB unit :=
  let key := (pb_subscriber o, pb_account o) in
  let* hf5 := has_hardfork 5 in
  do* sassert hf5 "paid_subscribe_evaluator not enabled until HF 5" in
  do* sassert (0 <? pb_level o) "Paid subscibe can not be turn off manually" in
  let* subscriber := get_account (pb_subscriber o) in
  let* account := get_account (pb_account o) in
  let* itr := find_in paid_subscriptions (pb_account o) in
  let* offer := slift (res_of_option itr (E_assert "Paid subscription was not found.")) in
  do* sassert (negb (ps_levels offer =? 0)) "Paid subscription was closed." in
  do* sassert (pb_level o <=? ps_levels offer) "Paid subscribe level greater that allowed" in
  do* sassert (ps_period offer =? pb_period o) "Paid subscribe period must be equal" in
  do* sassert (ps_amount offer =? amount (pb_amount o)) "Paid subscribe amount must be equal" in
  let* summary := slift (safe_mul (amount (pb_amount o)) (pb_level o)) in
  let period_sec := period_seconds (pb_period o) in
  let* now := head_block_time in
  let* old := find_in paid_subscribes key in
  let subscribe :=
    do* pay_subscription o (token summary) in
    do* create_in paid_subscribes "paid_subscribe" key (agreed o now period_sec) in
    announce o period_sec (token summary) in
  match old with
  | Some old =>
      if sub_active old
      then
        if (sub_amount old =? amount (pb_amount o)) && (sub_level old =? pb_level o) &&
           (sub_period old =? pb_period o)
        then
          do* sassert (negb (Bool.eqb (sub_auto_renewal old) (pb_auto_renewal o)))
            "Paid subscribe auto_renewal must be change" in
          modify_in paid_subscribes key (λ ps, Ok (ps <| sub_auto_renewal := pb_auto_renewal o |>))
        else change_subscription o old summary period_sec
      else do* remove_in paid_subscribes key in subscribe
  | None => subscribe
  end.
End evaluators.

(** ** Effects on the supply *)

Section effects.
Context {CE : ChainEnv}.

Lemma gap_create_invite k i s u s' :
  create_in invites "invite" k i s = Ok (u, s') → inv_status i = 0 →
  gap s' = gap s + invite_tokens i ∧ escrows s' = escrows s ∧ (invites_ok s → invites_ok s').
Proof.
  intros [Hk [= _ ->]]%create_in_Ok Hst. split_and!; [|done|].
  - unfold gap, accounted. cbn. rewrite msum_insert_new by done. lia.
  - intros Hok k' i'. cbn. intros [[_ <-]|[_ ?]]%lookup_insert_Some; [done|eauto].
Qed.

Lemma keeps_create_invite o s u s' : create_invite_apply o s = Ok (u, s') → keeps s s'.
Proof.
  unfold create_invite_apply. intros H. inv_eval. apply gap_create_invite in H as (Hg & He & Hi); [|done].
  unfold invite_tokens in Hg. cbn in Hg. eff_facts.
  match goal with H : eff _ _ _ |- _ => destruct H as [? ? E] end.
  split_and!; [lia|congruence|]. intros Hok. apply Hi. by eapply invites_ok_same.
Qed.

Lemma open_invite_Ok secret s r s' :
  open_invite secret s = Ok (r, s') →
  s' = s ∧ wif_to_public_key secret = Some r.1 ∧ invites s !! r.1 = Some r.2.
Proof. unfold open_invite. intros. inv_db. done. Qed.

Lemma gap_close_invite key i status secret receiver s u s' :
  invites s !! key = Some i → close_invite key status secret receiver s = Ok (u, s') →
  gap s' = gap s - amount (inv_balance i) ∧ escrows s' = escrows s ∧ (invites_ok s → invites_ok s').
Proof.
  unfold close_invite. intros Hi H. inv_db.
  apply modify_in_Ok in H as (v & v' & Hv & Hf & [= _ ->]). inv_ok. split_and!; [|done|].
  - unfold gap, accounted. cbn. rewrite (msum_insert _ _ key i) by done.
    replace v with i by congruence. unfold invite_tokens. cbn. lia.
  - intros Hok k' i'. cbn. intros [[_ <-]|[_ ?]]%lookup_insert_Some; [done|eauto].
Qed.

(** A claim pays out the balance of the invite and closes it. *)
Lemma keeps_claim d key i status secret receiver s s1 u s' :
  eff s s1 d → invites s !! key = Some i → d = amount (inv_balance i) →
  close_invite key status secret receiver s1 = Ok (u, s') → keeps s s'.
Proof.
  intros [Hg He Hinv] Hi -> H. rewrite <- Hinv in Hi.
  apply (gap_close_invite _ _ _ _ _ _ _ _ Hi) in H as (Hg' & He' & Hok').
  split_and!; [lia|congruence|]. intros Hok. apply Hok'. by eapply invites_ok_same.
Qed.

Lemma keeps_claim_invite_balance o s u s' : claim_invite_balance_apply o s = Ok (u, s') → keeps s s'.
Proof.
  unfold claim_invite_balance_apply, require_unclaimed. intros H. inv_eval.
  match goal with H : open_invite _ _ = Ok _ |- _ => apply open_invite_Ok in H as (-> & _ & Hi) end.
  eff_facts. by eapply keeps_claim.
Qed.

Lemma keeps_use_invite_balance o s u s' : use_invite_balance_apply o s = Ok (u, s') → keeps s s'.
Proof.
  unfold use_invite_balance_apply, require_unclaimed. intros H. inv_eval.
  match goal with H : open_invite _ _ = Ok _ |- _ => apply open_invite_Ok in H as (-> & _ & Hi) end.
  eff_facts. by eapply keeps_claim.
Qed.

Lemma keeps_invite_registration o s u s' : invite_registration_apply o s = Ok (u, s') → keeps s s'.
Proof.
  unfold invite_registration_apply, require_unclaimed. intros H. inv_eval.
  match goal with H : open_invite _ _ = Ok _ |- _ => apply open_invite_Ok in H as (-> & _ & Hi) end.
  eff_facts. eapply keeps_claim; [|exact Hi|done|exact H].
  eff_chain.
Qed.

Lemma keeps_set_paid_subscription o s u s' :
  set_paid_subscription_apply o s = Ok (u, s') → keeps s s'.
Proof. unfold set_paid_subscription_apply. intros H. inv_eval; eff_facts; eff_lia. Qed.

Lemma keeps_paid_subscribe o s u s' : paid_subscribe_apply o s = Ok (u, s') → keeps s s'.
Proof.
  unfold paid_subscribe_apply, change_subscription, pay_subscription, announce. intros H.
  inv_eval; eff_facts; eff_lia.
Qed.
End effects.
