(* ===== verification/Evaluators.v ===== *)
(** * Applying operations (libraries/chain/database.cpp, [apply_operation],
      and the evaluator registry)

    [apply_operation] dispatches an operation to its evaluator.  The theorem of
    this file is conservation of the token supply: whatever validated
    operations do, every token stays accounted for. *)

From stdpp Require Import gmap strings list sorting.
From Stdlib Require Import ZArith Lia.
From S2P Require Import Prelude Fc Text Asset Authority SignState Objects Database Operations.
From S2P Require Import Supply Frame Scenario EvalTransfer EvalAccount EvalGovern EvalAward.
From S2P Require Import EvalInvite.

Section apply.
Context {CE : ChainEnv} {CI : CustomInterpreters}.

Definition apply_operation (op : operation) : DB unit :=
  match op with
  | op_account_create o => account_create_apply o
  | op_account_update o => account_update_apply o
  | op_account_metadata o => account_metadata_apply o
  | op_transfer o => transfer_apply o
  | op_escrow_transfer o => escrow_transfer_apply o
  | op_escrow_approve o => escrow_approve_apply o
  | op_escrow_dispute o => escrow_dispute_apply o
  | op_escrow_release o => escrow_release_apply o
  | op_transfer_to_vesting o => transfer_to_vesting_apply o
  | op_withdraw_vesting o => withdraw_vesting_apply o
  | op_set_withdraw_vesting_route o => set_withdraw_vesting_route_apply o
  | op_validator_update o => validator_update_apply o
  | op_account_validator_vote o => account_validator_vote_apply o
  | op_account_validator_proxy o => account_validator_proxy_apply o
  | op_custom o => custom_apply o
  | op_request_account_recovery o => request_account_recovery_apply o
  | op_recover_account o => recover_account_apply o
  | op_change_recovery_account o => change_recovery_account_apply o
  | op_delegate_vesting_shares o => delegate_vesting_shares_apply o
  | op_committee_worker_create_request o => committee_worker_create_request_apply o
  | op_committee_worker_cancel_request o => committee_worker_cancel_request_apply o
  | op_committee_vote_request o => committee_vote_request_apply o
  | op_create_invite o => create_invite_apply o
  | op_claim_invite_balance o => claim_invite_balance_apply o
  | op_invite_registration o => invite_registration_apply o
  | op_award o => award_apply o
  | op_set_paid_subscription o => set_paid_subscription_apply o
  | op_paid_subscribe o => paid_subscribe_apply o
  | op_set_account_price o => set_account_price_apply o
  | op_set_subaccount_price o => set_subaccount_price_apply o
  | op_buy_account o => buy_account_apply o
  | op_use_invite_balance o => use_invite_balance_apply o
  | op_fixed_award o => fixed_award_apply o
  | op_target_account_sale o => target_account_sale_apply o
  | op_set_reward_sharing o => set_reward_sharing_apply o
  end.

(** The operations of a transaction, in order. *)
Definition apply_operations (ops : list operation) : DB unit := sfor ops apply_operation.

(** The fields that the C++ types keep in range: a weight is a [uint16_t]. *)
Definition in_width (op : operation) : Prop :=
  match op with
  | op_award o => Forall (λ b, 0 ≤ b.2 < 2 ^ 16) (aw_beneficiaries o)
  | _ => True
  end.

(** A fixed award with beneficiaries can pay out more than it claims; see
    [fixed_award_overpays]. *)
Definition no_fixed_split (op : operation) : Prop :=
  match op with
  | op_fixed_award o => fa_beneficiaries o = []
  | _ => True
  end.

Definition sound_op (op : operation) : Prop :=
  in_width op ∧ no_fixed_split op ∧ operation_validate op = Ok tt.

Lemma escrow_step_ok {m : DB unit} s u s' :
  leaves invites m → invites_ok s → m s = Ok (u, s') →
  gap s' = gap s ∧ escrows_ok s' → gap s' = gap s ∧ holdings_ok s'.
Proof.
  intros Hm Hi H [? ?]. split; [done|]. split; [done|].
  eapply invites_ok_same; [by eapply Hm|done].
Qed.

Lemma validated_award o :
  Forall (λ b, 0 ≤ b.2 < 2 ^ 16) (aw_beneficiaries o) → validate_award o = Ok tt →
  Forall (λ b, 0 ≤ b.2) (aw_beneficiaries o) ∧
  sum_weights (aw_beneficiaries o) ≤ CHAIN_100_PERCENT.
Proof.
  intros Hw H. assert (Forall (λ b, 0 ≤ b.2) (aw_beneficiaries o)) as Hpos
    by (eapply Forall_impl; [exact Hw|cbn; lia]). split; [done|].
  unfold validate_award, validate_award_rest in H. inv_ok.
  apply validate_beneficiaries_sum in H; [lia|done|unfold CHAIN_100_PERCENT; lia].
Qed.

#[local] Hint Resolve keeps_account_update keeps_account_metadata keeps_transfer
  keeps_transfer_to_vesting keeps_withdraw_vesting keeps_set_route keeps_validator_update
  keeps_account_validator_vote keeps_account_validator_proxy keeps_custom
  keeps_request_account_recovery keeps_recover_account keeps_change_recovery_account
  keeps_delegate_vesting_shares keeps_committee_create keeps_committee_cancel keeps_committee_vote
  keeps_create_invite keeps_claim_invite_balance keeps_invite_registration
  keeps_set_paid_subscription keeps_paid_subscribe keeps_set_account_price
  keeps_set_subaccount_price keeps_buy_account keeps_use_invite_balance keeps_target_account_sale
  keeps_set_reward_sharing : eff.

Lemma apply_operation_conserves op s u s' :
  sound_op op → holdings_ok s → apply_operation op s = Ok (u, s') →
  gap s' = gap s ∧ holdings_ok s'.
Proof.
  intros (Hw & Hf & Hv) Hok H. destruct op; cbn [apply_operation in_width no_fixed_split operation_validate] in *;
    try solve [apply keeps_ok; [done|]; eauto with eff].
  - apply keeps_ok; [done|]. eapply keeps_account_create; [|done].
    unfold validate_account_create in Hv. inv_ok. by propify.
  - refine (escrow_step_ok s u s' _ (proj2 Hok) H _); [apply escrow_invites|].
    eapply escrow_transfer_conserves; [|apply Hok|done].
    unfold validate_escrow_transfer in Hv. inv_ok. by propify.
  - refine (escrow_step_ok s u s' _ (proj2 Hok) H _); [apply escrow_invites|].
    eapply escrow_approve_conserves; [apply Hok|done].
  - refine (escrow_step_ok s u s' _ (proj2 Hok) H _); [apply escrow_invites|].
    eapply escrow_dispute_conserves; [apply Hok|done].
  - refine (escrow_step_ok s u s' _ (proj2 Hok) H _); [apply escrow_invites|].
    eapply escrow_release_conserves; [apply Hok|done].
  - apply keeps_ok; [done|]. destruct (validated_award o Hw Hv). by eapply keeps_award.
  - apply keeps_ok; [done|]. apply fixed_award_effect in H as (t & Ht & Hp & Hg & He & Hi).
    rewrite Hf in Hg. cbn in Hg. unfold validate_fixed_award in Hv. inv_ok. propify.
    split_and!; [lia|done|]. by apply invites_ok_same.
Qed.

(** C1. Conservation of tokens: a sequence of validated operations of any of
    the modelled kinds (fixed awards without beneficiaries) that is applied
    leaves the difference between the recorded supply and the tokens held in
    balances, escrows, invites and funds as it was.  The invariants it
    relies on are kept: the fee of an approved escrow is paid out, and a
    claimed invite holds nothing. *)
Theorem operations_conserve_supply ops s u s' :
  Forall sound_op ops → holdings_ok s → apply_operations ops s = Ok (u, s') →
  gap s' = gap s ∧ holdings_ok s'.
Proof.
  unfold apply_operations. intros Hops. revert s. induction Hops as [|op ops Hop _ IH];
    intros s Hok H; cbn [sfor] in H; inv_ok; [done|].
  match goal with H : apply_operation _ _ = Ok _ |- _ =>
    apply apply_operation_conserves in H as [Hg Hok']; [|done..] end.
  destruct (IH _ Hok' H). split; [lia|done].
Qed.
End apply.

(** No plugin is registered. *)
Definition no_interpreters : CustomInterpreters.
Proof. refine {| get_custom_evaluator _ := None |}. done. Defined.

(** Alice puts tokens into escrow for Bob with Carol as agent; both approve,
    Alice releases, and then awards Bob and Carol. *)
Definition escrow_story : list operation := [
  op_escrow_transfer (mk_escrow_transfer "alice" "bob" "carol" 1 (token 5000) (token 100)
    1000100 1000200 "");
  op_escrow_approve (mk_escrow_approve "alice" "bob" "carol" "bob" 1 true);
  op_escrow_approve (mk_escrow_approve "alice" "bob" "carol" "carol" 1 true);
  op_escrow_release (mk_escrow_release "alice" "bob" "carol" "alice" "bob" 1 (token 5000));
  op_award (mk_award "alice" "bob" 100 0 "" [("carol"%string, 2500)])
].

Lemma operations_conserve_supply_witness :
  let run := @apply_operations test_env no_interpreters escrow_story in
  run test_db = Ok (tt, after run test_db) ∧ gap (after run test_db) = gap test_db ∧
  holdings_ok (after run test_db).
Proof.
  intros run. assert (run test_db = Ok (tt, after run test_db)) as H
    by (apply after_Ok; vm_compute; reflexivity).
  split; [exact H|].
  refine (@operations_conserve_supply test_env no_interpreters escrow_story test_db tt _ _ test_db_holdings H).
  repeat constructor; cbn; lia.
Defined.
