(* ===== verification/EscrowSpec.v ===== *)
(** * Escrow as a contract

    What an escrow promises its three parties, as a small state machine, and
    the proof that the evaluators of libraries/chain/chain_evaluator.cpp
    (lines 731-855) are a refinement of it. *)

From stdpp Require Import gmap strings list sorting.
From Stdlib Require Import ZArith Lia.
From S2P Require Import Prelude Fc Text Asset Authority Objects Database Operations Supply.
From S2P Require Import Scenario EvalTransfer EvalAccount Evaluators.

(** ** The contract *)

Inductive phase :=
  | Proposed (to_ok agent_ok : bool)
  | Ratified
  | Disputed.

Record contract := mk_contract {
  c_from : string;
  c_to : string;
  c_agent : string;
  c_ratify_by : Z;
  c_expires : Z;
  c_phase : phase;
  c_tokens : Z;
  c_fee : Z
}.

Definition in_phase (c : contract) (p : phase) : contract :=
  mk_contract (c_from c) (c_to c) (c_agent c) (c_ratify_by c) (c_expires c) p (c_tokens c) (c_fee c).

(** The second approval: the agent is paid. *)
Definition ratified (c : contract) : contract :=
  mk_contract (c_from c) (c_to c) (c_agent c) (c_ratify_by c) (c_expires c) Ratified (c_tokens c) 0.

Definition holding (c : contract) (x : Z) : contract :=
  mk_contract (c_from c) (c_to c) (c_agent c) (c_ratify_by c) (c_expires c) (c_phase c) x (c_fee c).

Inductive event :=
  | Approve (who : string)
  | Reject (who : string)
  | Dispute (who : string)
  | Release (who receiver : string) (x : Z).

(** A party that has not approved yet. *)
Definition undecided (c : contract) (t a : bool) (who : string) : Prop :=
  (who = c_to c ∧ t = false) ∨ (who = c_agent c ∧ a = false).

(** Who may release to whom. *)
Definition may_release (now : Z) (c : contract) (who receiver : string) : Prop :=
  match c_phase c with
  | Proposed _ _ => False
  | Disputed => who = c_agent c ∧ (receiver = c_from c ∨ receiver = c_to c)
  | Ratified =>
      (who = c_from c ∨ who = c_to c) ∧ (receiver = c_from c ∨ receiver = c_to c) ∧
      (now < c_expires c →
       (who = c_from c → receiver = c_to c) ∧
       (who = c_to c → who ≠ c_from c → receiver = c_from c))
  end.

Inductive contract_step (now : Z) (c : contract) :
    event → list (string * Z) → option contract → Prop :=
  | step_approve t a who (t' := t || bool_decide (who = c_to c))
      (a' := a || bool_decide (who = c_agent c)) :
      c_phase c = Proposed t a → now ≤ c_ratify_by c → undecided c t a who → t' && a' = false →
      contract_step now c (Approve who) [] (Some (in_phase c (Proposed t' a')))
  | step_ratify t a who (t' := t || bool_decide (who = c_to c))
      (a' := a || bool_decide (who = c_agent c)) :
      c_phase c = Proposed t a → now ≤ c_ratify_by c → undecided c t a who → t' && a' = true →
      contract_step now c (Approve who) [(c_agent c, c_fee c)] (Some (ratified c))
  | step_reject t a who :
      c_phase c = Proposed t a → now ≤ c_ratify_by c → undecided c t a who →
      contract_step now c (Reject who) [(c_from c, c_tokens c); (c_from c, c_fee c)] None
  | step_dispute who :
      c_phase c = Ratified → now < c_expires c → who = c_from c ∨ who = c_to c →
      contract_step now c (Dispute who) [] (Some (in_phase c Disputed))
  | step_release who receiver x :
      may_release now c who receiver → 0 < x < c_tokens c →
      contract_step now c (Release who receiver x) [(receiver, x)] (Some (holding c (c_tokens c - x)))
  | step_finish who receiver x :
      may_release now c who receiver → 0 < x → x = c_tokens c →
      contract_step now c (Release who receiver x) [(receiver, x)] None.

(** ** The escrows of the chain as contracts *)

Definition phase_of (e : escrow_object) : phase :=
  if disputed e then Disputed
  else if is_approved e then Ratified
  else Proposed (to_approved e) (agent_approved e).

Definition contract_of (k : string * Z) (e : escrow_object) : contract :=
  mk_contract k.1 (esc_to e) (esc_agent e) (ratification_deadline e) (escrow_expiration e)
    (phase_of e) (amount (token_balance e)) (amount (pending_fee e)).

Record escrow_wf (k : string * Z) (e : escrow_object) : Prop := {
  wf_to_agent : esc_to e ≠ esc_agent e;
  wf_from_agent : k.1 ≠ esc_agent e;
  wf_fee_paid : is_approved e = true → amount (pending_fee e) = 0;
  wf_disputed : disputed e = true → is_approved e = true;
  wf_tokens : 0 ≤ amount (token_balance e);
  wf_fee : 0 ≤ amount (pending_fee e)
}.

Definition escrows_wf (s : database) : Prop :=
  ∀ k e, escrows s !! k = Some e → escrow_wf k e.

(** What an operation means for the escrow that it names. *)
Definition escrow_event (op : operation) : option (string * Z * event) :=
  match op with
  | op_escrow_approve o =>
      Some (ea_from o, ea_escrow_id o,
            if ea_approve o then Approve (ea_who o) else Reject (ea_who o))
  | op_escrow_dispute o => Some (ed_from o, ed_escrow_id o, Dispute (ed_who o))
  | op_escrow_release o =>
      Some (er_from o, er_escrow_id o,
            Release (er_who o) (er_receiver o) (amount (er_token_amount o)))
  | _ => None
  end.

(** A step that pays [l] and replaces the escrow [k]. *)
Record moves (k : string * Z) (s s' : database) (l : list (string * Z)) (e' : option escrow_object) :
    Prop := {
  moves_escrow : escrows s' !! k = e';
  moves_others : ∀ k', k' ≠ k → escrows s' !! k' = escrows s !! k';
  moves_balance : ∀ n, balance_of s' n = balance_of s n + received n l
}.

Section moves.
Context {CE : ChainEnv}.
Implicit Types (s : database) (k : string * Z).

Lemma moves_refl k s : moves k s s [] (escrows s !! k).
Proof. split; [done..|]. intros n. unfold received. cbn. lia. Qed.

Lemma moves_trans k s1 s2 s3 l1 l2 e2 e3 :
  moves k s1 s2 l1 e2 → moves k s2 s3 l2 e3 → moves k s1 s3 (l1 ++ l2) e3.
Proof.
  intros [_ Ho1 Hb1] [He Ho2 Hb2]. split; [done| |].
  - intros k' Hk. rewrite Ho2, Ho1 by done. done.
  - intros n. rewrite Hb2, Hb1, received_app. lia.
Qed.

Lemma moves_pay k n x s u s' :
  adjust_balance n x s = Ok (u, s') → moves k s s' [(n, amount x)] (escrows s !! k).
Proof.
  intros H. pose proof (balance_adjust n x s u s') as Hb.
  apply eff_adjust_balance in H as He. destruct He as [_ E _].
  split; [by rewrite E..|]. intros m. rewrite (Hb m H). unfold received. cbn. lia.
Qed.

Lemma moves_modify k f s u s' :
  modify_escrow k.1 k.2 f s = Ok (u, s') →
  ∃ e e', escrows s !! k = Some e ∧ f e = Ok e' ∧ moves k s s' [] (Some e').
Proof.
  destruct k as [n i]. intros (e & e' & Hk & Hf & [= _ ->])%modify_in_Ok. exists e, e'.
  split_and!; [done..|]. split; cbn.
  - apply lookup_insert_eq.
  - intros k' Hne. by rewrite lookup_insert_ne.
  - intros m. unfold received, balance_of. cbn. lia.
Qed.

Lemma moves_remove k s u s' : remove_in escrows k s = Ok (u, s') → moves k s s' [] None.
Proof.
  intros (e & Hk & [= _ ->])%remove_in_Ok. split; cbn.
  - apply lookup_delete_eq.
  - intros k' Hne. by rewrite lookup_delete_ne.
  - intros m. unfold received, balance_of. cbn. lia.
Qed.

Lemma moves_wf k s s' l e' :
  escrows_wf s → moves k s s' l e' → (∀ e, e' = Some e → escrow_wf k e) → escrows_wf s'.
Proof.
  intros Hwf [He Ho _] Hk k0 e0 H0. destruct (decide (k0 = k)) as [->|Hne]; [apply Hk; congruence|].
  apply Hwf. by rewrite <- Ho.
Qed.

(** The result of the refinement for one operation. *)
Definition refines (k : string * Z) (ev : event) (s s' : database) : Prop :=
  ∃ e l e', escrows s !! k = Some e ∧ moves k s s' l e' ∧
    contract_step (time (dgpo s)) (contract_of k e) ev l (contract_of k <$> e') ∧
    (∀ e2, e' = Some e2 → escrow_wf k e2).

(** The escrow [e] that was found is the only one at [k]. *)
Ltac same_escrow Hk :=
  lazymatch type of Hk with
  | @lookup _ _ _ _ ?k ?m = Some ?e =>
      repeat match goal with
      | H : @lookup _ _ _ _ k m = Some ?x |- _ => assert_fails (constr_eq x e); rewrite Hk in H; injection H as <-
      end
  end.

(** *** Dispute *)

Lemma dispute_refines o s u s' :
  validate_escrow_dispute o = Ok tt → escrows_wf s → escrow_dispute_apply o s = Ok (u, s') →
  refines (ed_from o, ed_escrow_id o) (Dispute (ed_who o)) s s'.
Proof.
  unfold validate_escrow_dispute, escrow_dispute_apply. intros Hv Hwf H. inv_ok. inv_eval. propify.
  set (k := (ed_from o, ed_escrow_id o)) in *.
  apply (moves_modify k) in H as (e & e' & Hk & He & Hm). cbn in He. inv_ok. same_escrow Hk.
  assert (is_approved e = true) as Hap by (unfold is_approved; by apply andb_true_iff).
  exists e, [], (Some (e <| disputed := true |>)). split_and!; [done..| |].
  - apply (step_dispute _ (contract_of k e)); cbn.
    + unfold phase_of. by rewrite Hap, H6.
    + done.
    + rewrite orb_true_iff, !bool_decide_eq_true in H12. destruct H12; [by left|right; congruence].
  - intros e2 [= <-]. destruct (Hwf k e Hk). by split; cbn.
Qed.

(** *** Release *)

Lemma may_release_guard now k e who receiver {u : unit} {s s'} msg1 msg2 msg3 msg4 :
  escrow_wf k e → is_approved e = true → (receiver = k.1 ∨ receiver = esc_to e) →
  (if disputed e then sassert (bool_decide (who = esc_agent e)) msg1
   else
     do* sassert (bool_decide (who = k.1) || bool_decide (who = esc_to e)) msg2 in
     swhen (now <? escrow_expiration e)
       (if bool_decide (who = k.1) then sassert (bool_decide (receiver = esc_to e)) msg3
        else swhen (bool_decide (who = esc_to e))
               (sassert (bool_decide (receiver = k.1)) msg4))) s = Ok (u, s') →
  s' = s ∧ may_release now (contract_of k e) who receiver.
Proof.
  intros Hwf Hap Hr H. unfold may_release, contract_of, phase_of. cbn.
  destruct (disputed e); rewrite ?Hap; inv_ok; propify; (split; [done|]).
  all: rewrite ?orb_true_iff, ?bool_decide_eq_true in *.
  all: split_and!; try done; try tauto; try lia.
  all: split; intros; try congruence.
Qed.

Lemma release_refines o s u s' :
  validate_escrow_release o = Ok tt → escrows_wf s → escrow_release_apply o s = Ok (u, s') →
  refines (er_from o, er_escrow_id o)
    (Release (er_who o) (er_receiver o) (amount (er_token_amount o))) s s'.
Proof.
  intros Hv Hwf H. assert (0 < amount (er_token_amount o)) as Hpos
    by (clear -Hv; unfold validate_escrow_release in Hv; inv_ok; by propify). clear Hv.
  unfold escrow_release_apply in H.
  set (k := (er_from o, er_escrow_id o)) in *.
  do 2 (apply sbind_Ok in H as (? & ? & Hget & H); apply get_in_Ok in Hget as (? & _ & [= -> ->])).
  apply sbind_Ok in H as (e & ? & He & H). apply get_in_Ok in He as (? & Hk & [= <- ->]). fold k in Hk.
  do 6 (apply sbind_Ok in H as (? & ? & ? & H)). inv_guards. inv_db_guards. propify.
  apply sbind_Ok in H as (? & ? & Hg & H).
  rewrite orb_true_iff, !bool_decide_eq_true in H4.
  eapply (may_release_guard _ k e) in Hg as [-> Hmay]; [|by apply Hwf| |];
    [|unfold is_approved; by apply andb_true_iff|done].
  apply sbind_Ok in H as (? & s1 & Hpay & H). apply (moves_pay k) in Hpay. rewrite Hk in Hpay.
  apply sbind_Ok in H as (? & s2 & Hmod & H).
  apply (moves_modify k) in Hmod as (e1 & e2 & He1 & He2 & Hmod).
  rewrite (moves_escrow _ _ _ _ _ Hpay) in He1. injection He1 as <-.
  pose proof (moves_trans _ _ _ _ _ _ _ _ Hpay Hmod) as Hm. cbn [app] in Hm.
  destruct (Hwf k e Hk). inv_db;
    match goal with H : escrows s2 !! _ = Some ?x |- _ =>
      pose proof (moves_escrow _ _ _ _ _ Hmod) as Hk2; unfold k in Hk2; rewrite Hk2 in H;
      injection H as <- end; cbn in Heqb.
  - exists e, [(er_receiver o, amount (er_token_amount o))], None.
    apply (moves_remove k) in H. pose proof (moves_trans _ _ _ _ _ _ _ _ Hm H).
    propify. split_and!; [done..| |done]. apply step_finish; cbn; [done|lia|lia].
  - propify. exists e, [(er_receiver o, amount (er_token_amount o))], (Some (e <| token_balance := x11 |>)).
    split_and!; [done..| |].
    + cbn. replace (contract_of k (e <| token_balance := x11 |>)) with
        (holding (contract_of k e) (c_tokens (contract_of k e) - amount (er_token_amount o)))
        by (unfold holding, contract_of; cbn; by rewrite H).
      apply step_release; cbn; [done|lia].
    + intros e2 [= <-]. split; cbn; try done. lia.
Qed.
(** *** Approval *)

Lemma flag_block k e b c d f msg s u s' :
  swhen b (do* sassert c msg in swhen d (modify_escrow k.1 k.2 f)) s = Ok (u, s') →
  escrows s !! k = Some e →
  (b = true → c = true) ∧
  ∃ e', moves k s s' [] (Some e') ∧ (if b && d then f e = Ok e' else e' = e).
Proof.
  intros H Hk. pose proof (moves_refl k s) as Hr. rewrite Hk in Hr.
  destruct b; cbn in H; [|injection H as _ <-; split; [done|]; by exists e].
  apply sbind_Ok in H as (? & ? & [Hc [= _ ->]]%sassert_Ok & H).
  split; [done|]. destruct d; cbn in H; [|injection H as _ <-; by exists e].
  apply moves_modify in H as (e0 & e' & Hk' & Hf & Hm). rewrite Hk in Hk'. injection Hk' as <-. eauto.
Qed.

(** The escrow after the flags of [who] are set. *)
Definition flagged (approve : bool) (who : string) (e : escrow_object) : escrow_object :=
  let e := if bool_decide (who = esc_to e) && approve then e <| to_approved := true |> else e in
  if bool_decide (who = esc_agent e) && approve then e <| agent_approved := true |> else e.

(** The flags: what comes before the final branch of [escrow_approve]. *)
Lemma approve_flags o s u s' (cont : escrow_object → DB unit) (k := (ea_from o, ea_escrow_id o)) :
  (let* escrow := get_escrow (ea_from o) (ea_escrow_id o) in
   do* sassert (bool_decide (esc_to escrow = ea_to o)) "Operation 'to' does not match" in
   do* sassert (bool_decide (esc_agent escrow = ea_agent o)) "Operation 'agent' does not match" in
   let* now := head_block_time in
   do* sassert (now <=? ratification_deadline escrow) "ratification deadline has passed" in
   do* swhen (bool_decide (ea_who o = ea_to o))
     (do* sassert (negb (to_approved escrow)) "Account 'to' has already approved" in
      swhen (negb (negb (ea_approve o)))
        (modify_escrow (ea_from o) (ea_escrow_id o) (λ e, Ok (e <| to_approved := true |>)))) in
   let* escrow := get_escrow (ea_from o) (ea_escrow_id o) in
   do* swhen (bool_decide (ea_who o = ea_agent o))
     (do* sassert (negb (agent_approved escrow)) "Account 'agent' has already approved" in
      swhen (negb (negb (ea_approve o)))
        (modify_escrow (ea_from o) (ea_escrow_id o) (λ e, Ok (e <| agent_approved := true |>)))) in
   let* escrow := get_escrow (ea_from o) (ea_escrow_id o) in
   cont escrow) s = Ok (u, s') →
  ∃ e s2, escrows s !! k = Some e ∧ esc_to e = ea_to o ∧ esc_agent e = ea_agent o ∧
    time (dgpo s) ≤ ratification_deadline e ∧
    (ea_who o = ea_to o → to_approved e = false) ∧
    (ea_who o = ea_agent o → agent_approved e = false) ∧
    moves k s s2 [] (Some (flagged (ea_approve o) (ea_who o) e)) ∧
    cont (flagged (ea_approve o) (ea_who o) e) s2 = Ok (u, s').
Proof.
  intros H. apply sbind_Ok in H as (e & ? & He & H). apply get_in_Ok in He as (? & Hk & [= <- ->]).
  do 4 (apply sbind_Ok in H as (? & ? & ? & H)). inv_db_guards. propify.
  apply sbind_Ok in H as (? & s1 & Hb1 & H).
  apply (flag_block k e) in Hb1 as (Hc1 & e1 & Hm1 & He1); [|done].
  apply sbind_Ok in H as (e1' & ? & Hx & H). apply get_in_Ok in Hx as (? & Hk1 & [= <- ->]).
  fold k in Hk1. rewrite (moves_escrow _ _ _ _ _ Hm1) in Hk1. injection Hk1 as <-.
  apply sbind_Ok in H as (? & s2 & Hb2 & H).
  apply (flag_block k e1) in Hb2 as (Hc2 & e2 & Hm2 & He2); [|by apply (moves_escrow _ _ _ _ _ Hm1)].
  apply sbind_Ok in H as (e2' & ? & Hx & H). apply get_in_Ok in Hx as (? & Hk2 & [= <- ->]).
  fold k in Hk2. rewrite (moves_escrow _ _ _ _ _ Hm2) in Hk2. injection Hk2 as <-.
  rewrite negb_involutive in *. pose proof (moves_trans _ _ _ _ _ _ _ _ Hm1 Hm2) as Hm.
  assert (e2 = flagged (ea_approve o) (ea_who o) e ∧ agent_approved e1 = agent_approved e) as [-> Ha].
  { unfold flagged. rewrite H1. clear -He1 He2 H3. destruct (_ && _); [injection He1 as <-|subst e1];
      (split; [|done]); cbn in He2 |- *; rewrite H3; destruct (_ && _); congruence. }
  exists e, s2. split_and!; try done.
  - intros E. apply negb_true_iff, Hc1. by apply bool_decide_eq_true.
  - intros E. rewrite <- Ha. apply negb_true_iff, Hc2. by apply bool_decide_eq_true.
Qed.

Lemma flagged_same b who e :
  token_balance (flagged b who e) = token_balance e ∧ pending_fee (flagged b who e) = pending_fee e ∧
  esc_to (flagged b who e) = esc_to e ∧ esc_agent (flagged b who e) = esc_agent e ∧
  disputed (flagged b who e) = disputed e ∧
  ratification_deadline (flagged b who e) = ratification_deadline e ∧
  escrow_expiration (flagged b who e) = escrow_expiration e ∧
  to_approved (flagged b who e) = to_approved e || bool_decide (who = esc_to e) && b ∧
  agent_approved (flagged b who e) = agent_approved e || bool_decide (who = esc_agent e) && b.
Proof.
  unfold flagged. destruct (bool_decide (who = esc_to e) && b); cbn;
    destruct (bool_decide (who = esc_agent e) && b); cbn; rewrite ?orb_true_r, ?orb_false_r; done.
Qed.

(** The contract after an approval: of one party, and of the second one. *)
Lemma flagged_contract k who e (e2 := flagged true who e) :
  disputed e = false → to_approved e2 && agent_approved e2 = false →
  contract_of k e2 =
    in_phase (contract_of k e) (Proposed (to_approved e2) (agent_approved e2)) ∧
  (escrow_wf k e → escrow_wf k e2).
Proof.
  destruct (flagged_same true who e) as (Etb & Efee & Eto & Eag & Edis & Erd & Eex & _ & _).
  intros Hnd Hboth. unfold in_phase, contract_of, phase_of, is_approved. split.
  - cbn [c_from c_to c_agent c_ratify_by c_expires c_tokens c_fee].
    fold e2 in Etb, Efee, Eto, Eag, Edis, Erd, Eex.
    by rewrite Edis, Hnd, Hboth, Etb, Efee, Eto, Eag, Erd, Eex.
  - fold e2 in Etb, Efee, Eto, Eag, Edis, Erd, Eex.
    intros []. split; unfold is_approved; rewrite ?Etb, ?Efee, ?Eto, ?Eag, ?Edis, ?Hnd, ?Hboth; done.
Qed.

Lemma ratified_contract k who e (e2 := flagged true who e)
    (e3 := e2 <| pending_fee ::= λ f, f <| amount := 0 |> |>) :
  disputed e = false → to_approved e2 && agent_approved e2 = true →
  contract_of k e3 = ratified (contract_of k e) ∧ (escrow_wf k e → escrow_wf k e3).
Proof.
  destruct (flagged_same true who e) as (Etb & Efee & Eto & Eag & Edis & Erd & Eex & _ & _).
  fold e2 in Etb, Efee, Eto, Eag, Edis, Erd, Eex. intros Hnd Hboth. split.
  - unfold ratified, contract_of, phase_of, is_approved. cbn.
    by rewrite Edis, Hnd, Hboth, Etb, Eto, Eag, Erd, Eex.
  - intros []. split; cbn; rewrite ?Etb, ?Efee, ?Eto, ?Eag, ?Edis, ?Hnd; done.
Qed.

Lemma approve_refines o s u s' :
  validate_escrow_approve o = Ok tt → escrows_wf s → escrow_approve_apply o s = Ok (u, s') →
  refines (ea_from o, ea_escrow_id o)
    (if ea_approve o then Approve (ea_who o) else Reject (ea_who o)) s s'.
Proof.
  intros Hv Hwf H. assert (ea_who o = ea_to o ∨ ea_who o = ea_agent o) as Hwho.
  { clear -Hv. unfold validate_escrow_approve in Hv. inv_ok.
    by rewrite orb_true_iff, !bool_decide_eq_true in *. }
  clear Hv. unfold escrow_approve_apply in H. cbv zeta in H.
  apply approve_flags in H as (e & s2 & Hk & Hto & Hag & Hnow & Ht & Ha & Hm & H).
  set (k := (ea_from o, ea_escrow_id o)) in *.
  destruct (flagged_same (ea_approve o) (ea_who o) e) as (Etb & Efee & Eto & Eag & Edis & Erd & Eex & Eta & Eaa).
  set (e2 := flagged _ _ e) in *. pose proof (Hwf k e Hk) as Hwfe. destruct Hwfe as [_ _ _ Hdis _ _].
  assert (phase_of e = Proposed (to_approved e) (agent_approved e)) as Hph.
  { unfold phase_of. assert (is_approved e = false) as Hna.
    { unfold is_approved. destruct Hwho as [E|E]; [rewrite Ht by done|rewrite Ha by done];
        by rewrite ?andb_false_r. }
    destruct (disputed e) eqn:Hd; [|by rewrite Hna]. rewrite Hdis in Hna; done. }
  assert (undecided (contract_of k e) (to_approved e) (agent_approved e) (ea_who o)) as Hun.
  { unfold undecided. cbn. rewrite Hto, Hag. tauto. }
  assert (disputed e = false) as Hnd by (unfold phase_of in Hph; by destruct (disputed e)).
  destruct (ea_approve o); cbn [negb] in H; rewrite ?andb_true_r in *.
  - destruct (to_approved e2 && agent_approved e2) eqn:Hboth; cbn in H.
    + apply sbind_Ok in H as (? & ? & Hg & H). apply get_in_Ok in Hg as (? & _ & [= -> ->]).
      apply sbind_Ok in H as (? & s3 & Hp & H). apply (moves_pay k) in Hp.
      rewrite (moves_escrow _ _ _ _ _ Hm) in Hp. pose proof (moves_trans _ _ _ _ _ _ _ _ Hm Hp) as Hm3.
      apply (moves_modify k) in H as (e3 & e4 & Hk3 & He4 & H). cbn in He4.
      rewrite (moves_escrow _ _ _ _ _ Hp) in Hk3. injection Hk3 as <-. injection He4 as <-.
      eexists e, _, _. split; [done|]. split; [exact (moves_trans _ _ _ _ _ _ _ _ Hm3 H)|].
      destruct (ratified_contract k (ea_who o) e Hnd Hboth) as [Hc Hwf2].
      rewrite Efee, <- Hag. split.
      * unfold fmap, option_fmap, option_map. unfold e2. rewrite Hc.
        eapply (step_ratify _ (contract_of k e)); [exact Hph|done|exact Hun|]. cbn. by rewrite <- Eta, <- Eaa.
      * intros e5 [= <-]. apply Hwf2, Hwf, Hk.
    + injection H as _ <-. exists e, [], (Some e2).
      destruct (flagged_contract k (ea_who o) e Hnd Hboth) as [Hc Hwf2].
      split_and!; [done..| |intros e5 [= <-]; apply Hwf2, Hwf, Hk].
      unfold fmap, option_fmap, option_map. unfold e2. rewrite Hc. fold e2. rewrite Eta, Eaa.
      eapply (step_approve _ (contract_of k e)); [exact Hph|done|exact Hun|].
      cbn. by rewrite <- Eta, <- Eaa.
  - apply sbind_Ok in H as (? & ? & Hg & H). apply get_in_Ok in Hg as (? & _ & [= -> ->]).
    do 2 (apply sbind_Ok in H as (? & ? & Hp & H); apply (moves_pay k) in Hp;
          pose proof (moves_trans _ _ _ _ _ _ _ _ Hm Hp) as Hm'; clear Hm Hp; rename Hm' into Hm).
    apply (moves_remove k) in H. pose proof (moves_trans _ _ _ _ _ _ _ _ Hm H) as Hm'.
    rewrite Etb, Efee in Hm'. eexists e, _, None. split_and!; [done|exact Hm'| |done].
    eapply (step_reject _ (contract_of k e)); [exact Hph|done|exact Hun].
Qed.
End moves.

(** ** The refinement *)

Section refinement.
Context {CE : ChainEnv} {CI : CustomInterpreters}.

Lemma escrow_op_refines op k ev s u s' :
  escrow_event op = Some (k, ev) → operation_validate op = Ok tt → escrows_wf s →
  apply_operation op s = Ok (u, s') → refines k ev s s'.
Proof.
  destruct op; intros Hev; try discriminate; injection Hev as <- <-; cbn;
    eauto using approve_refines, dispute_refines, release_refines.
Qed.

(** C14 (refinement).  Every approval, rejection, dispute or release that the
    chain accepts is a step of the contract of that escrow: it is taken by a
    party the contract lets take it, at a time and in a phase where it may, it
    pays what the contract pays and to whom, and no other balance and no other
    escrow changes.  What the contract relies on is kept. *)
Theorem escrow_refines_contract op k ev s u s' :
  escrow_event op = Some (k, ev) → operation_validate op = Ok tt → escrows_wf s →
  apply_operation op s = Ok (u, s') →
  ∃ e l, escrows s !! k = Some e ∧
    contract_step (time (dgpo s)) (contract_of k e) ev l (contract_of k <$> escrows s' !! k) ∧
    (∀ n, balance_of s' n = balance_of s n + received n l) ∧
    (∀ k', k' ≠ k → escrows s' !! k' = escrows s !! k') ∧ escrows_wf s'.
Proof.
  intros Hev Hv Hwf H. destruct (escrow_op_refines _ _ _ _ _ _ Hev Hv Hwf H) as (e & l & e' & Hk & Hm & Hs & Hw).
  exists e, l. rewrite (moves_escrow _ _ _ _ _ Hm). split_and!; [done..| | |].
  - apply Hm.
  - apply Hm.
  - by eapply moves_wf.
Qed.

(** ** What the contract guarantees *)

(** The value that is still in the contract. *)
Definition held (c : option contract) : Z := from_option (λ c, c_tokens c + c_fee c) 0 c.
Definition fee_left (c : option contract) : Z := from_option c_fee 0 c.
Definition total (l : list (string * Z)) : Z := foldr (λ p acc, p.2 + acc) 0 l.

(** The payments: to nobody but the parties, to the agent nothing but the fee,
    and in total what leaves the contract. *)
Record fair (c : contract) (l : list (string * Z)) (c' : option contract) : Prop := {
  fair_parties : ∀ n, n ≠ c_from c → n ≠ c_to c → n ≠ c_agent c → received n l = 0;
  fair_agent : 0 ≤ received (c_agent c) l ≤ c_fee c - fee_left c';
  fair_total : total l = c_tokens c + c_fee c - held c';
  fair_same : ∀ c2, c' = Some c2 →
    c_from c2 = c_from c ∧ c_to c2 = c_to c ∧ c_agent c2 = c_agent c
}.

Lemma fair_refl c : fair c [] (Some c).
Proof. split; unfold received, total, held, fee_left; cbn; [done|lia|lia|]. by intros ? [= <-]. Qed.

Lemma fair_trans c l1 c2 l2 c3 : fair c l1 (Some c2) → fair c2 l2 c3 → fair c (l1 ++ l2) c3.
Proof.
  intros [Hp1 Ha1 Ht1 Hs1] [Hp2 Ha2 Ht2 Hs2]. destruct (Hs1 c2 eq_refl) as (Ef & Et & Ea).
  rewrite Ef, Et, Ea in *. split.
  - intros n ???. rewrite received_app, Hp1, Hp2; done.
  - rewrite received_app. unfold fee_left in *. cbn in Ha1. lia.
  - unfold total in *. rewrite foldr_app. unfold held in *. cbn in Ht1.
    assert (∀ l a, foldr (λ (p : string * Z) acc, p.2 + acc) a l = foldr (λ p acc, p.2 + acc) 0 l + a) as E.
    { clear. intros l a. induction l as [|p l IH]; cbn; [lia|]. rewrite IH. lia. }
    rewrite E. lia.
  - intros c4 ->. destruct (Hs2 c4 eq_refl) as (? & ? & ?). split_and!; congruence.
Qed.

(** A release is to the sender or the recipient, after the fee was paid. *)
Lemma may_release_settled now k e who r :
  escrow_wf k e → may_release now (contract_of k e) who r →
  (r = k.1 ∨ r = esc_to e) ∧ amount (pending_fee e) = 0.
Proof.
  intros [_ _ Hfee Hdis _ _] H. unfold may_release, contract_of, phase_of in H. cbn in H.
  destruct (disputed e); [|destruct (is_approved e); [|done]]; split; try tauto.
  all: apply Hfee; auto.
Qed.

Lemma release_fair k e r x c' :
  escrow_wf k e → (r = k.1 ∨ r = esc_to e) → amount (pending_fee e) = 0 →
  (∀ c2, c' = Some c2 → c2 = holding (contract_of k e) (amount (token_balance e) - x)) →
  held c' = amount (token_balance e) - x → fair (contract_of k e) [(r, x)] c'.
Proof.
  intros [Hta Hfa _ _ _ _] Hr Hfee Hc' Hh.
  assert (r ≠ esc_agent e) by (destruct Hr; congruence).
  assert (fee_left c' = 0) as Hl.
  { destruct c' as [c2|]; [|done]. rewrite (Hc' c2) by done. done. }
  split; unfold received, total, paid_to; cbn.
  - intros n ? ? ?. rewrite decide_False; [lia|]. destruct Hr; congruence.
  - rewrite decide_False by done. lia.
  - lia.
  - intros c2 E. by rewrite (Hc' c2 E).
Qed.

Lemma contract_step_fair now k e ev l c' :
  escrow_wf k e → contract_step now (contract_of k e) ev l c' → fair (contract_of k e) l c'.
Proof.
  intros [Hta Hfa Hfee Hdis Htok Hf] H. inversion H; subst; clear H; cbn in *.
  - split; unfold received, total, held, fee_left; cbn; [done|lia|lia|]. by intros ? [= <-].
  - split; unfold received, total, held, fee_left, paid_to; cbn; [..|by intros ? [= <-]].
    + intros. by rewrite decide_False.
    + rewrite decide_True by done. lia.
    + lia.
  - split; unfold received, total, held, fee_left, paid_to; cbn; [..|done].
    + intros. by rewrite !decide_False.
    + rewrite !decide_False by done. lia.
    + lia.
  - split; unfold received, total, held, fee_left; cbn; [done|lia|lia|]. by intros ? [= <-].
  - destruct (may_release_settled now k e who receiver) as [Hr Hz]; [done..|].
    apply release_fair; [done..| |]; [by intros ? [= <-]|unfold held; cbn; lia].
  - destruct (may_release_settled now k e who receiver) as [Hr Hz]; [done..|].
    apply release_fair; [done..|unfold held; cbn; lia].
Qed.

(** C15 (safety).  Whatever operations are applied to an escrow, in any order:
    nobody but its three parties is paid, the agent gets no more than the fee,
    and the payments make up exactly what has left the escrow.  So the sender
    and the recipient together get every token that was put in. *)
Theorem escrow_sequence_fair ops k e s u s' :
  Forall (λ op, (∃ ev, escrow_event op = Some (k, ev)) ∧ operation_validate op = Ok tt) ops →
  escrows_wf s → escrows s !! k = Some e → apply_operations ops s = Ok (u, s') →
  ∃ l, (∀ n, balance_of s' n = balance_of s n + received n l) ∧
    fair (contract_of k e) l (contract_of k <$> escrows s' !! k).
Proof.
  unfold apply_operations. intros Hops. revert e s.
  induction Hops as [|op ops [[ev Hev] Hv] Hops IH]; intros e s Hwf Hk H; cbn [sfor] in H; inv_ok.
  { exists []. split; [intros; unfold received; cbn; lia|]. rewrite Hk. apply fair_refl. }
  match goal with H : apply_operation _ _ = Ok _ |- _ => rename H into H1 end.
  destruct (escrow_op_refines _ _ _ _ _ _ Hev Hv Hwf H1) as (e0 & l1 & e' & Hk0 & Hm & Hs & Hw).
  rewrite Hk in Hk0. injection Hk0 as <-. apply contract_step_fair in Hs; [|by apply Hwf].
  pose proof (moves_wf _ _ _ _ _ Hwf Hm Hw) as Hwf1. pose proof (moves_escrow _ _ _ _ _ Hm) as Hk1.
  destruct e' as [e1|].
  - destruct (IH e1 _ Hwf1 Hk1 H) as (l2 & Hb & Hf). exists (l1 ++ l2). split.
    + intros n. rewrite Hb, (moves_balance _ _ _ _ _ Hm), received_app. lia.
    + by eapply fair_trans.
  - destruct Hops as [|op2 ops2 [[ev2 Hev2] Hv2] _]; cbn [sfor] in H; inv_ok.
    + exists l1. rewrite Hk1. split; [apply Hm|done].
    + match goal with H : apply_operation op2 _ = Ok _ |- _ =>
        destruct (escrow_op_refines _ _ _ _ _ _ Hev2 Hv2 Hwf1 H) as (? & ? & ? & Hk2 & _) end.
      congruence.
Qed.
End refinement.

(** ** A deal on the small chain *)

(** Alice owes Bob 5000 in escrow, with Carol as agent for 100. *)
Definition deal : escrow_object :=
  {| esc_to := "bob"; esc_agent := "carol"; ratification_deadline := 1000100;
     escrow_expiration := 1000200; token_balance := token 5000; pending_fee := token 100;
     to_approved := false; agent_approved := false; disputed := false |}.
Definition deal_key : string * Z := ("alice"%string, 1).
Definition deal_db : database := test_db <| escrows := <[deal_key := deal]> ∅ |>.

Lemma deal_db_wf : escrows_wf deal_db.
Proof.
  intros k e Hk. cbn in Hk. apply lookup_insert_Some in Hk as [[<- <-]|[_ Hk]].
  - by split.
  - by rewrite lookup_empty in Hk.
Qed.

Definition bob_approves : operation :=
  op_escrow_approve (mk_escrow_approve "alice" "bob" "carol" "bob" 1 true).

(** They approve, quarrel, and Carol gives Bob 3000 and Alice 2000. *)
Definition deal_story : list operation := [
  bob_approves;
  op_escrow_approve (mk_escrow_approve "alice" "bob" "carol" "carol" 1 true);
  op_escrow_dispute (mk_escrow_dispute "alice" "bob" "carol" "bob" 1);
  op_escrow_release (mk_escrow_release "alice" "bob" "carol" "carol" "bob" 1 (token 3000));
  op_escrow_release (mk_escrow_release "alice" "bob" "carol" "carol" "alice" 1 (token 2000))
].

Lemma escrow_refines_contract_witness :
  let run := @apply_operation test_env no_interpreters bob_approves in
  ∃ l, contract_step 1000000 (contract_of deal_key deal) (Approve "bob") l
         (contract_of deal_key <$> escrows (after run deal_db) !! deal_key).
Proof.
  intros run. assert (run deal_db = Ok (tt, after run deal_db)) as H
    by (apply after_Ok; vm_compute; reflexivity).
  destruct (@escrow_refines_contract test_env no_interpreters bob_approves deal_key (Approve "bob")
              deal_db tt _ eq_refl eq_refl deal_db_wf H) as (e & l & He & Hs & _).
  exists l. cbn in He. rewrite lookup_insert_eq in He. injection He as <-. exact Hs.
Defined.

Lemma escrow_sequence_fair_witness :
  let run := @apply_operations test_env no_interpreters deal_story in
  balance_of (after run deal_db) "carol" = 1100 ∧
  balance_of (after run deal_db) "bob" = 200003000 ∧
  ∃ l, (∀ n, balance_of (after run deal_db) n = balance_of deal_db n + received n l) ∧
    fair (contract_of deal_key deal) l None.
Proof.
  intros run. assert (run deal_db = Ok (tt, after run deal_db)) as H
    by (apply after_Ok; vm_compute; reflexivity).
  split; [vm_compute; reflexivity|]. split; [vm_compute; reflexivity|].
  destruct (@escrow_sequence_fair test_env no_interpreters deal_story deal_key deal deal_db tt
              (after run deal_db)) as (l & Hb & Hf).
  - repeat constructor; eexists; reflexivity.
  - exact deal_db_wf.
  - cbn. apply lookup_insert_eq.
  - exact H.
  - exists l. split; [exact Hb|]. vm_compute (escrows _ !! _) in Hf. exact Hf.
Defined.
