(* ===== verification/Funds.v ===== *)
(** * Emission and funds (libraries/chain/database.cpp, lines 3587-3680, 4007-4243)

    What a block creates and burns: the emission of a block and its split,
    the distribution of stakeholder rewards at the end of an epoch, and the
    emptying of the accounts [null], [anonymous] and [committee]. *)

From stdpp Require Import gmap strings list sorting.
From Stdlib Require Import ZArith Lia.
From S2P Require Import Prelude Fc Text Asset Authority Objects Database Supply Frame Scenario.
From S2P Require Import EvalTransfer EvalAward.

Definition CHAIN_DIGITAL_ASSET_ISSUED_PER_BLOCK : Z := 1000.
Definition CHAIN_FIXED_INFLATION : Z := 1000.
Definition CHAIN_INIT_SUPPLY : Z := 50000000000.
Definition CHAIN_BLOCKS_PER_YEAR : Z := 365 * 24 * 60 * 60 / CHAIN_BLOCK_INTERVAL.
Definition CHAIN_VESTING_FUND_PERCENT : Z := 1000.
Definition CHAIN_REWARD_FUND_PERCENT : Z := 3500.
Definition CHAIN_COMMITTEE_FUND_PERCENT : Z := 3500.
Definition CHAIN_MIN_STAKEHOLDER_REWARD_PAYOUT : Z := 1.

(** Iteration over a table in the order of its names. *)
Definition by_name {V} : relation (string * V) := λ p q, String.leb p.1 q.1 = true.
#[export] Instance by_name_dec {V} : RelDecision (@by_name V) := λ p q, decide (String.leb p.1 q.1 = true).

Section funds.
Context {CE : ChainEnv}.

Definition process_inflation_recalc : DB unit :=
  let* p := get_dgpo in
  let* median := get_median_props in
  swhen (u32 (inflation_calc_block_num p + inflation_recalc_period median) <? head_block_number p)
    (modify_dgpo (λ p,
       Ok (p <| inflation_calc_block_num := head_block_number p |>
             <| dgp_inflation_validator_percent := inflation_validator_percent median |>
             <| dgp_inflation_ratio := inflation_ratio_committee_vs_reward_fund median |>))).

(** ** Emission *)

(** [x * percent / CHAIN_100_PERCENT] on [share_type]. *)
Definition percent_of (x percent : Z) : res Z :=
  let? m := safe_mul x percent in safe_div m CHAIN_100_PERCENT.

(** The parts of the emission of a block. *)
Record emission := mk_emission {
  em_validator : Z;
  em_committee : Z;
  em_reward_fund : Z;
  em_vesting : option Z;        (* before hardfork 4 only *)
  em_total : Z
}.

(** The split by the percentages the validators voted for. *)
Definition split_by_consensus (p : dynamic_global_property_object) (per_block : Z) : res emission :=
  let? validator := percent_of per_block (dgp_inflation_validator_percent p) in
  let? ratio_reward := safe_sub per_block validator in
  let? committee := percent_of ratio_reward (dgp_inflation_ratio p) in
  let? reward_fund := safe_sub ratio_reward committee in
  let? t := safe_add validator committee in
  let? total := safe_add t reward_fund in
  Ok (mk_emission validator committee reward_fund None total).

(** The split before hardfork 4. *)
Definition split_fixed (per_block : Z) : res emission :=
  let? content := percent_of per_block CHAIN_REWARD_FUND_PERCENT in
  let? vesting := percent_of per_block CHAIN_VESTING_FUND_PERCENT in
  let? committee := percent_of per_block CHAIN_COMMITTEE_FUND_PERCENT in
  let? a := safe_sub per_block content in
  let? b := safe_sub a vesting in
  let? validator := safe_sub b committee in
  let? c := safe_add content vesting in
  let? d := safe_add c committee in
  let? total := safe_add d validator in
  Ok (mk_emission validator committee content (Some vesting) total).

(** The yearly inflation, compounded [circles] more times. *)
Fixpoint compound (circles : nat) (new_supply inflation_per_year : Z) : res Z :=
  match circles with
  | O => Ok inflation_per_year
  | S circles =>
      let? i := percent_of new_supply CHAIN_FIXED_INFLATION in
      let? s := safe_add new_supply i in
      compound circles s i
  end.

Definition inflation_per_block (head : Z) : res Z :=
  let? i := percent_of CHAIN_FIXED_INFLATION CHAIN_INIT_SUPPLY in
  let? new_supply := safe_add CHAIN_INIT_SUPPLY i in
  let? i := compound (Z.to_nat (head / CHAIN_BLOCKS_PER_YEAR)) new_supply i in
  safe_div i CHAIN_BLOCKS_PER_YEAR.

(** The parts that go to the funds. *)
Definition fill_funds (e : emission) : DB unit :=
  modify_dgpo (λ p,
    let? v :=
      match em_vesting e with
      | Some x => asset_add (total_vesting_fund p) (token x)
      | None => Ok (total_vesting_fund p)
      end in
    let? c := asset_add (committee_fund p) (token (em_committee e)) in
    let? r := asset_add (total_reward_fund p) (token (em_reward_fund e)) in
    let? s := asset_add (current_supply p) (token (em_total e)) in
    Ok (p <| total_vesting_fund := v |> <| committee_fund := c |> <| total_reward_fund := r |>
          <| current_supply := s |>)).

Definition reward_validator (owner : string) (tokens : Z) : DB unit :=
  let* v := create_vesting owner (token tokens) in
  push_virtual_operation (validator_reward_operation owner v).

(** The part of the validator, of which a share may wait for stakeholders. *)
Definition pay_validator (hf13 : bool) (reward : Z) : DB unit :=
  let* p := get_dgpo in
  let* cwit := get_validator (current_validator p) in
  let* acc := find_account (owner cwit) in
  do* slift (rassert (bool_decide (acc ≠ None)) (E_not_found "validator account")) in
  if hf13 && (0 <? sharing_rate cwit)
  then
    let* q := slift (wu_div (w := 128)
      (wu_mul (w := 128) (wide_i64 reward) (wide_i64 (sharing_rate cwit))) (wide_i64 CHAIN_100_PERCENT)) in
    let* stakeholder_token := slift (to_share q) in
    let* validator_token := slift (safe_sub reward stakeholder_token) in
    do* swhen (0 <? validator_token) (reward_validator (owner cwit) validator_token) in
    swhen (0 <? stakeholder_token)
      (modify_validator (current_validator p) (λ w,
         let? x := safe_add (pending_stakeholder_reward w) stakeholder_token in
         Ok (w <| pending_stakeholder_reward := x |>)))
  else reward_validator (owner cwit) reward.

Definition process_funds : DB unit :=
  let* p := get_dgpo in
  let* hf11 := has_hardfork 11 in
  let* hf4 := has_hardfork 4 in
  let* hf13 := has_hardfork 13 in
  let* e :=
    slift (if hf11 : bool then split_by_consensus p CHAIN_DIGITAL_ASSET_ISSUED_PER_BLOCK
           else
             let? per_block := inflation_per_block (head_block_number p) in
             if hf4 : bool then split_by_consensus p per_block else split_fixed per_block) in
  do* fill_funds e in
  pay_validator (hf11 && hf13) (em_validator e).

(** ** Stakeholder rewards *)

(** [get(account_id_type)] *)
Definition get_account_by_id (id : Z) : DB string := λ s,
  match list_find (λ p, acc_id p.2 = id) (map_to_list (accounts s)) with
  | Some (_, (n, _)) => Ok (n, s)
  | None => Err (E_not_found "account")
  end.

(** The votes for a validator, by account: the account and the block of the
    vote. *)
Definition votes_for (s : database) (validator : Z) : list (Z * Z) :=
  merge_sort by_key
    ((λ p, (p.1.1, p.2)) <$> filter (λ p, p.1.2 = validator) (map_to_list (validator_votes s))).

(** The weights of the stakeholders: their fair vote times the blocks of the
    epoch in which they voted. *)
Fixpoint stakeholder_entries (head epoch_start : Z) (l : list (Z * Z)) (total : Z) :
    DB (list (string * Z) * Z) :=
  match l with
  | [] => sret ([], total)
  | v :: l =>
      let* n := get_account_by_id v.1 in
      let* stakeholder := get_account n in
      let* weight := slift (validator_vote_fair_weight stakeholder) in
      if 0 <? weight
      then
        let blocks := u32 (head - Z.max v.2 epoch_start + 1) in
        let weighted := wu_mul (w := 128) (wide_i64 weight) (wide_i64 blocks) in
        let* r := stakeholder_entries head epoch_start l (wu_add (w := 128) total weighted) in
        sret ((n, weighted) :: r.1, r.2)
      else stakeholder_entries head epoch_start l total
  end.

(** The payments; the total paid. *)
Fixpoint pay_stakeholders (validator : string) (total_token total_weighted : Z)
    (l : list (string * Z)) (distributed : Z) : DB Z :=
  match l with
  | [] => sret distributed
  | e :: l =>
      let* q := slift (wu_div (w := 128) (wu_mul (w := 128) (wide_i64 total_token) e.2) total_weighted) in
      let* stakeholder_token := slift (to_share q) in
      if stakeholder_token <? CHAIN_MIN_STAKEHOLDER_REWARD_PAYOUT
      then pay_stakeholders validator total_token total_weighted l distributed
      else
        let* v := create_vesting e.1 (token stakeholder_token) in
        do* push_virtual_operation (stakeholder_reward_operation validator e.1 v) in
        let* d := slift (safe_add distributed stakeholder_token) in
        pay_stakeholders validator total_token total_weighted l d
  end.

(** The pool of one validator. *)
Definition distribute_pool (head epoch_start : Z) (name : string) : DB unit :=
  let* wit := get_validator name in
  let* acc := find_account (owner wit) in
  let total_token := pending_stakeholder_reward wit in
  if (total_token =? 0) || bool_decide (acc = None) then sret tt
  else
    let* l := sgets (λ s, votes_for s (val_id wit)) in
    let* er := stakeholder_entries head epoch_start l 0 in
    do* (if er.2 =? 0 then reward_validator (owner wit) total_token
         else
           let* distributed := pay_stakeholders (owner wit) total_token er.2 er.1 0 in
           let* dust := slift (safe_sub total_token distributed) in
           swhen (0 <? dust) (reward_validator (owner wit) dust)) in
    modify_validator name (λ w, Ok (w <| pending_stakeholder_reward := 0 |>)).

Definition process_validator_epoch_distribution : DB unit :=
  let* median := get_median_props in
  let* head := head_block_num in
  let epoch_length := distribution_epoch_length median in
  if (epoch_length =? 0) || negb (Z.rem head epoch_length =? 0) then sret tt
  else
    let epoch_start := u32 (head - epoch_length + 1) in
    let* names := sgets (λ s, (merge_sort by_name (map_to_list (validators s))).*1) in
    sfor names (distribute_pool head epoch_start).

(** ** Emptying the special accounts *)

(** Takes the tokens and shares of an account, as tokens. *)
Definition take_all (n : string) : DB asset :=
  let* a := get_account n in
  let has_tokens := 0 <? amount (balance a) in
  do* swhen has_tokens (debit n (balance a)) in
  let* total := slift (if has_tokens then asset_add (token 0) (balance a) else Ok (token 0)) in
  if 0 <? amount (vesting_shares a)
  then
    let* p := get_dgpo in
    let* converted := slift (asset_mul_price (vesting_shares a) (get_vesting_share_price p)) in
    do* modify_dgpo (λ p,
      let? v := asset_sub (total_vesting_shares p) (vesting_shares a) in
      let? f := asset_sub (total_vesting_fund p) converted in
      Ok (p <| total_vesting_shares := v |> <| total_vesting_fund := f |>)) in
    do* modify_account n (λ a, Ok (a <| vesting_shares ::= λ x, x <| amount := 0 |> |>)) in
    slift (asset_add total converted)
  else sret total.

Definition burn_account (n : string) : DB unit :=
  let* total := take_all n in
  swhen (0 <? amount total) (let* d := slift (asset_neg total) in burn_asset d).

Definition clear_null_account_balance : DB unit := burn_account CHAIN_NULL_ACCOUNT.
Definition clear_anonymous_account_balance : DB unit := burn_account CHAIN_ANONYMOUS_ACCOUNT.

Definition claim_committee_account_balance : DB unit :=
  let* total := take_all CHAIN_COMMITTEE_ACCOUNT in
  swhen (0 <? amount total) (add_committee_fund total).
End funds.

(** ** Effects on the supply *)

Section effects.
Context {CE : ChainEnv}.

Lemma percent_of_Ok x y r : percent_of x y = Ok r → r = Z.quot (x * y) CHAIN_100_PERCENT.
Proof. unfold percent_of. intros. inv_ok. by inv_safe. Qed.

Definition em_vesting_part (e : emission) : Z := default 0 (em_vesting e).

Lemma split_by_consensus_Ok p x e :
  split_by_consensus p x = Ok e →
  em_total e = em_validator e + em_committee e + em_reward_fund e ∧ em_vesting e = None ∧
  em_total e = x ∧
  em_validator e = Z.quot (x * dgp_inflation_validator_percent p) CHAIN_100_PERCENT.
Proof.
  unfold split_by_consensus. intros. inv_ok. inv_safe. cbn.
  repeat match goal with H : percent_of _ _ = Ok _ |- _ => apply percent_of_Ok in H end.
  split_and!; [lia|done|lia|done].
Qed.

Lemma split_fixed_Ok x e :
  split_fixed x = Ok e →
  em_total e = em_validator e + em_committee e + em_reward_fund e + em_vesting_part e ∧ em_total e = x.
Proof. unfold split_fixed, em_vesting_part. intros. inv_ok. inv_safe. cbn. lia. Qed.

Lemma eff_fill_funds e s u s' :
  fill_funds e s = Ok (u, s') →
  eff s s' (em_vesting_part e + em_committee e + em_reward_fund e - em_total e).
Proof.
  unfold fill_funds, em_vesting_part. intros (p & Hp & He)%eff_modify_dgpo.
  destruct (em_vesting e); inv_db; (eapply eff_eq; [exact He|]); unfold fund_tokens;
    cbn in *; lia.
Qed.

Lemma eff_reward_validator n x s u s' : reward_validator n x s = Ok (u, s') → eff s s' x.
Proof. unfold reward_validator. intros H. inv_eval. eff_facts. cbn in *. eff_chain. Qed.

Lemma to_share_small x : 0 ≤ x ≤ i64_max → to_share x = Ok x.
Proof.
  intros Hx. unfold to_share. rewrite wu_to_u64_exact by (unfold i64_max in *; lia). cbn.
  rewrite to_i64_small by (unfold fits_i64, i64_min in *; lia). done.
Qed.

(** The part of the stakeholders is at most the whole. *)
Lemma share_of_reward reward rate q x :
  0 ≤ reward ≤ i64_max → 0 ≤ rate ≤ CHAIN_100_PERCENT →
  wu_div (w := 128) (wu_mul (w := 128) (wide_i64 reward) (wide_i64 rate)) (wide_i64 CHAIN_100_PERCENT) = Ok q →
  to_share q = Ok x → 0 ≤ x ≤ reward.
Proof.
  intros Hr Hrate Hq Hx. unfold wide_i64, CHAIN_100_PERCENT in *.
  rewrite wu_mul_div_i64 in Hq by (unfold i64_max in *; lia). injection Hq as <-.
  assert (0 ≤ reward * rate / 10000 ≤ reward) as Hb.
  { split; [apply Z.div_pos; nia|apply Z.div_le_upper_bound; nia]. }
  rewrite to_share_small in Hx by lia. by injection Hx as <-.
Qed.

Lemma eff_modify_pending n f s u s' :
  modify_validator n f s = Ok (u, s') →
  ∃ w w', validators s !! n = Some w ∧ f w = Ok w' ∧
    eff s s' (pending_stakeholder_reward w' - pending_stakeholder_reward w).
Proof.
  intros (w & w' & Hw & Hf & [= _ ->])%modify_in_Ok. exists w, w'. split; [done|].
  split; [done|]. split; [|done..].
  unfold gap, accounted. cbn. rewrite (msum_insert _ _ n w w' Hw). lia.
Qed.

(** The pending reward of a validator, and no other part of it, takes part. *)
Lemma eff_add_pending n x s u s' :
  modify_validator n (λ w,
    let? y := safe_add (pending_stakeholder_reward w) x in
    Ok (w <| pending_stakeholder_reward := y |>)) s = Ok (u, s') → eff s s' x.
Proof.
  intros (w & w' & Hw & Hf & He)%eff_modify_pending. inv_ok. inv_safe.
  eapply eff_eq; [exact He|]. cbn. lia.
Qed.

Definition sharing_ok (s : database) : Prop :=
  ∀ w, validators s !! current_validator (dgpo s) = Some w → 0 ≤ sharing_rate w ≤ CHAIN_100_PERCENT.

Lemma eff_pay_validator hf13 reward s u s' :
  sharing_ok s → (hf13 = true → 0 ≤ reward ≤ i64_max) →
  pay_validator hf13 reward s = Ok (u, s') → eff s s' reward.
Proof.
  unfold pay_validator. intros Hok Hr H. inv_eval; propify;
    repeat match goal with
    | H : reward_validator _ _ _ = Ok _ |- _ => apply eff_reward_validator in H
    | H : modify_validator _ _ _ = Ok _ |- _ => apply eff_add_pending in H
    end; inv_safe; try eff_chain;
    match goal with
    | Hw : validators s !! _ = Some ?w, Hq : wu_div _ _ = Ok ?q, Hx : to_share ?q = Ok ?x |- _ =>
        destruct (share_of_reward reward (sharing_rate w) q x); [by apply Hr|by apply Hok|done|done|]
    end; first [eff_chain | eapply eff_eq; [apply eff_refl|lia]].
Qed.

(** *** Stakeholder rewards *)

Lemma get_account_by_id_Ok id s n s' : get_account_by_id id s = Ok (n, s') → s' = s.
Proof. unfold get_account_by_id. intros H. destruct (list_find _ _) as [[? [? ?]]|]; by inv_ok. Qed.

Lemma validator_vote_fair_weight_bound a w :
  validator_vote_fair_weight a = Ok w → w ≤ i64_max.
Proof.
  unfold validator_vote_fair_weight, uint128_quotient. intros. inv_ok; [|unfold i64_max; lia].
  match goal with |- to_i64 ?x ≤ _ => pose proof (to_i64_range x) as [_ ?] end. done.
Qed.

Definition weights_sum (l : list (string * Z)) : Z := foldr (λ e acc, e.2 + acc) 0 l.

Lemma stakeholder_entries_Ok head start l total s r s' :
  0 ≤ total → total + Z.of_nat (length l) * 2 ^ 95 < 2 ^ 128 →
  stakeholder_entries head start l total s = Ok (r, s') →
  s' = s ∧ Forall (λ e, 0 ≤ e.2) r.1 ∧ r.2 = total + weights_sum r.1.
Proof.
  revert total r s'. induction l as [|v l IH]; intros total r s' H0 Hlen H; cbn in H; inv_ok.
  - split_and!; [done|constructor|cbn; lia].
  - match goal with H : get_account_by_id _ _ = Ok _ |- _ => apply get_account_by_id_Ok in H as -> end.
    inv_db. propify.
    match goal with H : validator_vote_fair_weight _ = Ok ?w |- _ =>
      apply validator_vote_fair_weight_bound in H; rename w into wt end.
    set (blocks := u32 _) in *. assert (0 ≤ blocks < 2 ^ 32) by (apply Z.mod_pos_bound; lia).
    unfold wide_i64 in *. rewrite wu_mul_i64 in * by (unfold i64_max in *; lia).
    assert (0 ≤ wt * blocks < 2 ^ 95) by (unfold i64_max in *; nia).
    rewrite length_cons in Hlen.
    rewrite wu_add_exact in * by lia.
    match goal with H : stakeholder_entries _ _ _ _ _ = Ok _ |- _ =>
      apply IH in H as (-> & Hl & Ht); [|lia..] end.
    cbn. split_and!; [done|constructor; [cbn; lia|done]|]. rewrite Ht. unfold weights_sum. cbn. lia.
  - match goal with H : get_account_by_id _ _ = Ok _ |- _ => apply get_account_by_id_Ok in H as -> end.
    inv_db. rewrite length_cons in Hlen. apply IH in H; [done|lia|lia].
Qed.

Lemma weights_sum_nonneg l : Forall (λ e, 0 ≤ e.2) l → 0 ≤ weights_sum l.
Proof. induction 1; unfold weights_sum in *; cbn; lia. Qed.

(** What the stakeholders get is at most their part of the pool. *)
Lemma pay_stakeholders_Ok v total W l d s r s' :
  0 ≤ total ≤ i64_max → 0 < W → Forall (λ e, 0 ≤ e.2) l →
  pay_stakeholders v total W l d s = Ok (r, s') →
  d ≤ r ∧ W * (r - d) ≤ total * weights_sum l ∧ eff s s' (r - d) ∧ same_pendings s s'.
Proof.
  intros Htot HW Hl. revert d s. induction Hl as [|e l He Hl IH]; intros d s H; cbn in H; inv_ok.
  - split_and!; [lia|cbn; lia|eapply eff_eq; [apply eff_refl|lia]|done].
  - match goal with H : pay_stakeholders _ _ _ _ _ _ = Ok _ |- _ => apply IH in H as (? & ? & ? & ?) end.
    split_and!; [done| |done|done]. unfold weights_sum in *. cbn. nia.
  - match goal with H : pay_stakeholders _ _ _ _ _ _ = Ok _ |- _ => apply IH in H as (? & ? & He2 & Hp2) end.
    match goal with H : wu_div _ _ = Ok _ |- _ =>
      apply wu_div_inv in H as (_ & -> & Hq); [|apply wu_mul_range|lia] end.
    match goal with H : to_share _ = Ok _ |- _ => unfold to_share in H end. inv_ok.
    match goal with H : wu_to_u64 _ = Ok _ |- _ => apply wu_to_u64_sound in H as [-> ?] end.
    unfold CHAIN_MIN_STAKEHOLDER_REWARD_PAYOUT in *. propify. rewrite to_i64_nonneg in * by lia.
    pose proof (wu_mul_le (w := 128) (wide_i64 total) e.2) as Hle. unfold wide_i64 in *.
    rewrite (wu_of_i64_nonneg total) in * by lia. specialize (Hle ltac:(lia) ltac:(lia)).
    set (m := wu_mul _ _) in *. pose proof (Z.mul_div_le m W ltac:(lia)). inv_safe.
    match goal with H : create_vesting _ _ _ = Ok _ |- _ =>
      pose proof (frame_create_vesting same_pendings _ _ _ _ _ H) as Hp1; apply eff_create_vesting in H end.
    match goal with H : push_virtual_operation _ _ = Ok _ |- _ =>
      pose proof (same_pendings_push _ _ _ _ H) as Hp3 end.
    eff_facts. cbn in *. unfold weights_sum in *. cbn. split_and!; [lia|nia|eff_chain|].
    etrans; [exact Hp1|]. by etrans.
Qed.

(** What the distribution relies on: pending rewards are not negative, and
    there are fewer votes than 2^32. *)
Definition pools_ok (s : database) : Prop :=
  (∀ n w, validators s !! n = Some w → 0 ≤ pending_stakeholder_reward w ≤ i64_max) ∧
  (Z.of_nat (size (validator_votes s)) < 2 ^ 32).

Lemma votes_for_length s v : (length (votes_for s v) ≤ size (validator_votes s))%nat.
Proof.
  unfold votes_for. rewrite (Permutation_length (merge_sort_Permutation _ _)), length_fmap.
  etrans; [apply length_filter|]. by rewrite length_map_to_list.
Qed.

Lemma same_pendings_reward n x s u s' : reward_validator n x s = Ok (u, s') → same_pendings s s'.
Proof.
  unfold reward_validator. intros H. inv_ok.
  etrans; [by eapply frame_create_vesting; [apply _|]|by eapply same_pendings_push].
Qed.

Lemma eff_clear_pending n w s s1 u s' :
  same_pendings s s1 → validators s !! n = Some w →
  modify_validator n (λ w, Ok (w <| pending_stakeholder_reward := 0 |>)) s1 = Ok (u, s') →
  eff s1 s' (- pending_stakeholder_reward w).
Proof.
  intros Hp Hw (w1 & w' & Hw1 & Hf & He)%eff_modify_pending. inv_ok.
  destruct (same_pendings_lookup _ _ _ _ Hp Hw) as (w2 & Hw2 & E).
  eapply eff_eq; [exact He|]. replace w1 with w2 by congruence. cbn. lia.
Qed.

Lemma pools_ok_same s s' : same_pendings s s' → pools_ok s → pools_ok s'.
Proof.
  intros [Hp Hv] [Hpend Hvotes]. split; [|by rewrite Hv]. intros n w Hw.
  destruct (same_pendings_lookup s' s n w) as (w0 & Hw0 & <-); [by split|done|]. eauto.
Qed.

Lemma pools_ok_clear n s u s' :
  pools_ok s → modify_validator n (λ w, Ok (w <| pending_stakeholder_reward := 0 |>)) s = Ok (u, s') →
  pools_ok s'.
Proof.
  intros [Hpend Hvotes] (w0 & w' & Hw & Hf & [= _ ->])%modify_in_Ok. inv_ok. split; [|done].
  intros n' w. cbn. intros [[_ <-]|[_ ?]]%lookup_insert_Some; [cbn; unfold i64_max; lia|eauto].
Qed.

(** The whole pool is paid out, to the stakeholders or back to the validator. *)
Lemma eff_distribute_pool head start n s u s' :
  pools_ok s → distribute_pool head start n s = Ok (u, s') → eff s s' 0 ∧ pools_ok s'.
Proof.
  unfold distribute_pool. intros Hok H. inv_eval; [split; [apply eff_refl|done]|..];
    pose proof Hok as [Hpend Hvotes];
    match goal with Hw : validators s !! n = Some ?w, H : stakeholder_entries _ _ _ _ _ = Ok _ |- _ =>
      rename w into wit; rename Hw into Hwit;
      pose proof (votes_for_length s (val_id wit));
      apply stakeholder_entries_Ok in H as (-> & Hl & Ht); [|lia..]
    end; specialize (Hpend _ _ Hwit); propify;
    repeat match goal with
    | H : reward_validator _ _ _ = Ok _ |- _ =>
        let K := fresh "Hp" in
        pose proof (same_pendings_reward _ _ _ _ _ H) as K; apply eff_reward_validator in H
    end.
  all: try match goal with H : pay_stakeholders _ _ _ _ _ _ = Ok _ |- _ =>
    apply pay_stakeholders_Ok in H as (? & ? & ? & Hp0);
      [|done|pose proof (weights_sum_nonneg _ Hl); lia|done] end; inv_safe.
  - split; [eapply (eff_clear_pending n wit s) in H; [eff_chain|done..]|].
    eapply pools_ok_clear, H. by eapply pools_ok_same.
  - split; [eapply (eff_clear_pending n wit s) in H; [eff_chain|by etrans|done]|].
    eapply pools_ok_clear, H. eapply pools_ok_same, Hok. by etrans.
  - split; [|eapply pools_ok_clear, H; by eapply pools_ok_same].
    eapply (eff_clear_pending n wit s) in H; [|done..].
    pose proof (weights_sum_nonneg _ Hl).
    match goal with H : eff s _ (?d - 0) |- _ =>
      assert (d = pending_stakeholder_reward wit) as -> by (rewrite Ht in *; nia) end.
    eff_chain.
Qed.

Lemma eff_epoch_distribution s u s' :
  pools_ok s → process_validator_epoch_distribution s = Ok (u, s') → eff s s' 0 ∧ pools_ok s'.
Proof.
  unfold process_validator_epoch_distribution. intros Hok H. inv_eval; [split; [apply eff_refl|done]|].
  revert H. generalize (merge_sort by_name (map_to_list (validators s))).*1,
    (head_block_number (dgpo s)), (u32 (head_block_number (dgpo s) -
       distribution_epoch_length (median_props (schedule s)) + 1)). intros l head start.
  clear Heqb. revert s Hok. induction l as [|n l IH]; intros s Hok H; cbn [sfor] in H; inv_ok.
  - split; [apply eff_refl|done].
  - match goal with H : distribute_pool _ _ _ _ = Ok _ |- _ => apply eff_distribute_pool in H as [? Hok1]; [|done] end.
    apply IH in H as [? ?]; [|done]. split; [eff_chain|done].
Qed.

(** *** Emission *)

Lemma process_funds_effect s u s' :
  sharing_ok s → 0 ≤ dgp_inflation_validator_percent (dgpo s) ≤ CHAIN_100_PERCENT →
  process_funds s = Ok (u, s') → eff s s' 0.
Proof.
  unfold process_funds. intros Hok Hp H.
  apply sbind_Ok in H as (p & s0 & H0 & H). apply sgets_Ok in H0 as [= -> ->].
  do 3 (apply sbind_Ok in H as (? & ? & H0 & H); apply sgets_Ok in H0; injection H0 as -> ->).
  apply sbind_Ok in H as (e & s0 & He & H). apply slift_Ok in He as (e' & He & [= -> ->]).
  apply sbind_Ok in H as ([] & s1 & Hfill & H).
  assert (sharing_ok s1) as Hok1.
  { clear -Hok Hfill. unfold fill_funds in Hfill.
    apply modify_dgpo_Ok in Hfill as (p & Hf & [= ->]). inv_ok. intros w. cbn. apply Hok. }
  apply eff_fill_funds in Hfill.
  assert (em_total e' = em_validator e' + em_committee e' + em_reward_fund e' + em_vesting_part e' ∧
          ((11 <? processed_hardforks s) = true → 0 ≤ em_validator e' ≤ i64_max)) as [Ht Hv].
  { clear -He Hp. unfold em_vesting_part. destruct (11 <? processed_hardforks s).
    - apply split_by_consensus_Ok in He as (-> & -> & _ & ->). cbn. split; [lia|]. intros _.
      unfold CHAIN_DIGITAL_ASSET_ISSUED_PER_BLOCK, CHAIN_100_PERCENT, i64_max in *.
      split; [apply Z.quot_pos; lia|]. etrans; [apply Z.quot_le_upper_bound with (q := 1000); lia|lia].
    - split; [|done]. inv_ok.
      + apply split_by_consensus_Ok in He as (-> & -> & _). cbn. lia.
      + apply split_fixed_Ok in He as [-> _]. unfold em_vesting_part. lia. }
  apply eff_pay_validator in H; [|done|intros [? _]%andb_true_iff; auto]. eff_chain.
Qed.

(** *** Emptying accounts *)

(** The shares of an account are part of a well-formed pool. *)
Definition pool_ok (p : dynamic_global_property_object) : Prop :=
  symbol (total_vesting_fund p) = TOKEN_SYMBOL ∧ symbol (total_vesting_shares p) = SHARES_SYMBOL ∧
  0 ≤ amount (total_vesting_fund p) ≤ i64_max ∧ 0 ≤ amount (total_vesting_shares p) ≤ i64_max.

Lemma names_differ a b : symbol a = TOKEN_SYMBOL → symbol b = SHARES_SYMBOL → symbol_name a ≠ symbol_name b.
Proof.
  intros Ha Hb. unfold symbol_name, decimals. rewrite Ha, Hb. by vm_compute.
Qed.

(** Redeeming shares of the pool gives tokens, and not more than the pool. *)
Lemma redeem_bound p a c :
  pool_ok p → symbol a = SHARES_SYMBOL → 0 ≤ amount a ≤ amount (total_vesting_shares p) →
  asset_mul_price a (get_vesting_share_price p) = Ok c → 0 ≤ amount c.
Proof.
  intros (Hf & Hs & Hf0 & Hs0) Ha Hle H. unfold get_vesting_share_price in H.
  destruct (_ || _) eqn:E.
  - apply asset_mul_price_inv in H as [[Hn _]|[_ H]]; cbn [base quote] in *.
    { by destruct (names_differ (token 1000) a). }
    apply convert_inv in H as (_ & _ & Hr & ->); cbn in *; [|unfold i64_max in *; lia..].
    assert (amount a * 1000 / 1000000 ≤ amount a) by (apply Z.div_le_upper_bound; lia).
    rewrite to_i64_small by (unfold fits_i64, i64_min in *; lia). lia.
  - propify. apply asset_mul_price_inv in H as [[_ H]|[Hn _]]; cbn [base quote] in *.
    2:{ by destruct (names_differ (total_vesting_fund p) a). }
    apply convert_inv in H as (? & _ & Hr & ->); [|lia..].
    assert (amount a * amount (total_vesting_fund p) / amount (total_vesting_shares p)
            ≤ amount (total_vesting_fund p)) by (apply Z.div_le_upper_bound; nia).
    rewrite to_i64_small by (unfold fits_i64, i64_min in *; lia). lia.
Qed.

Lemma eff_take_all n s r s' :
  take_all n s = Ok (r, s') → eff s s' (- amount r).
Proof.
  unfold take_all. intros H. inv_eval; eff_facts;
    repeat match goal with
    | H : modify_dgpo _ _ = Ok _ |- _ => apply eff_modify_dgpo in H as (p & Hp & ?)
    end; inv_db; unfold fund_tokens in *; cbn in *; first [eff_chain | eapply eff_eq; [apply eff_refl|lia]].
Qed.

(** The account [n] holds a part of the pool. *)
Definition holder_ok (n : string) (s : database) : Prop :=
  ∀ a, accounts s !! n = Some a →
    symbol (vesting_shares a) = SHARES_SYMBOL ∧
    amount (vesting_shares a) ≤ amount (total_vesting_shares (dgpo s)).

Lemma take_all_nonneg n s r s' :
  pool_ok (dgpo s) → holder_ok n s → take_all n s = Ok (r, s') → 0 ≤ amount r.
Proof.
  unfold take_all. intros Hpool Hn H.
  apply sbind_Ok in H as (a & s0 & Ha & H). apply get_in_Ok in Ha as (a' & Ha & [= -> ->]).
  destruct (Hn a' Ha) as [Hsym Hle]. apply sbind_Ok in H as (x & s1 & Hd & H).
  assert (dgpo s1 = dgpo s) as Hdg.
  { clear H. unfold swhen, debit, adjust_balance, modify_account in Hd. inv_ok; [|done].
    match goal with H : modify_in _ _ _ _ = Ok _ |- _ => apply modify_in_Ok in H as (? & ? & ? & ? & [= _ ->]) end.
    done. }
  clear Hd. inv_db; propify; cbn in *; try lia;
    match goal with H : asset_mul_price _ _ = Ok _ |- _ =>
      rewrite Hdg in H; apply redeem_bound in H; [lia|done|done|lia] end.
Qed.

Lemma eff_burn_account n s u s' :
  pool_ok (dgpo s) → holder_ok n s → burn_account n s = Ok (u, s') → eff s s' 0.
Proof.
  unfold burn_account. intros Hpool Hn H. inv_ok;
    match goal with H : take_all _ _ = Ok _ |- _ =>
      pose proof (take_all_nonneg _ _ _ _ Hpool Hn H); apply eff_take_all in H end;
    inv_eval; eff_facts; propify; eff_chain.
Qed.

Lemma eff_claim_committee s u s' :
  pool_ok (dgpo s) → holder_ok CHAIN_COMMITTEE_ACCOUNT s →
  claim_committee_account_balance s = Ok (u, s') → eff s s' 0.
Proof.
  unfold claim_committee_account_balance. intros Hpool Hn H. inv_ok;
    match goal with H : take_all _ _ = Ok _ |- _ =>
      pose proof (take_all_nonneg _ _ _ _ Hpool Hn H); apply eff_take_all in H end;
    eff_facts; propify; eff_chain.
Qed.

Lemma eff_inflation_recalc s u s' : process_inflation_recalc s = Ok (u, s') → eff s s' 0.
Proof.
  unfold process_inflation_recalc. intros H. inv_eval; [|apply eff_refl].
  apply eff_modify_dgpo in H as (p & Hp & He). inv_ok. eapply eff_eq; [exact He|].
  unfold fund_tokens. cbn. lia.
Qed.
End effects.

(** ** Theorem *)

(** What the chain keeps true of its funds: rates are percentages, pending
    rewards are not negative, and the special accounts hold a part of the
    vesting pool. *)
Record funds_ok (s : database) : Prop := {
  fo_sharing : sharing_ok s;
  fo_percent : 0 ≤ dgp_inflation_validator_percent (dgpo s) ≤ CHAIN_100_PERCENT;
  fo_pools : pools_ok s;
  fo_pool : pool_ok (dgpo s);
  fo_null : holder_ok CHAIN_NULL_ACCOUNT s;
  fo_anonymous : holder_ok CHAIN_ANONYMOUS_ACCOUNT s;
  fo_committee : holder_ok CHAIN_COMMITTEE_ACCOUNT s
}.

Section theorem.
Context {CE : ChainEnv}.

(** The steps of a block that create, distribute or burn tokens. *)
Definition fund_steps : list (DB unit) :=
  [process_inflation_recalc; process_funds; process_validator_epoch_distribution;
   clear_null_account_balance; clear_anonymous_account_balance; claim_committee_account_balance].

(** C33 (safety).  The emission of a block is split without loss: the recorded
    supply grows by exactly what the committee fund, the reward fund, the
    vesting fund and the validator receive; the pool of stakeholder rewards is
    paid out in full; and what is burned leaves the supply. *)
Theorem fund_steps_conserve step s u s' :
  step ∈ fund_steps → funds_ok s → step s = Ok (u, s') → gap s' = gap s.
Proof.
  intros Hin Hok H. cut (eff s s' 0); [intros [E _ _]; lia|]. destruct Hok.
  unfold fund_steps in Hin. repeat rewrite elem_of_cons in Hin.
  destruct Hin as [->|[->|[->|[->|[->|[->|?%elem_of_nil]]]]]];
    [by eapply eff_inflation_recalc|by eapply process_funds_effect|by eapply eff_epoch_distribution in H as [? _]
    |by eapply eff_burn_account, H|by eapply eff_burn_account, H|by eapply eff_claim_committee|done].
Qed.
End theorem.

Lemma test_holder n id :
  accounts test_db !! n = Some (user id n 0 0) → holder_ok n test_db.
Proof. intros E a. rewrite E. intros [= <-]. split; [done|]. cbn. lia. Qed.

Lemma test_db_funds : funds_ok test_db.
Proof.
  split.
  - intros w. vm_compute. intros [= <-]. cbn. split; discriminate.
  - vm_compute. split; discriminate.
  - split; [|vm_compute; reflexivity]. intros n w Hw.
    cbn in Hw. apply lookup_insert_Some in Hw as [[_ <-]|[_ Hw]]; [vm_compute; split; discriminate|].
    by rewrite lookup_empty in Hw.
  - vm_compute. repeat split; discriminate.
  - by apply (test_holder _ 4).
  - by apply (test_holder _ 6).
  - by apply (test_holder _ 5).
Qed.

Lemma fund_steps_conserve_witness :
  let run := @process_funds test_env in
  run test_db = Ok (tt, after run test_db) ∧ gap (after run test_db) = gap test_db ∧
  amount (current_supply (dgpo (after run test_db))) = 715002000.
Proof.
  intros run. assert (run test_db = Ok (tt, after run test_db)) as H
    by (apply after_Ok; vm_compute; reflexivity).
  split; [exact H|]. split; [|vm_compute; reflexivity].
  refine (@fund_steps_conserve test_env run test_db tt _ _ test_db_funds H).
  right; left.
Defined.
