(* ===== verification/Duties.v ===== *)
(** * Duties of a block (libraries/chain/database.cpp, lines 2898-3010,
      3717-3840, 4344-4418, 6650-6735)

    What every block does besides its transactions: expirations, the payments
    of the committee and the withdrawals of vesting shares. *)

From stdpp Require Import gmap strings list sorting.
From Stdlib Require Import ZArith Lia.
From S2P Require Import Prelude Fc Text Asset Authority Objects Database Supply Frame Scenario.
From S2P Require Import EvalTransfer EvalAccount EvalGovern EvalAward EvalInvite Funds.

Definition CHAIN_CLEAR_USED_INVITE_DELAY : Z := 86400.
Definition CHAIN_CLEAR_CLOSED_COMMITTEE_REQUEST_DELAY : Z := 7 * 86400.
Definition COMMITTEE_REQUEST_PROCESSING : Z := 60 * 60 / CHAIN_BLOCK_INTERVAL / 6.

(** The items that are due, earliest first. *)
Definition due_first {A} (t : A → Z) (P : A → bool) (l : list A) : list A :=
  (merge_sort by_key (filter (λ p, P p.2 = true) ((λ x, (t x, x)) <$> l))).*2.

Section duties.
Context {CE : ChainEnv}.

(** ** Expirations *)

Definition clear_expired_transactions : DB unit :=
  supd (λ s, s <| transactions ::= filter (λ p, time (dgpo s) ≤ p.2) |>).

Definition return_delegation (e : vesting_delegation_expiration_object) : DB unit :=
  let* a := get_account (dexp_delegator e) in
  do* modify_account (dexp_delegator e) (λ a,
    let? d := asset_sub (delegated_vesting_shares a) (dexp_vesting_shares e) in
    Ok (a <| delegated_vesting_shares := d |>)) in
  let* hf10 := has_hardfork 10 in
  do* swhen hf10 (shares_sender_recalc_energy (dexp_delegator e) (dexp_vesting_shares e)) in
  push_virtual_operation (return_vesting_delegation_operation (dexp_delegator e) (dexp_vesting_shares e)).

Definition clear_expired_delegations : DB unit :=
  let* now := head_block_time in
  let* l := sgets delegation_expirations in
  let expired e := dexp_expiration e <? now in
  do* sfor (due_first dexp_expiration expired l) return_delegation in
  supd (λ s, s <| delegation_expirations ::= filter (λ e, expired e = false) |>).

Definition clear_used_invites : DB unit :=
  let* now := head_block_time in
  let remove_time := u32 (now - CHAIN_CLEAR_USED_INVITE_DELAY) in
  supd (λ s, s <| invites ::=
    filter (λ p, ¬ (inv_status p.2 ≠ 0 ∧ claim_time p.2 < remove_time)) |>).

(** The closed requests that are old enough to go, with their votes. *)
Definition request_closed (remove_time : Z) (r : committee_request_object) : bool :=
  negb (req_status r =? 0) && negb (req_status r =? 4) && negb (req_status r =? 5) &&
  (conclusion_time r <? remove_time).

Definition clear_closed_committee_requests : DB unit :=
  let* now := head_block_time in
  let remove_time := u32 (now - CHAIN_CLEAR_CLOSED_COMMITTEE_REQUEST_DELAY) in
  supd (λ s,
    s <| committee_votes ::= filter (λ p,
           (request_closed remove_time <$> committee_requests s !! p.1.1) ≠ Some true) |>
      <| committee_requests ::= filter (λ p, request_closed remove_time p.2 = false) |>).

Definition expire_award_shares_processing : DB unit :=
  let* now := head_block_time in
  let* l := sgets award_shares in
  do* sfor (filter (λ a, a.1 ≤ now) l) (λ a,
    modify_dgpo (λ p, Ok (p <| total_reward_shares :=
      wu_sub (w := 128) (total_reward_shares p) (wide_i64 a.2) |>))) in
  supd (λ s, s <| award_shares ::= filter (λ a, now < a.1) |>).

(** The old master authorities, oldest first, until one is still valid. *)
Fixpoint drop_old_authorities (now : Z) (l : list (string * authority * Z)) :
    list (string * authority * Z) :=
  match l with
  | h :: l => if u32 (h.2 + CHAIN_MASTER_AUTH_RECOVERY_PERIOD) <? now
              then drop_old_authorities now l else h :: l
  | [] => []
  end.

Definition account_recovery_processing : DB unit :=
  let* now := head_block_time in
  do* supd (λ s, s <| recovery_requests ::= filter (λ p, now < p.2.2) |>) in
  do* supd (λ s, s <| master_history ::= drop_old_authorities now |>) in
  let* l := sgets (λ s, map_to_list (change_recovery_requests s)) in
  sfor (due_first (λ p, p.2.2) (λ p, p.2.2 <=? now) l) (λ p,
    let* a := get_account p.1 in
    do* modify_account p.1 (λ a, Ok (a <| recovery_account := p.2.1 |>)) in
    remove_in change_recovery_requests p.1).

(** ** Escrows that were not ratified *)

(** What an escrow holds goes back. *)
Definition refund_escrow (p : string * Z * escrow_object) : DB unit :=
  let e := p.2 in
  let from := p.1.1 in
  let* a := get_account from in
  do* adjust_balance from (token_balance e) in
  do* adjust_balance from (pending_fee e) in
  do* push_virtual_operation
    (expire_escrow_ratification_operation from (esc_to e) (esc_agent e) p.1.2 (token_balance e)
       (pending_fee e) (ratification_deadline e)) in
  remove_in escrows p.1.

Definition escrow_lapsed (now : Z) (p : string * Z * escrow_object) : bool :=
  negb (is_approved p.2) && (ratification_deadline p.2 <=? now).

Definition expire_escrow_ratification : DB unit :=
  let* now := head_block_time in
  let* l := sgets (λ s, map_to_list (escrows s)) in
  sfor (due_first (λ p, ratification_deadline p.2) (escrow_lapsed now) l) refund_escrow.

(** ** The committee *)

(** The requests with a status in the order of the index [by_status], where a
    request is behind those that got the status before it: new requests are in
    the order of their ids, approved ones in the order of their conclusions. *)
Definition by_conclusion : relation (Z * committee_request_object) := λ p q,
  conclusion_time p.2 < conclusion_time q.2 ∨
  (conclusion_time p.2 = conclusion_time q.2 ∧ p.1 ≤ q.1).
#[local] Instance by_conclusion_dec p q : Decision (by_conclusion p q).
Proof. unfold by_conclusion. apply _. Defined.

Definition requests_with (s : database) (status : Z) : list (Z * committee_request_object) :=
  merge_sort by_conclusion
    (filter (λ p, req_status p.2 = status) (map_to_list (committee_requests s))).

(** The shares of the voters, all of them and weighted by their votes. *)
Fixpoint tally_votes (l : list (string * committee_vote_object)) (max actual : Z) : DB (Z * Z) :=
  match l with
  | [] => sret (max, actual)
  | v :: l =>
      let* voter := get_account v.1 in
      let* e := slift (effective_vesting_shares voter) in
      let* max := slift (safe_add max (amount e)) in
      let* m := slift (raw_i64 (amount e * vote_percent v.2)) in
      let* actual := slift (safe_add actual (Z.quot m CHAIN_100_PERCENT)) in
      tally_votes l max actual
  end.

Definition votes_on (s : database) (id : Z) : list (string * committee_vote_object) :=
  (λ p, (p.1.2, p.2)) <$> filter (λ p, p.1.1 = id) (map_to_list (committee_votes s)).

(** [required_max * (100% * actual / max) / 100%] *)
Definition conclusion_amount (required_max actual max : Z) : res Z :=
  let? share := wu_div (w := 128)
                  (wu_mul (w := 128) (wide_i64 CHAIN_100_PERCENT) (wide_i64 actual)) (wide_i64 max) in
  let? q := wu_div (w := 128) (wu_mul (w := 128) (wide_i64 required_max) share)
              (wide_i64 CHAIN_100_PERCENT) in
  to_share q.

Definition cancel_request (id status : Z) (f : committee_request_object → committee_request_object) :
    DB unit :=
  let* now := head_block_time in
  do* modify_in committee_requests id (λ c, Ok (f c <| conclusion_time := now |> <| req_status := status |>)) in
  push_virtual_operation (committee_cancel_request_operation id).

(** The end of the vote on a request. *)
Definition conclude_request (id : Z) (r : committee_request_object) : DB unit :=
  let* l := sgets (λ s, votes_on s id) in
  let* t := tally_votes l 0 0 in
  let* p := get_dgpo in
  let* median := get_median_props in
  let* m := slift (safe_mul (amount (total_vesting_shares p))
                     (committee_request_approve_min_percent median)) in
  let* approve_min := slift (safe_div m CHAIN_100_PERCENT) in
  let* hf2 := has_hardfork 2 in
  if negb hf2 || (t.1 <? approve_min) then cancel_request id 2 (λ c, c)
  else if t.2 <=? 0
  then cancel_request id 3 (λ c, c <| conclusion_payout_amount := token 0 |>)
  else
    let* x := slift (conclusion_amount (amount (required_amount_max r)) t.2 t.1) in
    if x <? amount (required_amount_min r)
    then cancel_request id 3 (λ c, c <| conclusion_payout_amount := token x |>)
    else
      let* now := head_block_time in
      do* modify_in committee_requests id (λ c,
        Ok (c <| conclusion_payout_amount := token x |> <| conclusion_time := now |>
              <| remain_payout_amount := token x |> <| req_status := 4 |>)) in
      push_virtual_operation (committee_approve_request_operation id).

(** One payment to a worker, at most [max_payment]. *)
Definition pay_request (max_payment : Z) (p : Z * committee_request_object) : DB unit :=
  let* c := get_in committee_requests "committee_request" p.1 in
  let payment := Z.min max_payment (amount (remain_payout_amount c)) in
  let* w := get_account (worker c) in
  do* modify_account (worker c) (λ w,
    let? b := asset_add (balance w) (token payment) in Ok (w <| balance := b |>)) in
  do* modify_dgpo (λ p,
    let? f := safe_sub (amount (committee_fund p)) payment in
    Ok (p <| committee_fund ::= λ x, x <| amount := f |> |>)) in
  do* push_virtual_operation (committee_pay_request_operation (worker c) p.1 (token payment)) in
  let* now := head_block_time in
  do* modify_in committee_requests p.1 (λ c,
    let? out := safe_add (amount (payout_amount c)) payment in
    let? left := safe_sub (amount (remain_payout_amount c)) payment in
    Ok (c <| payout_amount ::= λ x, x <| amount := out |> |>
          <| remain_payout_amount ::= λ x, x <| amount := left |> |>
          <| last_payout_time := now |>)) in
  let* c := get_in committee_requests "committee_request" p.1 in
  swhen (amount (remain_payout_amount c) <=? 0)
    (do* modify_in committee_requests p.1 (λ c, Ok (c <| req_status := 5 |> <| payout_time := now |>)) in
     push_virtual_operation (committee_payout_request_operation p.1)).

Definition committee_payments : DB unit :=
  let* l := sgets (λ s, requests_with s 4) in
  let* p := get_dgpo in
  let* max_payment := slift (safe_div (amount (committee_fund p)) (Z.of_nat (length l) + 1)) in
  sfor l (pay_request max_payment).

Definition committee_processing : DB unit :=
  let* now := head_block_time in
  let* l := sgets (λ s, requests_with s 0) in
  do* sfor l (λ p, swhen (req_end_time p.2 <=? now) (conclude_request p.1 p.2)) in
  let* head := head_block_num in
  swhen (Z.rem head COMMITTEE_REQUEST_PROCESSING =? 0) committee_payments.

(** ** Withdrawals of vesting shares *)

(** What account [a] withdraws now. *)
Definition withdrawal_amount (a : account_object) : res Z :=
  let? left := safe_sub (to_withdraw a) (withdrawn a) in
  let? x :=
    (if left <? amount (vesting_withdraw_rate a)
     then let? m := safe_mod (to_withdraw a) (amount (vesting_withdraw_rate a)) in
          Ok (Z.min (amount (vesting_shares a)) m)
     else Ok (Z.min (amount (vesting_shares a)) (amount (vesting_withdraw_rate a)))) in
  Ok (if x <? 0 then 0 else x).

(** [(uint128_t(to_withdraw) * percent / CHAIN_100_PERCENT).to_uint64()] *)
Definition route_part (x percent : Z) : res Z :=
  let? q := wu_div (w := 128) (wu_mul (w := 128) (wide_i64 x) (wide_i64 percent))
              (wide_i64 CHAIN_100_PERCENT) in
  to_share q.

(** The first pass: routes that stay vested. *)
Fixpoint route_vests (from : string) (x : Z) (l : list (Z * withdraw_vesting_route_object))
    (total : Z) : DB Z :=
  match l with
  | [] => sret total
  | r :: l =>
      if auto_vest r.2
      then
        let* d := slift (route_part x (route_percent r.2)) in
        let* total := slift (safe_add total d) in
        do* swhen (0 <? d)
          (let* to := get_account_by_id r.1 in
           do* modify_account to (λ a,
             let? v := safe_add (amount (vesting_shares a)) d in
             Ok (a <| vesting_shares ::= λ y, y <| amount := v |> |>)) in
           do* adjust_proxied_validator_votes to d in
           push_virtual_operation (fill_vesting_withdraw_operation from to (shares d) (shares d))) in
        route_vests from x l total
      else route_vests from x l total
  end.

(** [vesting fund -= tokens, vesting shares -= vests] *)
Definition leave_pool (tokens : asset) (vests : Z) : DB unit :=
  modify_dgpo (λ p,
    let? f := asset_sub (total_vesting_fund p) tokens in
    let? v := safe_sub (amount (total_vesting_shares p)) vests in
    Ok (p <| total_vesting_fund := f |> <| total_vesting_shares ::= λ y, y <| amount := v |> |>)).

(** The second pass: routes that are paid in tokens.  ([total_tokens_converted]
    is summed up in the code and not used.) *)
Fixpoint route_tokens (from : string) (x : Z) (l : list (Z * withdraw_vesting_route_object))
    (total : Z) : DB Z :=
  match l with
  | [] => sret total
  | r :: l =>
      if auto_vest r.2 then route_tokens from x l total
      else
        let* to := get_account_by_id r.1 in
        let* d := slift (route_part x (route_percent r.2)) in
        let* total := slift (safe_add total d) in
        let* p := get_dgpo in
        let* converted := slift (asset_mul_price (shares d) (get_vesting_share_price p)) in
        do* swhen (0 <? d)
          (do* modify_account to (λ a,
             let? b := asset_add (balance a) converted in Ok (a <| balance := b |>)) in
           do* leave_pool converted d in
           push_virtual_operation (fill_vesting_withdraw_operation from to (shares d) converted)) in
        route_tokens from x l total
  end.

(** The withdrawal of one account that is due. *)
Definition process_withdrawal (from : string) : DB unit :=
  let* a := get_account from in
  let* x := slift (withdrawal_amount a) in
  let* l := sgets (λ s, routes_from s (acc_id a)) in
  let* as_vests := route_vests from x l 0 in
  let* as_tokens := route_tokens from x l 0 in
  let* c := slift (safe_sub x as_tokens) in
  let* c := slift (safe_sub c as_vests) in
  let to_convert := if c <? 0 then 0 else c in
  let* p := get_dgpo in
  let* converted := slift (asset_mul_price (shares to_convert) (get_vesting_share_price p)) in
  let* moved := slift (asset_add (shares as_tokens) (shares to_convert)) in
  do* shares_sender_recalc_energy from moved in
  do* modify_account from (λ a,
    let? v := safe_sub (amount (vesting_shares a)) x in
    let? b := asset_add (balance a) converted in
    let? w := safe_add (withdrawn a) x in
    let a := a <| vesting_shares ::= λ y, y <| amount := v |> |> <| balance := b |>
               <| withdrawn := w |> in
    Ok (if (to_withdraw a <=? withdrawn a) || (amount (vesting_shares a) =? 0)
        then a <| vesting_withdraw_rate ::= λ y, y <| amount := 0 |> |>
               <| next_vesting_withdrawal := time_point_sec_maximum |>
        else a <| next_vesting_withdrawal :=
                    u32 (next_vesting_withdrawal a + CHAIN_VESTING_WITHDRAW_INTERVAL_SECONDS) |>)) in
  do* leave_pool converted to_convert in
  swhen (0 <? x)
    (let* d := slift (safe_neg x) in
     do* adjust_proxied_validator_votes from d in
     push_virtual_operation (fill_vesting_withdraw_operation from from (shares x) converted)).
End duties.

(** ** Effects on the supply *)

Section effects.
Context {CE : ChainEnv}.

Lemma eff_supd_same f s u s' :
  supd f s = Ok (u, s') →
  (accounts (f s) = accounts s ∧ escrows (f s) = escrows s ∧ invites (f s) = invites s ∧
   validators (f s) = validators s ∧ dgpo (f s) = dgpo s) → eff s s' 0.
Proof. intros [= _ <-]%supd_Ok (? & ? & ? & ? & ?). by apply eff_same. Qed.

Lemma eff_return_delegation e s u s' : return_delegation e s = Ok (u, s') → eff s s' 0.
Proof. unfold return_delegation. intros H. inv_eval; eff_facts; eff_chain. Qed.

Lemma eff_clear_expired_delegations s u s' : clear_expired_delegations s = Ok (u, s') → eff s s' 0.
Proof.
  unfold clear_expired_delegations. intros H.
  do 2 (apply sbind_Ok in H as (? & ? & H0 & H); apply sgets_Ok in H0; injection H0 as -> ->).
  apply sbind_Ok in H as (? & s1 & Hfor & H). apply eff_supd_same in H; [|done].
  apply eff_sfor in Hfor; [eff_chain|]. intros. by eapply eff_return_delegation.
Qed.

Lemma eff_expire_award_shares s u s' : expire_award_shares_processing s = Ok (u, s') → eff s s' 0.
Proof.
  unfold expire_award_shares_processing. intros H.
  do 2 (apply sbind_Ok in H as (? & ? & H0 & H); apply sgets_Ok in H0; injection H0 as -> ->).
  apply sbind_Ok in H as (? & s1 & Hfor & H). apply eff_supd_same in H; [|done].
  apply eff_sfor in Hfor; [eff_chain|]. intros a s0 u0 s2 _ Hm.
  apply eff_modify_dgpo in Hm as (p & Hp & He). inv_ok. eapply eff_eq; [exact He|].
  unfold fund_tokens. cbn. lia.
Qed.

Lemma eff_account_recovery s u s' : account_recovery_processing s = Ok (u, s') → eff s s' 0.
Proof.
  unfold account_recovery_processing. intros H.
  apply sbind_Ok in H as (? & ? & H0 & H); apply sgets_Ok in H0; injection H0 as -> ->.
  apply sbind_Ok in H as (? & ? & Hr & H). apply eff_supd_same in Hr; [|done].
  apply sbind_Ok in H as (? & ? & Hh & H). apply eff_supd_same in Hh; [|done].
  apply sbind_Ok in H as (? & ? & H2 & H); apply sgets_Ok in H2; injection H2 as -> ->.
  apply eff_sfor in H; [eff_chain|]. intros p s0 u0 s2 _ Hm. inv_eval. eff_facts. eff_chain.
Qed.

Lemma gap_clear_used_invites s u s' :
  invites_ok s → clear_used_invites s = Ok (u, s') →
  gap s' = gap s ∧ escrows s' = escrows s ∧ invites_ok s'.
Proof.
  unfold clear_used_invites. intros Hok H. inv_db. split_and!; [|done|].
  - unfold gap, accounted. cbn. rewrite msum_filter; [done|].
    intros k i Hk Hn. apply (Hok k i Hk). destruct (decide (inv_status i = 0)); [|done].
    exfalso. apply Hn. cbn. tauto.
  - intros k i. cbn. intros [Hk _]%map_lookup_filter_Some. eauto.
Qed.

(** *** Escrows *)

(** What a refund pays. *)
Definition refund_of (p : string * Z * escrow_object) : string * Z :=
  (p.1.1, amount (token_balance p.2) + amount (pending_fee p.2)).

Lemma refund_escrow_Ok p s u s' :
  escrows s !! p.1 = Some p.2 → refund_escrow p s = Ok (u, s') →
  gap s' = gap s ∧ escrows s' = delete p.1 (escrows s) ∧ invites s' = invites s ∧
  ∀ n, balance_of s' n = balance_of s n + paid_to n (refund_of p).
Proof.
  unfold refund_escrow. intros Hp H. inv_eval. pose proof H as Hr.
  match type of H with remove_in _ _ ?t = _ => rename t into s3 end.
  apply gap_remove_escrow in H as (e & He & E & Hg).
  apply remove_in_Ok in Hr as (? & _ & [= _ ->]).
  assert (∀ n, balance_of s3 n = balance_of s n + paid_to n (refund_of p)) as Hb.
  { intros n. repeat match goal with H : adjust_balance _ _ _ = Ok _ |- _ =>
      apply (balance_adjust _ _ _ _ _ n) in H end.
    match goal with H : push_virtual_operation _ _ = Ok _ |- _ => injection H as _ <- end.
    unfold paid_to, refund_of, balance_of in *. cbn in *. case_decide; lia. }
  eff_facts. cbn in E |- *.
  repeat match goal with H : eff _ _ _ |- _ => destruct H as [? ? ?] end.
  replace e with p.2 in * by congruence. unfold escrow_tokens in *.
  split_and!; [lia|congruence|congruence|done].
Qed.

Lemma refund_all_Ok l s u s' :
  NoDup l.*1 → (∀ p, p ∈ l → escrows s !! p.1 = Some p.2) →
  sfor l refund_escrow s = Ok (u, s') →
  gap s' = gap s ∧ invites s' = invites s ∧
  (∀ k, escrows s' !! k = if decide (k ∈ l.*1) then None else escrows s !! k) ∧
  ∀ n, balance_of s' n = balance_of s n + received n (refund_of <$> l).
Proof.
  revert s. induction l as [|p l IH]; intros s Hnd Hl H; cbn [sfor] in H; inv_ok.
  { split_and!; [done..| |].
    - intros k. rewrite decide_False; [done|]. apply not_elem_of_nil.
    - intros n. unfold received. cbn. lia. }
  cbn in Hnd. apply NoDup_cons in Hnd as [Hp Hnd].
  match goal with H : refund_escrow _ _ = Ok _ |- _ =>
    apply refund_escrow_Ok in H as (Hg & He & Hi & Hb); [|apply Hl; by left] end.
  apply IH in H as (Hg' & Hi' & He' & Hb'); [|done|].
  - split_and!; [lia|congruence| |].
    + intros k. rewrite He', He. cbn. destruct (decide (k = p.1)) as [->|Hk].
      * rewrite lookup_delete_eq, (decide_True (P := p.1 ∈ p.1 :: l.*1)) by (by left).
        by case_decide.
      * rewrite lookup_delete_ne by done. repeat case_decide; try done; set_solver.
    + intros n. rewrite Hb', Hb. unfold received. cbn. lia.
  - intros q Hq. rewrite He, lookup_delete_ne; [apply Hl; by right|]. intros E.
    apply Hp. rewrite E. by apply list_elem_of_fmap_2.
Qed.

Lemma due_first_perm {A} (t : A → Z) P (l : list A) :
  due_first t P l ≡ₚ filter (λ x, P x = true) l.
Proof.
  unfold due_first. rewrite merge_sort_Permutation.
  induction l as [|x l IH]; [done|]. rewrite fmap_cons, !filter_cons. cbn [snd].
  case_decide; cbn; by rewrite IH.
Qed.

(** The escrows that lapse at time [now]. *)
Definition lapsed_escrows (now : Z) (s : database) : list (string * Z * escrow_object) :=
  filter (λ p, escrow_lapsed now p = true) (map_to_list (escrows s)).

Lemma expire_escrow_Ok s u s' :
  expire_escrow_ratification s = Ok (u, s') →
  gap s' = gap s ∧ invites s' = invites s ∧
  escrows s' = filter (λ p, escrow_lapsed (time (dgpo s)) p = false) (escrows s) ∧
  ∀ n, balance_of s' n =
       balance_of s n + received n (refund_of <$> lapsed_escrows (time (dgpo s)) s).
Proof.
  unfold expire_escrow_ratification. intros H.
  do 2 (apply sbind_Ok in H as (? & ? & H0 & H); apply sgets_Ok in H0; injection H0 as -> ->).
  set (now := time (dgpo s)) in *.
  assert (∀ p, p ∈ due_first (λ p, ratification_deadline p.2) (escrow_lapsed now)
                 (map_to_list (escrows s)) ↔ escrow_lapsed now p = true ∧ escrows s !! p.1 = Some p.2) as Hin.
  { intros [k e]. rewrite due_first_perm, list_elem_of_filter, elem_of_map_to_list. done. }
  apply refund_all_Ok in H as (Hg & Hi & He & Hb).
  - split_and!; [done..| |].
    + apply map_eq. intros k. rewrite He, map_lookup_filter. case_decide as Hk.
      * apply list_elem_of_fmap in Hk as ([k' e] & -> & [Hl Hke]%Hin). cbn in *. rewrite Hke. cbn.
        rewrite option_guard_False; [done|]. by rewrite Hl.
      * destruct (escrows s !! k) as [e|] eqn:Hke; cbn; [|done].
        rewrite option_guard_True; [done|]. apply not_true_iff_false. intros Hl.
        apply Hk. apply list_elem_of_fmap. exists (k, e). split; [done|]. by apply Hin.
    + intros n. rewrite Hb. f_equal. apply received_perm. by rewrite due_first_perm.
  - rewrite due_first_perm. eapply sublist_NoDup; [apply (NoDup_fst_map_to_list (escrows s))|].
    apply fmap_sublist, sublist_filter.
  - intros p Hp. by apply Hin in Hp as [_ ?].
Qed.

(** *** The committee *)

Lemma tally_votes_Ok l m a s r s' : tally_votes l m a s = Ok (r, s') → s' = s.
Proof.
  revert m a. induction l as [|v l IH]; intros m a H; cbn in H; inv_db; [done|]. by eapply IH.
Qed.

Lemma eff_cancel_request id st f s u s' : cancel_request id st f s = Ok (u, s') → eff s s' 0.
Proof. unfold cancel_request. intros H. inv_eval. eff_facts. eff_chain. Qed.

Lemma eff_conclude_request id r s u s' : conclude_request id r s = Ok (u, s') → eff s s' 0.
Proof.
  unfold conclude_request. intros H. inv_ok;
    match goal with H : tally_votes _ _ _ _ = Ok _ |- _ => apply tally_votes_Ok in H as -> end;
    inv_eval; try (by eapply eff_cancel_request); eff_facts; eff_chain.
Qed.

Lemma eff_receive n x s u s' :
  modify_account n (λ a, let? b := asset_add (balance a) x in Ok (a <| balance := b |>)) s = Ok (u, s') →
  eff s s' (amount x).
Proof. apply eff_modify_account. intros a a' _ Ha. inv_db. unfold liquid. cbn. lia. Qed.

Lemma eff_pay_request m p s u s' : pay_request m p s = Ok (u, s') → eff s s' 0.
Proof.
  unfold pay_request. intros H. inv_eval;
    repeat match goal with
    | H : modify_account _ _ _ = Ok _ |- _ => apply eff_receive in H
    | H : modify_dgpo _ _ = Ok _ |- _ =>
        apply eff_modify_dgpo in H as (q & Hq & ?)
    end; inv_ok; inv_safe; unfold fund_tokens in *; cbn in *; eff_facts; eff_chain.
Qed.

Lemma eff_committee_processing s u s' : committee_processing s = Ok (u, s') → eff s s' 0.
Proof.
  unfold committee_processing, committee_payments. intros H.
  do 2 (apply sbind_Ok in H as (? & ? & H0 & H); apply sgets_Ok in H0; injection H0 as -> ->).
  apply sbind_Ok in H as (? & s1 & Hfor & H). apply eff_sfor in Hfor.
  - inv_eval; [|done]. apply eff_sfor in H; [eff_chain|]. intros. by eapply eff_pay_request.
  - intros p s0 u0 s2 _ Hp. clear H. inv_ok; [by eapply eff_conclude_request|apply eff_refl].
Qed.

(** *** Withdrawals *)

Lemma eff_leave_pool x v s u s' : leave_pool x v s = Ok (u, s') → eff s s' (- amount x).
Proof.
  unfold leave_pool. intros (p & Hp & He)%eff_modify_dgpo. inv_db. eapply eff_eq; [exact He|].
  unfold fund_tokens. cbn. lia.
Qed.

Lemma eff_route_vests from x l t s r s' : route_vests from x l t s = Ok (r, s') → eff s s' 0.
Proof.
  revert t s. induction l as [|y l IH]; intros t s H; cbn [route_vests] in H; inv_ok;
    [apply eff_refl|..|by eapply IH];
    repeat match goal with
    | H : get_account_by_id _ _ = Ok _ |- _ => apply get_account_by_id_Ok in H; subst
    | H : adjust_proxied_validator_votes _ _ _ = Ok _ |- _ => apply eff_adjust_proxied in H
    | H : route_vests _ _ _ _ _ = Ok _ |- _ => apply IH in H
    end; eff_facts; eff_chain.
Qed.

Lemma eff_route_tokens from x l t s r s' : route_tokens from x l t s = Ok (r, s') → eff s s' 0.
Proof.
  revert t s. induction l as [|y l IH]; intros t s H; cbn [route_tokens] in H; inv_ok;
    [apply eff_refl|by eapply IH|..];
    repeat match goal with
    | H : get_account_by_id _ _ = Ok _ |- _ => apply get_account_by_id_Ok in H; subst
    | H : get_dgpo _ = Ok _ |- _ => apply sgets_Ok in H; injection H as -> ->
    | H : route_tokens _ _ _ _ _ = Ok _ |- _ => apply IH in H
    | H : leave_pool _ _ _ = Ok _ |- _ => apply eff_leave_pool in H
    | H : modify_account _ _ _ = Ok _ |- _ => apply eff_receive in H
    end; eff_facts; eff_chain.
Qed.

Lemma eff_process_withdrawal n s u s' : process_withdrawal n s = Ok (u, s') → eff s s' 0.
Proof.
  unfold process_withdrawal. intros H. inv_eval;
    match goal with Hc : asset_mul_price _ _ = Ok ?c |- _ =>
      repeat match goal with
      | H : route_vests _ _ _ _ _ = Ok _ |- _ => apply eff_route_vests in H
      | H : route_tokens _ _ _ _ _ = Ok _ |- _ => apply eff_route_tokens in H
      | H : adjust_proxied_validator_votes _ _ _ = Ok _ |- _ => apply eff_adjust_proxied in H
      | H : leave_pool _ _ _ = Ok _ |- _ => apply eff_leave_pool in H
      | H : modify_account _ _ _ = Ok _ |- _ =>
          eapply (eff_modify_account _ _ (amount c)) in H; [|eff_liquid]
      end
    end; eff_facts; eff_chain.
Qed.
End effects.

(** ** Safety of the duties *)

Section safety.
Context {CE : ChainEnv}.

(** What a block does after its transactions, the withdrawals apart. *)
Definition duty_steps : list (DB unit) :=
  [clear_expired_transactions; clear_expired_delegations; clear_used_invites;
   clear_closed_committee_requests; expire_award_shares_processing; account_recovery_processing;
   expire_escrow_ratification; committee_processing].

Lemma eff_ok s s' : holdings_ok s → eff s s' 0 → gap s' = gap s ∧ holdings_ok s'.
Proof. intros Hok H. eapply keeps_ok; [done|]. by eapply eff_keeps. Qed.

(** C34 (safety).  The duties of a block move tokens but neither create nor
    destroy them: returning delegations, refunding escrows that were not
    ratified, paying the committee's requests, dropping used invites and the
    withdrawal of an account's vesting shares all leave the difference between
    the recorded supply and the tokens held as it was, and keep the invariants
    of escrows and invites. *)
Theorem duties_conserve step s u s' :
  step ∈ duty_steps ∨ (∃ n, step = process_withdrawal n) →
  holdings_ok s → step s = Ok (u, s') → gap s' = gap s ∧ holdings_ok s'.
Proof.
  intros Hin Hok H. destruct Hin as [Hin|[n ->]]; [|eauto using eff_ok, eff_process_withdrawal].
  unfold duty_steps in Hin. repeat rewrite elem_of_cons in Hin.
  destruct Hin as [->|[->|[->|[->|[->|[->|[->|[->|?%elem_of_nil]]]]]]]]; [..|done].
  - apply eff_ok; [done|]. by eapply eff_supd_same.
  - eauto using eff_ok, eff_clear_expired_delegations.
  - apply gap_clear_used_invites in H as (? & ? & ?); [|apply Hok].
    split; [done|]. split; [|done]. by eapply escrows_ok_same; [apply Hok|].
  - apply eff_ok; [done|]. unfold clear_closed_committee_requests in H. inv_db. by apply eff_same.
  - eauto using eff_ok, eff_expire_award_shares.
  - eauto using eff_ok, eff_account_recovery.
  - apply expire_escrow_Ok in H as (? & Hi & He & _). split; [done|]. split.
    + intros k e. rewrite He. intros [Hk _]%map_lookup_filter_Some. by eapply Hok.
    + eapply invites_ok_same; [done|apply Hok].
  - eauto using eff_ok, eff_committee_processing.
Qed.

(** Exactly the escrows that were not approved by their
    deadline go, and no others; every account gets back what its lapsed escrows
    held, the fee included, and no other balance changes. *)
Theorem expired_escrows_refunded s u s' :
  expire_escrow_ratification s = Ok (u, s') →
  escrows s' = filter (λ p, escrow_lapsed (time (dgpo s)) p = false) (escrows s) ∧
  ∀ n, balance_of s' n =
       balance_of s n + received n (refund_of <$> lapsed_escrows (time (dgpo s)) s).
Proof. intros H. by apply expire_escrow_Ok in H as (_ & _ & ?). Qed.
End safety.

Section committee.
Context {CE : ChainEnv}.

(** No request is paid more than it was granted. *)
Definition remains_ok (s : database) : Prop :=
  ∀ id r, committee_requests s !! id = Some r → 0 ≤ amount (remain_payout_amount r).

Lemma remains_insert s s' id r :
  remains_ok s → 0 ≤ amount (remain_payout_amount r) →
  committee_requests s' = <[id := r]> (committee_requests s) → remains_ok s'.
Proof.
  intros Hok Hr E id' r'. rewrite E. intros [[_ <-]|[_ ?]]%lookup_insert_Some; [done|eauto].
Qed.

Lemma pay_request_bound m p s u s' :
  0 ≤ m → remains_ok s → pay_request m p s = Ok (u, s') →
  remains_ok s' ∧
  amount (committee_fund (dgpo s)) - m ≤ amount (committee_fund (dgpo s'))
    ≤ amount (committee_fund (dgpo s)).
Proof.
  unfold pay_request. intros Hm Hok H.
  apply sbind_Ok in H as (c & ? & Hc & H). apply get_in_Ok in Hc as (c' & Hc & [= -> ->]).
  pose proof (Hok _ _ Hc) as Hrem.
  set (pay := Z.min m (amount (remain_payout_amount c'))) in *.
  assert (0 ≤ pay ≤ m ∧ pay ≤ amount (remain_payout_amount c')) as [Hpay Hle] by lia. clearbody pay.
  inv_db;
    repeat match goal with
    | H : modify_account _ _ _ = Ok _ |- _ => apply modify_in_Ok in H; destruct H as (? & ? & ? & ? & H)
    | H : modify_in _ _ _ _ = Ok _ |- _ => apply modify_in_Ok in H; destruct H as (? & ? & ? & ? & H)
    | H : modify_dgpo _ _ = Ok _ |- _ => apply modify_dgpo_Ok in H; destruct H as (? & ? & H)
    | H : push_virtual_operation _ _ = Ok _ |- _ => injection H as ? ?; subst
    end; inv_ok; inv_safe; cbn in *; simplify_map_eq; (split; [|lia]); intros id r; cbn;
    repeat first [intros [[_ <-]|[_ Hin]]%lookup_insert_Some; [cbn; lia|] | rewrite lookup_insert_Some in Hin;
      destruct Hin as [[_ <-]|[_ Hin]]; [cbn; lia|]]; eauto.
Qed.

(** The committee never pays more than it has: with [n] open
    requests each payment is at most a part [1/(n+1)] of the fund and at most
    what the request was granted and has not got yet, so that the fund stays
    non-negative and nothing is overpaid. *)
Theorem committee_payments_bounded s u s' :
  0 ≤ amount (committee_fund (dgpo s)) → remains_ok s → committee_payments s = Ok (u, s') →
  0 ≤ amount (committee_fund (dgpo s')) ≤ amount (committee_fund (dgpo s)) ∧ remains_ok s'.
Proof.
  unfold committee_payments. intros H0 Hok H. inv_ok.
  match goal with H : get_dgpo _ = Ok _ |- _ => apply sgets_Ok in H; injection H as -> -> end.
  inv_safe. set (l := requests_with s 4) in *. set (f := amount (committee_fund (dgpo s))) in *.
  set (m := Z.quot f (Z.of_nat (length l) + 1)) in *.
  assert (0 ≤ m ∧ (Z.of_nat (length l) + 1) * m ≤ f) as [Hm0 Hm].
  { split; [apply Z.quot_pos; lia|]. apply Z.mul_quot_le; lia. }
  cut (∀ l s, remains_ok s → sfor l (pay_request m) s = Ok (u, s') →
    remains_ok s' ∧ amount (committee_fund (dgpo s)) - Z.of_nat (length l) * m
      ≤ amount (committee_fund (dgpo s')) ≤ amount (committee_fund (dgpo s))).
  { intros Hall. apply Hall in H as [? ?]; [|done]. fold f in H. split; [lia|done]. }
  clearbody m. clear -Hm0. intros l. induction l as [|p l IH]; intros s Hok H; cbn [sfor] in H; inv_ok.
  { split; [done|]. cbn. lia. }
  match goal with H : pay_request _ _ _ = Ok _ |- _ => apply pay_request_bound in H as [? ?]; [|done..] end.
  apply IH in H as [? ?]; [|done]. split; [done|]. cbn [length]. lia.
Qed.
End committee.

(** ** The theorems on the small chain *)

(** Alice has an escrow whose deadline has passed, and the committee owes
    Bob 700000. *)
Definition late_db : database :=
  test_db
    <| escrows := <[("alice"%string, 1) :=
         {| esc_to := "bob"; esc_agent := "carol"; ratification_deadline := 1000000;
            escrow_expiration := 1000200; token_balance := token 5000; pending_fee := token 100;
            to_approved := true; agent_approved := false; disputed := false |}]> ∅ |>
    <| committee_requests := <[1 := mk_committee_request "url" "alice" "bob" (token 1) (token 700000)
         0 86400 86400 4 1 86400 (token 700000) (token 0) (token 700000) 0 0]> ∅ |>
    <| dgpo ::= λ p, p <| head_block_number := 400 |> |>.

Lemma late_db_holdings : holdings_ok late_db.
Proof.
  split; intros k x Hk; cbn in Hk.
  - apply lookup_insert_Some in Hk as [[_ <-]|[_ Hk]]; [done|]. by rewrite lookup_empty in Hk.
  - by rewrite lookup_empty in Hk.
Qed.

Lemma late_db_remains : remains_ok late_db.
Proof.
  intros k x Hk. cbn in Hk. apply lookup_insert_Some in Hk as [[_ <-]|[_ Hk]]; [cbn; lia|].
  by rewrite lookup_empty in Hk.
Qed.

Lemma duties_conserve_witness :
  let run := @committee_processing test_env in
  run late_db = Ok (tt, after run late_db) ∧
  balance_of (after run late_db) "bob" = 200500000 ∧
  gap (after run late_db) = gap late_db ∧ holdings_ok (after run late_db).
Proof.
  intros run. assert (run late_db = Ok (tt, after run late_db)) as H
    by (apply after_Ok; vm_compute; reflexivity).
  split; [exact H|]. split; [vm_compute; reflexivity|].
  refine (@duties_conserve test_env run late_db tt _ _ late_db_holdings H).
  left. unfold duty_steps. do 7 right. left.
Defined.

Lemma expired_escrows_refunded_witness :
  let run := @expire_escrow_ratification test_env in
  escrows (after run late_db) = ∅ ∧ balance_of (after run late_db) "alice" = 500005100.
Proof.
  intros run. assert (run late_db = Ok (tt, after run late_db)) as H
    by (apply after_Ok; vm_compute; reflexivity).
  destruct (@expired_escrows_refunded test_env late_db tt _ H) as [He Hb].
  split; [rewrite He; vm_compute; reflexivity|]. rewrite Hb. vm_compute. reflexivity.
Defined.

Lemma committee_payments_bounded_witness :
  let run := @committee_payments test_env in
  amount (committee_fund (dgpo (after run late_db))) = 500000 ∧ remains_ok (after run late_db).
Proof.
  intros run. assert (run late_db = Ok (tt, after run late_db)) as H
    by (apply after_Ok; vm_compute; reflexivity).
  split; [vm_compute; reflexivity|].
  refine (proj2 (@committee_payments_bounded test_env late_db tt _ _ late_db_remains H)).
  vm_compute. discriminate.
Defined.
