(* ===== verification/Withdrawals.v ===== *)
(** * The withdrawals of a block (libraries/chain/database.cpp, lines 3717-3844)

    [process_vesting_withdrawals] walks the index of accounts by
    [(next_vesting_withdrawal, id)] while it changes the dates in it.  The
    iterator moves on before an account is processed, so an account that is
    late by more than a day can come up again in the same block, or stay due. *)

From stdpp Require Import gmap strings list sorting.
From Stdlib Require Import ZArith Lia.
From S2P Require Import Prelude Fc Text Asset Authority Objects Database Supply Frame Scenario.
From S2P Require Import EvalTransfer Funds Duties.

(** The key of the index [by_next_vesting_withdrawal]. *)
Definition due_key (a : account_object) : Z * Z := (next_vesting_withdrawal a, acc_id a).

Definition key_lt (k k' : Z * Z) : Prop := k.1 < k'.1 ∨ (k.1 = k'.1 ∧ k.2 < k'.2).
#[export] Instance key_lt_dec k k' : Decision (key_lt k k').
Proof. unfold key_lt. apply _. Defined.

Definition by_due : relation (string * (Z * Z)) := λ p q, ¬ key_lt q.2 p.2.
#[export] Instance by_due_dec : RelDecision by_due := λ p q, decide (¬ key_lt q.2 p.2).

(** The index, as a map from names to keys. *)
Definition dates (s : database) : gmap string (Z * Z) := view due_key s.

(** The element of the index at the first key for which [P] holds. *)
Definition first_key (P : Z * Z → Prop) `{∀ k, Decision (P k)} (s : database) : option string :=
  fst <$> head (merge_sort by_due (filter (λ p, P p.2) (map_to_list (dates s)))).

Section withdrawals.
Context {CE : ChainEnv}.

(** The loop from iterator [current]; the result tells whether it has come to
    its end, as opposed to the end of [fuel]. *)
Fixpoint visit_withdrawals (fuel : nat) (current : option string) : DB bool :=
  match current with
  | None => sret true
  | Some n =>
      let* from_account := get_account n in
      let* now := head_block_time in
      if next_vesting_withdrawal from_account <=? now
      then
        match fuel with
        | O => sret false
        | S fuel =>
            let* next := sgets (first_key (key_lt (due_key from_account))) in
            do* process_withdrawal n in
            visit_withdrawals fuel next
        end
      else sret true
  end.

(** How often an account with key [d] can come up by time [now]. *)
Definition visits_left (now : Z) (d : Z * Z) : Z :=
  if d.1 <=? now then (now - d.1) / CHAIN_VESTING_WITHDRAW_INTERVAL_SECONDS + 1 else 0.

Definition withdrawal_fuel (s : database) : nat :=
  Z.to_nat (msum (visits_left (time (dgpo s))) (dates s)).

Definition process_vesting_withdrawals : DB bool :=
  let* fuel := sgets withdrawal_fuel in
  let* current := sgets (first_key (λ _, True)) in
  visit_withdrawals fuel current.

(** ** What one withdrawal does to the dates *)

Abbreviation same_dates := (same_view due_key).

#[export] Instance same_dates_frame : VoteFrame same_dates.
Proof. apply same_view_frame. by intros a a' ->. Qed.

Lemma same_dates_leave_pool x v s u s' : leave_pool x v s = Ok (u, s') → same_dates s s'.
Proof. unfold leave_pool. intros (p & Hp & [= _ ->])%modify_dgpo_Ok. by inv_ok. Qed.

Lemma same_dates_recalc n x s u s' : shares_sender_recalc_energy n x s = Ok (u, s') → same_dates s s'.
Proof.
  unfold shares_sender_recalc_energy. intros H. inv_db; [|done].
  eapply same_view_modify; [|done]. intros a a' Ha. by inv_ok.
Qed.

(** The dates along a sequence of steps. *)
Ltac dates_facts :=
  repeat match goal with
  | H : modify_account _ _ _ = Ok _ |- _ => apply (same_view_modify due_key) in H; [|by intros; inv_ok]
  | H : adjust_proxied_validator_votes _ _ _ = Ok _ |- _ => apply (frame_adjust_proxied same_dates) in H
  | H : push_virtual_operation _ _ = Ok _ |- _ => apply (same_view_push due_key) in H
  | H : get_account_by_id _ _ = Ok _ |- _ => apply get_account_by_id_Ok in H; subst
  | H : leave_pool _ _ _ = Ok _ |- _ => apply same_dates_leave_pool in H
  | H : shares_sender_recalc_energy _ _ _ = Ok _ |- _ => apply same_dates_recalc in H
  end.
Ltac dates_chain := first [reflexivity | eassumption | etrans; [eassumption|dates_chain]].

Lemma same_dates_route_vests from x l t s r s' :
  route_vests from x l t s = Ok (r, s') → same_dates s s'.
Proof.
  revert t s. induction l as [|p l IH]; intros t s H; cbn [route_vests] in H; inv_db;
    try match goal with H : route_vests _ _ _ _ _ = Ok _ |- _ => apply IH in H end;
    dates_facts; dates_chain.
Qed.

Lemma same_dates_route_tokens from x l t s r s' :
  route_tokens from x l t s = Ok (r, s') → same_dates s s'.
Proof.
  revert t s. induction l as [|p l IH]; intros t s H; cbn [route_tokens] in H; inv_db;
    try match goal with H : route_tokens _ _ _ _ _ = Ok _ |- _ => apply IH in H end;
    dates_facts; dates_chain.
Qed.

(** The next date of an account that is processed at date [d]. *)
Definition next_date (d d' : Z * Z) : Prop :=
  d'.2 = d.2 ∧
  (d'.1 = time_point_sec_maximum ∨ d'.1 = u32 (d.1 + CHAIN_VESTING_WITHDRAW_INTERVAL_SECONDS)).

Lemma process_withdrawal_dates n s u s' :
  process_withdrawal n s = Ok (u, s') →
  ∃ d d', dates s !! n = Some d ∧ next_date d d' ∧
    dates s' = <[n := d']> (dates s) ∧ time (dgpo s') = time (dgpo s).
Proof.
  unfold process_withdrawal. intros H. inv_db;
    repeat match goal with
    | H : route_vests _ _ _ _ _ = Ok _ |- _ => apply same_dates_route_vests in H
    | H : route_tokens _ _ _ _ _ = Ok _ |- _ => apply same_dates_route_tokens in H
    | H : modify_account _ _ _ = Ok _ |- _ =>
        apply (view_modify due_key) in H; destruct H as (a & a' & Ha & Hfa & Hd & Ht)
    end; dates_facts;
    match type of Ha with accounts ?t !! _ = _ => assert (same_dates s t) as [Ed Et] by dates_chain end;
    match type of Hd with view _ ?t = _ => match goal with |- context [time (dgpo ?t') = _] =>
      assert (same_dates t t') as [Ed' Et'] by dates_chain end end;
    exists (due_key a), (due_key a'); (split_and!; [|split| |]); unfold dates; try congruence.
  all: try (unfold dates; rewrite <- Ed; by apply view_get).
  all: inv_ok; case_match; cbn; auto.
Qed.

(** ** The loop comes to its end *)

Lemma visits_left_nonneg now d : 0 ≤ visits_left now d.
Proof.
  unfold visits_left, CHAIN_VESTING_WITHDRAW_INTERVAL_SECONDS. case_match; [|lia]. propify.
  pose proof (Z.div_pos (now - d.1) (60 * 60 * 24)). lia.
Qed.

Lemma visits_left_step now d d' :
  0 ≤ d.1 ≤ now → now + CHAIN_VESTING_WITHDRAW_INTERVAL_SECONDS < 2 ^ 32 → next_date d d' →
  visits_left now d' + 1 ≤ visits_left now d.
Proof.
  unfold next_date, visits_left, time_point_sec_maximum, u32, CHAIN_VESTING_WITHDRAW_INTERVAL_SECONDS.
  intros Hd Hn [_ Hd']. rewrite (proj2 (Z.leb_le d.1 now)) by lia.
  pose proof (Z.div_pos (now - d.1) (60 * 60 * 24)).
  assert (d'.1 = d.1 + 60 * 60 * 24 ∨ now < d'.1) as [->|Hl].
  { destruct Hd' as [->| ->]; [right; lia|left; apply Z.mod_small; lia]. }
  - case_match; propify; [|lia].
    replace (now - (d.1 + 60 * 60 * 24)) with (now - d.1 + (-1) * (60 * 60 * 24)) by lia.
    rewrite Z.div_add by lia. lia.
  - rewrite (proj2 (Z.leb_gt d'.1 now)) by lia. lia.
Qed.

(** Dates are unsigned, and a day from now still fits. *)
Definition dates_ok (s : database) : Prop :=
  (∀ n d, dates s !! n = Some d → 0 ≤ d.1) ∧
  time (dgpo s) + CHAIN_VESTING_WITHDRAW_INTERVAL_SECONDS < 2 ^ 32.

Lemma process_withdrawal_measure n s u s' d :
  dates_ok s → dates s !! n = Some d → d.1 ≤ time (dgpo s) → process_withdrawal n s = Ok (u, s') →
  dates_ok s' ∧ time (dgpo s') = time (dgpo s) ∧
  msum (visits_left (time (dgpo s))) (dates s') + 1 ≤ msum (visits_left (time (dgpo s))) (dates s).
Proof.
  intros [Hpos Hn] Hd Hdue H.
  apply process_withdrawal_dates in H as (d0 & d' & Hd0 & Hnext & Es & Et).
  rewrite Hd in Hd0. injection Hd0 as <-. split_and!; [|done|].
  - split; [|by rewrite Et]. rewrite Es. intros m dm [[_ <-]|[_ ?]]%lookup_insert_Some; [|eauto].
    destruct Hnext as [_ [->| ->]]; unfold time_point_sec_maximum, u32; [lia|].
    pose proof (Z.mod_pos_bound (d.1 + CHAIN_VESTING_WITHDRAW_INTERVAL_SECONDS) (2 ^ 32)). lia.
  - rewrite Es, (msum_insert _ _ n d) by done.
    pose proof (visits_left_step (time (dgpo s)) d d') as Hs. specialize (Hpos n d Hd).
    specialize (Hs ltac:(lia) Hn Hnext). lia.
Qed.

Lemma dates_get n s a : accounts s !! n = Some a → dates s !! n = Some (due_key a).
Proof. apply view_get. Qed.

Lemma visit_some fuel n s :
  visit_withdrawals fuel (Some n) s =
  match accounts s !! n with
  | None => Err (E_not_found "account")
  | Some a =>
      if next_vesting_withdrawal a <=? time (dgpo s)
      then
        match fuel with
        | O => Ok (false, s)
        | S fuel =>
            match process_withdrawal n s with
            | Ok (_, s1) => visit_withdrawals fuel (first_key (key_lt (due_key a)) s) s1
            | Err e => Err e
            end
        end
      else Ok (true, s)
  end.
Proof.
  destruct fuel; cbn [visit_withdrawals]; unfold sbind, get_account, get_in, head_block_time, sgets;
    destruct (accounts s !! n); cbn; try done; case_match; try done.
Qed.

Lemma visit_complete fuel fuel' cur s :
  dates_ok s → msum (visits_left (time (dgpo s))) (dates s) ≤ Z.of_nat fuel → (fuel ≤ fuel')%nat →
  visit_withdrawals fuel' cur s = visit_withdrawals fuel cur s ∧
  ∀ b s', visit_withdrawals fuel cur s = Ok (b, s') → b = true.
Proof.
  revert fuel' cur s. induction fuel as [|fuel IH]; intros fuel' cur s Hok Hf Hle.
  all: destruct cur as [n|]; [|destruct fuel'; (split; [done|by intros b s' [= <- _]])].
  all: rewrite !visit_some; destruct (accounts s !! n) as [a|] eqn:Ha; [|done].
  all: destruct (next_vesting_withdrawal a <=? time (dgpo s)) eqn:Hdue; [|by split; [|intros b s' [= <- _]]].
  all: propify; apply dates_get in Ha.
  - exfalso. pose proof (msum_elem_le _ _ n _ (λ k v _, visits_left_nonneg (time (dgpo s)) v) Ha) as Hm.
    unfold visits_left at 1, due_key in Hm. cbn in Hm. rewrite (proj2 (Z.leb_le _ _) Hdue) in Hm.
    pose proof (Z.div_pos (time (dgpo s) - next_vesting_withdrawal a) CHAIN_VESTING_WITHDRAW_INTERVAL_SECONDS).
    unfold CHAIN_VESTING_WITHDRAW_INTERVAL_SECONDS in *. lia.
  - destruct fuel' as [|fuel']; [lia|]. destruct (process_withdrawal n s) as [[u1 s1]|] eqn:Hp; [|done].
    apply (process_withdrawal_measure n s _ _ _ Hok Ha Hdue) in Hp as (Hok1 & Et & Hm).
    apply IH; [done|rewrite Et; lia|lia].
Qed.

(** ** After the loop nothing is due *)

Lemma key_lt_trans k1 k2 k3 : key_lt k1 k2 → key_lt k2 k3 → key_lt k1 k3.
Proof. unfold key_lt. lia. Qed.

#[local] Instance by_due_total : Total by_due.
Proof. intros p q. unfold by_due, key_lt. lia. Qed.
#[local] Instance by_due_trans : Transitive by_due.
Proof. intros p q r. unfold by_due, key_lt. lia. Qed.

Lemma first_key_spec P `{∀ k, Decision (P k)} s :
  match first_key P s with
  | Some n => ∃ d, dates s !! n = Some d ∧ P d ∧
      ∀ m d', dates s !! m = Some d' → P d' → ¬ key_lt d' d
  | None => ∀ m d', dates s !! m = Some d' → ¬ P d'
  end.
Proof.
  unfold first_key. set (l := filter _ _).
  assert (∀ m d, (m, d) ∈ merge_sort by_due l ↔ P d ∧ dates s !! m = Some d) as Hin.
  { intros m d. rewrite merge_sort_Permutation. unfold l.
    by rewrite list_elem_of_filter, elem_of_map_to_list. }
  pose proof (StronglySorted_merge_sort by_due l) as Hs.
  destruct (merge_sort by_due l) as [|[n d] l']; cbn.
  - intros m d' Hm HP. apply (not_elem_of_nil (m, d')), Hin. done.
  - exists d. split_and!; [by apply (Hin n d); left|by apply (Hin n d); left|].
    intros m d' Hm HP. assert ((m, d') ∈ (n, d) :: l') as [[= <- <-]|Hl]%elem_of_cons by (by apply Hin).
    { unfold key_lt. lia. }
    apply StronglySorted_inv in Hs as [_ Hall]. rewrite Forall_forall in Hall. exact (Hall _ Hl).
Qed.

Definition ids_unique (s : database) : Prop :=
  ∀ n m d d', dates s !! n = Some d → dates s !! m = Some d' → d.2 = d'.2 → n = m.

(** Nobody is late by a day. *)
Definition punctual (s : database) : Prop :=
  ∀ n d, dates s !! n = Some d → time (dgpo s) < d.1 + CHAIN_VESTING_WITHDRAW_INTERVAL_SECONDS.

(** Everything that is due is at the iterator or behind it. *)
Definition front (cur : option string) (s : database) : Prop :=
  match cur with
  | Some n => ∃ k, dates s !! n = Some k ∧
      ∀ m d, dates s !! m = Some d → d.1 ≤ time (dgpo s) → ¬ key_lt d k
  | None => ∀ m d, dates s !! m = Some d → time (dgpo s) < d.1
  end.

Lemma front_first s : front (first_key (λ _, True) s) s.
Proof.
  pose proof (first_key_spec (λ _, True) s) as H. destruct (first_key _ s) as [n|]; cbn.
  - destruct H as (d & Hd & _ & Hmin). exists d. split; [done|]. eauto.
  - intros m d Hm. exfalso. by apply (H m d).
Qed.

Lemma front_next n d s u s' :
  dates_ok s → ids_unique s → punctual s → dates s !! n = Some d → d.1 ≤ time (dgpo s) →
  (∀ m d', dates s !! m = Some d' → d'.1 ≤ time (dgpo s) → ¬ key_lt d' d) →
  process_withdrawal n s = Ok (u, s') →
  ids_unique s' ∧ punctual s' ∧ front (first_key (key_lt d) s) s'.
Proof.
  intros [Hpos Hfit] Huniq Hpun Hd Hdue Hmin H.
  apply process_withdrawal_dates in H as (d0 & d' & Hd0 & [Hid Hnext] & Es & Et).
  rewrite Hd in Hd0. injection Hd0 as <-.
  assert (time (dgpo s) < d'.1) as Hlater.
  { specialize (Hpos n d Hd). specialize (Hpun n d Hd). unfold u32, time_point_sec_maximum in Hnext.
    unfold CHAIN_VESTING_WITHDRAW_INTERVAL_SECONDS in *.
    destruct Hnext as [->| ->]; [lia|]. rewrite Z.mod_small; lia. }
  assert (∀ m dm, dates s' !! m = Some dm → (m = n ∧ dm = d') ∨ (m ≠ n ∧ dates s !! m = Some dm)) as Hl.
  { rewrite Es. intros m dm [[-> <-]|[Hne ?]]%lookup_insert_Some; [by left|by right]. }
  split_and!.
  - intros m1 m2 d1 d2 [[-> ->]|[H1 E1]]%Hl [[-> ->]|[H2 E2]]%Hl; [done|..|by apply Huniq].
    + rewrite Hid. by apply Huniq.
    + rewrite Hid. by apply Huniq.
  - unfold punctual. rewrite Et. intros m dm [[-> ->]|[_ E]]%Hl; [|by eapply Hpun].
    unfold CHAIN_VESTING_WITHDRAW_INTERVAL_SECONDS. lia.
  - assert (∀ m dm, dates s' !! m = Some dm → dm.1 ≤ time (dgpo s) →
      dates s !! m = Some dm ∧ key_lt d dm) as Hrest.
    { intros m dm [[-> ->]|[Hne E]]%Hl Hm; [lia|]. split; [done|]. pose proof (Hmin m dm E Hm).
      assert (dm.2 ≠ d.2) by (intros Ei; apply Hne; by apply (Huniq m n dm d)).
      unfold key_lt in *. lia. }
    pose proof (first_key_spec (key_lt d) s) as Hf. destruct (first_key (key_lt d) s) as [n2|]; cbn.
    + destruct Hf as (d2 & Hd2 & Hlt & Hmin2). exists d2. rewrite Et, Es. split.
      * rewrite lookup_insert_ne; [done|]. intros ->. rewrite Hd in Hd2. injection Hd2 as <-.
        unfold key_lt in Hlt. lia.
      * rewrite <- Es. intros m dm Hm Hmd. apply (Hrest m dm) in Hm as [E Hk]; [|done]. eauto.
    + rewrite Et. intros m dm Hm. destruct (Z.lt_ge_cases (time (dgpo s)) dm.1); [done|].
      exfalso. apply (Hrest m dm) in Hm as [E Hk]; [|done]. by apply (Hf m dm).
Qed.

Lemma visit_clears fuel cur s s' :
  dates_ok s → ids_unique s → punctual s → front cur s →
  visit_withdrawals fuel cur s = Ok (true, s') →
  ∀ n d, dates s' !! n = Some d → time (dgpo s') < d.1.
Proof.
  revert cur s. induction fuel as [|fuel IH]; intros cur s Hok Hu Hp Hf H.
  all: destruct cur as [n|]; [|injection H as <-; exact Hf].
  all: rewrite visit_some in H; destruct (accounts s !! n) as [a|] eqn:Ha; [|done]; apply dates_get in Ha.
  all: destruct Hf as (k & Hk & Hmin); rewrite Ha in Hk; injection Hk as <-.
  all: destruct (next_vesting_withdrawal a <=? time (dgpo s)) eqn:Hdue; propify.
  - done.
  - injection H as <-. intros m d Hm. apply Z.nle_gt. intros Hle. specialize (Hmin m d Hm Hle).
    unfold key_lt, due_key in Hmin. cbn in Hmin. lia.
  - destruct (process_withdrawal n s) as [[u1 s1]|] eqn:Hw; [|done].
    destruct (process_withdrawal_measure n s u1 s1 _ Hok Ha Hdue Hw) as (Hok1 & _ & _).
    destruct (front_next n _ s u1 s1 Hok Hu Hp Ha Hdue Hmin Hw) as (Hu1 & Hp1 & Hf1).
    by eapply IH.
  - injection H as <-. intros m d Hm. apply Z.nle_gt. intros Hle. specialize (Hmin m d Hm Hle).
    unfold key_lt, due_key in Hmin. cbn in Hmin. lia.
Qed.

Lemma eff_visit fuel cur s b s' : visit_withdrawals fuel cur s = Ok (b, s') → eff s s' 0.
Proof.
  revert cur s. induction fuel as [|fuel IH]; intros cur s H.
  all: destruct cur as [n|]; [|injection H as _ <-; apply eff_refl].
  all: rewrite visit_some in H; repeat case_match; simplify_eq; try apply eff_refl.
  all: match goal with H : process_withdrawal _ _ = Ok _ |- _ => apply eff_process_withdrawal in H end.
  all: eapply (eff_trans _ _ _ 0 0); eauto.
Qed.

(** The loop over the withdrawals that are due ends, though
    it changes the index that it walks and can come back to an account: more
    fuel than [withdrawal_fuel] changes nothing, and when no step throws the
    loop has come to its end, with the tokens conserved. *)
Theorem withdrawals_terminate s :
  dates_ok s →
  (∀ fuel, (withdrawal_fuel s ≤ fuel)%nat →
     visit_withdrawals fuel (first_key (λ _, True) s) s = process_vesting_withdrawals s) ∧
  ∀ b s', process_vesting_withdrawals s = Ok (b, s') → b = true ∧ gap s' = gap s.
Proof.
  intros Hok. unfold process_vesting_withdrawals, sbind, sgets.
  assert (msum (visits_left (time (dgpo s))) (dates s) ≤ Z.of_nat (withdrawal_fuel s)) as Hf
    by (unfold withdrawal_fuel; lia).
  split.
  - intros fuel Hle. by apply (visit_complete (withdrawal_fuel s) fuel _ s Hok Hf).
  - intros b s' H. split.
    + by eapply (visit_complete (withdrawal_fuel s) (withdrawal_fuel s) _ s Hok Hf).
    + apply eff_visit in H as [Hg _ _]. lia.
Qed.

(** When no withdrawal is late by a day, the block leaves none
    that is due: each account due was paid its part and put off. *)
Theorem withdrawals_on_time s b s' :
  dates_ok s → ids_unique s → punctual s → process_vesting_withdrawals s = Ok (b, s') →
  ∀ n a, accounts s' !! n = Some a → time (dgpo s') < next_vesting_withdrawal a.
Proof.
  intros Hok Hu Hp H n a Ha. unfold process_vesting_withdrawals, sbind, sgets in H.
  assert (b = true) as ->.
  { eapply (visit_complete (withdrawal_fuel s) (withdrawal_fuel s) _ s Hok); [|done|exact H].
    unfold withdrawal_fuel. lia. }
  apply dates_get in Ha. by eapply visit_clears in H; [|done|done|done|apply front_first|exact Ha].
Qed.
End withdrawals.

(** ** On the small chain *)

(** Alice withdraws 100000 of her shares a day, half of it to Bob. *)
Definition withdrawing_db : database :=
  test_db
    <| accounts ::= alter (λ a, a <| next_vesting_withdrawal := 999999 |>
         <| vesting_withdraw_rate := shares 100000 |> <| to_withdraw := 1000000 |>) "alice" |>
    <| accounts ::= fmap (λ a, if bool_decide (acc_name a = "alice") then a
         else a <| next_vesting_withdrawal := time_point_sec_maximum |>) |>
    <| routes := <[(1, 2) := {| route_percent := 5000; auto_vest := false |}]> ∅ |>.

(** A property of all dates, decided. *)
Ltac decide_dates :=
  match goal with |- ∀ n d, dates ?s !! n = Some d → @?P n d =>
    change (map_Forall P (dates s)); apply (bool_decide_unpack _); vm_compute; exact I
  end.

Lemma withdrawing_dates : dates_ok withdrawing_db ∧ ids_unique withdrawing_db ∧ punctual withdrawing_db.
Proof.
  split_and!; [split| |].
  - decide_dates.
  - vm_compute. reflexivity.
  - intros n m d d' Hn Hm Hid. revert m d' Hm Hid. revert n d Hn. decide_dates.
  - unfold punctual. decide_dates.
Qed.

Lemma withdrawals_terminate_witness :
  let run := @process_vesting_withdrawals test_env in
  run withdrawing_db = Ok (true, after run withdrawing_db) ∧
  @visit_withdrawals test_env 1000 (first_key (λ _, True) withdrawing_db) withdrawing_db = run withdrawing_db ∧
  gap (after run withdrawing_db) = gap withdrawing_db.
Proof.
  intros run.
  assert (run withdrawing_db = Ok (true, after run withdrawing_db)) as H by (vm_compute; reflexivity).
  destruct withdrawing_dates as [Hok _].
  destruct (@withdrawals_terminate test_env withdrawing_db Hok) as [Hf He].
  split; [exact H|]. split; [|exact (proj2 (He _ _ H))].
  apply Hf. apply Nat.leb_le. vm_compute. reflexivity.
Defined.

Lemma withdrawals_on_time_witness :
  let run := @process_vesting_withdrawals test_env in
  balance_of (after run withdrawing_db) "bob" = 200000050 ∧
  ∀ n a, accounts (after run withdrawing_db) !! n = Some a →
    time (dgpo (after run withdrawing_db)) < next_vesting_withdrawal a.
Proof.
  intros run.
  assert (run withdrawing_db = Ok (true, after run withdrawing_db)) as H by (vm_compute; reflexivity).
  destruct withdrawing_dates as (Hok & Hu & Hp).
  split; [vm_compute; reflexivity|].
  exact (@withdrawals_on_time test_env withdrawing_db true _ Hok Hu Hp H).
Defined.
