(* ===== verification/Auctions.v ===== *)
(** * The end of auctions (libraries/chain/database.cpp, lines 4419-4690)

    [account_on_auction_expiration] sells the accounts whose auction is over to
    their bidders.  The index [by_account_on_auction] is not unique: the order
    of the accounts in it depends on the order in which the flags were set,
    which the state does not record, so the order is an argument here and the
    theorems hold for each. *)

From stdpp Require Import gmap strings list sorting.
From Stdlib Require Import ZArith Lia.
From S2P Require Import Prelude Fc Text Asset Authority Objects Database Supply Frame Scenario.
From S2P Require Import EvalTransfer EvalAccount.

Section auctions.
Context {CE : ChainEnv}.

(** The sale does not take place: the bid is returned, the sale cleared.  (The
    code clears [target_buyer] where there is one.) *)
Definition call_off_sale (n : string) : DB unit :=
  do* return_bid n in
  modify_account n (λ a,
    Ok (clear_auction
      (a <| account_on_sale := false |> <| account_offer_price := token 0 |>
         <| account_on_sale_start_time := time_point_sec_min |> <| target_buyer := ""%string |>))).

(** The account goes to its bidder, the bid to the seller. *)
Definition sell_to_bidder (n : string) : DB unit :=
  let* account := get_account n in
  let* bidder := get_account (current_bidder account) in
  let* seller := get_account (account_seller account) in
  let key := current_bidder_key account in
  do* modify_account (current_bidder account) (λ ab,
    let? r := asset_sub (reserved_balance ab) (current_bid account) in
    Ok (ab <| reserved_balance := r |>)) in
  do* modify_account (account_seller account) (λ a,
    let? b := asset_add (balance a) (current_bid account) in Ok (a <| balance := b |>)) in
  do* push_virtual_operation
    (account_sale_operation n (current_bid account) (current_bidder account) (acc_name seller)) in
  let* auth := get_in authorities "account_authority" n in
  let* now := head_block_time in
  do* modify_in authorities n (λ _, Ok (single_key_auths key now)) in
  modify_account n (λ a,
    Ok (clear_auction
      (a <| account_seller := ""%string |> <| account_on_sale := false |>
         <| account_offer_price := token 0 |> <| account_on_sale_start_time := time_point_sec_min |>
         <| target_buyer := ""%string |> <| subaccount_seller := ""%string |>
         <| subaccount_offer_price := token 0 |> <| subaccount_on_sale := false |>
         <| memo_key := key |> <| recovery_account := acc_name bidder |>
         <| last_account_update := now |>))).

(** The auction of account [n], if it is over. *)
Definition expire_auction (n : string) : DB unit :=
  let* account := get_account n in
  let* now := head_block_time in
  swhen (account_on_sale_start_time account <=? now)
    (if bool_decide (current_bidder account = "")
     then modify_account n (λ a, Ok (clear_auction a))
     else
       let* bidder := get_account (current_bidder account) in
       if bool_decide (target_buyer account ≠ "") &&
          bool_decide (current_bidder account ≠ target_buyer account)
       then reset_bid n
       else if account_on_sale account &&
               (amount (account_offer_price account) <=? amount (current_bid account))
       then
         let* request := find_in recovery_requests n in
         match request with
         | Some _ => call_off_sale n
         | None => sell_to_bidder n
         end
       else reset_bid n).

(** The accounts of the index from [lower_bound(true)] on. *)
Definition account_on_auction_expiration (order : list string) : DB unit := sfor order expire_auction.

(** An order of the accounts that are on auction. *)
Definition auction_order (s : database) (order : list string) : Prop :=
  NoDup order ∧ ∀ n, n ∈ order ↔ ∃ a, accounts s !! n = Some a ∧ account_on_auction a = true.
End auctions.

(** ** What the end of an auction does *)

(** An account's auction: whether it is on, and when the sale starts. *)
Definition auction_view (a : account_object) : bool * Z :=
  (account_on_auction a, account_on_sale_start_time a).
Abbreviation same_auctions := (same_view auction_view).

Section effects.
Context {CE : ChainEnv}.

Lemma eff_sell_to_bidder n s u s' : sell_to_bidder n s = Ok (u, s') → eff s s' 0.
Proof.
  unfold sell_to_bidder. intros H. inv_eval.
  match goal with H : modify_account (current_bidder ?x) _ _ = Ok _ |- _ =>
    apply (eff_modify_account _ _ (- amount (current_bid x))) in H; [|eff_liquid] end.
  match goal with H : modify_account (account_seller ?x) _ _ = Ok _ |- _ =>
    apply (eff_modify_account _ _ (amount (current_bid x))) in H; [|eff_liquid] end.
  eff_facts. eff_chain.
Qed.

Lemma eff_call_off_sale n s u s' : call_off_sale n s = Ok (u, s') → eff s s' 0.
Proof. unfold call_off_sale. intros H. inv_eval. eff_facts. eff_chain. Qed.

Lemma eff_expire_auction n s u s' : expire_auction n s = Ok (u, s') → eff s s' 0.
Proof.
  unfold expire_auction. intros H.
  inv_eval; repeat match goal with
    | H : sell_to_bidder _ _ = Ok _ |- _ => apply eff_sell_to_bidder in H
    | H : call_off_sale _ _ = Ok _ |- _ => apply eff_call_off_sale in H
    end; eff_facts; first [apply eff_refl | eff_chain].
Qed.

(** *** The auctions *)

Lemma auctions_return_bid n s u s' : return_bid n s = Ok (u, s') → same_auctions s s'.
Proof.
  unfold return_bid. intros H. inv_db.
  match goal with H : modify_account _ _ _ = Ok _ |- _ =>
    apply (same_view_modify auction_view) in H; [|by intros; inv_ok] end.
  match goal with H : push_virtual_operation _ _ = Ok _ |- _ =>
    apply (same_view_push auction_view) in H end.
  by etrans.
Qed.

(** The account's auction is over, and the others are as they were. *)
Definition auction_over (n : string) (s s' : database) : Prop :=
  time (dgpo s') = time (dgpo s) ∧
  ∃ t, view auction_view s' = <[n := (false, t)]> (view auction_view s).

Lemma auction_over_modify n f s s0 u s' :
  same_auctions s0 s → (∀ a a', f a = Ok a' → account_on_auction a' = false) →
  modify_account n f s = Ok (u, s') → auction_over n s0 s'.
Proof.
  intros [Ev Et] Hf (a & a' & Ha & Hfa & Ev' & Et')%(view_modify auction_view).
  split; [congruence|]. exists (account_on_sale_start_time a').
  unfold auction_view in Ev' at 2. rewrite (Hf a a' Hfa) in Ev'. congruence.
Qed.

Lemma over_reset_bid n s u s' : reset_bid n s = Ok (u, s') → auction_over n s s'.
Proof.
  unfold reset_bid. intros H. inv_ok.
  match goal with H : return_bid _ _ = Ok _ |- _ => apply auctions_return_bid in H end.
  eapply auction_over_modify; [eassumption| |eassumption]. intros. by inv_ok.
Qed.

Lemma over_call_off n s u s' : call_off_sale n s = Ok (u, s') → auction_over n s s'.
Proof.
  unfold call_off_sale. intros H. inv_ok.
  match goal with H : return_bid _ _ = Ok _ |- _ => apply auctions_return_bid in H end.
  eapply auction_over_modify; [eassumption| |eassumption]. intros. by inv_ok.
Qed.

Lemma over_sell n s u s' : sell_to_bidder n s = Ok (u, s') → auction_over n s s'.
Proof.
  unfold sell_to_bidder. intros H. inv_db.
  repeat match goal with
    H : modify_account ?m _ _ = Ok _ |- _ => lazymatch m with
      | n => fail
      | _ => apply (same_view_modify auction_view) in H; [|by intros; inv_ok] end end.
  match goal with H : push_virtual_operation _ _ = Ok _ |- _ =>
    apply (same_view_push auction_view) in H end.
  match goal with H : modify_in authorities _ _ _ = Ok _ |- _ =>
    apply modify_in_Ok in H; destruct H as (? & ? & ? & ? & H); injection H as _ -> end.
  eapply auction_over_modify; [| |eassumption]; [|intros; by inv_ok].
  etrans; [eassumption|]. etrans; [eassumption|]. etrans; [eassumption|]. done.
Qed.

(** An auction that is on and not over is left alone; one whose time has come
    is over afterwards. *)
Lemma expire_auction_spec n s u s' :
  expire_auction n s = Ok (u, s') →
  ∃ a, accounts s !! n = Some a ∧
    ((time (dgpo s) < account_on_sale_start_time a ∧ s' = s) ∨ auction_over n s s').
Proof.
  unfold expire_auction. intros H.
  apply sbind_Ok in H as (a & ? & Ha & H). apply get_in_Ok in Ha as (? & Ha & [= <- ->]).
  exists a. split; [done|]. apply sbind_Ok in H as (? & ? & Ht & H). apply sgets_Ok in Ht. injection Ht as -> ->.
  destruct (account_on_sale_start_time a <=? time (dgpo s)) eqn:Hdue; propify; cbn in H.
  2:{ injection H as _ <-. left. by split; [lia|]. }
  right. inv_db; try (by eapply over_reset_bid); try (by eapply over_call_off); try (by eapply over_sell).
  eapply auction_over_modify; [reflexivity| |exact H]. intros. by inv_ok.
Qed.

(** *** The whole pass *)

(** The expiry of the auctions of [order], account by account: nobody's
    auction is reopened, and those of [order] that remain start later. *)
Lemma auction_pass order s u s' :
  account_on_auction_expiration order s = Ok (u, s') →
  eff s s' 0 ∧ time (dgpo s') = time (dgpo s) ∧
  (∀ n b t, view auction_view s' !! n = Some (b, t) → b = true →
    view auction_view s !! n = Some (b, t) ∧ (n ∈ order → time (dgpo s) < t)).
Proof.
  revert s. unfold account_on_auction_expiration. induction order as [|m order IH]; intros s H; cbn in H.
  { injection H as _ <-. split_and!; [apply eff_refl|done|]. intros n b t Hn _.
    split; [done|]. by intros ?%elem_of_nil. }
  apply sbind_Ok in H as ([] & s1 & H1 & H). destruct (IH _ H) as (He & Et & Hv). clear IH H.
  pose proof (eff_expire_auction _ _ _ _ H1) as He1.
  apply expire_auction_spec in H1 as (a & Ha & H1).
  split; [eapply eff_eq; [eapply eff_trans; [exact He1|exact He]|lia]|].
  assert (time (dgpo s1) = time (dgpo s)) as Et1 by (destruct H1 as [[_ ->]|[E _]]; [done|exact E]).
  split; [congruence|]. intros n b t Hn ->. destruct (Hv _ _ _ Hn eq_refl) as [Hn1 Hlate].
  rewrite Et1 in Hlate. destruct H1 as [[Hlt ->]|[_ [t' Ev]]].
  - split; [done|]. intros [->|?]%elem_of_cons; [|auto].
    apply view_lookup in Hn1 as (a' & Ha' & E). unfold auction_view in E. injection E as _ <-.
    rewrite Ha in Ha'. injection Ha' as <-. exact Hlt.
  - rewrite Ev in Hn1. apply lookup_insert_Some in Hn1 as [[? [=]]|[Hne Hn1]].
    split; [done|]. intros [->|?]%elem_of_cons; [done|auto].
Qed.

(** When the end of auctions has run, over the accounts on
    auction in any order, no account is left on auction whose time has come,
    no auction has been opened, and the supply still equals what is held:
    every bid is returned to its bidder or paid to the seller. *)
Theorem auctions_settled order s u s' :
  auction_order s order →
  account_on_auction_expiration order s = Ok (u, s') →
  gap s' = gap s ∧
  ∀ n a, accounts s' !! n = Some a → account_on_auction a = true →
    time (dgpo s') < account_on_sale_start_time a ∧
    ∃ a0, accounts s !! n = Some a0 ∧ account_on_auction a0 = true ∧
      account_on_sale_start_time a0 = account_on_sale_start_time a.
Proof.
  intros [_ Hin] H. apply auction_pass in H as ([? _ _] & Et & Hv). split; [lia|].
  intros n a Ha Hon. rewrite Et.
  assert (view auction_view s' !! n = Some (true, account_on_sale_start_time a)) as Hn
    by (rewrite (view_get _ _ _ _ Ha); unfold auction_view; by rewrite Hon).
  destruct (Hv _ _ _ Hn eq_refl) as [H0 Hlate].
  apply view_lookup in H0 as (a0 & Ha0 & [= E1 E2]). split; [|by exists a0].
  apply Hlate, Hin. by exists a0.
Qed.
End effects.

(** ** On the small chain *)

(** Bob has bid 50000 for Carol's account; Alice's auction is not over. *)
Definition auction_db : database :=
  test_db
    <| accounts ::= alter (λ a, a <| account_on_auction := true |> <| account_on_sale := true |>
         <| account_seller := "alice" |> <| account_on_sale_start_time := 999000 |>
         <| account_offer_price := token 40000 |> <| current_bidder := "bob" |>
         <| current_bid := token 50000 |> <| current_bidder_key := 9 |>) "carol" |>
    <| accounts ::= alter (λ a, a <| reserved_balance := token 50000 |>
         <| balance := token 199950000 |>) "bob" |>
    <| accounts ::= alter (λ a, a <| account_on_auction := true |>
         <| account_on_sale_start_time := 2000000 |>) "alice" |>.

Lemma auction_db_order : auction_order auction_db ["carol"; "alice"].
Proof.
  split; [by apply (bool_decide_unpack _)|]. intros n. split.
  - intros H. repeat (apply elem_of_cons in H as [->|H]; [vm_compute; eauto|]). by apply elem_of_nil in H.
  - intros (a & Ha & Hon). revert n a Ha Hon.
    change (map_Forall (λ n a, account_on_auction a = true → n ∈ ["carol"; "alice"]) (accounts auction_db)).
    apply (bool_decide_unpack _). vm_compute. exact I.
Qed.

Lemma auctions_settled_witness :
  let run := @account_on_auction_expiration test_env ["carol"; "alice"] in
  balance_of (after run auction_db) "alice" = 500050000 ∧
  (authorities (after run auction_db) !! "carol" = Some (single_key_auths 9 1000000)) ∧
  gap (after run auction_db) = gap auction_db.
Proof.
  intros run. split; [vm_compute; reflexivity|]. split; [vm_compute; reflexivity|].
  refine (proj1 (@auctions_settled test_env _ auction_db tt _ auction_db_order _)).
  vm_compute. reflexivity.
Defined.
