(* ===== verification/Renewals.v ===== *)
(** * The renewal of paid subscriptions (libraries/chain/database.cpp, lines
      2834-2898)

    [paid_subscribe_processing] walks the index of subscriptions by
    [next_time] while it changes that key.  The iterator is advanced after the
    change, from the new place of the element, so that a renewal or a closing
    takes it behind all the subscriptions that are due. *)

From stdpp Require Import gmap strings list sorting.
From Stdlib Require Import ZArith Lia.
From S2P Require Import Prelude Fc Text Asset Authority Objects Database Supply Frame Scenario.
From S2P Require Import Operations EvalTransfer EvalAccount EvalInvite.

(** Subscriber and creator. *)
Abbreviation subscription := (string * string)%type.

(** [next_time] of an element of the index. *)
Definition next_time (s : database) (k : subscription) : Z :=
  from_option sub_next_time time_point_sec_maximum (paid_subscribes s !! k).

(** An iterator into the index: the elements before it and from it on.
    [settle t before k after]: element [k] has got key [t] between [before]
    and [after], and the iterator is on the element behind it.  An element
    whose key is still in order stays; another one moves behind those whose
    key is not greater. *)
Definition settle (times : subscription → Z) (before : list subscription) (k : subscription)
    (after : list subscription) : list subscription * list subscription :=
  let t := times k in
  let in_place :=
    from_option (λ p, times p <=? t) true (last before) &&
    from_option (λ p, t <=? times p) true (head after) in
  if in_place then (before ++ [k], after)
  else
    let others := before ++ after in
    (filter (λ p, times p ≤ t) others ++ [k], filter (λ p, t < times p) others).

Section renewals.
Context {CE : ChainEnv}.

Definition close_subscribe (k : subscription) : DB unit :=
  do* modify_in paid_subscribes k (λ ps,
    Ok (ps <| sub_end_time := sub_next_time ps |> <| sub_next_time := time_point_sec_maximum |>
           <| sub_active := false |> <| sub_auto_renewal := false |>)) in
  push_virtual_operation (cancel_paid_subscription_operation k.1 k.2).

(** The renewal at [level] for [cost]. *)
Definition renew_at (k : subscription) (offer : paid_subscription_object) (level : Z) (cost : asset) :
    DB unit :=
  let seconds := period_seconds (ps_period offer) in
  do* debit k.1 cost in
  do* adjust_balance k.2 cost in
  let* now := head_block_time in
  do* modify_in paid_subscribes k (λ ps,
    Ok (ps <| sub_amount := ps_amount offer |> <| sub_level := level |> <| sub_start_time := now |>
           <| sub_next_time := u32 (now + seconds) |> <| sub_end_time := time_point_sec_maximum |>)) in
  push_virtual_operation
    (paid_subscription_action_operation k.1 k.2 level (token (ps_amount offer)) (ps_period offer)
       seconds cost).

(** An active subscription whose time has come. *)
Definition renew_or_close (k : subscription) : DB unit :=
  let* itr := get_in paid_subscribes "paid_subscribe" k in
  let* itr2 := find_in paid_subscriptions k.2 in
  match itr2 with
  | Some offer =>
      if sub_auto_renewal itr
      then
        let* subscriber := get_account k.1 in
        let* account := get_account k.2 in
        let* old_summary := slift (safe_mul (sub_amount itr) (sub_level itr)) in
        let new_level := Z.min (sub_level itr) (ps_levels offer) in
        if sub_period itr <=? ps_period offer
        then
          let* summary := slift (safe_mul (ps_amount offer) new_level) in
          if summary <=? old_summary
          then
            let* b := get_balance k.1 TOKEN_SYMBOL in
            let* enough := slift (asset_geb b (token summary)) in
            if enough : bool then renew_at k offer new_level (token summary) else close_subscribe k
          else close_subscribe k
        else close_subscribe k
      else close_subscribe k
  | None => close_subscribe k
  end.

(** The loop from an iterator; the result tells whether it has come to its
    end, as opposed to the end of [fuel]. *)
Fixpoint renew_from (fuel : nat) (before after : list subscription) : DB bool :=
  match after with
  | [] => sret true
  | k :: after =>
      let* t := sgets (λ s, next_time s k) in
      let* now := head_block_time in
      if t <=? now
      then
        match fuel with
        | O => sret false
        | S fuel =>
            let* itr := get_in paid_subscribes "paid_subscribe" k in
            do* swhen (sub_active itr) (renew_or_close k) in
            let* times := sgets next_time in
            let i := if sub_active itr then settle times before k after else (before ++ [k], after) in
            renew_from fuel i.1 i.2
        end
      else sret true
  end.

(** [order] is the index by [next_time]: equal keys stand in the order in
    which they were set, which the state does not record. *)
Definition paid_subscribe_processing (order : list subscription) : DB bool :=
  renew_from (length order) [] order.
End renewals.

(** ** One renewal *)

(** The offer allows the renewal of [p] at [level] for [cost]: it is automatic
    and not for a shorter period, costs no more than before, and the subscriber
    can pay. *)
Record renewal_terms (s : database) (k : subscription) (p : paid_subscribe_object)
    (offer : paid_subscription_object) (level cost : Z) : Prop := {
  rt_offer : paid_subscriptions s !! k.2 = Some offer;
  rt_auto : sub_auto_renewal p = true;
  rt_period : sub_period p ≤ ps_period offer;
  rt_level : level = Z.min (sub_level p) (ps_levels offer);
  rt_cost : cost = ps_amount offer * level;
  rt_price : cost ≤ sub_amount p * sub_level p;
  rt_balance : cost ≤ balance_of s k.1
}.

Definition renewed (now : Z) (offer : paid_subscription_object) (level : Z) (p : paid_subscribe_object) :
    paid_subscribe_object :=
  {| sub_level := level; sub_amount := ps_amount offer; sub_period := sub_period p;
     sub_start_time := now; sub_next_time := u32 (now + period_seconds (ps_period offer));
     sub_end_time := time_point_sec_maximum; sub_active := sub_active p;
     sub_auto_renewal := sub_auto_renewal p |}.

Definition closed (p : paid_subscribe_object) : paid_subscribe_object :=
  {| sub_level := sub_level p; sub_amount := sub_amount p; sub_period := sub_period p;
     sub_start_time := sub_start_time p; sub_next_time := time_point_sec_maximum;
     sub_end_time := sub_next_time p; sub_active := false; sub_auto_renewal := false |}.

(** The step from [s] to [s'] replaces the subscription [k] and pays [l]. *)
Record resubscribes (k : subscription) (p' : paid_subscribe_object) (l : list (string * Z))
    (s s' : database) : Prop := {
  re_entries : paid_subscribes s' = <[k := p']> (paid_subscribes s);
  re_offers : paid_subscriptions s' = paid_subscriptions s;
  re_time : time (dgpo s') = time (dgpo s);
  re_balance : ∀ n, balance_of s' n = balance_of s n + received n l;
  re_gap : gap s' = gap s
}.

Section renewal.
Context {CE : ChainEnv}.

Lemma close_subscribe_step k s u s' :
  close_subscribe k s = Ok (u, s') →
  ∃ p, paid_subscribes s !! k = Some p ∧ resubscribes k (closed p) [] s s'.
Proof.
  unfold close_subscribe, push_virtual_operation. intros H. inv_ok.
  match goal with H : modify_in _ _ _ _ = Ok _ |- _ =>
    apply modify_in_Ok in H as (p & p' & Hk & Hf & [= _ ->]) end. inv_ok.
  exists p. split; [done|]. split; [done..| |done]. intros n. unfold balance_of, received. cbn. lia.
Qed.

Lemma renew_at_step k offer level cost s u s' :
  renew_at k offer level cost s = Ok (u, s') →
  ∃ p, paid_subscribes s !! k = Some p ∧
    resubscribes k (renewed (time (dgpo s)) offer level p)
      [(k.1, - amount cost); (k.2, amount cost)] s s'.
Proof.
  unfold renew_at, debit, push_virtual_operation. intros H. inv_ok.
  match goal with H : asset_neg _ = Ok _ |- _ => apply asset_neg_Ok in H as [Ed _] end.
  match goal with
    H1 : adjust_balance k.1 ?d s = Ok (_, ?s1), H2 : adjust_balance k.2 _ ?s1 = Ok (_, ?s2) |- _ =>
      pose proof (λ m, balance_adjust _ _ _ _ _ m H1) as B1;
      pose proof (λ m, balance_adjust _ _ _ _ _ m H2) as B2;
      pose proof (eff_adjust_balance _ _ _ _ _ H1) as [G1 _ _];
      pose proof (eff_adjust_balance _ _ _ _ _ H2) as [G2 _ _];
      apply modify_in_Ok in H1 as (? & ? & _ & _ & [= _ E1]);
      apply modify_in_Ok in H2 as (? & ? & _ & _ & [= _ E2])
  end.
  match goal with H : modify_in paid_subscribes _ _ _ = Ok _ |- _ =>
    apply modify_in_Ok in H as (p & p' & Hk & Hf & [= _ ->]) end.
  inv_db. exists p. split; [done|]. split; try done.
  - intros n. specialize (B1 n). rewrite Ed in B1. etrans; [exact (B2 n)|]. unfold received. cbn. lia.
  - etrans; [exact G2|]. lia.
Qed.

Lemma renewal_respects_aux k p s u s' :
  paid_subscribes s !! k = Some p →
  renew_or_close k s = Ok (u, s') →
  (∃ offer level cost, renewal_terms s k p offer level cost ∧
     resubscribes k (renewed (time (dgpo s)) offer level p) [(k.1, - cost); (k.2, cost)] s s') ∨
  ((∀ offer level cost, ¬ renewal_terms s k p offer level cost) ∧
     resubscribes k (closed p) [] s s').
Proof.
  intros Hk H. unfold renew_or_close in H.
  apply sbind_Ok in H as (itr & ? & Hi & H). apply get_in_Ok in Hi as (? & Hi & [= -> ->]).
  rewrite Hk in Hi. injection Hi as <-. inv_eval; propify;
    repeat match goal with H : safe_mul _ _ = Ok _ |- _ => apply safe_mul_sound in H as [-> _] end;
    repeat match goal with H : accounts s !! k.1 = Some ?a |- _ =>
    assert (balance_of s k.1 = amount (balance a)) by (unfold balance_of; by rewrite H); clear H end;
    try match goal with H : close_subscribe _ _ = Ok _ |- _ =>
    apply close_subscribe_step in H as (q & Hq & H); rewrite Hk in Hq; injection Hq as <-;
    right; split; [|exact H]; intros offer level cost []; subst; simplify_eq; cbn in *; congruence || lia end.
  apply renew_at_step in H as (q & Hq & H). rewrite Hk in Hq. injection Hq as <-.
  left. eexists _, _, _. split; [|exact H]. subst. by split; cbn in *; try lia.
Qed.

(** An active subscription whose time has come is renewed
    exactly when the offer allows it: the renewal is automatic, the period not
    shorter, the price not above the old one and within the subscriber's
    balance.  Then the price, and nothing else, moves from the subscriber to
    the creator, and the agreement runs from now for the offered period.  In
    every other case it is closed and nobody pays. *)
Theorem renewal_respects_terms k p s u s' :
  paid_subscribes s !! k = Some p →
  renew_or_close k s = Ok (u, s') →
  (∃ offer level cost, renewal_terms s k p offer level cost ∧
     resubscribes k (renewed (time (dgpo s)) offer level p) [(k.1, - cost); (k.2, cost)] s s') ∨
  ((∀ offer level cost, ¬ renewal_terms s k p offer level cost) ∧
     resubscribes k (closed p) [] s s').
Proof. apply renewal_respects_aux. Qed.
End renewal.

Definition subscription_order (s : database) (order : list subscription) : Prop :=
  NoDup order ∧ (∀ k, k ∈ order ↔ is_Some (paid_subscribes s !! k)) ∧
  StronglySorted (λ k k', next_time s k ≤ next_time s k') order.

(** ** The loop *)

(** The subscription is active and its time has come. *)
Definition overdue (s : database) (k : subscription) : Prop :=
  ∃ p, paid_subscribes s !! k = Some p ∧ sub_active p = true ∧ sub_next_time p ≤ time (dgpo s).

(** The periods on offer are those that [set_paid_subscription] validates, and
    the clock is not about to overflow. *)
Record renewals_ok (s : database) : Prop := {
  ro_periods : ∀ n o, paid_subscriptions s !! n = Some o → 0 < ps_period o ≤ PAID_SUBSCRIPTION_MAX_PERIOD;
  ro_clock : 0 ≤ time (dgpo s) < 2 ^ 32 - 1 - PAID_SUBSCRIPTION_MAX_PERIOD * SECONDS_PER_DAY
}.

Section loop.
Context {CE : ChainEnv}.

Lemma next_time_get s k p : paid_subscribes s !! k = Some p → next_time s k = sub_next_time p.
Proof. unfold next_time. by intros ->. Qed.

Lemma period_seconds_small x :
  0 < x ≤ PAID_SUBSCRIPTION_MAX_PERIOD → period_seconds x = x * SECONDS_PER_DAY.
Proof.
  unfold period_seconds, to_i32, u64, PAID_SUBSCRIPTION_MAX_PERIOD, SECONDS_PER_DAY. intros.
  rewrite (Z.mod_small (_ + _)), Z.mod_small; lia.
Qed.

(** After it has been handled, a subscription is not due, and the iterator is
    on one that is not due either. *)
Lemma renew_or_close_moves k s u s' :
  renewals_ok s → renew_or_close k s = Ok (u, s') →
  gap s' = gap s ∧ time (dgpo s') = time (dgpo s) ∧
  ∃ p', paid_subscribes s' = <[k := p']> (paid_subscribes s) ∧ time (dgpo s) < sub_next_time p'.
Proof.
  intros [Hp Hc] H. assert (∃ p, paid_subscribes s !! k = Some p) as [p Hk].
  { unfold renew_or_close in H. apply sbind_Ok in H as (? & ? & Hi & _).
    apply get_in_Ok in Hi as (? & ? & _). eauto. }
  destruct (renewal_respects_aux k p s u s' Hk H) as [(o & l & c & Ht & [? ? ? _ ?])|(_ & [? ? ? _ ?])];
    (split_and!; [done..|]).
  - eexists. split; [done|]. destruct Ht as [Ho _ _ _ _ _ _]. apply Hp in Ho. cbn.
    rewrite period_seconds_small by done.
    unfold PAID_SUBSCRIPTION_MAX_PERIOD, SECONDS_PER_DAY in *. unfold u32. rewrite Z.mod_small; lia.
  - eexists. split; [done|]. cbn. unfold time_point_sec_maximum.
    unfold PAID_SUBSCRIPTION_MAX_PERIOD, SECONDS_PER_DAY in *. lia.
Qed.

Lemma settle_after times before k after now p l :
  now < times k → (settle times before k after).2 = p :: l → now < times p.
Proof.
  unfold settle. intros Hk. case_match eqn:E; cbn.
  - intros ->. cbn in E. propify. lia.
  - intros Hf. assert (p ∈ filter (λ p, times k < times p) (before ++ after)) as Hin
      by (rewrite Hf; apply elem_of_cons; by left).
    apply list_elem_of_filter in Hin as [? _]. lia.
Qed.

(** The loop ends where nothing is due. *)
Lemma renew_from_end fuel before after s :
  (∀ p l, after = p :: l → time (dgpo s) < next_time s p) →
  renew_from fuel before after s = Ok (true, s).
Proof.
  intros Hnot. destruct after as [|p l]; [by destruct fuel|]. specialize (Hnot p l eq_refl).
  destruct fuel; cbn; unfold sbind, sgets, head_block_time; cbn;
    destruct (Z.leb_spec (next_time s p) (time (dgpo s))); first [lia|done].
Qed.

Lemma renew_from_one fuel before after s b s' :
  renewals_ok s → (length after ≤ fuel)%nat →
  StronglySorted (λ k k', next_time s k ≤ next_time s k') after →
  renew_from fuel before after s = Ok (b, s') →
  b = true ∧ gap s' = gap s ∧
  ((s' = s ∧ ∀ k, k ∈ after → ¬ overdue s k) ∨
   ∃ k p', k ∈ after ∧ overdue s k ∧
     (∀ k', k' ∈ after → overdue s k' → next_time s k ≤ next_time s k') ∧
     paid_subscribes s' = <[k := p']> (paid_subscribes s) ∧ time (dgpo s') = time (dgpo s) ∧
     time (dgpo s) < sub_next_time p').
Proof.
  intros Hok. revert before after. induction fuel as [|fuel IH]; intros before [|k after] Hlen Hs H;
    cbn in Hlen; try lia; try (injection H as <- <-; split_and!; [done..|];
      left; split; [done|]; by intros ? ?%elem_of_nil).
  inversion Hs as [|? ? Hs' Hle]; subst. rewrite Forall_forall in Hle.
  cbn in H.
  destruct (Z.leb_spec (next_time s k) (time (dgpo s))) as [Hdue|Hlate].
  2:{ injection H as <- <-. split_and!; [done..|]. left. split; [done|].
      intros k' Hin (p & Hp & _ & Hd). rewrite <- (next_time_get _ _ _ Hp) in Hd.
      apply elem_of_cons in Hin as [->|Hin]; [lia|]. specialize (Hle _ Hin). cbn in Hle. lia. }
  apply sbind_Ok in H as (itr & ? & Hi & H). apply get_in_Ok in Hi as (? & Hk & [= <- ->]).
  apply sbind_Ok in H as (? & s1 & Hr & H).
  apply sbind_Ok in H as (times & ? & Ht & H). injection Ht as <- <-.
  destruct (sub_active itr) eqn:Ha; cbn in Hr.
  - apply (renew_or_close_moves _ _ _ _ Hok) in Hr as (Hg & Et & p' & Ep & Hp').
    rewrite renew_from_end in H.
    2:{ intros p l Hl. eapply settle_after in Hl; [exact Hl|]. rewrite Et.
        rewrite (next_time_get _ _ p'); [done|]. rewrite Ep. apply lookup_insert_eq. }
    injection H as <- <-. split_and!; [done..|]. right. exists k, p'. split_and!; try done.
    + apply elem_of_cons. by left.
    + exists itr. split_and!; [done..|]. by rewrite <- (next_time_get _ _ _ Hk).
    + intros k' [->|Hin]%elem_of_cons _; [done|]. by apply Hle.
  - injection Hr as _ <-. apply IH in H as (-> & Hg & H); cbn [snd] in *; [|lia|done]. split_and!; [done..|].
    assert (¬ overdue s k) as Hnk by (intros (p & Hp & Hpa & _); congruence).
    destruct H as [[-> Hno]|(k1 & p' & Hin & Ho & Hmin & Hrest)]; [left|right].
    + split; [done|]. intros k' [->|Hin]%elem_of_cons; [done|auto].
    + exists k1, p'. split_and!; [apply elem_of_cons; by right|done| |apply Hrest..].
      intros k' [->|Hin']%elem_of_cons Ho'; [done|auto].
Qed.

(** A block handles at most one of the subscriptions that
    are due, one that has been due for longest: every other one stays as it
    was, and is still overdue after the block.  The loop always comes to its
    end, and no tokens are created or lost. *)
Theorem one_renewal_per_block order s b s' :
  renewals_ok s → subscription_order s order →
  paid_subscribe_processing order s = Ok (b, s') →
  b = true ∧ gap s' = gap s ∧
  ((s' = s ∧ ∀ k, ¬ overdue s k) ∨
   ∃ k, overdue s k ∧ ¬ overdue s' k ∧
     ∀ k', k' ≠ k → (paid_subscribes s' !! k' = paid_subscribes s !! k' ∧
       (overdue s k' → next_time s k ≤ next_time s k' ∧ overdue s' k'))).
Proof.
  intros Hok (_ & Hin & Hs) H. apply renew_from_one in H as (-> & Hg & H); [|done..].
  split_and!; [done..|].
  assert (∀ k, overdue s k → k ∈ order) as Hov by (intros k (p & Hp & _); apply Hin; eauto).
  destruct H as [[-> Hno]|(k & p' & _ & Ho & Hmin & Ep & Et & Hlate)].
  { left. split; [done|]. intros k Hk. exact (Hno k (Hov k Hk) Hk). }
  right. exists k. split_and!; [done| |].
  - intros (p & Hp & _ & Hd). rewrite Ep, lookup_insert_eq in Hp. injection Hp as <-. lia.
  - intros k' Hne. assert (paid_subscribes s' !! k' = paid_subscribes s !! k') as E
      by (by rewrite Ep, lookup_insert_ne).
    split; [done|]. intros Ho'. split; [auto|]. unfold overdue. by rewrite E, Et.
Qed.
End loop.

(** ** On the small chain *)

(** Alice and Bob are subscribed to Carol; both agreements have run out. *)
Definition agreement (auto : bool) : paid_subscribe_object :=
  {| sub_level := 2; sub_amount := 1000; sub_period := 30;
    sub_start_time := 0; sub_next_time := 900000; sub_end_time := time_point_sec_maximum;
    sub_active := true; sub_auto_renewal := auto |}.
Definition renewing_db : database :=
  test_db
    <| paid_subscriptions := <["carol" := mk_paid_subscription "" 5 900 30 0]> ∅ |>
    <| paid_subscribes := <[("alice", "carol") := agreement true]>
         (<[("bob", "carol") := agreement false]> ∅) |>.

Lemma renewing_db_ok : renewals_ok renewing_db.
Proof.
  split; [|vm_compute; split; congruence].
  change (map_Forall (λ _ o, 0 < ps_period o ≤ PAID_SUBSCRIPTION_MAX_PERIOD) (paid_subscriptions renewing_db)).
  apply (bool_decide_unpack _). vm_compute. exact I.
Qed.

Lemma renewing_db_order : subscription_order renewing_db [("alice", "carol"); ("bob", "carol")].
Proof.
  split_and!.
  - by apply (bool_decide_unpack _).
  - intros k. split.
    + intros H. repeat (apply elem_of_cons in H as [->|H]; [vm_compute; eauto|]). by apply elem_of_nil in H.
    + intros [p Hp]. revert k p Hp.
      change (map_Forall (λ k _, k ∈ [("alice", "carol"); ("bob", "carol")]) (paid_subscribes renewing_db)).
      apply (bool_decide_unpack _). vm_compute. exact I.
  - repeat constructor; vm_compute; congruence.
Qed.

Lemma renewal_respects_terms_witness :
  let run := @renew_or_close test_env ("alice", "carol") in
  balance_of (after run renewing_db) "carol" = 2800 ∧
  ∃ offer level cost, renewal_terms renewing_db ("alice", "carol") (agreement true) offer level cost.
Proof.
  intros run. split; [vm_compute; reflexivity|].
  edestruct (@renewal_respects_terms test_env ("alice", "carol") (agreement true) renewing_db tt
    (after run renewing_db)) as [(o & l & c & Ht & _)|[Hno _]];
    [reflexivity|vm_compute; reflexivity|by exists o, l, c|].
  exfalso. apply (Hno (mk_paid_subscription "" 5 900 30 0) 2 1800).
  split; vm_compute; reflexivity || congruence.
Defined.

Definition renewed_db : database :=
  match @paid_subscribe_processing test_env [("alice", "carol"); ("bob", "carol")] renewing_db with
  | Ok (_, s') => s'
  | Err _ => renewing_db
  end.

Lemma one_renewal_per_block_witness :
  gap renewed_db = gap renewing_db ∧ overdue renewed_db ("bob", "carol").
Proof.
  assert (@paid_subscribe_processing test_env [("alice", "carol"); ("bob", "carol")] renewing_db
    = Ok (true, renewed_db)) as H by (vm_compute; reflexivity).
  destruct (@one_renewal_per_block test_env _ renewing_db true renewed_db renewing_db_ok
    renewing_db_order H) as (_ & Hg & _).
  split; [exact Hg|]. exists (agreement false). split_and!; vm_compute; congruence.
Defined.
