(* ===== verification/Slots.v ===== *)
(** * Slots (libraries/chain/database.cpp, lines 2719-2758)

    Time is divided into slots of [CHAIN_BLOCK_INTERVAL] seconds, numbered from
    the head block on; each slot belongs to a validator of the schedule. *)

From stdpp Require Import gmap strings list.
From Stdlib Require Import ZArith Lia.
From S2P Require Import Prelude Fc Text Asset Authority Objects Database Scenario.

(** [get_scheduled_validator]; the array is indexed modulo the number of
    validators that are scheduled. *)
Definition get_scheduled_validator (slot_num : Z) : DB string := λ s,
  let current_aslot := u64 (current_aslot (dgpo s) + slot_num) in
  let n := num_scheduled_validators (schedule s) in
  if n =? 0 then Err E_undefined
  else
    match current_shuffled_validators (schedule s) !! Z.to_nat (current_aslot mod n) with
    | Some w => Ok (w, s)
    | None => Err E_undefined
    end.

Definition get_slot_time (s : database) (slot_num : Z) : Z :=
  let interval := CHAIN_BLOCK_INTERVAL in
  if slot_num =? 0 then 0
  else if head_block_number (dgpo s) =? 0
  then u32 (u32 (time (dgpo s) - interval) + u32 (slot_num * interval))
  else
    let head_block_abs_slot := time (dgpo s) / interval in
    u32 (u32 (head_block_abs_slot * interval) + u32 (slot_num * interval)).

Definition get_slot_at_time (s : database) (when : Z) : Z :=
  let first_slot_time := get_slot_time s 1 in
  if when <? first_slot_time then 0
  else u32 ((when - first_slot_time) / CHAIN_BLOCK_INTERVAL + 1).

(** The time of slot 0, from which the slots are counted. *)
Definition slot_zero (s : database) : Z :=
  if head_block_number (dgpo s) =? 0 then time (dgpo s) - CHAIN_BLOCK_INTERVAL
  else time (dgpo s) / CHAIN_BLOCK_INTERVAL * CHAIN_BLOCK_INTERVAL.

(** The clock has passed the first interval, as it has at genesis. *)
Definition clock_started (s : database) : Prop := CHAIN_BLOCK_INTERVAL ≤ time (dgpo s).

Lemma slot_zero_bounds s :
  clock_started s → 0 ≤ slot_zero s ∧ time (dgpo s) - CHAIN_BLOCK_INTERVAL ≤ slot_zero s ≤ time (dgpo s).
Proof.
  unfold clock_started, slot_zero, CHAIN_BLOCK_INTERVAL. case_match; intros; [lia|].
  pose proof (Z.div_mod (time (dgpo s)) 3). pose proof (Z.mod_pos_bound (time (dgpo s)) 3). lia.
Qed.

(** Slot [n] starts [n] intervals after slot 0. *)
Lemma get_slot_time_eq s n :
  clock_started s → 0 < n → slot_zero s + n * CHAIN_BLOCK_INTERVAL < 2 ^ 32 →
  get_slot_time s n = slot_zero s + n * CHAIN_BLOCK_INTERVAL.
Proof.
  intros Hc Hn Hb. pose proof (slot_zero_bounds s Hc) as [H0 _].
  assert (get_slot_time s n = u32 (u32 (slot_zero s) + u32 (n * CHAIN_BLOCK_INTERVAL))) as ->.
  { unfold get_slot_time, slot_zero. destruct (Z.eqb_spec n 0); [lia|]. by case_match. }
  unfold u32, CHAIN_BLOCK_INTERVAL in *.
  rewrite (Z.mod_small (slot_zero s)), (Z.mod_small (n * 3)), Z.mod_small; lia.
Qed.

(** As long as the clock does not overflow, slots and times
    agree: the slot at the time at which slot [n] starts is [n]; a time from
    the first slot on lies in the slot that is computed for it, that is, less
    than one interval after its start; a time before it is in slot 0; and
    every slot from the first on starts after the head block, at least when
    there is one. *)
Theorem slot_times_roundtrip s n when :
  clock_started s →
  0 < n → slot_zero s + n * CHAIN_BLOCK_INTERVAL < 2 ^ 32 → 0 ≤ when < 2 ^ 32 →
  get_slot_at_time s (get_slot_time s n) = n ∧
  (get_slot_time s 1 ≤ when →
     get_slot_time s (get_slot_at_time s when) ≤ when
       < get_slot_time s (get_slot_at_time s when) + CHAIN_BLOCK_INTERVAL) ∧
  (when < get_slot_time s 1 → get_slot_at_time s when = 0) ∧
  (head_block_number (dgpo s) ≠ 0 → time (dgpo s) < get_slot_time s n).
Proof.
  intros Hc Hn Hb Hw. pose proof (slot_zero_bounds s Hc) as [H0 H1].
  assert (get_slot_time s 1 = slot_zero s + CHAIN_BLOCK_INTERVAL) as E1
    by (rewrite get_slot_time_eq; unfold CHAIN_BLOCK_INTERVAL in *; done || lia).
  unfold get_slot_at_time at 1. rewrite E1, get_slot_time_eq by (done || lia).
  unfold CHAIN_BLOCK_INTERVAL in *. split_and!.
  - destruct (Z.ltb_spec (slot_zero s + n * 3) (slot_zero s + 3)); [lia|].
    replace (slot_zero s + n * 3 - (slot_zero s + 3)) with ((n - 1) * 3) by lia.
    rewrite Z.div_mul by lia. unfold u32. rewrite Z.mod_small; lia.
  - intros Hge. unfold get_slot_at_time. rewrite E1.
    destruct (Z.ltb_spec when (slot_zero s + 3)); [lia|].
    set (d := when - (slot_zero s + 3)). assert (0 ≤ d) by lia.
    pose proof (Z.div_mod d 3). pose proof (Z.mod_pos_bound d 3). pose proof (Z.div_pos d 3).
    unfold u32, CHAIN_BLOCK_INTERVAL. rewrite Z.mod_small by lia.
    rewrite get_slot_time_eq; unfold CHAIN_BLOCK_INTERVAL; done || lia.
  - intros Hlt. unfold get_slot_at_time. rewrite E1. by destruct (Z.ltb_spec when (slot_zero s + 3)); [|lia].
  - intros Hh. unfold slot_zero, CHAIN_BLOCK_INTERVAL in *. destruct (Z.eqb_spec (head_block_number (dgpo s)) 0); [lia|].
    pose proof (Z.div_mod (time (dgpo s)) 3). pose proof (Z.mod_pos_bound (time (dgpo s)) 3). lia.
Qed.

Lemma slot_times_roundtrip_witness :
  get_slot_at_time test_db (get_slot_time test_db 7) = 7 ∧ get_slot_time test_db 7 = 1000020 ∧
  (head_block_number (dgpo test_db) ≠ 0 → time (dgpo test_db) < get_slot_time test_db 7).
Proof.
  destruct (slot_times_roundtrip test_db 7 1000021) as (H1 & _ & _ & H4);
    [vm_compute; congruence|lia|vm_compute; reflexivity|lia|].
  split; [exact H1|]. split; [vm_compute; reflexivity|exact H4].
Defined.
