(* ===== verification/BlockData.v ===== *)
(** * The data of a block (libraries/chain/database.cpp, lines 1203-1235,
      5644-5962, 6424-6439)

    [update_global_dynamic_data] counts the slots that were missed before a
    block, punishes the validators that missed them, moves the head and adapts
    the bandwidth; when nothing has become irreversible for an hour it hands
    the chain to the committee.  [update_signing_validator] records what the
    signer of the block has confirmed. *)

From stdpp Require Import gmap strings list.
From Stdlib Require Import ZArith Lia.
From S2P Require Import Prelude Fc Text Asset Authority Block ForkDb Objects Database Supply Frame.
From S2P Require Import Scenario EvalTransfer Slots.

Definition CHAIN_HARDFORK_12 : Z := 12.
Definition CHAIN_EMERGENCY_VALIDATOR_ACCOUNT : string := CHAIN_COMMITTEE_ACCOUNT.
Definition CHAIN_EMERGENCY_VALIDATOR_PUBLIC_KEY_STR : string :=
  "VIZ75CRHVHPwYiUESy1bgN3KhVFbZCQQRA9jT6TnpzKAmpxMPD6Xv".
Definition CHAIN_EMERGENCY_CONSENSUS_TIMEOUT_SEC : Z := 3600.
Definition CHAIN_MAX_TOP_VALIDATORS : Z := 11.
Definition CHAIN_MAX_SUPPORT_VALIDATORS : Z := 10.
Definition CHAIN_MAX_VALIDATORS : Z := CHAIN_MAX_TOP_VALIDATORS + CHAIN_MAX_SUPPORT_VALIDATORS.
Definition CHAIN_MAX_VALIDATOR_MISSED_BLOCKS : Z := 200.
Definition CHAIN_EMERGENCY_MAX_VALIDATOR_MISSED_BLOCKS : Z := 5 * CHAIN_MAX_VALIDATORS.
Definition CHAIN_MAX_RESERVE_RATIO : Z := 20000.
Definition CHAIN_BANDWIDTH_PRECISION : Z := 1000000.
Definition CHAIN_BANDWIDTH_AVERAGE_WINDOW_SECONDS : Z := 60 * 60 * 24 * 7.
Definition CHAIN_MAX_UNDO_HISTORY : Z := 10000.
Definition CHAIN_IRREVERSIBLE_SUPPORT_MIN_RUN : Z := 2.

(** [version(3, 2, 0)], as its 32-bit number. *)
Definition version (major hardfork release : Z) : Z :=
  Z.lor (u32 (Z.shiftl (Z.lor (u32 (Z.shiftl major 8)) hardfork) 16)) release.
Definition CHAIN_VERSION : Z := version 3 2 0.

Definition u8 (x : Z) : Z := x mod 2 ^ 8.
Definition u128 (x : Z) : Z := x mod 2 ^ 128.

Section block_data.
Context {CE : ChainEnv}.

(** ** Blocks in store *)

Definition stored_block (s : database) (a : nat) : option signed_block :=
  item_data <$> heap (fork_db s) !! a.

(** [block_log::read_block_by_num]: block [n] of the log is the [n]-th. *)
Definition read_block_by_num (n : Z) (s : database) : res (option signed_block) :=
  if 0 <? n
  then
    match block_log s !! Z.to_nat (n - 1) with
    | Some b =>
        do? rassert (block_num b =? n) (E_assert "Wrong block was read from block log") in Ok (Some b)
    | None => Ok None
    end
  else Ok None.

(** [database::fetch_block_by_number] of a node without a rolling block log. *)
Definition fetch_block_by_number (n : Z) (s : database) : res (option signed_block) :=
  match ForkDb.fetch_block_by_number n (fork_db s) with
  | [b] => Ok (stored_block s b.2)
  | _ =>
      let? fitem := (match _head (fork_db s) with
                     | Some _ => walk_main_branch_to_num n (fork_db s)
                     | None => Ok None
                     end) in
      match fitem with
      | Some a => Ok (stored_block s a)
      | None => read_block_by_num n s
      end
  end.

Definition on_fork_db (f : fork_database → fork_database * (fc_error + unit)) : DB unit := λ s,
  match f (fork_db s) with
  | (d, inr _) => Ok (tt, s <| fork_db := d |>)
  | (_, inl e) => Err e
  end.

(** ** Missed slots *)

(** A validator has no key any more. *)
Definition shut_down (n : string) : DB unit :=
  do* modify_validator n (λ w, Ok (w <| signing_key := 0 |>)) in
  push_virtual_operation (shutdown_validator_operation n).

(** The key of a validator that has not confirmed a block for more than [limit]
    blocks is blanked. *)
Definition blank_if_absent (n : string) (limit : Z) : DB unit :=
  let* w := get_validator n in
  let* head := head_block_num in
  swhen (negb (signing_key w =? 0) && (limit <? u32 (head - last_confirmed_block_num w)))
    (shut_down n).

(** The penalty for a missed block, from hardfork 6 on. *)
Definition penalize (n : string) : DB unit :=
  let* median := get_median_props in
  let* now := head_block_time in
  do* modify_validator n (λ w,
    let w := w <| penalty_percent := u32 (penalty_percent w + validator_miss_penalty_percent median) |> in
    let? c := recount_votes true w in
    Ok (w <| counted_votes := c |>)) in
  supd (λ s, s <| penalty_expirations ::= λ l, l ++
    [mk_penalty_expire n (validator_miss_penalty_percent median)
       (u32 (now + validator_miss_penalty_duration median))] |>).

(** Slot [i + 1] after the head was missed; block [b] ends the gap. *)
Definition miss_slot (b : signed_block) (i : Z) : DB unit :=
  let* n := get_scheduled_validator (i + 1) in
  let* validator_missed := get_validator n in
  let* hf12 := has_hardfork CHAIN_HARDFORK_12 in
  let* p := get_dgpo in
  let produced := bool_decide (owner validator_missed = validator b) in
  let is_emergency_offline_validator :=
    hf12 && emergency_consensus_active p && negb produced &&
    negb (bool_decide (owner validator_missed = CHAIN_EMERGENCY_VALIDATOR_ACCOUNT)) in
  do* swhen (negb produced) (modify_validator n (λ w, Ok (w <| current_run := 0 |>))) in
  if is_emergency_offline_validator
  then blank_if_absent n CHAIN_EMERGENCY_MAX_VALIDATOR_MISSED_BLOCKS
  else swhen (negb produced)
    (do* modify_validator n (λ w, Ok (w <| total_missed := u32 (total_missed w + 1) |>)) in
     let* hf6 := has_hardfork 6 in
     do* swhen hf6 (penalize n) in
     blank_if_absent n CHAIN_MAX_VALIDATOR_MISSED_BLOCKS).

(** The numbers [0, 1, ... n - 1]. *)
Definition upto (n : Z) : list Z := seqZ 0 n.

(** The slots missed before [b]; the block itself fills the slot after them. *)
Definition missed_before (b : signed_block) (s : database) : Z :=
  if time (dgpo s) =? 0 then 0 else u32 (get_slot_at_time s (timestamp b) - 1).

(** ** Dynamic global properties *)

(** One step of the loop over the slots: the first one is filled. *)
Definition fill_slot (p : Z * Z) (i : Z) : Z * Z :=
  let filled := if i =? 0 then 1 else 0 in
  let participation := u8 (p.2 - (if Z.testbit p.1 127 then 1 else 0)) in
  (u128 (u128 (Z.shiftl p.1 1) + filled), u8 (participation + filled)).

Definition adjust_reserve_ratio (average maximum ratio : Z) : Z :=
  let ratio := if maximum / 4 <? average then ratio / 2 else u64 (ratio + 1) in
  let ratio := if CHAIN_MAX_RESERVE_RATIO <? ratio then CHAIN_MAX_RESERVE_RATIO else ratio in
  if ratio <? CHAIN_MAX_RESERVE_RATIO / 10 then CHAIN_MAX_RESERVE_RATIO / 10 else ratio.

(** [uint64_t] arithmetic throughout. *)
Definition virtual_bandwidth (maximum ratio : Z) : Z :=
  u64 (u64 (u64 (maximum * ratio) * CHAIN_BANDWIDTH_PRECISION) * CHAIN_BANDWIDTH_AVERAGE_WINDOW_SECONDS)
    / CHAIN_BLOCK_INTERVAL.

Definition advance_dgp (b : signed_block) (missed_blocks : Z) (dgp : dynamic_global_property_object) :
    dynamic_global_property_object :=
  let slots := foldl fill_slot (recent_slots_filled dgp, participation_count dgp)
                 (upto (u32 (missed_blocks + 1))) in
  let average := u32 (u64 (u32 (99 * average_block_size dgp) + pack_size b) / 100) in
  let ratio :=
    if block_num b mod 20 =? 0
    then adjust_reserve_ratio average (dgp_maximum_block_size dgp) (current_reserve_ratio dgp)
    else current_reserve_ratio dgp in
  dgp <| recent_slots_filled := slots.1 |> <| participation_count := slots.2 |>
      <| head_block_number := block_num b |> <| head_block_id := block_id b |>
      <| time := timestamp b |>
      <| current_aslot := u64 (current_aslot dgp + u32 (missed_blocks + 1)) |>
      <| average_block_size := average |> <| current_reserve_ratio := ratio |>
      <| max_virtual_bandwidth := virtual_bandwidth (dgp_maximum_block_size dgp) ratio |>.

(** ** Emergency consensus *)

(** The hardfork fields and properties that the committee's validator gets. *)
Definition neutral_votes (s : database) (w : validator_object) : res validator_object :=
  let hfp := hardforks s in
  match processed_hardfork_times hfp !! Z.to_nat (last_hardfork hfp) with
  | Some t =>
      Ok (w <| running_version := CHAIN_VERSION |>
            <| hardfork_version_vote := current_hardfork_version hfp |>
            <| hardfork_time_vote := t |> <| props := median_props (schedule s) |>)
  | None => Err E_undefined
  end.

Definition install_emergency_validator : DB unit := λ s,
  (let n := CHAIN_EMERGENCY_VALIDATOR_ACCOUNT in
   let* key := slift (parse_public_key CHAIN_EMERGENCY_VALIDATOR_PUBLIC_KEY_STR) in
   let* wit := find_in validators n in
   match wit with
   | None =>
       let* now := head_block_time in
       create_validator n (λ w,
         neutral_votes s (w <| signing_key := key |> <| val_created := now |> <| val_schedule := top |>))
   | Some _ =>
       modify_validator n (λ w, neutral_votes s (w <| signing_key := key |> <| val_schedule := top |>))
   end) s.

(** The validators other than the committee's lose their key and penalties. *)
Definition disabled (w : validator_object) : validator_object :=
  if bool_decide (owner w = CHAIN_EMERGENCY_VALIDATOR_ACCOUNT) then w
  else w <| signing_key := 0 |> <| penalty_percent := 0 |> <| counted_votes := votes w |>
         <| current_run := 0 |>.

(** The first [n] places of the schedule. *)
Definition override_schedule (n : Z) (w : string) (l : list string) : list string :=
  replicate (Z.to_nat n) w ++ drop (Z.to_nat n) l.

Definition activate_emergency (b : signed_block) : DB unit :=
  do* modify_dgpo (λ p, Ok (p <| emergency_consensus_active := true |>
                              <| emergency_consensus_start_block := block_num b |>)) in
  do* install_emergency_validator in
  do* supd (λ s, s <| validators ::= fmap disabled |>) in
  do* supd (λ s, s <| penalty_expirations := [] |>) in
  let* head := head_block_num in
  do* supd (λ s, s <| schedule ::= λ w,
    w <| current_shuffled_validators ::=
           override_schedule (num_scheduled_validators w) CHAIN_EMERGENCY_VALIDATOR_ACCOUNT |>
      <| next_shuffle_block_num := u32 (head + num_scheduled_validators w) |> |>) in
  on_fork_db (set_emergency_mode true).

(** The time of the last irreversible block, where the node has the block. *)
Definition lib_time (s : database) : res (option Z) :=
  let n := last_irreversible_block_num (dgpo s) in
  if 0 <? n then let? b := fetch_block_by_number n s in Ok (timestamp <$> b) else Ok None.

Definition check_emergency (b : signed_block) : DB unit :=
  let* hf12 := has_hardfork CHAIN_HARDFORK_12 in
  let* p := get_dgpo in
  swhen (hf12 && negb (emergency_consensus_active p))
    (let* lib := sgets lib_time in
     let* t := slift lib in
     match t with
     | None => sret tt
     | Some t =>
         swhen (CHAIN_EMERGENCY_CONSENSUS_TIMEOUT_SEC <=? u32 (timestamp b - t)) (activate_emergency b)
     end).

(** ** The whole update *)

Definition update_global_dynamic_data (b : signed_block) (skip_undo_history_check : bool) : DB unit :=
  let* missed_blocks := sgets (missed_before b) in
  do* sfor (upto missed_blocks) (miss_slot b) in
  do* modify_dgpo (λ p, Ok (advance_dgp b missed_blocks p)) in
  let* p := get_dgpo in
  do* swhen (negb skip_undo_history_check)
    (sassert (u32 (head_block_number p - last_irreversible_block_num p) <? CHAIN_MAX_UNDO_HISTORY)
       "The database does not have enough undo history to support a blockchain with so many missed blocks.") in
  check_emergency b.

Definition update_signing_validator (signing_validator : string) (new_block : signed_block) : DB unit :=
  let* p := get_dgpo in
  let* slot := sgets (λ s, get_slot_at_time s (timestamp new_block)) in
  modify_validator signing_validator (λ w,
    let w := w <| last_aslot := u64 (current_aslot p + slot) |>
               <| last_confirmed_block_num := block_num new_block |> in
    let w := if CHAIN_IRREVERSIBLE_SUPPORT_MIN_RUN <=? current_run w
             then w <| last_supported_block_num := last_confirmed_block_num w |> else w in
    Ok (w <| current_run := u32 (current_run w + 1) |>)).
End block_data.
