(* ===== verification/BlockDataProofs.v ===== *)
(** * Properties of the data of a block

    Participation, missed slots, bandwidth and the emergency takeover by the
    committee. *)

From stdpp Require Import gmap strings list.
From Stdlib Require Import ZArith Lia.
From S2P Require Import Prelude Fc Text Asset Authority Block ForkDb Objects Database Supply Frame.
From S2P Require Import Scenario EvalTransfer EvalGovern Slots BlockData.

(** ** Participation *)

Definition bit (x i : Z) : Z := if Z.testbit x i then 1 else 0.

(** The number of bits set among the first [n]. *)
Fixpoint popcount (n : nat) (x : Z) : Z :=
  match n with
  | O => 0
  | S n => bit x (Z.of_nat n) + popcount n x
  end.

Lemma popcount_bounds n x : 0 ≤ popcount n x ≤ Z.of_nat n.
Proof. induction n as [|n IH]; cbn -[Z.of_nat]; [lia|]. unfold bit. case_match; lia. Qed.

Lemma testbit_shift_in x f i :
  0 ≤ f < 2 → 0 ≤ i < 128 →
  Z.testbit (u128 (u128 (Z.shiftl x 1) + f)) i =
    if i =? 0 then Z.testbit f 0 else Z.testbit x (i - 1).
Proof.
  intros Hf Hi. unfold u128. rewrite Z.shiftl_mul_pow2 by lia.
  rewrite Zplus_mod_idemp_l, Z.mod_pow2_bits_low by lia.
  replace (x * 2 ^ 1 + f) with (2 * x + Z.b2z (Z.testbit f 0)).
  2:{ assert (f = 0 ∨ f = 1) as [->| ->] by lia; cbn; lia. }
  destruct (Z.eqb_spec i 0) as [->|Hne].
  - by rewrite Z.testbit_0_r.
  - replace i with (Z.succ (i - 1)) at 1 by lia. by rewrite Z.testbit_succ_r by lia.
Qed.

Lemma popcount_shift_in n x f :
  0 ≤ f < 2 → (n < 128)%nat →
  popcount (S n) (u128 (u128 (Z.shiftl x 1) + f)) = popcount n x + f.
Proof.
  intros Hf. induction n as [|n IH]; intros Hn; cbn [popcount].
  - unfold bit. rewrite testbit_shift_in by lia. cbn.
    assert (f = 0 ∨ f = 1) as [->| ->] by lia; done.
  - cbn [popcount] in IH. specialize (IH ltac:(lia)).
    unfold bit at 1. rewrite testbit_shift_in by lia.
    destruct (Z.eqb_spec (Z.of_nat (S n)) 0); [lia|].
    replace (Z.of_nat (S n) - 1) with (Z.of_nat n) by lia. fold (bit x (Z.of_nat n)). lia.
Qed.

(** [participation_count] counts the filled slots among the last 128. *)
Definition participation_ok (p : Z * Z) : Prop := p.2 = popcount 128 p.1.

Lemma fill_slot_ok p i : participation_ok p → participation_ok (fill_slot p i).
Proof.
  unfold participation_ok, fill_slot. cbn [fst snd]. intros ->.
  set (f := if i =? 0 then 1 else 0). assert (0 ≤ f < 2) by (subst f; case_match; lia).
  rewrite (popcount_shift_in 127) by (done || lia).
  assert (popcount 128 p.1 = bit p.1 127 + popcount 127 p.1) as -> by done.
  pose proof (popcount_bounds 127 p.1). fold (bit p.1 127).
  unfold u8. rewrite Zplus_mod_idemp_l, Z.mod_small; lia.
Qed.

Section data.
Context {CE : ChainEnv}.

(** At every block [participation_count] is the number of
    bits set in [recent_slots_filled], so that it never exceeds 128 and never
    wraps, however many slots were missed. *)
Theorem participation_counts_slots b missed dgp :
  participation_count dgp = popcount 128 (recent_slots_filled dgp) →
  participation_count (advance_dgp b missed dgp)
    = popcount 128 (recent_slots_filled (advance_dgp b missed dgp)) ∧
  0 ≤ participation_count (advance_dgp b missed dgp) ≤ 128.
Proof.
  intros H0.
  assert (participation_ok (recent_slots_filled (advance_dgp b missed dgp),
            participation_count (advance_dgp b missed dgp))) as H.
  { unfold advance_dgp. cbn. rewrite <- surjective_pairing.
    generalize (upto (u32 (missed + 1))). intros l.
    assert (participation_ok (recent_slots_filled dgp, participation_count dgp)) as Hp by done.
    revert Hp. generalize (recent_slots_filled dgp, participation_count dgp).
    induction l as [|i l IH]; intros p Hp; [done|]. apply IH. by apply fill_slot_ok. }
  unfold participation_ok in H. cbn [fst snd] in H. rewrite H. split; [done|].
  apply (popcount_bounds 128).
Qed.

(** ** Bandwidth *)

(** The limit of the bandwidth is computed modulo 2^64, and for
    every block size and reserve ratio that the chain allows the product does
    not fit: the limit is smaller than the intended one, however large the
    blocks are. *)
Theorem virtual_bandwidth_wraps maximum ratio :
  65536 ≤ maximum → CHAIN_MAX_RESERVE_RATIO / 10 ≤ ratio →
  0 ≤ virtual_bandwidth maximum ratio < 2 ^ 63 ∧
  virtual_bandwidth maximum ratio <
    maximum * ratio * CHAIN_BANDWIDTH_PRECISION * CHAIN_BANDWIDTH_AVERAGE_WINDOW_SECONDS
      / CHAIN_BLOCK_INTERVAL.
Proof.
  unfold virtual_bandwidth, u64, CHAIN_MAX_RESERVE_RATIO, CHAIN_BANDWIDTH_PRECISION,
    CHAIN_BANDWIDTH_AVERAGE_WINDOW_SECONDS, CHAIN_BLOCK_INTERVAL.
  intros Hm Hr. change (20000 / 10) with 2000 in Hr.
  set (x := (_ mod 2 ^ 64 * _) mod 2 ^ 64). assert (0 ≤ x < 2 ^ 64) by (by apply Z.mod_pos_bound).
  assert (65536 * 2000 ≤ maximum * ratio) by nia.
  assert (0 ≤ x / 3 ≤ 2 ^ 64 / 3) by (split; [apply Z.div_pos|apply Z.div_le_mono]; lia).
  assert (65536 * 2000 * 1000000 * (60 * 60 * 24 * 7) / 3
    ≤ maximum * ratio * 1000000 * (60 * 60 * 24 * 7) / 3) by (apply Z.div_le_mono; lia).
  change (65536 * 2000 * 1000000 * (60 * 60 * 24 * 7) / 3) with 26424115200000000000 in *.
  change (2 ^ 64 / 3) with 6148914691236517205 in *. lia.
Qed.
End data.

Lemma participation_counts_slots_witness :
  let p := advance_dgp (CE := test_env) (example_block 0 5) 30 (dgpo test_db) in
  participation_count p = 98 ∧ participation_count p = popcount 128 (recent_slots_filled p).
Proof.
  split; [vm_compute; reflexivity|].
  apply (@participation_counts_slots test_env (example_block 0 5) 30 (dgpo test_db)).
  vm_compute. reflexivity.
Defined.

Lemma virtual_bandwidth_wraps_witness :
  virtual_bandwidth 131072 20000 < 131072 * 20000 * 1000000 * 604800 / 3.
Proof. apply (virtual_bandwidth_wraps 131072 20000); [lia|by vm_compute]. Defined.

(** ** Missed slots *)

(** What the loop over missed slots may change. *)
Definition only_validators (s s' : database) : Prop :=
  s' = s <| validators := validators s' |> <| penalty_expirations := penalty_expirations s' |>
         <| virtual_ops := virtual_ops s' |>.

#[export] Instance only_validators_preorder : PreOrder only_validators.
Proof.
  unfold only_validators. split.
  - by intros [].
  - intros x y z Hy Hz. rewrite Hz, Hy. done.
Qed.

(** A validator after it has missed a slot: the counters, and the key when it
    has been absent for more than [limit] blocks. *)
Record missed_one (head limit : Z) (w w' : validator_object) : Prop := {
  mo_owner : owner w' = owner w;
  mo_id : val_id w' = val_id w;
  mo_total : total_missed w' = u32 (total_missed w + 1);
  mo_run : current_run w' = 0;
  mo_votes : votes w' = votes w;
  mo_pending : pending_stakeholder_reward w' = pending_stakeholder_reward w;
  mo_confirmed : last_confirmed_block_num w' = last_confirmed_block_num w;
  mo_key : signing_key w' =
    if limit <? u32 (head - last_confirmed_block_num w) then 0 else signing_key w
}.

Section missed.
Context {CE : ChainEnv}.

(** A step that changes one validator and nothing else that matters. *)
Definition changes_validator (n : string) (w w' : validator_object) (s s' : database) : Prop :=
  validators s !! n = Some w ∧ validators s' = <[n := w']> (validators s) ∧ only_validators s s'.

Lemma changes_modify n f s u s' :
  modify_validator n f s = Ok (u, s') → ∃ w w', f w = Ok w' ∧ changes_validator n w w' s s'.
Proof.
  intros (w & w' & Hw & Hf & [= _ ->])%modify_in_Ok. exists w, w'. split; [done|].
  split; [done|]. split; [done|]. by destruct s.
Qed.

Lemma changes_trans n w1 w2 w3 s1 s2 s3 :
  changes_validator n w1 w2 s1 s2 → changes_validator n w2 w3 s2 s3 → changes_validator n w1 w3 s1 s3.
Proof.
  intros (H1 & E1 & O1) (H2 & E2 & O2). split; [done|]. split; [|by etrans].
  by rewrite E2, E1, insert_insert_eq.
Qed.

Lemma changes_frame n w w' s s1 s' :
  changes_validator n w w' s s1 → validators s' = validators s1 → only_validators s1 s' →
  changes_validator n w w' s s'.
Proof. intros (H & E & O) E' O'. split; [done|]. split; [congruence|by etrans]. Qed.

Lemma penalize_change n s u s' :
  penalize n s = Ok (u, s') →
  ∃ w w', changes_validator n w w' s s' ∧
    w' = w <| penalty_percent := penalty_percent w' |> <| counted_votes := counted_votes w' |>.
Proof.
  unfold penalize, get_median_props, head_block_time. intros H. inv_ok.
  match goal with H : modify_validator _ _ _ = Ok _ |- _ =>
    apply changes_modify in H as (w & w' & Hf & Hc) end.
  inv_ok. exists w. eexists. split; [eapply changes_frame; [exact Hc|done|]|by destruct w].
  unfold only_validators. destruct x3. done.
Qed.

Lemma blank_change n limit s u s' w :
  validators s !! n = Some w → blank_if_absent n limit s = Ok (u, s') →
  ∃ w', changes_validator n w w' s s' ∧
    w' = w <| signing_key := if limit <? u32 (head_block_number (dgpo s) - last_confirmed_block_num w)
                             then 0 else signing_key w |>.
Proof.
  unfold blank_if_absent, get_validator. intros Hw H.
  apply sbind_Ok in H as (w0 & ? & Hg & H). apply get_in_Ok in Hg as (? & Hg & [= -> ->]).
  rewrite Hw in Hg. injection Hg as <-.
  apply sbind_Ok in H as (head & ? & Hh & H). apply sgets_Ok in Hh. injection Hh as -> ->.
  destruct (_ && _) eqn:Hb; cbn [swhen] in H.
  - unfold shut_down, push_virtual_operation in H. inv_ok. propify.
    match goal with H : modify_validator _ _ _ = Ok _ |- _ =>
      apply changes_modify in H as (w1 & w' & Hf & Hc) end.
    assert (w1 = w) as -> by (destruct Hc as [Hw1 _]; congruence). inv_ok.
    rewrite (proj2 (Z.ltb_lt _ _)) by done.
    eexists. split; [eapply changes_frame; [exact Hc|done|]|done].
    match goal with |- only_validators ?t _ => by destruct t end.
  - apply sret_Ok in H as [= _ ->]. exists w. split.
    + split; [done|]. split; [by rewrite insert_id|reflexivity].
    + apply andb_false_iff in Hb as [Hb|Hb]; propify.
      * case_match; destruct w; cbn in *; subst; done.
      * rewrite (proj2 (Z.ltb_ge _ _)) by done. by destruct w.
Qed.

Lemma changes_gap n w w' s s' :
  changes_validator n w w' s s' → pending_stakeholder_reward w' = pending_stakeholder_reward w →
  eff s s' 0.
Proof.
  intros (Hw & Ew & ->) Hp. split; [|done..]. unfold gap, accounted. cbn.
  rewrite Ew, (msum_insert _ _ _ _ _ Hw). lia.
Qed.

Definition calm (s : database) : Prop :=
  (CHAIN_HARDFORK_12 <? processed_hardforks s) && emergency_consensus_active (dgpo s) = false.

Definition owners_ok (s : database) : Prop := ∀ n w, validators s !! n = Some w → owner w = n.

(** The validator of a slot. *)
Definition slot_owner (s : database) (slot : Z) : option string :=
  match get_scheduled_validator slot s with Ok (n, _) => Some n | Err _ => None end.

Lemma get_scheduled_Ok slot s n s1 :
  get_scheduled_validator slot s = Ok (n, s1) → s1 = s ∧ slot_owner s slot = Some n.
Proof.
  intros H. unfold slot_owner. rewrite H. unfold get_scheduled_validator in H.
  repeat case_match; by inv_ok.
Qed.

Lemma miss_slot_step b i s u s' :
  owners_ok s → calm s → miss_slot b i s = Ok (u, s') →
  ∃ n, slot_owner s (i + 1) = Some n ∧
    ((n = validator b ∧ s' = s) ∨
     (n ≠ validator b ∧ ∃ w w', changes_validator n w w' s s' ∧
        missed_one (head_block_number (dgpo s)) CHAIN_MAX_VALIDATOR_MISSED_BLOCKS w w')).
Proof.
  intros Hok Hcalm H. unfold miss_slot in H.
  apply sbind_Ok in H as (n & ? & Hn & H). apply get_scheduled_Ok in Hn as [-> Hn].
  exists n. split; [done|].
  apply sbind_Ok in H as (? & ? & Hw & H). apply get_in_Ok in Hw as (w & Hw & [= -> ->]).
  do 2 (apply sbind_Ok in H as (? & ? & Hg & H); apply sgets_Ok in Hg; injection Hg as -> ->).
  rewrite (Hok n w Hw) in H. unfold calm in Hcalm. rewrite Hcalm in H. cbn [andb] in H.
  destruct (decide (n = validator b)) as [->|Hne].
  - rewrite bool_decide_true in H by done. cbn in H. injection H as _ <-. by left.
  - rewrite bool_decide_false in H by done. right. split; [done|]. cbn [negb swhen] in H.
    apply sbind_Ok in H as (? & s1 & H1 & H). apply changes_modify in H1 as (w0 & w1 & E1 & C1).
    apply sbind_Ok in H as (? & s2 & H2 & H). apply changes_modify in H2 as (w1' & w2 & E2 & C2).
    assert (w0 = w) as -> by (destruct C1; congruence).
    assert (w1' = w1) as ->.
    { destruct C1 as (_ & Ev & _), C2 as [Hv _]. rewrite Ev, lookup_insert_eq in Hv. congruence. }
    pose proof (changes_trans _ _ _ _ _ _ _ C1 C2) as C. clear C1 C2.
    injection E1 as <-. injection E2 as <-.
    apply sbind_Ok in H as (hf6 & ? & Hg & H). apply sgets_Ok in Hg. injection Hg as -> ->.
    apply sbind_Ok in H as (? & s3 & H3 & H).
    assert (∃ w3, changes_validator n w w3 s s3 ∧ missed_one 0 (2 ^ 32) w w3 ∧
        signing_key w3 = signing_key w) as (w3 & C3 & [M1 M2 M3 M4 M5 M6 M7 _] & M8).
    { destruct (6 <? _) eqn:Hhf; cbn [swhen] in H3.
      - apply penalize_change in H3 as (w2 & w3 & C3 & E3).
        assert (w2 = w <| current_run := 0 |> <| total_missed := u32 (total_missed w + 1) |>) as ->.
        { destruct C as (_ & Ev & _), C3 as [Hv _]. rewrite Ev, lookup_insert_eq in Hv. by injection Hv. }
        exists w3. split; [by eapply changes_trans|]. rewrite E3. split; [|done]. split; try done.
        cbn. by rewrite (proj2 (Z.ltb_ge _ _)) by (pose proof (Z.mod_pos_bound (0 - last_confirmed_block_num w) (2 ^ 32)); unfold u32; lia).
      - injection H3 as _ <-. eexists. split; [exact C|]. split; [|done]. split; try done.
        cbn. by rewrite (proj2 (Z.ltb_ge _ _)) by (pose proof (Z.mod_pos_bound (0 - last_confirmed_block_num w) (2 ^ 32)); unfold u32; lia). }
    assert (validators s3 !! n = Some w3) as Hw3 by (rewrite (proj1 (proj2 C3)); apply lookup_insert_eq).
    apply (blank_change _ _ _ _ _ _ Hw3) in H as (w4 & C4 & E4).
    assert (dgpo s3 = dgpo s) as Ed by (rewrite (proj2 (proj2 C3)); done).
    exists w, w4. split; [by eapply changes_trans|]. rewrite E4, Ed, M7, M8. split; cbn; try congruence.
Qed.

(** How many of the slots [l] belong to [n]. *)
Definition slots_of (s : database) (n : string) (l : list Z) : Z :=
  Z.of_nat (length (filter (λ i, slot_owner s (i + 1) = Some n) l)).

(** A validator after it has missed [k] slots. *)
Record missed_many (head k : Z) (w w' : validator_object) : Prop := {
  mm_total : total_missed w' = u32 (total_missed w + k);
  mm_run : current_run w' = if k =? 0 then current_run w else 0;
  mm_key : signing_key w' =
    if negb (k =? 0) && (CHAIN_MAX_VALIDATOR_MISSED_BLOCKS <? u32 (head - last_confirmed_block_num w))
    then 0 else signing_key w;
  mm_votes : votes w' = votes w;
  mm_confirmed : last_confirmed_block_num w' = last_confirmed_block_num w
}.

Lemma missed_many_0 head w : 0 ≤ total_missed w < 2 ^ 32 → missed_many head 0 w w.
Proof. intros. split; try done. unfold u32. rewrite Z.mod_small; lia. Qed.

Lemma missed_many_S head k w1 w2 w3 :
  0 ≤ k → missed_one head CHAIN_MAX_VALIDATOR_MISSED_BLOCKS w1 w2 → missed_many head k w2 w3 →
  missed_many head (1 + k) w1 w3.
Proof.
  intros Hk [O1 I1 T1 R1 V1 P1 C1 K1] [T2 R2 K2 V2 C2]. split; try congruence.
  - rewrite T2, T1. unfold u32. rewrite Zplus_mod_idemp_l. f_equal. lia.
  - rewrite R2, R1. destruct (Z.eqb_spec (1 + k) 0); [lia|]. by destruct (k =? 0).
  - rewrite K2, C1, K1. destruct (Z.eqb_spec (1 + k) 0); [lia|]. cbn [negb andb].
    destruct (_ <? _), (k =? 0); done.
Qed.

Lemma slot_owner_same s s' i :
  only_validators s s' → slot_owner s' i = slot_owner s i.
Proof. intros ->. unfold slot_owner, get_scheduled_validator. cbn.
  destruct (_ =? 0); [done|]. by destruct (current_shuffled_validators _ !! _).
Qed.

Lemma slots_of_same s s' n l : only_validators s s' → slots_of s' n l = slots_of s n l.
Proof.
  intros Ho. unfold slots_of. do 2 f_equal. apply list_filter_iff. intros i.
  by rewrite (slot_owner_same s s').
Qed.

Lemma slots_of_cons s n i l :
  slots_of s n (i :: l) = (if decide (slot_owner s (i + 1) = Some n) then 1 else 0) + slots_of s n l.
Proof. unfold slots_of. rewrite filter_cons. case_decide; cbn [length]; lia. Qed.

Definition counters_ok (s : database) : Prop :=
  ∀ n w, validators s !! n = Some w → 0 ≤ total_missed w < 2 ^ 32.

Lemma miss_slots b l s u s' :
  owners_ok s → counters_ok s → calm s → sfor l (miss_slot b) s = Ok (u, s') →
  only_validators s s' ∧ eff s s' 0 ∧ owners_ok s' ∧
  ∀ n w, validators s !! n = Some w → ∃ w', validators s' !! n = Some w' ∧
    missed_many (head_block_number (dgpo s))
      (if decide (n = validator b) then 0 else slots_of s n l) w w'.
Proof.
  revert s. induction l as [|i l IH]; intros s Hok Hcnt Hcalm H; cbn [sfor] in H.
  { injection H as _ <-. split_and!; [reflexivity|apply eff_refl|done|]. intros n w Hw.
    exists w. split; [done|]. case_decide; apply missed_many_0; by eapply Hcnt. }
  apply sbind_Ok in H as (? & s1 & H1 & H).
  destruct (miss_slot_step b i s _ s1 Hok Hcalm H1) as (m & Hm & [[-> ->]|(Hne & w1 & w2 & C & M)]).
  - destruct (IH s Hok Hcnt Hcalm H) as (Ho & He & Hown & Hall). split_and!; [done..|].
    intros n w Hw. destruct (Hall n w Hw) as (w' & Hw' & M). exists w'. split; [done|].
    revert M. rewrite slots_of_cons, Hm. destruct (decide (n = validator b)) as [|Hn]; [done|].
    by rewrite decide_False by congruence.
  - destruct C as (Hw1 & Ev & Ho).
    assert (dgpo s1 = dgpo s) as Ed by (rewrite Ho; done).
    destruct (IH s1) as (Ho' & He' & Hown & Hall); [..|exact H|].
    + intros n w. rewrite Ev. intros [[<- <-]|[_ Hw]]%lookup_insert_Some; [|by apply Hok].
      rewrite (mo_owner _ _ _ _ M). by apply Hok.
    + intros n w. rewrite Ev. intros [[<- <-]|[_ Hw]]%lookup_insert_Some; [|by eapply Hcnt].
      rewrite (mo_total _ _ _ _ M). by apply Z.mod_pos_bound.
    + unfold calm, processed_hardforks. rewrite Ed, Ho. exact Hcalm.
    + split; [by etrans|]. split; [|split; [done|]].
      { eapply eff_eq; [eapply eff_trans; [|exact He']|by rewrite Z.add_0_r].
        apply (changes_gap m w1 w2); [done|apply (mo_pending _ _ _ _ M)]. }
      intros n w Hw. rewrite slots_of_cons, Hm. rewrite Ed in Hall.
      destruct (decide (n = m)) as [->|Hnm].
      * assert (w1 = w) as -> by congruence.
        destruct (Hall m w2) as (w' & Hw' & M'); [by rewrite Ev, lookup_insert_eq|].
        exists w'. split; [done|]. rewrite decide_False in M' by done.
        rewrite !decide_False by done. rewrite (decide_True (P := Some m = Some m)) by done.
        rewrite (slots_of_same s s1) in M' by done. eapply missed_many_S; [|done..].
        unfold slots_of. lia.
      * destruct (Hall n w) as (w' & Hw' & M'); [by rewrite Ev, lookup_insert_ne|].
        exists w'. split; [done|]. rewrite (slots_of_same s s1) in M' by done.
        rewrite (decide_False (P := Some m = Some n)) by congruence. exact M'.
Qed.
End missed.

(** ** The emergency *)

Section emergency.
Context {CE : ChainEnv}.

(** The state of a chain that the committee has taken over. *)
Record taken_over (s : database) : Prop := {
  to_active : emergency_consensus_active (dgpo s) = true;
  to_forks : _emergency_consensus_active (fork_db s) = true;
  to_slots : ∀ slot n, slot_owner s slot = Some n → n = CHAIN_EMERGENCY_VALIDATOR_ACCOUNT;
  to_key : ∃ w, validators s !! CHAIN_EMERGENCY_VALIDATOR_ACCOUNT = Some w ∧
    parse_public_key CHAIN_EMERGENCY_VALIDATOR_PUBLIC_KEY_STR = Ok (signing_key w);
  to_disabled : ∀ n w, validators s !! n = Some w → n ≠ CHAIN_EMERGENCY_VALIDATOR_ACCOUNT →
    signing_key w = 0 ∧ penalty_percent w = 0 ∧ counted_votes w = votes w ∧ current_run w = 0;
  to_penalties : penalty_expirations s = []
}.

(** A step that changes only validators, and only the committee's. *)
Definition committee_only (s s' : database) : Prop :=
  dgpo s' = dgpo s ∧ schedule s' = schedule s ∧ fork_db s' = fork_db s ∧
  ∃ w, validators s' = <[CHAIN_EMERGENCY_VALIDATOR_ACCOUNT := w]> (validators s) ∧
    owner w = CHAIN_EMERGENCY_VALIDATOR_ACCOUNT ∧
    parse_public_key CHAIN_EMERGENCY_VALIDATOR_PUBLIC_KEY_STR = Ok (signing_key w).

Lemma neutral_votes_Ok s w w' :
  neutral_votes s w = Ok w' →
  owner w' = owner w ∧ signing_key w' = signing_key w ∧
  pending_stakeholder_reward w' = pending_stakeholder_reward w.
Proof. unfold neutral_votes. intros. repeat case_match; by inv_ok. Qed.

Lemma install_committee s u s' :
  owners_ok s → install_emergency_validator s = Ok (u, s') → committee_only s s' ∧ eff s s' 0.
Proof.
  intros Hok H. unfold install_emergency_validator in H.
  apply sbind_Ok in H as (key & ? & Hk & H). apply slift_Ok in Hk as (? & Hk & [= <- ->]).
  apply sbind_Ok in H as (wit & ? & Hw & H). apply sgets_Ok in Hw. injection Hw as -> ->.
  destruct (validators s !! CHAIN_EMERGENCY_VALIDATOR_ACCOUNT) as [w|] eqn:Hw.
  - split; [|eapply eff_modify_validator; [|exact H]; intros ? ? Hf; by apply neutral_votes_Ok in Hf as (_ & _ & ?)].
    apply modify_in_Ok in H as (w0 & w' & Hw0 & Hf & [= _ ->]).
    apply neutral_votes_Ok in Hf as (Ho & Hs & _). split_and!; [done..|].
    exists w'. split; [done|]. split; [by rewrite Ho; apply (Hok _ w0)|by rewrite Hs].
  - apply sbind_Ok in H as (now & ? & Hn & H). apply sgets_Ok in Hn. injection Hn as -> ->.
    split; [|eapply eff_create_validator; [|exact H]; intros ? ? Hf; by apply neutral_votes_Ok in Hf as (_ & _ & ?)].
    unfold create_validator in H. inv_ok.
    match goal with H : neutral_votes _ _ = Ok ?w |- _ =>
      apply neutral_votes_Ok in H as (Ho & Hs & _) end.
    match goal with H : create_in _ _ _ _ _ = Ok _ |- _ => apply create_in_Ok in H as [_ [= _ ->]] end.
    split_and!; [done..|]. eexists. split; [done|]. split; [by rewrite Ho|by rewrite Hs].
Qed.

Lemma slot_owner_override s n slot w l :
  slot_owner s slot = Some n → 0 < num_scheduled_validators (schedule s) →
  current_shuffled_validators (schedule s) = override_schedule (num_scheduled_validators (schedule s)) w l →
  n = w.
Proof.
  unfold slot_owner, get_scheduled_validator. generalize (num_scheduled_validators (schedule s)).
  intros c Hs Hc E. destruct (Z.eqb_spec c 0); [lia|].
  rewrite E in Hs. destruct (override_schedule _ _ _ !! _) as [x|] eqn:Hx; [|done]. injection Hs as <-.
  unfold override_schedule in Hx. pose proof (Z.mod_pos_bound (u64 (current_aslot (dgpo s) + slot)) c Hc).
  rewrite lookup_app_l in Hx by (rewrite length_replicate; lia).
  by apply lookup_replicate in Hx as [? _].
Qed.

Lemma disabled_spec w :
  pending_stakeholder_reward (disabled w) = pending_stakeholder_reward w ∧
  owner (disabled w) = owner w.
Proof. unfold disabled. by case_bool_decide. Qed.

Lemma activate_emergency_spec b s u s' :
  owners_ok s → 0 < num_scheduled_validators (schedule s) →
  activate_emergency b s = Ok (u, s') → taken_over s' ∧ eff s s' 0.
Proof.
  intros Hok Hn H. unfold activate_emergency in H.
  apply sbind_Ok in H as (? & s1 & H1 & H). apply modify_dgpo_Ok in H1 as (p & [= <-] & [= _ ->]).
  apply sbind_Ok in H as (? & s2 & H2 & H).
  apply install_committee in H2 as [(Ed & Es & Ef & w & Ev & Ho & Hk) [G Ge Gi]]; [|exact Hok].
  inv_db. unfold on_fork_db, set_emergency_mode, fupd in H. cbn in H. injection H as _ <-.
  split.
  - split; cbn; rewrite ?Ed; try done.
    + intros slot n Hs. eapply slot_owner_override; [exact Hs|cbn; by rewrite Es|cbn; reflexivity].
    + exists (disabled w). rewrite lookup_fmap, Ev, lookup_insert_eq. split; [done|].
      unfold disabled. by rewrite bool_decide_true.
    + intros n w'. rewrite lookup_fmap, Ev. intros (w0 & Hw0 & ->)%fmap_Some Hne.
      rewrite lookup_insert_ne in Hw0 by done. apply Hok in Hw0. unfold disabled.
      rewrite bool_decide_false by congruence. done.
  - split; [|exact Ge|exact Gi]. rewrite Z.add_0_r in *. rewrite <- G at 1.
    unfold gap, accounted. cbn. rewrite msum_fmap by (intros v; apply disabled_spec). done.
Qed.

(** The node has the last irreversible block, and [b] is an hour younger. *)
Definition stalled (b : signed_block) (s : database) : Prop :=
  ∃ t, lib_time s = Ok (Some t) ∧ CHAIN_HARDFORK_12 < processed_hardforks s ∧
    CHAIN_EMERGENCY_CONSENSUS_TIMEOUT_SEC ≤ u32 (timestamp b - t).

Lemma check_emergency_spec b s u s' :
  owners_ok s → 0 < num_scheduled_validators (schedule s) →
  emergency_consensus_active (dgpo s) = false →
  check_emergency b s = Ok (u, s') →
  eff s s' 0 ∧ (stalled b s ∧ taken_over s' ∨ ¬ stalled b s ∧ s' = s).
Proof.
  intros Hok Hn He H. unfold check_emergency in H.
  do 2 (apply sbind_Ok in H as (? & ? & Hg & H); apply sgets_Ok in Hg; injection Hg as -> ->).
  rewrite He in H. destruct (Z.ltb_spec CHAIN_HARDFORK_12 (processed_hardforks s)) as [Hhf|Hhf]; cbn in H.
  2:{ injection H as _ <-. split; [apply eff_refl|]. right. split; [|done]. intros (? & _ & ? & _). lia. }
  apply sbind_Ok in H as (t & ? & Ht & H). apply slift_Ok in Ht as (? & Ht & [= <- ->]).
  destruct t as [t|].
  2:{ injection H as _ <-. split; [apply eff_refl|]. right. split; [|done]. intros (? & ? & _). congruence. }
  destruct (Z.leb_spec CHAIN_EMERGENCY_CONSENSUS_TIMEOUT_SEC (u32 (timestamp b - t))) as [Hl|Hl]; cbn in H.
  - apply activate_emergency_spec in H as [Hto ?]; [|done..]. split; [done|]. left.
    split; [|done]. by exists t.
  - injection H as _ <-. split; [apply eff_refl|]. right. split; [|done]. intros (t' & Ht' & _ & ?).
    assert (t' = t) as -> by congruence. lia.
Qed.

(** Up to the check for an emergency. *)
Lemma update_before_emergency b skip s u s' :
  owners_ok s → counters_ok s → calm s → update_global_dynamic_data b skip s = Ok (u, s') →
  ∃ s1, check_emergency b s1 = Ok (u, s') ∧ owners_ok s1 ∧ eff s s1 0 ∧
    only_validators (s <| dgpo := advance_dgp b (missed_before b s) (dgpo s) |>) s1 ∧
    ∀ n w, validators s !! n = Some w → ∃ w', validators s1 !! n = Some w' ∧
      missed_many (head_block_number (dgpo s))
        (if decide (n = validator b) then 0 else slots_of s n (upto (missed_before b s))) w w'.
Proof.
  intros Hok Hcnt Hcalm H. unfold update_global_dynamic_data in H.
  apply sbind_Ok in H as (? & ? & Hg & H). apply sgets_Ok in Hg. injection Hg as -> ->.
  apply sbind_Ok in H as (? & s1 & Hm & H).
  apply miss_slots in Hm as (Ho & He & Hown & Hall); [|done..].
  assert (dgpo s1 = dgpo s) as Ed by (rewrite Ho; done).
  apply sbind_Ok in H as (? & s2 & Hd & H).
  pose proof (eff_modify_dgpo _ _ _ _ Hd) as (p & [= <-] & He2).
  apply modify_dgpo_Ok in Hd as (p & [= <-] & [= _ ->]).
  apply sbind_Ok in H as (? & ? & Hg & H). apply sgets_Ok in Hg. injection Hg as -> ->.
  apply sbind_Ok in H as (? & s3 & Hu & H).
  assert (s3 = s1 <| dgpo := advance_dgp b (missed_before b s) (dgpo s1) |>) as ->.
  { destruct skip; cbn in Hu; [by injection Hu as _ <-|]. apply sassert_Ok in Hu as [_ [= _ ->]]. done. }
  eexists. split; [exact H|]. split; [exact Hown|]. split_and!.
  - eapply eff_eq; [eapply eff_trans; [exact He|exact He2]|]. unfold fund_tokens. cbn. lia.
  - rewrite Ed. unfold only_validators in *. rewrite Ho. done.
  - exact Hall.
Qed.

(** As long as no emergency is on, a block charges every slot
    that was missed before it to the validator that it belonged to, but never
    to its own signer: the counter of missed blocks grows by the number of its
    slots, its current run ends, and its key is blanked when it has confirmed
    nothing for more than [CHAIN_MAX_VALIDATOR_MISSED_BLOCKS] blocks.  No votes
    and no tokens change. *)
Theorem missed_blocks_counted b skip s u s' :
  owners_ok s → counters_ok s → calm s → 0 < num_scheduled_validators (schedule s) →
  emergency_consensus_active (dgpo s) = false →
  update_global_dynamic_data b skip s = Ok (u, s') →
  emergency_consensus_active (dgpo s') = false →
  dgpo s' = advance_dgp b (missed_before b s) (dgpo s) ∧ gap s' = gap s ∧
  ∀ n w, validators s !! n = Some w → ∃ w', validators s' !! n = Some w' ∧
    missed_many (head_block_number (dgpo s))
      (if decide (n = validator b) then 0 else slots_of s n (upto (missed_before b s))) w w'.
Proof.
  intros Hok Hcnt Hcalm Hn He H He'.
  apply update_before_emergency in H as (s1 & H & Hok1 & Heff & Ho & Hall); [|done..].
  apply check_emergency_spec in H as [_ [[_ Hto]|[_ ->]]].
  - apply to_active in Hto. congruence.
  - split_and!; [by rewrite Ho|destruct Heff; lia|exact Hall].
  - done.
  - by rewrite Ho.
  - by rewrite Ho.
Qed.

End emergency.

(** ** On the small chain *)

(** Block 101, signed by Bob in the second slot after the head. *)
Definition late_block : signed_block := mk_block (100 * 2 ^ 128) 1000005 "bob" 0 5 [] [].

(** The first block is irreversible, and nothing since. *)
Definition stalled_db : database :=
  test_db <| dgpo ::= λ p, p <| last_irreversible_block_num := 1 |> |>
          <| block_log := [example_block 0 5] |>.

Lemma test_owners (s : database) : validators s = validators test_db → owners_ok s ∧ counters_ok s.
Proof.
  unfold owners_ok, counters_ok. intros ->. split.
  - change (map_Forall (λ n w, owner w = n) (validators test_db)).
    apply (bool_decide_unpack _). vm_compute. exact I.
  - change (map_Forall (λ (_ : string) w, 0 ≤ total_missed w < 2 ^ 32) (validators test_db)).
    apply (bool_decide_unpack _). vm_compute. exact I.
Qed.

Lemma missed_blocks_counted_witness :
  let run := @update_global_dynamic_data test_env late_block false in
  head_block_number (dgpo (after run test_db)) = 101 ∧
  ∃ w, validators (after run test_db) !! "alice" = Some w ∧ total_missed w = 1 ∧
    gap (after run test_db) = gap test_db.
Proof.
  intros run. destruct (test_owners test_db eq_refl) as [Ho Hc].
  assert (run test_db = Ok (tt, after run test_db)) as H by (vm_compute; reflexivity).
  destruct (@missed_blocks_counted test_env late_block false test_db tt _ Ho Hc ltac:(by vm_compute)
    ltac:(by vm_compute) ltac:(by vm_compute) H ltac:(by vm_compute)) as (Hd & Hg & Hall).
  split; [vm_compute; reflexivity|].
  destruct (Hall "alice" ((new_validator 0 "alice") <| signing_key := 5 |>)) as (w & Hw & M);
    [vm_compute; reflexivity|].
  exists w. split; [exact Hw|]. split; [|exact Hg].
  rewrite (mm_total _ _ _ _ M). vm_compute. reflexivity.
Defined.


(** Whether a node enters the emergency depends on the blocks
    that it stores, not only on the chain: of two nodes in the same state, of
    which one has lost its block log, only the other one hands the chain over
    when the same block arrives. *)
Theorem emergency_depends_on_storage :
  ∃ (CE : ChainEnv) s b s1 s2,
    update_global_dynamic_data b false s = Ok (tt, s1) ∧
    update_global_dynamic_data b false (s <| block_log := [] |>) = Ok (tt, s2) ∧
    taken_over s1 ∧ emergency_consensus_active (dgpo s2) = false.
Proof.
  set (run := @update_global_dynamic_data test_env late_block false).
  assert (run stalled_db = Ok (tt, after run stalled_db)) as H by (vm_compute; reflexivity).
  destruct (test_owners stalled_db eq_refl) as [Ho Hc].
  destruct (@update_before_emergency test_env late_block false stalled_db tt _ Ho Hc ltac:(by vm_compute) H)
    as (s1 & Hs1 & Hok1 & _ & Hov & _).
  exists test_env, stalled_db, late_block, (after run stalled_db),
    (after run (stalled_db <| block_log := [] |>)).
  split; [exact H|]. split; [vm_compute; reflexivity|]. split; [|vm_compute; reflexivity].
  apply (@check_emergency_spec test_env) in Hs1 as [_ [[_ Hto]|[Hno _]]];
    [exact Hto| |exact Hok1|by rewrite Hov|by rewrite Hov].
  exfalso. apply Hno. exists 0. rewrite Hov. split; [vm_compute; reflexivity|].
  split; vm_compute; congruence.
Qed.
