(* ===== verification/Irreversible.v ===== *)
(** * Irreversible blocks (libraries/chain/database.cpp, lines 6441-6652)

    After each block [update_last_irreversible_block] takes the highest block
    that three quarters of the scheduled validators support, moves the blocks
    up to it from the fork database to the block log, and shrinks the fork
    database.  The node is one that keeps a full block log ([_dlt_mode] off). *)

From stdpp Require Import gmap strings list sorting.
From Stdlib Require Import ZArith Lia.
From S2P Require Import Prelude Fc Text Asset Authority Block ForkDb Objects Database Supply Frame.
From S2P Require Import Scenario EvalTransfer Slots BlockData BlockDataProofs.

Definition CHAIN_1_PERCENT : Z := CHAIN_100_PERCENT / 100.
Definition CHAIN_IRREVERSIBLE_THRESHOLD : Z := 75 * CHAIN_1_PERCENT.

(** [id._hash[1]]: the second word of an identifier, as it lies in memory. *)
Definition swap_bytes (w : Z) : Z :=
  Z.lor (Z.lor (Z.shiftl (Z.land w 255) 24) (Z.shiftl (Z.land (Z.shiftr w 8) 255) 16))
        (Z.lor (Z.shiftl (Z.land (Z.shiftr w 16) 255) 8) (Z.land (Z.shiftr w 24) 255)).
Definition id_word1 (id : Z) : Z := swap_bytes (u32 (Z.shiftr id 96)).

(** The places of the schedule that are in use. *)
Definition scheduled (s : database) : list string :=
  take (Z.to_nat (num_scheduled_validators (schedule s))) (current_shuffled_validators (schedule s)).

(** What the validators of the schedule support. *)
Fixpoint supports (names : list string) : DB (list Z) :=
  match names with
  | [] => sret []
  | n :: names =>
      let* w := get_validator n in
      let* r := supports names in
      sret (last_supported_block_num w :: r)
  end.

Definition irreversible_offset (n : Z) : Z :=
  (CHAIN_100_PERCENT - CHAIN_IRREVERSIBLE_THRESHOLD) * n / CHAIN_100_PERCENT.

(** The element that [std::nth_element] puts at the offset. *)
Definition nth_support (l : list Z) : res Z :=
  res_of_option (merge_sort Z.le l !! Z.to_nat (irreversible_offset (Z.of_nat (length l)))) E_undefined.

(** In an emergency the current block stays reversible. *)
Definition cap_in_emergency (s : database) (n : Z) : Z :=
  let head := head_block_number (dgpo s) in
  if (CHAIN_HARDFORK_12 <? processed_hardforks s) && emergency_consensus_active (dgpo s) &&
     (head <=? n)
  then (if 0 <? head then head - 1 else 0)
  else n.

Section irreversible.
Context {CE : ChainEnv}.

Definition log_head_num (s : database) : Z :=
  match last (block_log s) with Some b => block_num b | None => 0 end.

(** [block_log::append] *)
Definition log_append (b : signed_block) : DB unit := λ s,
  if Z.of_nat (length (block_log s)) =? block_num b - 1
  then Ok (tt, s <| block_log ::= λ l, l ++ [b] |>)
  else Err (E_assert "Append to index file occuring at wrong position.").

Definition main_branch_block (n : Z) (s : database) : res (option signed_block) :=
  let? a := fetch_block_on_main_branch_by_number n (fork_db s) in
  Ok (a ≫= stored_block s).

Definition log_block (n : Z) : DB unit :=
  let* r := sgets (main_branch_block n) in
  let* block := slift r in
  match block with
  | Some b => log_append b
  | None =>
      sthrow (E_assert "Current fork in the fork database does not contain the last_irreversible_block")
  end.

Definition write_log : DB unit :=
  let* p := get_dgpo in
  let* log_head := sgets log_head_num in
  swhen (log_head <? last_irreversible_block_num p)
    (sfor (seqZ (log_head + 1) (last_irreversible_block_num p - log_head)) log_block).

Definition set_lib (n id ref_num ref_prefix : Z) : DB unit :=
  modify_dgpo (λ p, Ok (p <| last_irreversible_block_num := n |> <| last_irreversible_block_id := id |>
    <| last_irreversible_block_ref_num := ref_num |>
    <| last_irreversible_block_ref_prefix := ref_prefix |>)).

(** The identifier of the irreversible block, from the log or the fork
    database. *)
Definition refer_to_lib : DB unit :=
  let* p := get_dgpo in
  let n := last_irreversible_block_num p in
  let* r := sgets (read_block_by_num n) in
  let* logged := slift r in
  let* block :=
    (match logged with
     | Some b => sret (Some b)
     | None => let* r := sgets (main_branch_block n) in slift r
     end) in
  match block with
  | Some b => set_lib n (block_id b) (Z.land n 65535) (id_word1 (block_id b))
  | None => sret tt
  end.

Definition update_last_irreversible_block (skip_block_log : bool) : DB unit :=
  let* names := sgets scheduled in
  let* wso := sgets schedule in
  do* slift (rassert (Z.of_nat (length names) =? num_scheduled_validators wso) E_undefined) in
  let* wit_objs := supports names in
  let* candidate := slift (nth_support wit_objs) in
  let* new_lib := sgets (λ s, cap_in_emergency s candidate) in
  let* p := get_dgpo in
  do* swhen (last_irreversible_block_num p <? new_lib) (set_lib new_lib 0 0 0) in
  do* swhen (negb skip_block_log) write_log in
  let* p := get_dgpo in
  do* swhen (new_lib =? last_irreversible_block_num p) refer_to_lib in
  let* p := get_dgpo in
  on_fork_db (set_max_size (u32 (head_block_number p - last_irreversible_block_num p + 1))).
End irreversible.

(** ** Ranks in a list of numbers *)

Section ranks.
Implicit Types (l : list Z) (m c : Z).

(** How many elements of [l] are at least [m]. *)
Definition count_ge m l : nat := length (filter (λ x, m ≤ x) l).

Lemma count_ge_perm m l l' : l ≡ₚ l' → count_ge m l = count_ge m l'.
Proof. unfold count_ge. by intros ->. Qed.

Lemma count_ge_app m l l' : count_ge m (l ++ l') = (count_ge m l + count_ge m l')%nat.
Proof. unfold count_ge. by rewrite filter_app, length_app. Qed.

Lemma count_ge_all m l : Forall (λ x, m ≤ x) l → count_ge m l = length l.
Proof.
  unfold count_ge. induction 1 as [|x l Hx _ IH]; [done|]. rewrite filter_cons_True by done.
  cbn. by rewrite IH.
Qed.

Lemma count_ge_none m l : Forall (λ x, x < m) l → count_ge m l = 0%nat.
Proof.
  unfold count_ge. induction 1 as [|x l Hx _ IH]; [done|]. by rewrite filter_cons_False by lia.
Qed.

Lemma count_ge_mono m m' l : m ≤ m' → (count_ge m' l ≤ count_ge m l)%nat.
Proof.
  intros Hm. unfold count_ge. induction l as [|x l IH]; [done|].
  rewrite !filter_cons. repeat case_decide; cbn [length]; lia.
Qed.

Lemma sorted_rank l k c :
  StronglySorted Z.le l → l !! k = Some c →
  (length l - k ≤ count_ge c l)%nat ∧ (∀ m, c < m → (count_ge m l < length l - k)%nat).
Proof.
  intros Hs Hk. pose proof (lookup_lt_Some _ _ _ Hk) as Hlt.
  rewrite <- (take_drop_middle l k c Hk) in Hs.
  apply StronglySorted_app in Hs as (Hcross & _ & Hs). inversion Hs as [|? ? _ Hge]; subst.
  assert (length (drop (S k) l) = (length l - S k)%nat) as Ed by apply length_drop.
  rewrite <- (take_drop_middle l k c Hk). rewrite length_app, length_take. cbn [length]. split.
  - rewrite count_ge_app, (count_ge_all c (c :: _)); [cbn [length]; lia|].
    constructor; [lia|exact Hge].
  - intros m Hm. rewrite count_ge_app, count_ge_none.
    + unfold count_ge. rewrite filter_cons_False by lia.
      pose proof (length_filter (λ x, m ≤ x) (drop (S k) l)). lia.
    + apply Forall_forall. intros x Hx. assert (x ≤ c); [|lia].
      apply Hcross; [done|]. apply elem_of_cons. by left.
Qed.
End ranks.

(** ** What becomes irreversible *)

(** The supported blocks, one for each place of the schedule. *)
Definition support_list (s : database) : list Z :=
  omap (λ n, last_supported_block_num <$> validators s !! n) (scheduled s).

(** The number of places whose validator supports block [m]. *)
Definition supporters (s : database) (m : Z) : Z := Z.of_nat (count_ge m (support_list s)).

(** The places that make a quorum: all but a quarter, rounded down. *)
Definition quorum (s : database) : Z :=
  num_scheduled_validators (schedule s) - irreversible_offset (num_scheduled_validators (schedule s)).

(** Block [i] of the log has number [i + 1]. *)
Definition log_wf (s : database) : Prop :=
  ∀ i b, block_log s !! i = Some b → block_num b = Z.of_nat i + 1.

(** The log only grows, and stays in order. *)
Record keeps_log (s s' : database) : Prop := {
  kl_prefix : ∃ bs, block_log s' = block_log s ++ bs;
  kl_order : log_wf s → log_wf s'
}.

#[export] Instance keeps_log_preorder : PreOrder keeps_log.
Proof.
  split.
  - intros s. split; [exists []; by rewrite app_nil_r|done].
  - intros x y z [[b1 E1] W1] [[b2 E2] W2]. split; [|auto]. exists (b1 ++ b2). by rewrite E2, E1, app_assoc.
Qed.

Lemma keeps_log_same s s' : block_log s' = block_log s → keeps_log s s'.
Proof. intros E. split; [exists []; by rewrite E, app_nil_r|]. unfold log_wf. by rewrite E. Qed.

(** What the update may change. *)
Record only_lib (s s' : database) : Prop := {
  ol_rest : s' = s <| dgpo := dgpo s' |> <| block_log := block_log s' |> <| fork_db := fork_db s' |>;
  ol_dgpo : dgpo s' = (dgpo s)
    <| last_irreversible_block_num := last_irreversible_block_num (dgpo s') |>
    <| last_irreversible_block_id := last_irreversible_block_id (dgpo s') |>
    <| last_irreversible_block_ref_num := last_irreversible_block_ref_num (dgpo s') |>
    <| last_irreversible_block_ref_prefix := last_irreversible_block_ref_prefix (dgpo s') |>
}.

#[export] Instance only_lib_preorder : PreOrder only_lib.
Proof.
  split.
  - intros [] . split; cbn; [done|]. by destruct dgpo.
  - intros x y z [Ry Dy] [Rz Dz]. split.
    + rewrite Rz, Ry. done.
    + rewrite Dz, Dy. done.
Qed.

Lemma only_lib_gap s s' : only_lib s s' → gap s' = gap s.
Proof. intros [R D]. rewrite R. unfold gap, accounted. cbn. by rewrite D. Qed.

Section spec.
Context {CE : ChainEnv}.

Lemma supports_Ok names s l s' :
  supports names s = Ok (l, s') →
  s' = s ∧ length l = length names ∧ l = omap (λ n, last_supported_block_num <$> validators s !! n) names.
Proof.
  revert l s'. induction names as [|n names IH]; intros l s' H; cbn [supports] in H.
  { apply sret_Ok in H as [= -> ->]. done. }
  apply sbind_Ok in H as (w & ? & Hw & H). apply get_in_Ok in Hw as (? & Hw & [= -> ->]).
  apply sbind_Ok in H as (r & ? & Hr & H). apply IH in Hr as (-> & Hlen & ->).
  apply sret_Ok in H as [= -> ->]. cbn. rewrite Hw. cbn. by rewrite Hlen.
Qed.

Lemma set_lib_Ok n id rn rp s u s' :
  set_lib n id rn rp s = Ok (u, s') →
  only_lib s s' ∧ last_irreversible_block_num (dgpo s') = n ∧ block_log s' = block_log s.
Proof.
  unfold set_lib. intros (p & [= <-] & [= _ ->])%modify_dgpo_Ok. split; [|done]. by split; destruct s.
Qed.

Lemma log_append_Ok b s u s' :
  log_append b s = Ok (u, s') →
  only_lib s s' ∧ dgpo s' = dgpo s ∧ fork_db s' = fork_db s ∧ block_log s' = block_log s ++ [b] ∧
  block_num b = Z.of_nat (length (block_log s)) + 1.
Proof.
  unfold log_append. destruct (Z.eqb_spec (Z.of_nat (length (block_log s))) (block_num b - 1)); [|done].
  intros [= _ <-]. split_and!; [|done|done|done|lia]. split; destruct s; cbn; [done|by destruct dgpo].
Qed.

(** A step that appends to the log. *)
Definition extends_log (s s' : database) (bs : list signed_block) : Prop :=
  only_lib s s' ∧ dgpo s' = dgpo s ∧ fork_db s' = fork_db s ∧ block_log s' = block_log s ++ bs ∧
  (log_wf s → log_wf s').

Lemma main_branch_same n s s' : fork_db s' = fork_db s → main_branch_block n s' = main_branch_block n s.
Proof. unfold main_branch_block, stored_block. by intros ->. Qed.

Lemma log_block_Ok n s u s' :
  log_block n s = Ok (u, s') → ∃ b, extends_log s s' [b] ∧ main_branch_block n s = Ok (Some b).
Proof.
  unfold log_block. intros H. apply sbind_Ok in H as (? & ? & Hr & H). apply sgets_Ok in Hr. injection Hr as -> ->.
  apply sbind_Ok in H as (block & ? & Hr & H). apply slift_Ok in Hr as (? & Hr & [= <- ->]).
  destruct block as [b|]; [|done]. apply log_append_Ok in H as (? & ? & ? & E & Hn). exists b.
  split; [|done]. split_and!; [done..|]. intros Hwf i b'. rewrite E. intros [Hi|[Hi Hb]]%lookup_app_Some; [by apply Hwf|].
  assert (i - length (block_log s) = 0)%nat as Ei by (apply lookup_lt_Some in Hb; cbn in Hb; lia).
  rewrite Ei in Hb. injection Hb as <-. lia.
Qed.

Lemma log_blocks_Ok l s u s' :
  sfor l log_block s = Ok (u, s') →
  ∃ bs, extends_log s s' bs ∧ Forall2 (λ n b, main_branch_block n s = Ok (Some b)) l bs.
Proof.
  revert s. induction l as [|n l IH]; intros s H; cbn [sfor] in H.
  { injection H as _ <-. exists []. split; [|constructor]. split_and!; [reflexivity|done|done|by rewrite app_nil_r|done]. }
  apply sbind_Ok in H as (? & s1 & H1 & H). apply log_block_Ok in H1 as (b & (Ho & Ed & Ef & E & Hwf) & Hb).
  apply IH in H as (bs & (Ho' & Ed' & Ef' & E' & Hwf') & Hall). exists (b :: bs). split.
  - split_and!; [by etrans|congruence|congruence|by rewrite E', E, <- app_assoc|auto].
  - constructor; [done|]. eapply Forall2_impl; [exact Hall|]. cbn. intros k b0. by rewrite (main_branch_same _ _ _ Ef).
Qed.

Lemma log_head_length s : log_wf s → log_head_num s = Z.of_nat (length (block_log s)).
Proof.
  intros Hwf. unfold log_head_num. destruct (last (block_log s)) as [b|] eqn:Hl.
  - rewrite last_lookup in Hl. pose proof (lookup_lt_Some _ _ _ Hl). apply Hwf in Hl as ->. lia.
  - by apply last_None in Hl as ->.
Qed.

(** What is written: the blocks of the main branch that follow in the log, up to
    the last irreversible one. *)
Definition logs_up_to (lib : Z) (s : database) (bs : list signed_block) : Prop :=
  Z.of_nat (length (block_log s ++ bs)) = Z.max (Z.of_nat (length (block_log s))) lib ∧
  ∀ i b, bs !! i = Some b → main_branch_block (Z.of_nat (length (block_log s) + i) + 1) s = Ok (Some b).

Lemma write_log_Ok s u s' :
  write_log s = Ok (u, s') →
  ∃ bs, extends_log s s' bs ∧ (log_wf s → logs_up_to (last_irreversible_block_num (dgpo s)) s bs).
Proof.
  unfold write_log, get_dgpo. intros H.
  do 2 (apply sbind_Ok in H as (? & ? & Hg & H); apply sgets_Ok in Hg; injection Hg as -> ->).
  destruct (Z.ltb_spec (log_head_num s) (last_irreversible_block_num (dgpo s))) as [Hlt|Hge]; cbn [swhen] in H.
  - apply log_blocks_Ok in H as (bs & Hx & Hall). exists bs. split; [done|]. intros Hwf.
    rewrite (log_head_length s Hwf) in *. split.
    + rewrite length_app, <- (Forall2_length _ _ _ Hall), length_seqZ. lia.
    + intros i b Hi. destruct (Forall2_lookup_r _ _ _ _ _ Hall Hi) as (n & Hn & Hb).
      apply lookup_seqZ in Hn as [-> _]. rewrite <- Hb. f_equal. lia.
  - injection H as _ <-. exists []. split; [split_and!; [reflexivity|done|done|by rewrite app_nil_r|done]|].
    intros Hwf. rewrite (log_head_length s Hwf) in *. split; [|by intros i b Hi]. rewrite app_nil_r. lia.
Qed.

Lemma refer_to_lib_Ok s u s' :
  refer_to_lib s = Ok (u, s') →
  only_lib s s' ∧ last_irreversible_block_num (dgpo s') = last_irreversible_block_num (dgpo s) ∧
  block_log s' = block_log s.
Proof.
  unfold refer_to_lib, get_dgpo. intros H.
  do 2 (apply sbind_Ok in H as (? & ? & Hg & H); apply sgets_Ok in Hg; injection Hg as -> ->).
  apply sbind_Ok in H as (logged & ? & Hr & H). apply slift_Ok in Hr as (? & Hr & [= <- ->]).
  apply sbind_Ok in H as (block & s1 & Hb & H).
  assert (s1 = s) as ->.
  { destruct logged; [by injection Hb|]. apply sbind_Ok in Hb as (? & ? & Hg & Hb).
    apply sgets_Ok in Hg. injection Hg as -> ->. by apply slift_Ok in Hb as (? & _ & [= _ ->]). }
  destruct block as [b|]; [by apply set_lib_Ok in H|]. injection H as _ <-. done.
Qed.
End spec.

Section quorum.
Context {CE : ChainEnv}.

Lemma on_fork_db_Ok f s u s' :
  on_fork_db f s = Ok (u, s') → ∃ d, s' = s <| fork_db := d |>.
Proof. unfold on_fork_db. destruct (f (fork_db s)) as [d [|[]]]; intros [=]; subst. eauto. Qed.

Lemma nth_support_Ok l c :
  nth_support l = Ok c →
  let k := Z.of_nat (length l) - irreversible_offset (Z.of_nat (length l)) in
  k ≤ Z.of_nat (count_ge c l) ∧ ∀ m, c < m → Z.of_nat (count_ge m l) < k.
Proof.
  unfold nth_support. intros H. apply res_of_option_Ok in H. cbn.
  assert (merge_sort Z.le l ≡ₚ l) as Hp by apply merge_sort_Permutation.
  assert (StronglySorted Z.le (merge_sort Z.le l)) as Hs by (apply StronglySorted_merge_sort; apply _).
  apply (sorted_rank _ _ _ Hs) in H as [H1 H2].
  rewrite (Permutation_length Hp), (count_ge_perm c _ _ Hp) in H1.
  assert (0 ≤ irreversible_offset (Z.of_nat (length l)) ≤ Z.of_nat (length l)) as Ho.
  { unfold irreversible_offset, CHAIN_IRREVERSIBLE_THRESHOLD, CHAIN_1_PERCENT, CHAIN_100_PERCENT.
    change (10000 - 75 * (10000 / 100)) with 2500.
    split; [apply Z.div_pos; lia|]. apply Z.div_le_upper_bound; lia. }
  split; [lia|]. intros m Hm. specialize (H2 m Hm). rewrite (count_ge_perm m _ _ Hp), (Permutation_length Hp) in H2. lia.
Qed.

(** The steps of the update: the candidate [c], the new number, the log. *)
Lemma update_lib_steps skip s u s' :
  update_last_irreversible_block skip s = Ok (u, s') →
  only_lib s s' ∧ (log_wf s → log_wf s') ∧
  (∃ bs, block_log s' = block_log s ++ bs ∧
    (if skip then bs = [] else log_wf s → logs_up_to (last_irreversible_block_num (dgpo s')) s bs)) ∧
  ∃ c, last_irreversible_block_num (dgpo s') =
         Z.max (last_irreversible_block_num (dgpo s)) (cap_in_emergency s c) ∧
    quorum s ≤ supporters s c ∧ ∀ m, c < m → supporters s m < quorum s.
Proof.
  intros H. unfold update_last_irreversible_block, get_dgpo in H.
  do 2 (apply sbind_Ok in H as (? & ? & Hg & H); apply sgets_Ok in Hg; injection Hg as -> ->).
  apply sbind_Ok in H as (? & ? & Hr & H). apply slift_Ok in Hr as (? & Hlen & [= _ ->]).
  apply rassert_Ok in Hlen. propify.
  apply sbind_Ok in H as (l & ? & Hl & H). apply supports_Ok in Hl as (-> & Hll & El).
  fold (support_list s) in El. subst l. rewrite <- Hll in Hlen.
  apply sbind_Ok in H as (c & ? & Hr & H). apply slift_Ok in Hr as (? & Hc & [= <- ->]).
  apply nth_support_Ok in Hc as [Hq Hmax]. rewrite Hlen in Hq, Hmax. fold (quorum s) in Hq, Hmax.
  do 2 (apply sbind_Ok in H as (? & ? & Hg & H); apply sgets_Ok in Hg; injection Hg as -> ->).
  set (lib := last_irreversible_block_num (dgpo s)) in *. set (new := cap_in_emergency s c) in *.
  apply sbind_Ok in H as (? & s1 & H1 & H). apply sbind_Ok in H as (? & s2 & H2 & H).
  apply sbind_Ok in H as (? & ? & Hg & H); apply sgets_Ok in Hg; injection Hg as -> ->.
  apply sbind_Ok in H as (? & s3 & H3 & H).
  apply sbind_Ok in H as (? & ? & Hg & H); apply sgets_Ok in Hg; injection Hg as -> ->.
  assert (only_lib s s1 ∧ last_irreversible_block_num (dgpo s1) = Z.max lib new ∧
    block_log s1 = block_log s) as (O1 & L1 & B1).
  { destruct (Z.ltb_spec lib new); cbn in H1.
    - apply set_lib_Ok in H1 as (? & -> & ?). split_and!; [done|lia|done].
    - injection H1 as _ <-. split_and!; [done|fold lib; lia|done]. }
  assert (∃ bs, extends_log s1 s2 bs ∧
    (if skip then bs = [] else log_wf s1 → logs_up_to (last_irreversible_block_num (dgpo s1)) s1 bs))
    as (bs & (O2 & D2 & _ & B2 & W2) & Hlog).
  { destruct skip; cbn [swhen negb] in H2.
    - injection H2 as _ <-. exists []. split; [|done].
      split_and!; [reflexivity|done|done|by rewrite app_nil_r|done].
    - apply write_log_Ok in H2 as (bs & ? & ?). eauto. }
  assert (fork_db s1 = fork_db s) as F1.
  { destruct (lib <? new); cbn in H1; by injection H1 as _ <-. }
  assert (only_lib s2 s3 ∧ last_irreversible_block_num (dgpo s3) = last_irreversible_block_num (dgpo s2) ∧
    block_log s3 = block_log s2) as (O3 & L3 & B3).
  { destruct (_ =? _); cbn [swhen] in H3; [by apply refer_to_lib_Ok in H3|]. by injection H3 as _ <-. }
  apply on_fork_db_Ok in H as [d ->].
  assert (log_wf s → log_wf s1) as Hwf1 by (unfold log_wf; by rewrite B1).
  assert (only_lib s3 (s3 <| fork_db := d |>)) as O4 by (split; destruct s3; cbn; [done|by destruct dgpo]).
  split; [by do 3 (etrans; [eassumption|])|]. unfold log_wf. cbn. rewrite B3, L3, D2, L1. split_and!.
  - intros Hwf. exact (W2 (Hwf1 Hwf)).
  - exists bs. split; [by rewrite B2, B1|]. destruct skip; [done|]. intros Hwf.
    specialize (Hlog (Hwf1 Hwf)). unfold logs_up_to in *. rewrite B1 in Hlog.
    rewrite L1 in Hlog. destruct Hlog as [Hl Hm]. split; [exact Hl|].
    intros i b Hi. rewrite <- (main_branch_same _ _ _ F1). by apply Hm.
  - exists c. done.
Qed.

End quorum.

(** ** On the small chain *)

(** Alice, the only validator of the schedule, supports block 2; block 1 is in
    the log and block 2 in the fork database. *)
Definition supported_db : database :=
  let g := example_block 0 5 in
  let c := example_block (@block_id signature_hash g) 9 in
  test_db <| dgpo ::= λ p, p <| last_irreversible_block_num := 1 |> |>
    <| block_log := [g] |>
    <| fork_db := ((@start_block signature_hash c) empty_fork_database).1 |>
    <| validators ::= alter (λ w, w <| last_supported_block_num := 2 |>) "alice" |>.

