(* ===== verification/PostValidation.v ===== *)
(** * Confirmations of blocks (libraries/chain/database.cpp, lines 5960-6425)

    After each block the node records which validators of the schedule may
    confirm it.  When three quarters have, the block is irreversible without
    waiting for the blocks that follow.  [check_block_post_validation_chain]
    and [create_block_post_validation] run in every block;
    [apply_block_post_validation] is the entry for a confirmation that arrives,
    which nothing in the sources calls. *)

From stdpp Require Import gmap strings list sorting.
From Stdlib Require Import ZArith Lia.
From S2P Require Import Prelude Fc Text Asset Authority Block ForkDb Objects Database Supply Frame.
From S2P Require Import Scenario EvalTransfer Slots BlockData BlockDataProofs Irreversible.

Definition CHAIN_MAX_BLOCK_POST_VALIDATION_COUNT : Z := 20.

(** The places of the arrays of an object that has just been created: names and
    flags.  The sources do not say what is in them ([fc::array]). *)
Class FreshArrays := {
  fresh_places : list (string * bool);
  fresh_length : length fresh_places = Z.to_nat CHAIN_MAX_VALIDATORS
}.

(** How many places are confirmed. *)
Definition confirmed (c : validator_confirmation_object) : Z :=
  Z.of_nat (length (filter (λ b, b = true) (vc_validations c))).

Definition confirmation_threshold (s : database) : Z :=
  num_scheduled_validators (schedule s) * CHAIN_IRREVERSIBLE_THRESHOLD / CHAIN_100_PERCENT.

Section post_validation.
Context {CE : ChainEnv} {FA : FreshArrays}.

(** Block [n] is irreversible: the number, the log, the identifier, and the size
    of the fork database. *)
Definition advance_lib (n : Z) : DB unit :=
  do* set_lib n 0 0 0 in
  do* write_log in
  let* p := get_dgpo in
  do* swhen (n =? last_irreversible_block_num p) refer_to_lib in
  let* p := get_dgpo in
  on_fork_db (set_max_size (u32 (head_block_number p - last_irreversible_block_num p + 1))).

(** Whether an object's block becomes irreversible, which removes the object. *)
Definition check_confirmation (c : validator_confirmation_object) : DB bool :=
  let* p := get_dgpo in
  let* threshold := sgets confirmation_threshold in
  let validated := (u32 (1 + last_irreversible_block_num p) =? vc_block_num c) &&
                   (threshold <=? confirmed c) in
  do* swhen validated (advance_lib (vc_block_num c)) in
  sret validated.

(** The objects that are left. *)
Fixpoint check_confirmations (l : list validator_confirmation_object) :
    DB (list validator_confirmation_object) :=
  match l with
  | [] => sret []
  | c :: l =>
      let* validated := check_confirmation c in
      let* rest := check_confirmations l in
      sret (if validated then rest else c :: rest)
  end.

Definition emergency_mode (s : database) : bool :=
  (CHAIN_HARDFORK_12 <? processed_hardforks s) && emergency_consensus_active (dgpo s).

Definition check_block_post_validation_chain : DB unit :=
  let* emergency := sgets emergency_mode in
  swhen (negb emergency)
    (let* l := sgets validator_confirmations in
     let* rest := check_confirmations l in
     supd (λ s, s <| validator_confirmations := rest |>)).

(** The object with the validator's places confirmed. *)
Definition confirm (validator : string) (c : validator_confirmation_object) : validator_confirmation_object :=
  mk_confirmation (vc_block_num c) (vc_block_id c) (vc_validators c)
    (zip_with (λ n b, bool_decide (n = validator) || b) (vc_validators c) (vc_validations c)).

Definition apply_block_post_validation (id : Z) (validator : string) : DB unit :=
  let* emergency := sgets emergency_mode in
  let* names := sgets scheduled in
  swhen (negb emergency && bool_decide (validator ∈ names))
    (let* l := sgets validator_confirmations in
     match list_find (λ c, vc_block_id c = id) l with
     | None => sret tt
     | Some (i, c) =>
         let c' := confirm validator c in
         do* supd (λ s, s <| validator_confirmations ::= <[i := c']> |>) in
         let* p := get_dgpo in
         let* threshold := sgets confirmation_threshold in
         swhen (bool_decide (validator ∈ vc_validators c) &&
                (u32 (1 + last_irreversible_block_num p) =? vc_block_num c) &&
                (threshold <=? confirmed c'))
           (advance_lib (vc_block_num c))
     end).

(** The blocks that a validator has not confirmed yet; the rest of the array is
    empty objects. *)
Definition waits_for (validator : string) (c : validator_confirmation_object) : bool :=
  existsb (λ p, bool_decide (p.1 = validator) && negb p.2) (zip (vc_validators c) (vc_validations c)).
Definition get_validator_confirmations (validator : string) (s : database) :
    list (option validator_confirmation_object) :=
  let l := take (Z.to_nat CHAIN_MAX_BLOCK_POST_VALIDATION_COUNT)
             (filter (λ c, waits_for validator c = true) (validator_confirmations s)) in
  (Some <$> l) ++ replicate (Z.to_nat CHAIN_MAX_BLOCK_POST_VALIDATION_COUNT - length l) None.

(** The places of a new object: the schedule without the producer, places that
    are not written, and places that are cleared. *)
Definition confirmation_places (names : list string) (producer : string) : list (string * bool) :=
  let listed := (λ n, (n, false)) <$> filter (λ n, n ≠ producer) names in
  listed ++ take (length names - length listed) (drop (length listed) fresh_places) ++
  replicate (Z.to_nat CHAIN_MAX_VALIDATORS - length names) (""%string, false).

Definition create_block_post_validation (num id : Z) (producer : string) : DB unit :=
  do* supd (λ s, s <| validator_confirmations ::=
    filter (λ c, last_irreversible_block_num (dgpo s) < vc_block_num c) |>) in
  do* supd (λ s, s <| validator_confirmations ::=
    λ l, drop (length l - Z.to_nat (CHAIN_MAX_BLOCK_POST_VALIDATION_COUNT - 1)) l |>) in
  let* names := sgets scheduled in
  let* wso := sgets schedule in
  do* slift (rassert (Z.of_nat (length names) =? num_scheduled_validators wso) E_undefined) in
  let places := confirmation_places names producer in
  supd (λ s, s <| validator_confirmations ::=
    λ l, l ++ [mk_confirmation num id places.*1 places.*2] |>).
End post_validation.

(** ** What a confirmed block has behind it *)

(** The places of an object whose validator has sent a confirmation. *)
Definition places_backed (sent : list (Z * string)) (c : validator_confirmation_object) : Z :=
  Z.of_nat (length (filter (λ n, (vc_block_id c, n) ∈ sent) (vc_validators c))).

(** A place is confirmed only when its validator has sent a confirmation. *)
Definition backed (sent : list (Z * string)) (c : validator_confirmation_object) : Prop :=
  length (vc_validations c) = length (vc_validators c) ∧
  ∀ i n, vc_validators c !! i = Some n → vc_validations c !! i = Some true → (vc_block_id c, n) ∈ sent.

Definition all_backed (sent : list (Z * string)) (s : database) : Prop :=
  Forall (backed sent) (validator_confirmations s).

(** Block numbers are far from the end of their range. *)
Definition numbered (s : database) : Prop := 0 ≤ last_irreversible_block_num (dgpo s) < 2 ^ 32 - 22.

(** What happens to the objects: a message, the two steps of a block, and the
    rest of the node, which may change everything but the objects.  The list
    holds the messages so far. *)
Inductive post_step `{ChainEnv} `{FreshArrays} :
    list (Z * string) * database → list (Z * string) * database → Prop :=
| post_message id n s u s' sent :
    numbered s → apply_block_post_validation id n s = Ok (u, s') → post_step (sent, s) ((id, n) :: sent, s')
| post_check s u s' sent :
    numbered s → check_block_post_validation_chain s = Ok (u, s') → post_step (sent, s) (sent, s')
| post_create num id producer s u s' sent :
    numbered s → create_block_post_validation num id producer s = Ok (u, s') → post_step (sent, s) (sent, s')
| post_other s s' sent :
    validator_confirmations s' = validator_confirmations s → post_step (sent, s) (sent, s').

(** Every block between the old and the new irreversible one has an object, and
    three quarters of the places of the schedule are confirmed in it by
    validators that sent a confirmation. *)
Definition lib_by_confirmations (sent : list (Z * string)) (s s' : database) : Prop :=
  let lib := last_irreversible_block_num (dgpo s) in
  lib ≤ last_irreversible_block_num (dgpo s') ∧
  ∀ n, lib < n ≤ last_irreversible_block_num (dgpo s') →
    ∃ c, c ∈ validator_confirmations s ∧ vc_block_num c = n ∧
         confirmation_threshold s ≤ places_backed sent c.

Lemma backed_confirmed sent c : backed sent c → confirmed c ≤ places_backed sent c.
Proof.
  destruct c as [num id names flags]. unfold backed, confirmed, places_backed. cbn. intros [Hlen Hb].
  apply inj_le. revert names Hlen Hb. induction flags as [|b flags IH]; intros [|n names] Hlen Hb; try done.
  assert (length (filter (λ b, b = true) flags) ≤ length (filter (λ n, (id, n) ∈ sent) names))%nat as H.
  { apply IH; [by injection Hlen|]. intros i n'. exact (Hb (S i) n'). }
  rewrite !filter_cons. destruct (decide (b = true)) as [->|]; destruct (decide ((id, n) ∈ sent)) as [|Hn]; cbn; try lia.
  destruct Hn. exact (Hb 0%nat n eq_refl eq_refl).
Qed.

Lemma backed_mono sent sent' c : (∀ x, x ∈ sent → x ∈ sent') → backed sent c → backed sent' c.
Proof. intros Hs [? Hb]. split; eauto. Qed.

Lemma backed_confirm sent n c : backed sent c → backed ((vc_block_id c, n) :: sent) (confirm n c).
Proof.
  intros [Hlen Hb]. split; cbn; [rewrite length_zip_with; lia|]. intros i n' Hn Hf.
  apply lookup_zip_with_Some in Hf as (n'' & b & Hf & Hn' & Hi). rewrite Hn in Hn'. injection Hn' as <-.
  symmetry in Hf. destruct (decide (n' = n)) as [->|]; [by left|]. rewrite bool_decide_false in Hf by done.
  right. cbn in Hf. subst b. eauto.
Qed.

Section confirmations.
Context {CE : ChainEnv} {FA : FreshArrays}.

Lemma advance_lib_Ok n s u s' :
  advance_lib n s = Ok (u, s') →
  only_lib s s' ∧ last_irreversible_block_num (dgpo s') = n ∧ keeps_log s s'.
Proof.
  unfold advance_lib, get_dgpo. intros H. apply sbind_Ok in H as (? & s1 & H1 & H).
  apply set_lib_Ok in H1 as (O1 & L1 & B1). apply sbind_Ok in H as (? & s2 & H2 & H).
  apply write_log_Ok in H2 as (bs & (O2 & D2 & _ & B2 & W2) & _).
  apply sbind_Ok in H as (? & ? & Hg & H). apply sgets_Ok in Hg. injection Hg as -> ->.
  apply sbind_Ok in H as (? & s3 & H3 & H).
  apply sbind_Ok in H as (? & ? & Hg & H). apply sgets_Ok in Hg. injection Hg as -> ->.
  apply on_fork_db_Ok in H as [d ->].
  assert (only_lib s2 s3 ∧ last_irreversible_block_num (dgpo s3) = last_irreversible_block_num (dgpo s2) ∧
    block_log s3 = block_log s2) as (O3 & L3 & B3).
  { destruct (_ =? _); cbn [swhen] in H3; [by apply refer_to_lib_Ok in H3|by injection H3 as _ <-]. }
  split_and!; [|cbn; congruence|].
  2:{ etrans; [by apply keeps_log_same|]. etrans; [by split; [exists bs|]|]. by apply keeps_log_same. }
  etrans; [exact O1|]. etrans; [exact O2|]. etrans; [exact O3|].
  split; destruct s3; cbn; [done|by destruct dgpo].
Qed.

Lemma only_lib_confirmations s s' :
  only_lib s s' → validator_confirmations s' = validator_confirmations s ∧ schedule s' = schedule s ∧
    emergency_mode s' = emergency_mode s.
Proof. intros [R D]. rewrite R. unfold emergency_mode. cbn. by rewrite D. Qed.

Lemma check_confirmation_Ok c s b s' :
  check_confirmation c s = Ok (b, s') →
  only_lib s s' ∧
  (b = false ∧ last_irreversible_block_num (dgpo s') = last_irreversible_block_num (dgpo s) ∨
   b = true ∧ last_irreversible_block_num (dgpo s') = vc_block_num c ∧
   vc_block_num c = u32 (1 + last_irreversible_block_num (dgpo s)) ∧
   confirmation_threshold s ≤ confirmed c).
Proof.
  unfold check_confirmation, get_dgpo. intros H.
  do 2 (apply sbind_Ok in H as (? & ? & Hg & H); apply sgets_Ok in Hg; injection Hg as -> ->).
  apply sbind_Ok in H as (? & s1 & H1 & H). apply sret_Ok in H as [= -> ->].
  destruct (_ && _) eqn:E; cbn [swhen] in H1.
  - apply advance_lib_Ok in H1 as (Ho & Hl & _). split; [done|]. right. propify. split_and!; [done|done|lia|lia].
  - injection H1 as _ <-. split; [reflexivity|]. by left.
Qed.

(** The walk over the objects: each step of the irreversible block has a
    confirmed object. *)
Lemma check_confirmations_Ok l s rest s' :
  0 ≤ last_irreversible_block_num (dgpo s) < 2 ^ 32 - 1 - Z.of_nat (length l) →
  check_confirmations l s = Ok (rest, s') →
  only_lib s s' ∧ rest ⊆ l ∧
  last_irreversible_block_num (dgpo s) ≤ last_irreversible_block_num (dgpo s') ∧
  ∀ n, last_irreversible_block_num (dgpo s) < n ≤ last_irreversible_block_num (dgpo s') →
    ∃ c, c ∈ l ∧ vc_block_num c = n ∧ confirmation_threshold s ≤ confirmed c.
Proof.
  revert s rest s'. induction l as [|c l IH]; intros s rest s' Hb H; cbn [check_confirmations] in H.
  { apply sret_Ok in H as [= -> ->]. split_and!; [reflexivity|set_solver|lia|lia]. }
  cbn [length] in Hb. apply sbind_Ok in H as (b & s1 & H1 & H). apply check_confirmation_Ok in H1 as [O1 Hs].
  apply sbind_Ok in H as (r & s2 & H2 & H). apply sret_Ok in H as [= -> ->].
  assert (confirmation_threshold s1 = confirmation_threshold s) as Et.
  { unfold confirmation_threshold. by destruct (only_lib_confirmations _ _ O1) as (_ & -> & _). }
  unfold u32 in Hs. apply IH in H2 as (O2 & Hsub & Hle & Hn); [|destruct Hs as [[_ ->]|(_ & -> & -> & _)]; [lia|rewrite Z.mod_small; lia]].
  rewrite Et in Hn. split; [by etrans|]. destruct Hs as [[-> Hl]|(-> & Hl & Hc & Ht)].
  - split_and!; [set_solver|lia|]. intros n ?. destruct (Hn n) as (c' & ? & ?); [lia|]. exists c'. set_solver.
  - rewrite Z.mod_small in Hc by lia. split_and!; [set_solver|lia|]. intros n ?.
    destruct (decide (n = vc_block_num c)) as [->|]; [exists c; set_solver|].
    destruct (Hn n) as (c' & ? & ?); [lia|]. exists c'. set_solver.
Qed.

(** The objects of the node: their number is bounded, and what is confirmed in
    them was sent. *)
Definition post_ok (sent : list (Z * string)) (s : database) : Prop :=
  (length (validator_confirmations s) ≤ 20)%nat ∧ all_backed sent s.

Lemma message_Ok id n s u s' sent :
  post_ok sent s → numbered s →
  apply_block_post_validation id n s = Ok (u, s') →
  post_ok ((id, n) :: sent) s' ∧ lib_by_confirmations ((id, n) :: sent) s s'.
Proof.
  unfold numbered. intros [Hlen Hb] Hlib H. unfold apply_block_post_validation in H.
  do 2 (apply sbind_Ok in H as (? & ? & Hg & H); apply sgets_Ok in Hg; injection Hg as -> ->).
  assert (all_backed ((id, n) :: sent) s) as Hb'.
  { eapply Forall_impl; [exact Hb|]. intros c. apply backed_mono. set_solver. }
  assert (post_ok ((id, n) :: sent) s ∧ lib_by_confirmations ((id, n) :: sent) s s) as Hsame.
  { split; [done|]. split; [lia|]. lia. }
  destruct (_ && _); cbn [swhen] in H; [|injection H as _ <-; exact Hsame].
  apply sbind_Ok in H as (? & ? & Hg & H). apply sgets_Ok in Hg. injection Hg as -> ->.
  destruct (list_find _ _) as [[i c]|] eqn:Hf; [|injection H as _ <-; exact Hsame]. clear Hsame.
  apply list_find_Some in Hf as (Hi & Hid & _). apply sbind_Ok in H as (? & s1 & [= _ <-] & H).
  do 2 (apply sbind_Ok in H as (? & ? & Hg & H); apply sgets_Ok in Hg; injection Hg as -> ->).
  assert (backed ((id, n) :: sent) (confirm n c)) as Hc.
  { rewrite <- Hid. apply backed_confirm. apply (Forall_lookup_1 _ _ _ _ Hb Hi). }
  match type of H with swhen _ _ ?st = _ => assert (post_ok ((id, n) :: sent) st) as Hok1 end.
  { split; cbn; [by rewrite length_insert|]. by apply Forall_insert. }
  destruct (_ && _) eqn:E; cbn [swhen] in H.
  2:{ injection H as _ <-. split; [done|]. split; cbn; lia. }
  apply advance_lib_Ok in H as (Ho & Hl & _). apply only_lib_confirmations in Ho as (Ec & _).
  split; [unfold post_ok, all_backed; by rewrite Ec|]. propify.
  unfold u32 in *. rewrite Z.mod_small in * by (cbn; lia). cbn in *.
  split; [lia|]. intros m Hm. exists c. split; [by eapply list_elem_of_lookup_2|]. split; [lia|].
  apply backed_confirmed in Hc. unfold places_backed in *. cbn in Hc.
  unfold confirmation_threshold in *. cbn in *. lia.
Qed.

Lemma check_Ok s u s' sent :
  post_ok sent s → numbered s →
  check_block_post_validation_chain s = Ok (u, s') →
  post_ok sent s' ∧ lib_by_confirmations sent s s'.
Proof.
  unfold numbered. intros [Hlen Hb] Hlib H. unfold check_block_post_validation_chain in H.
  apply sbind_Ok in H as (? & ? & Hg & H). apply sgets_Ok in Hg. injection Hg as -> ->.
  destruct (negb _); cbn [swhen] in H; [|injection H as _ <-; split; [done|split; lia]].
  apply sbind_Ok in H as (? & ? & Hg & H). apply sgets_Ok in Hg. injection Hg as -> ->.
  apply sbind_Ok in H as (rest & s1 & H1 & [= _ <-]).
  assert (length rest ≤ length (validator_confirmations s))%nat as Hrest.
  { clear -H1. revert H1. generalize (validator_confirmations s) as l. intros l. revert s s1 rest.
    induction l as [|c l IH]; intros s s1 rest H; cbn [check_confirmations] in H; [by injection H as <- <-|].
    apply sbind_Ok in H as (b & s2 & _ & H). apply sbind_Ok in H as (r & s3 & H2 & [= <- _]).
    apply IH in H2. destruct b; cbn; lia. }
  apply check_confirmations_Ok in H1 as (_ & Hsub & Hle & Hn); [|lia].
  split; [split; cbn; [lia|]|split; cbn; [lia|]].
  - apply Forall_forall. intros c Hc. unfold all_backed in Hb. rewrite Forall_forall in Hb. auto.
  - intros m Hm. destruct (Hn m Hm) as (c & Hc & ? & ?). exists c. split_and!; [done|done|].
    unfold all_backed in Hb. rewrite Forall_forall in Hb. pose proof (backed_confirmed _ _ (Hb c Hc)). lia.
Qed.

(** A new object is confirmed by nobody, when new arrays are clear. *)
Lemma confirmation_created num id producer s u s' sent :
  Forall (λ p, p.2 = false) fresh_places →
  post_ok sent s → create_block_post_validation num id producer s = Ok (u, s') → post_ok sent s'.
Proof.
  intros Hfresh [Hlen Hb] H. unfold create_block_post_validation in H.
  apply sbind_Ok in H as (? & s1 & [= _ <-] & H). apply sbind_Ok in H as (? & s2 & [= _ <-] & H).
  do 2 (apply sbind_Ok in H as (? & ? & Hg & H); apply sgets_Ok in Hg; injection Hg as -> ->).
  apply sbind_Ok in H as (? & ? & Hr & [= _ <-]). apply slift_Ok in Hr as (? & Hr & [= _ ->]). cbn.
  set (l := filter (λ c, last_irreversible_block_num (dgpo s) < vc_block_num c) (validator_confirmations s)).
  assert (l ⊆ validator_confirmations s) as Hsub by (intros c; unfold l; rewrite list_elem_of_filter; tauto).
  split; cbn.
  - rewrite length_app, length_drop. cbn. change (Z.to_nat _) with 19%nat. lia.
  - unfold all_backed. cbn. apply Forall_app. split.
    + apply Forall_drop, Forall_forall. intros c Hc. unfold all_backed in Hb. rewrite Forall_forall in Hb. auto.
    + constructor; [|done]. split; cbn; [by rewrite !length_fmap|]. intros i n _ Hi. exfalso.
      apply list_lookup_fmap_Some in Hi as (p & Hp & Hi).
      assert (Forall (λ p, p.2 = false) (confirmation_places (scheduled s) producer)) as Hall.
      { unfold confirmation_places. rewrite !Forall_app. split_and!.
        - apply Forall_fmap, Forall_true. done.
        - by apply Forall_take, Forall_drop.
        - by apply Forall_replicate. }
      rewrite Forall_lookup in Hall. specialize (Hall _ _ Hi). congruence.
Qed.

(** C22 (safety).  A block that confirmations make irreversible has a quorum
    behind it.  From a node without objects, through any sequence of blocks and
    messages, whenever a message or the check after a block moves the last
    irreversible block, it never falls, and each block it passes has an object
    in which three quarters of the places of the schedule belong to validators
    that sent a confirmation of that very block. *)
Theorem confirmations_need_quorum s0 sent s :
  Forall (λ p, p.2 = false) fresh_places → validator_confirmations s0 = [] →
  rtc post_step ([], s0) (sent, s) → numbered s →
  (∀ id n u s', apply_block_post_validation id n s = Ok (u, s') →
     lib_by_confirmations ((id, n) :: sent) s s') ∧
  (∀ u s', check_block_post_validation_chain s = Ok (u, s') → lib_by_confirmations sent s s').
Proof.
  intros Hfresh H0 Hr Hn. assert (post_ok sent s) as Hok.
  { assert (post_ok [] s0) as Hok by (split; [by rewrite H0; cbn; lia|unfold all_backed; by rewrite H0]).
    remember ([], s0) as x eqn:Ex. remember (sent, s) as y eqn:Ey. clear H0 Hn.
    revert s0 sent s Hok Ex Ey. generalize (@nil (Z * string)) as l.
    induction Hr as [x|x y z Hs _ IH]; intros l s0 sent s Hok -> Ey; [by injection Ey as <- <-|].
    inversion Hs; subst; eapply IH; [|done|done| |done|done| |done|done| |done|done].
    - by eapply message_Ok.
    - by eapply check_Ok.
    - by eapply confirmation_created.
    - unfold post_ok, all_backed. match goal with E : validator_confirmations _ = _ |- _ => by rewrite E end. }
  split; intros.
  - by eapply message_Ok.
  - by eapply check_Ok.
Qed.

(** ** When the confirmations arrive *)

Definition confirm_all (ns : list string) (c : validator_confirmation_object) : validator_confirmation_object :=
  foldl (λ c n, confirm n c) c ns.

Lemma confirm_absent n c :
  length (vc_validations c) = length (vc_validators c) → n ∉ vc_validators c → confirm n c = c.
Proof.
  destruct c as [num id names flags]. unfold confirm. cbn. intros Hlen Hn. f_equal.
  revert flags Hlen. induction names as [|n' names IH]; intros [|b flags] Hlen; try done.
  cbn in *. apply not_elem_of_cons in Hn as [? Hn]. rewrite bool_decide_false by done. f_equal. apply IH; [done|lia].
Qed.

(** The object the next messages are for. *)
Record awaits (i : nat) (c : validator_confirmation_object) (s : database) : Prop := {
  aw_calm : emergency_mode s = false;
  aw_find : list_find (λ c', vc_block_id c' = vc_block_id c) (validator_confirmations s) = Some (i, c);
  aw_next : vc_block_num c = u32 (1 + last_irreversible_block_num (dgpo s));
  aw_shape : length (vc_validations c) = length (vc_validators c)
}.

(** One message: either the quorum is reached, or the place is recorded. *)
Lemma message_progress i c n s u s' :
  awaits i c s → n ∈ scheduled s → confirmed c < confirmation_threshold s →
  apply_block_post_validation (vc_block_id c) n s = Ok (u, s') →
  if confirmation_threshold s <=? confirmed (confirm n c)
  then last_irreversible_block_num (dgpo s') = vc_block_num c ∧
    validator_confirmations s' = <[i := confirm n c]> (validator_confirmations s)
  else s' = s <| validator_confirmations ::= <[i := confirm n c]> |>.
Proof.
  intros [Hc Hf Hnext Hshape] Hn Hlt H. unfold apply_block_post_validation in H.
  do 2 (apply sbind_Ok in H as (? & ? & Hg & H); apply sgets_Ok in Hg; injection Hg as -> ->).
  rewrite Hc, bool_decide_true in H by done. cbn [negb andb swhen] in H.
  apply sbind_Ok in H as (? & ? & Hg & H). apply sgets_Ok in Hg. injection Hg as -> ->. rewrite Hf in H.
  apply sbind_Ok in H as (? & s1 & [= _ <-] & H).
  do 2 (apply sbind_Ok in H as (? & ? & Hg & H); apply sgets_Ok in Hg; injection Hg as -> ->).
  match type of H with swhen (_ && (u32 (1 + ?l) =? _) && (?t <=? _)) _ _ = _ =>
    change t with (confirmation_threshold s) in H; change l with (last_irreversible_block_num (dgpo s)) in H end.
  destruct (Z.leb_spec (confirmation_threshold s) (confirmed (confirm n c))) as [Hq|Hq].
  - rewrite andb_true_r in H. destruct (decide (n ∈ vc_validators c)).
    + rewrite bool_decide_true, <- Hnext, Z.eqb_refl in H by done. cbn [andb swhen] in H.
      apply advance_lib_Ok in H as (Ho & Hl & _). split; [done|]. by apply only_lib_confirmations in Ho as (-> & _).
    + rewrite confirm_absent in Hq by done. lia.
  - rewrite andb_false_r in H. by injection H as _ <-.
Qed.

(** The messages that come late find the block irreversible. *)
Definition settled (id : Z) (s : database) : Prop :=
  ∀ i c, list_find (λ c', vc_block_id c' = id) (validator_confirmations s) = Some (i, c) →
    vc_block_num c = last_irreversible_block_num (dgpo s).

Lemma find_confirmed id n i c (l : list validator_confirmation_object) :
  list_find (λ c', vc_block_id c' = id) l = Some (i, c) →
  list_find (λ c', vc_block_id c' = id) (<[i := confirm n c]> l) = Some (i, confirm n c).
Proof.
  intros (Hi & Hid & Hbefore)%list_find_Some. apply list_find_Some. split_and!; [|done|].
  - apply list_lookup_insert_eq. by eapply lookup_lt_Some.
  - intros j c' Hj Hlt. rewrite list_lookup_insert_ne in Hj by lia. eauto.
Qed.

Lemma message_settled id n s u s' :
  0 ≤ last_irreversible_block_num (dgpo s) < 2 ^ 32 - 1 → settled id s → apply_block_post_validation id n s = Ok (u, s') →
  settled id s' ∧ last_irreversible_block_num (dgpo s') = last_irreversible_block_num (dgpo s).
Proof.
  intros Hs Hset H. unfold apply_block_post_validation in H.
  do 2 (apply sbind_Ok in H as (? & ? & Hg & H); apply sgets_Ok in Hg; injection Hg as -> ->).
  destruct (_ && _); cbn [swhen] in H; [|by injection H as _ <-].
  apply sbind_Ok in H as (? & ? & Hg & H). apply sgets_Ok in Hg. injection Hg as -> ->.
  destruct (list_find _ _) as [[i c]|] eqn:Hf; [|by injection H as _ <-].
  apply sbind_Ok in H as (? & s1 & [= _ <-] & H).
  do 2 (apply sbind_Ok in H as (? & ? & Hg & H); apply sgets_Ok in Hg; injection Hg as -> ->).
  pose proof (Hset _ _ Hf) as Hc. rewrite Hc in H. cbn [dgpo] in H. unfold u32 in H.
  rewrite Z.mod_small in H by (cbn; lia).
  match type of H with swhen (_ && (?a =? ?b) && _) _ _ = _ =>
    destruct (Z.eqb_spec a b) as [E|_]; [cbn in E; lia|] end.
  rewrite andb_false_r, andb_false_l in H. injection H as _ <-. split; [|done].
  intros j c' Hj. cbn in Hj. rewrite (find_confirmed _ n _ _ _ Hf) in Hj. by injection Hj as _ <-.
Qed.

Lemma messages_settled id ns s u s' :
  0 ≤ last_irreversible_block_num (dgpo s) < 2 ^ 32 - 1 → settled id s → sfor ns (apply_block_post_validation id) s = Ok (u, s') →
  last_irreversible_block_num (dgpo s') = last_irreversible_block_num (dgpo s).
Proof.
  revert s. induction ns as [|n ns IH]; intros s Hnum Hset H; cbn [sfor] in H; [by injection H as _ <-|].
  apply sbind_Ok in H as (? & s1 & H1 & H). apply message_settled in H1 as [Hset1 E]; [|done..].
  rewrite <- E. eapply IH; [|done..]. by rewrite E.
Qed.

Lemma awaits_recorded i c n s :
  awaits i c s → awaits i (confirm n c) (s <| validator_confirmations ::= <[i := confirm n c]> |>).
Proof.
  intros [Hc Hf Hnext Hshape]. split; [done| |done|].
  - exact (find_confirmed _ n _ _ _ Hf).
  - cbn. rewrite length_zip_with. lia.
Qed.

(** C23 (liveness).  When the confirmations of the next block arrive from enough
    validators of the schedule, in any order and with repetitions, the block is
    irreversible, and stays the last one while the rest of its confirmations
    arrive. *)
Theorem quorum_confirms i c ns s u s' :
  awaits i c s → numbered s → ns ⊆ scheduled s →
  confirmed c < confirmation_threshold s ≤ confirmed (confirm_all ns c) →
  sfor ns (apply_block_post_validation (vc_block_id c)) s = Ok (u, s') →
  last_irreversible_block_num (dgpo s') = vc_block_num c.
Proof.
  intros Ha Hnum Hns Hq. revert c s Ha Hnum Hns Hq.
  induction ns as [|n ns IH]; intros c s Ha Hnum Hns Hq H; cbn [sfor] in H; [cbn in Hq; lia|].
  apply sbind_Ok in H as (? & s1 & H1 & H).
  apply (message_progress i) in H1; [|done|set_solver|lia].
  destruct (Z.leb_spec (confirmation_threshold s) (confirmed (confirm n c))) as [Hr|Hr].
  - destruct H1 as [Hl Ec]. rewrite <- Hl. apply messages_settled in H; [done| |].
    + pose proof (aw_next _ _ _ Ha) as Hn. unfold numbered, u32 in *. rewrite Hl, Hn. rewrite Z.mod_small; lia.
    + intros j c' Hj. rewrite Ec, (find_confirmed _ n _ _ _ (aw_find _ _ _ Ha)) in Hj. by injection Hj as _ <-.
  - subst s1. refine (IH (confirm n c) _ (awaits_recorded _ _ _ _ Ha) Hnum _ _ H); [set_solver|].
    split; [exact Hr|]. exact (proj2 Hq).
Qed.
End confirmations.

(** ** On a small chain *)

Definition clear_arrays : FreshArrays.
Proof. refine {| fresh_places := replicate 21 (""%string, false) |}. reflexivity. Defined.

#[local] Existing Instance test_env.
#[local] Existing Instance clear_arrays.

(** Block 1 is irreversible; block 2, of Alice, waits for three validators. *)
Definition second_block : signed_block := example_block (block_id (example_block 0 5)) 9.
Definition four_db : database :=
  supported_db <| schedule ::= λ w, w <| current_shuffled_validators := ["alice"; "bob"; "carol"; "dave"] |>
    <| num_scheduled_validators := 4 |> |>.
Definition created_db : database :=
  after (create_block_post_validation 2 (block_id second_block) "alice") four_db.
Definition second_object : validator_confirmation_object :=
  default (mk_confirmation 0 0 [] []) (head (validator_confirmations created_db)).
#[local] Notation message n := (block_id second_block, n%string).
#[local] Notation send n := (apply_block_post_validation (block_id second_block) n).
Definition bob_sent : database := after (send "bob") created_db.
Definition two_sent : database := after (send "carol") bob_sent.

Lemma created_step : post_step ([], four_db) ([], created_db).
Proof.
  refine (post_create 2 (block_id second_block) "alice" four_db tt created_db [] _ (after_Ok _ _ _));
    [by vm_compute|vm_compute; reflexivity].
Qed.

Lemma send_step n s sent :
  numbered s → is_Ok (send n s) = true → post_step (sent, s) (message n :: sent, after (send n) s).
Proof. intros Hs H. exact (post_message (block_id second_block) n s tt _ sent Hs (after_Ok _ _ H)). Qed.

Lemma bob_step : post_step ([], created_db) ([message "bob"], bob_sent).
Proof. apply send_step; [by vm_compute|vm_compute; reflexivity]. Qed.

Lemma carol_step : post_step ([message "bob"], bob_sent) ([message "carol"; message "bob"], two_sent).
Proof. apply send_step; [by vm_compute|vm_compute; reflexivity]. Qed.

Lemma two_sent_numbered : numbered two_sent.
Proof. by vm_compute. Qed.

Definition three_sent : database := after (send "dave") two_sent.

Lemma dave_sends : apply_block_post_validation (block_id second_block) "dave" two_sent = Ok (tt, three_sent).
Proof. apply after_Ok. vm_compute. reflexivity. Qed.

Lemma two_sent_reached : rtc post_step ([], four_db) ([message "carol"; message "bob"], two_sent).
Proof.
  exact (rtc_l _ _ _ _ created_step (rtc_l _ _ _ _ bob_step (rtc_once _ _ carol_step))).
Qed.

Lemma confirmations_need_quorum_witness :
  last_irreversible_block_num (dgpo two_sent) = 1 ∧ last_irreversible_block_num (dgpo three_sent) = 2 ∧
  lib_by_confirmations [message "dave"; message "carol"; message "bob"] two_sent three_sent.
Proof.
  split; [vm_compute; reflexivity|]. split; [vm_compute; reflexivity|].
  assert (Forall (λ p, p.2 = false) fresh_places) as Hf by by repeat constructor.
  exact (proj1 (confirmations_need_quorum four_db _ two_sent Hf eq_refl two_sent_reached two_sent_numbered)
    _ _ _ _ dave_sends).
Defined.

Lemma quorum_confirms_witness :
  let run := sfor ["bob"; "dave"; "bob"; "carol"] (λ n, send n) in
  confirmed second_object = 0 ∧ confirmation_threshold created_db = 3 ∧
  last_irreversible_block_num (dgpo (after run created_db)) = vc_block_num second_object.
Proof.
  intros run. split; [vm_compute; reflexivity|]. split; [vm_compute; reflexivity|].
  refine (quorum_confirms 0 second_object ["bob"; "dave"; "bob"; "carol"] created_db tt (after run created_db) _ _ _ _ _).
  - split; vm_compute; reflexivity.
  - by vm_compute.
  - intros x. change (scheduled created_db) with ["alice"; "bob"; "carol"; "dave"]. set_solver.
  - split; vm_compute; [reflexivity|discriminate].
  - apply after_Ok. vm_compute. reflexivity.
Defined.
