(* ===== verification/BlockLog.v ===== *)
(** * The block log (libraries/chain/block_log.cpp)

    The irreversible blocks in a file, each followed by its position in eight
    bytes, and a second file with the positions, which can be rebuilt.  The
    files are memory-mapped: a file is the list of its bytes.  The machine is
    little-endian. *)

From stdpp Require Import gmap strings list.
From Stdlib Require Import ZArith Lia.
From S2P Require Import Prelude Block Database.

Definition CHAIN_MAX_BLOCK_SIZE_LIMIT : Z := 2 * 1024 * 1024.
Definition CHAIN_BLOCK_SIZE : Z := CHAIN_MAX_BLOCK_SIZE_LIMIT * CHAIN_BLOCK_INTERVAL.

(** ** Bytes *)

Fixpoint le_bytes (n : nat) (x : Z) : list Z :=
  match n with O => [] | S n => x mod 256 :: le_bytes n (x / 256) end.
Definition le64 (x : Z) : list Z := le_bytes 8 x.
Definition of_le (l : list Z) : Z := foldr (λ b r, b + 256 * r) 0 l.

Definition flen (f : list Z) : Z := Z.of_nat (length f).

(** Blocks as bytes ([fc::raw::pack], [fc::raw::unpack] of a stream and its
    [tellp] afterwards), and the bytes by which [resize] extends a file. *)
Class LogFiles := {
  pack : signed_block → list Z;
  unpack : list Z → res (signed_block * Z);
  grown : nat → list Z;
  grown_length n : length (grown n) = n
}.

(** An empty file stands for one that does not exist as well. *)
Record log_state := mk_log {
  block_file : list Z;
  index_file : list Z;
  log_head : option signed_block;
  log_head_id : Z
}.

Section block_log.
Context {BH : BlockHash} {LF : LogFiles}.

Definition min_valid_file_size : Z := 8.
Definition has_block_records (f : list Z) : bool := min_valid_file_size <? flen f.
Definition has_index_records (f : list Z) : bool := min_valid_file_size <=? flen f.
Definition get_mapped_size (f : list Z) : Z := if flen f <? min_valid_file_size then 0 else flen f.

Definition bytes_at (f : list Z) (pos : Z) (n : nat) : list Z := take n (drop (Z.to_nat pos) f).

(** The sum of the check is 64 bits wide. *)
Definition get_uint64 (f : list Z) (pos : Z) : res Z :=
  do? rassert (u64 (pos + 8) <=? get_mapped_size f) (E_assert "get_mapped_size") in
  if pos + 8 <=? flen f then Ok (of_le (bytes_at f pos 8)) else Err E_undefined.

Definition get_last_uint64 (f : list Z) : res Z :=
  let size := get_mapped_size f in
  do? rassert (8 <=? size) (E_assert "size") in
  Ok (of_le (bytes_at f (size - 8) 8)).

(** The position of a block; [None] is [npos]. *)
Definition get_block_pos (block_num : Z) (l : log_state) : res (option Z) :=
  match log_head l with
  | Some _ =>
      if (block_num <=? num_from_id (log_head_id l)) && (0 <? block_num)
      then let? pos := get_uint64 (index_file l) (8 * (block_num - 1)) in Ok (Some pos)
      else Ok None
  | None => Ok None
  end.

(** The block at a position, and the position after it. *)
Definition read_block (f : list Z) (pos : Z) : res (signed_block * Z) :=
  let file_size := get_mapped_size f in
  do? rassert (pos <? file_size) (E_assert "file_size") in
  let max_block_size := Z.min (file_size - pos) CHAIN_BLOCK_SIZE in
  let? r := unpack (bytes_at f pos (Z.to_nat max_block_size)) in
  let end_pos := pos + r.2 in
  let? stored := get_uint64 f end_pos in
  do? rassert (stored =? pos) (E_assert "end_pos") in
  Ok (r.1, end_pos + 8).

Definition read_head (f : list Z) : res signed_block :=
  let? pos := get_last_uint64 f in
  let? r := read_block f pos in Ok r.1.

Definition create_nonexist_file (f : list Z) : list Z := match f with [] => [0] | _ => f end.

Definition resize (n : Z) (f : list Z) : list Z :=
  take (Z.to_nat n) f ++ grown (Z.to_nat n - length f).
Definition write_at (pos : Z) (bytes f : list Z) : list Z :=
  take (Z.to_nat pos) f ++ bytes ++ drop (Z.to_nat pos + length bytes) f.

(** The loop of [construct_index]; every round reads a block further on. *)
Fixpoint index_loop (fuel : nat) (data : list Z) (pos end_pos idx : Z) (index : list Z) : res (list Z) :=
  match fuel with
  | O => Err E_undefined
  | S fuel =>
      if pos <=? end_pos then
        if idx + 8 <=? flen index then
          let index := write_at idx (le64 pos) index in
          let? r := read_block data pos in
          index_loop fuel data r.2 end_pos (idx + 8) index
        else Err E_undefined
      else Ok index
  end.

(** [head] is the last block of the log. *)
Definition construct_index (data : list Z) (head : signed_block) : res (list Z) :=
  let index := resize (block_num head * 8) (create_nonexist_file []) in
  let? end_pos := get_last_uint64 data in
  index_loop (S (length data)) data 0 end_pos 0 index.

Definition open (l : log_state) : res log_state :=
  let data := create_nonexist_file (block_file l) in
  let index := create_nonexist_file (index_file l) in
  if has_block_records data then
    let? head := read_head data in
    let? index :=
      (if has_index_records index then
         let? block_pos := get_last_uint64 data in
         let? index_pos := get_last_uint64 index in
         if block_pos =? index_pos then Ok index else construct_index data head
       else construct_index data head) in
    Ok (mk_log data index (Some head) (block_id head))
  else if has_index_records index then
    Ok (mk_log (create_nonexist_file []) (create_nonexist_file []) (log_head l) (log_head_id l))
  else Ok (mk_log data index (log_head l) (log_head_id l)).

Definition close (l : log_state) : log_state := mk_log (block_file l) (index_file l) None 0.

(** What [append] writes, in its order. *)
Definition append_steps (b : signed_block) (l : log_state) : list (log_state → log_state) :=
  let data := pack b in
  let index_pos := get_mapped_size (index_file l) in
  let block_pos := get_mapped_size (block_file l) in
  let on_block f l := mk_log (f (block_file l)) (index_file l) (log_head l) (log_head_id l) in
  let on_index f l := mk_log (block_file l) (f (index_file l)) (log_head l) (log_head_id l) in
  [on_block (resize (block_pos + flen data + 8));
   on_block (write_at block_pos data);
   on_block (write_at (block_pos + flen data) (le64 block_pos));
   on_index (resize (index_pos + 8));
   on_index (write_at index_pos (le64 block_pos));
   λ l, mk_log (block_file l) (index_file l) (Some b) (block_id b)].
Definition run_writes (steps : list (log_state → log_state)) (l : log_state) : log_state :=
  foldl (λ l f, f l) l steps.

Definition append (b : signed_block) (l : log_state) : res (Z * log_state) :=
  do? rassert (get_mapped_size (index_file l) =? 8 * u32 (block_num b - 1))
    (E_assert "Append to index file occuring at wrong position.") in
  Ok (get_mapped_size (block_file l), run_writes (append_steps b l) l).

Definition read_block_by_num (n : Z) (l : log_state) : res (option signed_block) :=
  let? pos := get_block_pos n l in
  match pos with
  | None => Ok None
  | Some pos =>
      let? r := read_block (block_file l) pos in
      do? rassert (block_num r.1 =? n) (E_assert "Wrong block was read from block log") in
      Ok (Some r.1)
  end.

(** ** What the files hold *)

(** The blocks from position [pos] on, and their positions. *)
Fixpoint layout (pos : Z) (bs : list signed_block) : list Z :=
  match bs with
  | [] => []
  | b :: bs => pack b ++ le64 pos ++ layout (pos + flen (pack b) + 8) bs
  end.
Fixpoint positions (pos : Z) (bs : list signed_block) : list Z :=
  match bs with [] => [] | b :: bs => pos :: positions (pos + flen (pack b) + 8) bs end.
Definition words (l : list Z) : list Z := concat (le64 <$> l).

(** A block that can be read back: it has bytes, no more than the limit, and
    unpacking them gives the block, whatever follows. *)
Definition packs (b : signed_block) : Prop :=
  0 < flen (pack b) ≤ CHAIN_BLOCK_SIZE ∧ ∀ rest, unpack (pack b ++ rest) = Ok (b, flen (pack b)).

Definition in_order (first : Z) (bs : list signed_block) : Prop :=
  ∀ i b, bs !! i = Some b → block_num b = first + Z.of_nat i.

(** Blocks from number [first] on that a log can hold. *)
Record storable (first : Z) (bs : list signed_block) : Prop := {
  st_packs : Forall packs bs;
  st_order : in_order first bs;
  st_size : flen (layout 0 bs) < 2 ^ 64 - 8
}.

(** The files and the head of a log that holds [bs]. *)
Record log_holds (bs : list signed_block) (l : log_state) : Prop := {
  lh_data : match bs with [] => flen (block_file l) < 8 | _ => block_file l = layout 0 bs end;
  lh_index : match bs with [] => flen (index_file l) < 8 | _ => index_file l = words (positions 0 bs) end;
  lh_head : log_head l = last bs;
  lh_head_id : log_head_id l = match last bs with Some b => block_id b | None => 0 end
}.
End block_log.
