(* ===== verification/BlockLogProofs.v ===== *)
(** * The block log keeps the blocks

    The files of the block log implement the list of irreversible blocks that
    the consensus code works with; the index can be rebuilt from the blocks; and
    what is left when an append is interrupted. *)

From stdpp Require Import gmap strings list.
From Stdlib Require Import ZArith Lia.
From S2P Require Import Prelude Block Database BlockLog.

(** ** Bytes and words *)

Lemma of_le_bytes n x : 0 ≤ x → of_le (le_bytes n x) = x mod 256 ^ Z.of_nat n.
Proof.
  revert x. induction n as [|n IH]; intros x Hx; [cbn; by rewrite Z.mod_1_r|].
  cbn [le_bytes of_le foldr]. fold (of_le (le_bytes n (x / 256))).
  rewrite IH by (apply Z.div_pos; lia).
  rewrite Nat2Z.inj_succ, Z.pow_succ_r by lia. rewrite Z.rem_mul_r by lia. done.
Qed.

Lemma length_le64 x : length (le64 x) = 8%nat.
Proof. done. Qed.

Lemma of_le64 x : 0 ≤ x < 2 ^ 64 → of_le (le64 x) = x.
Proof. intros Hx. unfold le64. rewrite of_le_bytes by lia. rewrite Z.mod_small; [done|]. cbn. lia. Qed.

Lemma flen_app f g : flen (f ++ g) = flen f + flen g.
Proof. unfold flen. rewrite length_app. lia. Qed.
Lemma flen_le64 x : flen (le64 x) = 8.
Proof. done. Qed.
Lemma flen_nonneg f : 0 ≤ flen f.
Proof. unfold flen. lia. Qed.
Lemma flen_nat f : Z.to_nat (flen f) = length f.
Proof. apply Nat2Z.id. Qed.
#[local] Hint Rewrite flen_app flen_le64 : flen.
#[local] Opaque le64.

Lemma bytes_at_app pre l post n :
  n = length l → bytes_at (pre ++ l ++ post) (flen pre) n = l.
Proof.
  intros ->. unfold bytes_at. by rewrite flen_nat, drop_app_length, take_app_length.
Qed.

Lemma write_at_app pre l old post :
  length old = length l → write_at (flen pre) l (pre ++ old ++ post) = pre ++ l ++ post.
Proof.
  intros E. unfold write_at. rewrite flen_nat, take_app_length. f_equal. f_equal.
  rewrite app_assoc, drop_app_length'; [done|]. rewrite length_app. lia.
Qed.

Section block_log.
Context {BH : BlockHash} {LF : LogFiles}.

Lemma mapped_size f : 8 ≤ flen f → get_mapped_size f = flen f.
Proof. intros H. unfold get_mapped_size, min_valid_file_size. by destruct (Z.ltb_spec (flen f) 8); [lia|]. Qed.
Lemma mapped_small f : flen f < 8 → get_mapped_size f = 0.
Proof. intros H. unfold get_mapped_size, min_valid_file_size. by destruct (Z.ltb_spec (flen f) 8); [|lia]. Qed.

(** A word that is in a file is read. *)
Lemma get_word pre x post :
  0 ≤ x < 2 ^ 64 → flen (pre ++ le64 x ++ post) < 2 ^ 64 - 8 →
  get_uint64 (pre ++ le64 x ++ post) (flen pre) = Ok x.
Proof.
  intros Hx Hs. autorewrite with flen in Hs. pose proof (flen_nonneg pre). pose proof (flen_nonneg post).
  unfold get_uint64. rewrite mapped_size by (autorewrite with flen; lia). unfold u64.
  rewrite Z.mod_small by lia. unfold rassert. autorewrite with flen.
  destruct (Z.leb_spec (flen pre + 8) (flen pre + (8 + flen post))); [|lia]. cbn [rbind].
  by rewrite bytes_at_app, of_le64.
Qed.

Lemma get_last_word pre x :
  0 ≤ x < 2 ^ 64 → get_last_uint64 (pre ++ le64 x) = Ok x.
Proof.
  intros Hx. pose proof (flen_nonneg pre). unfold get_last_uint64.
  rewrite mapped_size by (autorewrite with flen; lia). autorewrite with flen. unfold rassert.
  destruct (Z.leb_spec 8 (flen pre + 8)); [|lia]. cbn [rbind].
  replace (flen pre + 8 - 8) with (flen pre) by lia.
  rewrite <- (app_nil_r (le64 x)). by rewrite bytes_at_app, of_le64.
Qed.

(** A block that is in a file is read. *)
Lemma read_block_app pre b post :
  packs b → flen (pre ++ pack b ++ le64 (flen pre) ++ post) < 2 ^ 64 - 8 →
  read_block (pre ++ pack b ++ le64 (flen pre) ++ post) (flen pre) = Ok (b, flen pre + flen (pack b) + 8).
Proof.
  intros [[Hp Hl] Hu] Hs. autorewrite with flen in Hs.
  pose proof (flen_nonneg pre). pose proof (flen_nonneg post).
  unfold read_block. rewrite mapped_size by (autorewrite with flen; lia). autorewrite with flen. unfold rassert.
  destruct (Z.ltb_spec (flen pre) (flen pre + (flen (pack b) + (8 + flen post)))); [|lia]. cbn [rbind].
  set (m := Z.to_nat _).
  assert (bytes_at (pre ++ pack b ++ le64 (flen pre) ++ post) (flen pre) m =
    pack b ++ take (m - length (pack b)) (le64 (flen pre) ++ post)) as ->.
  { unfold bytes_at. rewrite flen_nat, drop_app_length, take_app_ge; [done|]. subst m. unfold flen in *. lia. }
  rewrite Hu. cbn [rbind fst snd].
  pose proof (get_word (pre ++ pack b) (flen pre) post) as Hw. autorewrite with flen in Hw.
  rewrite <- app_assoc in Hw. rewrite Hw by lia. cbn [rbind]. rewrite Z.eqb_refl. done.
Qed.

(** ** The layout of a log *)

Lemma layout_app pos bs1 bs2 :
  layout pos (bs1 ++ bs2) = layout pos bs1 ++ layout (pos + flen (layout pos bs1)) bs2.
Proof.
  revert pos. induction bs1 as [|b bs1 IH]; intros pos; cbn [layout app].
  { by rewrite Z.add_0_r. }
  rewrite IH, <- !app_assoc. do 4 f_equal. autorewrite with flen. lia.
Qed.

Lemma positions_app pos bs1 bs2 :
  positions pos (bs1 ++ bs2) = positions pos bs1 ++ positions (pos + flen (layout pos bs1)) bs2.
Proof.
  revert pos. induction bs1 as [|b bs1 IH]; intros pos; cbn [layout positions app].
  { by rewrite Z.add_0_r. }
  rewrite IH. do 3 f_equal. autorewrite with flen. lia.
Qed.

Lemma words_app l1 l2 : words (l1 ++ l2) = words l1 ++ words l2.
Proof. unfold words. by rewrite fmap_app, concat_app. Qed.
Lemma words_cons x l : words (x :: l) = le64 x ++ words l.
Proof. done. Qed.
Lemma flen_words l : flen (words l) = 8 * Z.of_nat (length l).
Proof.
  induction l as [|x l IH]; [done|]. rewrite words_cons. autorewrite with flen. rewrite IH. cbn [length]. lia.
Qed.
Lemma length_positions pos bs : length (positions pos bs) = length bs.
Proof. revert pos. induction bs; intros pos; cbn; congruence. Qed.

(** The block with the blocks before and after it. *)
Lemma layout_split bs1 b bs2 :
  layout 0 (bs1 ++ b :: bs2) =
  layout 0 bs1 ++ pack b ++ le64 (flen (layout 0 bs1)) ++
    layout (flen (layout 0 bs1) + flen (pack b) + 8) bs2.
Proof. rewrite layout_app. cbn [layout]. by rewrite !Z.add_0_l. Qed.

Lemma words_split bs1 b bs2 :
  words (positions 0 (bs1 ++ b :: bs2)) =
  words (positions 0 bs1) ++ le64 (flen (layout 0 bs1)) ++
    words (positions (flen (layout 0 bs1) + flen (pack b) + 8) bs2).
Proof. rewrite positions_app. cbn [positions]. rewrite words_app, words_cons. by rewrite !Z.add_0_l. Qed.

Lemma storable_app first bs1 bs2 : storable first (bs1 ++ bs2) → storable first bs1.
Proof.
  intros [Hp Ho Hs]. apply Forall_app in Hp as [Hp _]. rewrite layout_app, flen_app in Hs.
  pose proof (flen_nonneg (layout (0 + flen (layout 0 bs1)) bs2)). split; [done| |lia].
  intros i b Hi. apply Ho. by apply lookup_app_l_Some.
Qed.

(** The index takes no more room than the blocks. *)
Lemma index_fits pos bs : Forall packs bs → flen (words (positions pos bs)) ≤ flen (layout pos bs).
Proof.
  intros Hp. revert pos. induction Hp as [|b bs Hb Hp IH]; intros pos; [done|].
  cbn [layout positions]. rewrite words_cons. autorewrite with flen. specialize (IH (pos + flen (pack b) + 8)).
  destruct Hb as [[? _] _]. lia.
Qed.

Lemma storable_packs first bs i b : storable first bs → bs !! i = Some b → packs b.
Proof. intros [Hp _ _] Hi. by eapply Forall_lookup in Hp. Qed.

(** ** Reading and appending *)

Lemma last_number first bs b :
  in_order first bs → last bs = Some b → block_num b = first + Z.of_nat (length bs) - 1.
Proof.
  intros Ho Hl. rewrite last_lookup in Hl. pose proof (lookup_lt_Some _ _ _ Hl).
  rewrite (Ho _ _ Hl). lia.
Qed.

Lemma holds_data bs l : log_holds bs l → bs ≠ [] → block_file l = layout 0 bs.
Proof. intros [Hd _ _ _] Hn. by destruct bs. Qed.
Lemma holds_index bs l : log_holds bs l → bs ≠ [] → index_file l = words (positions 0 bs).
Proof. intros [_ Hi _ _] Hn. by destruct bs. Qed.

Lemma holds_sizes bs l :
  storable 1 bs → log_holds bs l →
  get_mapped_size (block_file l) = flen (layout 0 bs) ∧
  get_mapped_size (index_file l) = 8 * Z.of_nat (length bs).
Proof.
  intros [Hp _ _] Hh. destruct bs as [|b bs].
  { destruct Hh as [Hd Hi _ _]. by rewrite !mapped_small. }
  rewrite (holds_data _ _ Hh), (holds_index _ _ Hh) by done.
  pose proof (index_fits 0 (b :: bs) Hp) as Hle. rewrite flen_words, length_positions in Hle.
  rewrite !mapped_size; rewrite ?flen_words, ?length_positions; cbn [length] in *; [done|lia|lia].
Qed.

Lemma log_block_at bs l i b :
  storable 1 bs → log_holds bs l → bs !! i = Some b →
  get_block_pos (Z.of_nat i + 1) l = Ok (Some (flen (layout 0 (take i bs)))) ∧
  read_block (block_file l) (flen (layout 0 (take i bs))) =
    Ok (b, flen (layout 0 (take i bs)) + flen (pack b) + 8).
Proof.
  intros Hst Hh Hi. pose proof (lookup_lt_Some _ _ _ Hi) as Hlt. pose proof (storable_packs _ _ _ _ Hst Hi) as Hb.
  pose proof (st_size _ _ Hst) as Hs. pose proof (index_fits 0 bs (st_packs _ _ Hst)) as Hfit.
  assert (bs ≠ []) as Hne by by destruct bs.
  rewrite (holds_data _ _ Hh Hne).
  assert (bs = take i bs ++ b :: drop (S i) bs) as E by by rewrite take_drop_middle.
  split.
  - destruct (last_is_Some bs) as [_ [h Hl]]; [done|]. unfold get_block_pos.
    rewrite (lh_head _ _ Hh), (lh_head_id _ _ Hh), Hl, num_from_block_id, (last_number _ _ _ (st_order _ _ Hst) Hl).
    destruct (Z.leb_spec (Z.of_nat i + 1) (1 + Z.of_nat (length bs) - 1)); [|lia].
    destruct (Z.ltb_spec 0 (Z.of_nat i + 1)); [|lia]. cbn [andb].
    rewrite (holds_index _ _ Hh Hne). rewrite E at 1. rewrite words_split.
    replace (8 * (Z.of_nat i + 1 - 1)) with (flen (words (positions 0 (take i bs)))).
    2:{ rewrite flen_words, length_positions, length_take. lia. }
    rewrite get_word; [done|..].
    + split; [apply flen_nonneg|]. rewrite E, layout_app, flen_app in Hs.
      pose proof (flen_nonneg (layout (0 + flen (layout 0 (take i bs))) (b :: drop (S i) bs))). lia.
    + rewrite <- words_split, <- E. lia.
  - rewrite E at 1. rewrite layout_split. apply read_block_app; [done|]. by rewrite <- layout_split, <- E.
Qed.

Lemma read_by_num bs l n :
  storable 1 bs → log_holds bs l → 0 ≤ n →
  read_block_by_num n l = Ok (if 0 <? n then bs !! Z.to_nat (n - 1) else None).
Proof.
  intros Hst Hh Hn. destruct (Z.ltb_spec 0 n) as [Hpos|].
  2:{ unfold read_block_by_num, get_block_pos. destruct (log_head l); [|done].
      destruct (Z.ltb_spec 0 n); [lia|]. by rewrite andb_false_r. }
  destruct (bs !! Z.to_nat (n - 1)) as [b|] eqn:Hi.
  - destruct (log_block_at _ _ _ _ Hst Hh Hi) as [Hp Hr]. unfold read_block_by_num.
    replace (Z.of_nat (Z.to_nat (n - 1)) + 1) with n in Hp by lia. rewrite Hp. cbn [rbind].
    rewrite Hr. cbn [rbind fst]. rewrite (st_order _ _ Hst _ _ Hi). unfold rassert.
    destruct (Z.eqb_spec (1 + Z.of_nat (Z.to_nat (n - 1))) n); [done|lia].
  - apply lookup_ge_None in Hi. unfold read_block_by_num, get_block_pos.
    rewrite (lh_head _ _ Hh), (lh_head_id _ _ Hh). destruct (last bs) as [h|] eqn:Hl; [|done].
    rewrite num_from_block_id, (last_number _ _ _ (st_order _ _ Hst) Hl).
    by destruct (Z.leb_spec n (1 + Z.of_nat (length bs) - 1)); [lia|].
Qed.

(** Writing where a file has been made longer. *)
Lemma resize_exact f n :
  flen f ≤ n → ∃ new, resize n f = f ++ new ∧ flen new = n - flen f ∧ new = grown (Z.to_nat (n - flen f)).
Proof.
  intros Hn. unfold resize. exists (grown (Z.to_nat n - length f)). unfold flen in *.
  rewrite take_ge, grown_length by lia. split_and!; [done|lia|f_equal; lia].
Qed.

(** The file of a log, once it has been resized for [n] more bytes. *)
Lemma grow_file pre f n :
  (f = pre ∧ 8 ≤ flen f) ∨ (pre = [] ∧ flen f < 8) → 8 ≤ n →
  ∃ new, resize (flen pre + n) f = pre ++ new ∧ flen new = n ∧ (8 ≤ flen f → new = grown (Z.to_nat n)).
Proof.
  intros [[-> _]|[-> Hs]] Hn.
  - destruct (resize_exact pre (flen pre + n)) as (new & -> & E & En); [lia|]. exists new.
    split_and!; [done|lia|]. intros _. rewrite En. f_equal. lia.
  - destruct (resize_exact f (0 + n)) as (new & E & El & _); [lia|].
    change (flen [] + n) with (0 + n). rewrite E. exists (f ++ new).
    split_and!; [done|autorewrite with flen; lia|lia].
Qed.

(** A block and its position are written into the room for them. *)
Lemma write_block pre b room :
  flen room = flen (pack b) + 8 →
  write_at (flen pre) (pack b) (pre ++ room) = pre ++ pack b ++ drop (length (pack b)) room.
Proof.
  intros Ho. rewrite <- (take_drop (length (pack b)) room) at 1. apply write_at_app.
  rewrite length_take. unfold flen in *. lia.
Qed.
Lemma write_position pre b room :
  flen room = flen (pack b) + 8 →
  write_at (flen pre + flen (pack b)) (le64 (flen pre)) (pre ++ pack b ++ drop (length (pack b)) room) =
  pre ++ pack b ++ le64 (flen pre).
Proof.
  intros Ho. rewrite !app_assoc, <- flen_app. rewrite <- (app_nil_r (drop _ room)), <- (app_nil_r (le64 _)).
  apply write_at_app. rewrite length_drop, length_le64. unfold flen in *. lia.
Qed.

Lemma file_state bs l :
  storable 1 bs → log_holds bs l →
  ((block_file l = layout 0 bs ∧ 8 ≤ flen (block_file l)) ∨ (layout 0 bs = [] ∧ flen (block_file l) < 8)) ∧
  ((index_file l = words (positions 0 bs) ∧ 8 ≤ flen (index_file l)) ∨
   (words (positions 0 bs) = [] ∧ flen (index_file l) < 8)).
Proof.
  intros [Hp _ _] Hh. destruct bs as [|b bs]; [destruct Hh; split; by right|].
  rewrite (holds_data _ _ Hh), (holds_index _ _ Hh) by done. pose proof (index_fits 0 (b :: bs) Hp) as Hf.
  rewrite flen_words, length_positions in *. cbn [length] in *. split; left; (split; [done|lia]).
Qed.

(** The files after each of the writes of an append. *)
Definition file_after (k : nat) (new_data new_index : list Z) (bs : list signed_block) (b : signed_block) :
    list Z * list Z :=
  let pos := flen (layout 0 bs) in
  (layout 0 bs ++
     match k with
     | 1%nat => new_data
     | 2%nat => pack b ++ drop (length (pack b)) new_data
     | _ => pack b ++ le64 pos
     end,
   words (positions 0 bs) ++ match k with 1%nat | 2%nat | 3%nat => [] | 4%nat => new_index | _ => le64 pos end).

Lemma append_writes bs b l k :
  storable 1 bs → log_holds bs l → (1 ≤ k ≤ 6)%nat →
  ∃ new_data new_index,
    flen new_data = flen (pack b) + 8 ∧ flen new_index = 8 ∧
    (bs ≠ [] → new_data = grown (Z.to_nat (flen (pack b) + 8)) ∧ new_index = grown 8) ∧
    let l' := run_writes (take k (append_steps b l)) l in
    block_file l' = (file_after k new_data new_index bs b).1 ∧
    ((k ≤ 3)%nat → index_file l' = index_file l) ∧
    ((4 ≤ k)%nat → index_file l' = (file_after k new_data new_index bs b).2) ∧
    (k = 6%nat → log_head l' = Some b ∧ log_head_id l' = block_id b).
Proof.
  intros Hst Hh Hk. destruct (holds_sizes _ _ Hst Hh) as [Sd Si]. destruct (file_state _ _ Hst Hh) as [Fd Fi].
  destruct (grow_file (layout 0 bs) (block_file l) (flen (pack b) + 8) Fd) as (nd & Ed & Ld & Gd);
    [pose proof (flen_nonneg (pack b)); lia|].
  destruct (grow_file (words (positions 0 bs)) (index_file l) 8 Fi) as (ni & Ei & Li & Gi); [done|].
  rewrite flen_words, length_positions in Ei.
  exists nd, ni. split_and!; [done..| |].
  { intros Hn. destruct Fd as [[_ ?]|[Hd _]]; [|by destruct bs; cbn in Hd; [|destruct (pack _)]].
    destruct Fi as [[_ ?]|[Hi _]]; [auto|by destruct bs]. }
  unfold append_steps. rewrite Sd, Si.
  pose proof (write_block (layout 0 bs) b nd Ld) as W1. pose proof (write_position (layout 0 bs) b nd Ld) as W2.
  assert (write_at (8 * Z.of_nat (length bs)) (le64 (flen (layout 0 bs))) (words (positions 0 bs) ++ ni) =
    words (positions 0 bs) ++ le64 (flen (layout 0 bs))) as W3.
  { replace (8 * Z.of_nat (length bs)) with (flen (words (positions 0 bs)))
      by (by rewrite flen_words, length_positions).
    rewrite <- (app_nil_r ni), <- (app_nil_r (le64 _)). apply write_at_app. rewrite length_le64.
    unfold flen in Li. lia. }
  rewrite <- !Z.add_assoc.
  assert (k = 1 ∨ k = 2 ∨ k = 3 ∨ k = 4 ∨ k = 5 ∨ k = 6)%nat as [->|[->|[->|[->|[->| ->]]]]] by lia;
    cbn [take run_writes foldl block_file index_file log_head log_head_id file_after fst snd];
    rewrite ?Ed, ?Ei, ?W1, ?W2, ?W3 by done; split_and!; try done; intros; try lia; done.
Qed.

(** An append that its check lets through. *)
Lemma append_holds bs b l :
  storable 1 bs → log_holds bs l → log_holds (bs ++ [b]) (run_writes (append_steps b l) l).
Proof.
  intros Hst Hh. destruct (append_writes bs b l 6 Hst Hh ltac:(lia)) as (nd & ni & _ & _ & _ & Hd & _ & Hi & Hl).
  change (take 6 (append_steps b l)) with (append_steps b l) in Hd, Hi, Hl. destruct (Hl eq_refl) as [H1 H2]. specialize (Hi ltac:(lia)).
  split.
  - destruct (bs ++ [b]) eqn:E; [by destruct bs|]. rewrite Hd, <- E, layout_app. cbn [layout file_after fst].
    by rewrite app_nil_r.
  - destruct (bs ++ [b]) eqn:E; [by destruct bs|]. rewrite Hi, <- E, positions_app. cbn [positions file_after snd].
    by rewrite words_app, words_cons, app_nil_r.
  - by rewrite last_snoc.
  - by rewrite last_snoc.
Qed.

(** ** Rebuilding the index *)

(** The position of the last block. *)
Definition last_pos (bs : list signed_block) : Z := flen (layout 0 (take (length bs - 1) bs)).

Lemma last_pos_snoc bs b : last_pos (bs ++ [b]) = flen (layout 0 bs).
Proof. unfold last_pos. rewrite length_app, Nat.add_sub. by rewrite take_app_length. Qed.

Lemma layout_prefix bs1 bs2 : flen (layout 0 bs1) ≤ flen (layout 0 (bs1 ++ bs2)).
Proof.
  rewrite layout_app, flen_app. pose proof (flen_nonneg (layout (0 + flen (layout 0 bs1)) bs2)). lia.
Qed.

(** The position of a block is at most that of the last one. *)
Lemma last_pos_ge bs1 b bs2 : flen (layout 0 bs1) ≤ last_pos (bs1 ++ b :: bs2).
Proof.
  destruct (decide (bs2 = [])) as [->|Hn]; [by rewrite last_pos_snoc|].
  destruct (exists_last Hn) as (bs3 & c & ->).
  replace (bs1 ++ b :: bs3 ++ [c]) with ((bs1 ++ b :: bs3) ++ [c]) by by rewrite <- app_assoc.
  rewrite last_pos_snoc. apply layout_prefix.
Qed.

Lemma last_pos_lt bs : bs ≠ [] → last_pos bs < flen (layout 0 bs).
Proof.
  intros Hn. destruct (exists_last Hn) as (bs' & b & ->). rewrite last_pos_snoc, layout_app, flen_app.
  cbn [layout]. autorewrite with flen. pose proof (flen_nonneg (pack b)). change (flen []) with 0. lia.
Qed.

Lemma layout_last bs :
  bs ≠ [] → ∃ b, last bs = Some b ∧
    layout 0 bs = (layout 0 (take (length bs - 1) bs) ++ pack b) ++ le64 (last_pos bs) ∧
    words (positions 0 bs) = words (positions 0 (take (length bs - 1) bs)) ++ le64 (last_pos bs).
Proof.
  intros Hn. destruct (exists_last Hn) as (bs' & b & ->). exists b.
  rewrite last_snoc, last_pos_snoc, length_app, Nat.add_sub, take_app_length, layout_split, words_split.
  cbn [layout positions]. by rewrite app_nil_r, <- app_assoc, app_nil_r.
Qed.

Lemma index_loop_spec hdr bs1 bs2 junk rest fuel :
  Forall packs (bs1 ++ bs2) → flen (layout 0 (bs1 ++ bs2) ++ junk) < 2 ^ 64 - 8 →
  bs1 ++ bs2 ≠ [] → flen rest = 8 * Z.of_nat (length bs2) → (length bs2 < fuel)%nat →
  index_loop fuel (layout 0 (bs1 ++ bs2) ++ junk) (flen (layout 0 bs1)) (last_pos (bs1 ++ bs2))
    (flen hdr + 8 * Z.of_nat (length bs1)) (hdr ++ words (positions 0 bs1) ++ rest) =
  Ok (hdr ++ words (positions 0 (bs1 ++ bs2))).
Proof.
  revert bs1 rest fuel. induction bs2 as [|b bs2 IH]; intros bs1 rest fuel Hp Hs Hn Hr Hf;
    (destruct fuel as [|fuel]; [lia|]); cbn [index_loop].
  - rewrite app_nil_r in *. pose proof (last_pos_lt bs1 Hn).
    destruct (Z.leb_spec (flen (layout 0 bs1)) (last_pos bs1)); [lia|].
    destruct rest; [by rewrite app_nil_r|]. unfold flen in Hr. cbn [length] in Hr. lia.
  - pose proof (last_pos_ge bs1 b bs2).
    destruct (Z.leb_spec (flen (layout 0 bs1)) (last_pos (bs1 ++ b :: bs2))); [|lia].
    rewrite !flen_app, flen_words, length_positions. cbn [length] in Hr, Hf.
    destruct (Z.leb_spec (flen hdr + 8 * Z.of_nat (length bs1) + 8)
      (flen hdr + (8 * Z.of_nat (length bs1) + flen rest))); [|lia].
    assert (flen (layout 0 bs1) < 2 ^ 64 - 8) as Hb.
    { pose proof (layout_prefix bs1 (b :: bs2)). rewrite flen_app in Hs. pose proof (flen_nonneg junk). lia. }
    assert (read_block (layout 0 (bs1 ++ b :: bs2) ++ junk) (flen (layout 0 bs1)) =
      Ok (b, flen (layout 0 bs1) + flen (pack b) + 8)) as ->.
    { rewrite layout_split, <- !app_assoc in *. apply read_block_app; [|done].
      apply Forall_app in Hp as [_ Hp]. by apply Forall_cons in Hp as [? _]. }
    cbn [rbind snd].
    replace (write_at (flen hdr + 8 * Z.of_nat (length bs1)) (le64 (flen (layout 0 bs1)))
        (hdr ++ words (positions 0 bs1) ++ rest))
      with (hdr ++ words (positions 0 (bs1 ++ [b])) ++ drop 8 rest).
    + specialize (IH (bs1 ++ [b]) (drop 8 rest) fuel).
      rewrite <- app_assoc in IH. cbn [app] in IH.
      replace (flen (layout 0 bs1) + flen (pack b) + 8) with (flen (layout 0 (bs1 ++ [b]))).
      2:{ rewrite layout_app. cbn [layout]. autorewrite with flen. change (flen []) with 0. lia. }
      replace (flen hdr + 8 * Z.of_nat (length bs1) + 8) with (flen hdr + 8 * Z.of_nat (length (bs1 ++ [b])))
        by (rewrite length_app; cbn [length]; lia).
      apply IH; [done..| |lia]. unfold flen in *. rewrite length_drop. lia.
    + rewrite words_split. cbn [positions]. rewrite <- (take_drop 8 rest) at 2. rewrite <- !app_assoc, (app_assoc hdr), (app_assoc hdr).
      replace (flen hdr + 8 * Z.of_nat (length bs1)) with (flen (hdr ++ words (positions 0 bs1)))
        by (by rewrite flen_app, flen_words, length_positions).
      rewrite write_at_app; [done|]. rewrite length_take, length_le64. unfold flen in Hr. lia.
Qed.

Lemma construct_index_spec bs junk h :
  storable 1 bs → bs ≠ [] → flen (layout 0 bs ++ junk) < 2 ^ 64 - 8 → last bs = Some h →
  get_last_uint64 (layout 0 bs ++ junk) = Ok (last_pos bs) →
  construct_index (layout 0 bs ++ junk) h = Ok (words (positions 0 bs)).
Proof.
  intros Hst Hn Hs Hl He. unfold construct_index. rewrite He. cbn [rbind].
  rewrite (last_number _ _ _ (st_order _ _ Hst) Hl).
  destruct (resize_exact (create_nonexist_file []) ((1 + Z.of_nat (length bs) - 1) * 8)) as (new & -> & En & _).
  { destruct bs; [done|]. cbn [length create_nonexist_file]. unfold flen. cbn [length]. lia. }
  apply (index_loop_spec [] [] bs junk); [exact (st_packs _ _ Hst)|done|done| |].
  - unfold flen in *. cbn in *. lia.
  - pose proof (index_fits 0 bs (st_packs _ _ Hst)) as Hf. rewrite flen_words, length_positions in Hf.
    unfold flen in Hf. rewrite length_app. lia.
Qed.

(** The last word leads to the last block. *)
Lemma read_head_spec bs junk h :
  Forall packs bs → last bs = Some h → flen (layout 0 bs ++ junk) < 2 ^ 64 - 8 →
  get_last_uint64 (layout 0 bs ++ junk) = Ok (last_pos bs) →
  read_head (layout 0 bs ++ junk) = Ok h.
Proof.
  intros Hp Hl Hs He. destruct (layout_last bs) as (b & Hb & El & _); [by destruct bs|].
  rewrite Hl in Hb. injection Hb as <-.
  assert (packs h) as Hh by (eapply Forall_forall; [done|]; by apply last_Some_elem_of).
  unfold read_head. rewrite He. cbn [rbind]. rewrite El in Hs |- *. rewrite <- !app_assoc in *.
  by rewrite read_block_app.
Qed.

(** The head and the index that a log comes back with. *)
Lemma open_rebuilds bs junk l h :
  storable 1 bs → last bs = Some h → block_file l = layout 0 bs ++ junk →
  flen (layout 0 bs ++ junk) < 2 ^ 64 - 8 →
  get_last_uint64 (layout 0 bs ++ junk) = Ok (last_pos bs) →
  flen (index_file l) < 8 ∨ index_file l = words (positions 0 bs) ∨
    (∃ x, get_last_uint64 (index_file l) = Ok x ∧ x ≠ last_pos bs) →
  open l = Ok (mk_log (layout 0 bs ++ junk) (words (positions 0 bs)) (Some h) (block_id h)).
Proof.
  intros Hst Hl Ed Hs He Hi. assert (bs ≠ []) as Hn by by destruct bs.
  destruct (layout_last bs Hn) as (b & Hb & El & Ew). rewrite Hl in Hb. injection Hb as <-.
  pose proof (flen_nonneg junk). pose proof (st_packs _ _ Hst) as Hp.
  assert (0 ≤ last_pos bs < 2 ^ 64) as Hlp.
  { pose proof (last_pos_lt bs Hn). rewrite flen_app in Hs. split; [apply flen_nonneg|lia]. }
  assert (packs h) as Hh by (eapply Forall_forall; [done|]; by apply last_Some_elem_of).
  assert (8 < flen (layout 0 bs ++ junk)) as H8.
  { rewrite El. autorewrite with flen. pose proof (flen_nonneg (layout 0 (take (length bs - 1) bs))).
    destruct Hh as [[? _] _]. lia. }
  unfold open. rewrite Ed.
  assert (create_nonexist_file (layout 0 bs ++ junk) = layout 0 bs ++ junk) as ->.
  { destruct (layout 0 bs ++ junk); [by cbn in H8|done]. }
  unfold has_block_records, min_valid_file_size. destruct (Z.ltb_spec 8 (flen (layout 0 bs ++ junk))); [|lia].
  rewrite (read_head_spec bs junk h Hp Hl Hs He).
  cbn [rbind]. pose proof (construct_index_spec bs junk h Hst Hn Hs Hl He) as Hc.
  assert (∀ f, flen (create_nonexist_file f) < 8 ↔ flen f < 8) as Hcr by (intros [|? ?]; unfold flen; cbn [create_nonexist_file length]; lia).
  unfold has_index_records, min_valid_file_size.
  destruct (Z.leb_spec 8 (flen (create_nonexist_file (index_file l)))) as [Hlen|Hlen]; [|by rewrite Hc].
  assert (create_nonexist_file (index_file l) = index_file l) as Ei by by destruct (index_file l).
  rewrite He. cbn [rbind]. rewrite Ei in Hlen |- *. destruct Hi as [|[Hi|(x & Hx & Hne)]]; [lia|..].
  - rewrite Hi. assert (get_last_uint64 (words (positions 0 bs)) = Ok (last_pos bs)) as ->.
    { rewrite Ew. by apply get_last_word. }
    cbn [rbind]. by rewrite Z.eqb_refl.
  - rewrite Hx. cbn [rbind]. destruct (Z.eqb_spec (last_pos bs) x); [congruence|]. by rewrite Hc.
Qed.

Lemma last_of_log first bs : storable first bs → bs ≠ [] → get_last_uint64 (layout 0 bs) = Ok (last_pos bs).
Proof.
  intros Hst Hn. destruct (layout_last bs Hn) as (b & _ & -> & _). apply get_last_word.
  pose proof (last_pos_lt bs Hn). pose proof (st_size _ _ Hst). split; [apply flen_nonneg|lia].
Qed.

(** The index was lost, is another's, or is right. *)
Definition index_recoverable (bs : list signed_block) (index : list Z) : Prop :=
  flen index < 8 ∨ index = words (positions 0 bs) ∨
  ∃ x, get_last_uint64 index = Ok x ∧ x ≠ last_pos bs.

Lemma reopen_holds bs l :
  storable 1 bs → bs ≠ [] → block_file l = layout 0 bs → index_recoverable bs (index_file l) →
  ∃ l', open l = Ok l' ∧ log_holds bs l'.
Proof.
  intros Hst Hn Ed Hi. destruct (layout_last bs Hn) as (h & Hl & _ & _).
  pose proof (open_rebuilds bs [] l h Hst Hl) as H. rewrite app_nil_r in H.
  rewrite H; [|done|pose proof (st_size _ _ Hst); lia|by apply (last_of_log 1)|done].
  eexists. split; [done|]. split; cbn; [by destruct bs..|done|by rewrite Hl].
Qed.
End block_log.
