(* ===== verification/BlockLogSpec.v ===== *)
(** * What the block log promises

    The files refine the list of irreversible blocks of the consensus code
    ([Irreversible.log_append], [BlockData.read_block_by_num]); and what a node
    that stops in the middle of an append finds when it opens the log again. *)

From stdpp Require Import gmap strings list.
From Stdlib Require Import ZArith Lia.
From S2P Require Import Prelude Block ForkDb Objects Database BlockData Irreversible Scenario.
From S2P Require Import BlockLog BlockLogProofs.

#[local] Opaque le64.

Section spec.
Context {BH : BlockHash} {LF : LogFiles}.

Lemma append_ok bs b l :
  storable 1 bs → log_holds bs l → 0 < block_num b →
  append b l =
    if Z.of_nat (length bs) =? block_num b - 1
    then Ok (flen (layout 0 bs), run_writes (append_steps b l) l)
    else Err (E_assert "Append to index file occuring at wrong position.").
Proof.
  intros Hst Hh Hb. destruct (holds_sizes _ _ Hst Hh) as [Ed Ei]. unfold append. rewrite Ed, Ei.
  pose proof (block_num_range b). unfold u32. rewrite Z.mod_small by lia. unfold rassert.
  destruct (Z.eqb_spec (8 * Z.of_nat (length bs)) (8 * (block_num b - 1)));
    destruct (Z.eqb_spec (Z.of_nat (length bs)) (block_num b - 1)); done || lia.
Qed.

(** C19 (refinement).  The files of the block log implement the list of blocks:
    reading a block by its number gives what the list gives; an append is
    refused exactly when it would not continue the list, and otherwise leaves
    files that hold the longer list, with the block at the position that is
    returned; and a log that is closed and opened again, with its index, with
    none, or with one whose end does not fit, holds the same blocks. *)
Theorem block_log_refines s l :
  storable 1 (block_log s) → log_holds (block_log s) l →
  log_head l = last (block_log s) ∧
  (∀ n, 0 ≤ n → read_block_by_num n l = BlockData.read_block_by_num n s) ∧
  (∀ b, 0 < block_num b →
     match log_append b s with
     | Ok (_, s') => ∃ pos l', append b l = Ok (pos, l') ∧ log_holds (block_log s') l' ∧
         (storable 1 (block_log s') → read_block (block_file l') pos = Ok (b, pos + flen (pack b) + 8))
     | Err e => append b l = Err e
     end) ∧
  (block_log s ≠ [] → ∀ index, index_recoverable (block_log s) index →
     ∃ l', open (close (mk_log (block_file l) index (log_head l) (log_head_id l))) = Ok l' ∧
       log_holds (block_log s) l').
Proof.
  intros Hst Hh. split_and!.
  - apply (lh_head _ _ Hh).
  - intros n Hn. rewrite (read_by_num _ _ _ Hst Hh Hn). unfold BlockData.read_block_by_num.
    destruct (Z.ltb_spec 0 n); [|done]. destruct (_ !! _) as [b|] eqn:Hi; [|done].
    rewrite (st_order _ _ Hst _ _ Hi). unfold rassert.
    by destruct (Z.eqb_spec (1 + Z.of_nat (Z.to_nat (n - 1))) n); [|lia].
  - intros b Hb. rewrite (append_ok _ _ _ Hst Hh Hb).
    destruct (log_append b s) as [[u s']|e] eqn:Ha.
    + apply log_append_Ok in Ha as (_ & _ & _ & E & En). rewrite E.
      destruct (Z.eqb_spec (Z.of_nat (length (block_log s))) (block_num b - 1)); [|lia].
      do 2 eexists. split; [done|]. pose proof (append_holds _ b _ Hst Hh) as Hh'. split; [exact Hh'|]. intros Hst'.
      destruct (log_block_at _ _ (length (block_log s)) b Hst' Hh') as [_ Hr].
      { by rewrite lookup_app_r, Nat.sub_diag. }
      by rewrite take_app_length in Hr.
    + unfold log_append in Ha. destruct (_ =? _); [done|]. by injection Ha as <-.
  - intros Hn index Hi. apply reopen_holds; [done..| |done]. exact (holds_data _ _ Hh Hn).
Qed.

(** ** A node that stops in the middle of an append *)

Lemma grown_zeros n : replicate (n + 8) 0 = replicate n 0 ++ le64 0.
Proof. by rewrite replicate_add. Qed.

(** The last word of the file while the position of the new block is missing. *)
Lemma torn_file bs b k new_data new_index :
  (k = 1 ∨ k = 2)%nat → new_data = replicate (Z.to_nat (flen (pack b) + 8)) 0 →
  ∃ pre, (file_after k new_data new_index bs b).1 = (layout 0 bs ++ pre) ++ le64 0 ∧ flen pre = flen (pack b).
Proof.
  intros Hk ->. assert (Z.to_nat (flen (pack b) + 8) = length (pack b) + 8)%nat as -> by (unfold flen; lia).
  destruct Hk as [-> | ->]; cbn [file_after fst].
  - exists (replicate (length (pack b)) 0). rewrite grown_zeros, app_assoc. split; [done|].
    unfold flen. by rewrite length_replicate.
  - exists (pack b). rewrite grown_zeros, drop_app_length', <- app_assoc by (by rewrite length_replicate). done.
Qed.

Lemma flen_cons_pos b bs : storable 1 (b :: bs) → 0 < flen (layout 0 [b]).
Proof.
  intros [Hp _ _]. apply Forall_cons in Hp as [[[? _] _] _]. cbn [layout]. rewrite !flen_app, flen_le64.
  change (flen []) with 0. lia.
Qed.

(** The position of the last block is not that of the first one. *)
Lemma last_pos_later b bs : storable 1 (b :: bs) → bs ≠ [] → last_pos (b :: bs) ≠ 0.
Proof.
  intros Hst Hn. pose proof (flen_cons_pos _ _ Hst). destruct bs as [|c bs]; [done|].
  pose proof (last_pos_ge [b] c bs) as Hle. cbn [app] in Hle. lia.
Qed.

(** What such a log looks like: only its first block is found. *)
Definition only_first (b : signed_block) (l : log_state) : Prop :=
  log_head l = Some b ∧
  (∀ n, 1 < n → read_block_by_num n l = Ok None) ∧
  (∀ c, 0 < block_num c → block_num c ≠ 2 → ∃ e, append c l = Err e).

Lemma torn_reopens b0 bs b k new_data new_index l :
  storable 1 ((b0 :: bs) ++ [b]) → (k = 1 ∨ k = 2)%nat →
  new_data = replicate (Z.to_nat (flen (pack b) + 8)) 0 →
  block_file l = (file_after k new_data new_index (b0 :: bs) b).1 →
  index_file l = words (positions 0 (b0 :: bs)) →
  ∃ l', open l = Ok l' ∧ only_first b0 l'.
Proof.
  intros Hst' Hk Hnd Ed Ei. pose proof (storable_app _ _ _ Hst') as Hst.
  assert (storable 1 [b0]) as Hst0 by by apply (storable_app 1 [b0] bs).
  destruct (torn_file (b0 :: bs) b k new_data new_index Hk Hnd) as (pre & Ef & Lp).
  assert (layout 0 (b0 :: bs) = layout 0 [b0] ++ layout (flen (layout 0 [b0])) bs) as Es by exact (layout_app 0 [b0] bs).
  set (junk := (layout (flen (layout 0 [b0])) bs ++ pre) ++ le64 0).
  assert ((file_after k new_data new_index (b0 :: bs) b).1 = layout 0 [b0] ++ junk) as Ej.
  { rewrite Ef, Es. unfold junk. by rewrite <- !app_assoc. }
  assert (flen (layout 0 [b0] ++ junk) < 2 ^ 64 - 8) as Hs.
  { rewrite <- Ej, Ef. pose proof (st_size _ _ Hst') as Hs. rewrite layout_split in Hs.
    pose proof (flen_nonneg (layout (flen (layout 0 (b0 :: bs)) + flen (pack b) + 8) [])).
    rewrite !flen_app, flen_le64 in *. lia. }
  assert (get_last_uint64 (layout 0 [b0] ++ junk) = Ok (last_pos [b0])) as Hl.
  { rewrite <- Ej, Ef. by apply get_last_word. }
  pose proof (open_rebuilds [b0] junk l b0 Hst0 eq_refl ltac:(congruence) Hs Hl) as Ho.
  rewrite Ho; clear Ho.
  2:{ right. rewrite Ei. destruct (decide (bs = [])) as [->|Hn]; [by left|right].
      exists (last_pos (b0 :: bs)). split; [|by apply last_pos_later].
      destruct (layout_last (b0 :: bs)) as (? & _ & _ & ->); [done|]. apply get_last_word.
      pose proof (last_pos_lt (b0 :: bs) ltac:(done)). pose proof (st_size _ _ Hst). split; [apply flen_nonneg|lia]. }
  eexists. split; [done|]. assert (block_num b0 = 1) as E1 by exact (st_order _ _ Hst0 0%nat b0 eq_refl).
  split_and!; [done|..].
  - intros n Hn. unfold read_block_by_num, get_block_pos. cbn [log_head log_head_id].
    rewrite num_from_block_id, E1. by destruct (Z.leb_spec n 1); [lia|].
  - intros c Hc Hc2. unfold append. cbn [index_file]. rewrite mapped_size by (by vm_compute).
    pose proof (block_num_range c). unfold u32, rassert. rewrite Z.mod_small by lia.
    rewrite flen_words. cbn [positions length].
    destruct (Z.eqb_spec (8 * Z.of_nat 1) (8 * (block_num c - 1))); [lia|]. by eexists.
Qed.

(** C20 (error).  A node that stops while it appends a block, after any of the
    writes, and opens the log again: if nothing was written, the log is the old
    one; if the block's position was written after it, the block is in the log,
    and the index is repaired.  In between, when the file has been made longer
    by zeros, the zeros are taken for the position of the last block: the log
    has its first block left, finds none of the others, and refuses the blocks
    that come next. *)
Theorem interrupted_append b0 bs b l k :
  (∀ n, grown n = replicate n 0) →
  storable 1 ((b0 :: bs) ++ [b]) → log_holds (b0 :: bs) l → (k ≤ 6)%nat →
  ∃ l', open (close (run_writes (take k (append_steps b l)) l)) = Ok l' ∧
    match k with
    | 0%nat => log_holds (b0 :: bs) l'
    | 1%nat | 2%nat => only_first b0 l'
    | _ => log_holds ((b0 :: bs) ++ [b]) l'
    end.
Proof.
  intros Hz Hst' Hh Hk. pose proof (storable_app _ _ _ Hst') as Hst.
  destruct (decide (k = 0%nat)) as [->|H0].
  { apply reopen_holds; [done|done|exact (holds_data _ _ Hh ltac:(done))|].
    right; left. exact (holds_index _ _ Hh ltac:(done)). }
  destruct (append_writes (b0 :: bs) b l k Hst Hh ltac:(lia)) as (nd & ni & _ & Li & Hg & Hd & Hi3 & Hi4 & _).
  destruct (Hg ltac:(done)) as [Gd Gi]. rewrite Hz in Gd, Gi.
  pose proof (holds_index _ _ Hh ltac:(done)) as Hidx.
  assert (last_pos ((b0 :: bs) ++ [b]) = flen (layout 0 (b0 :: bs))) as Elp by apply last_pos_snoc.
  pose proof (flen_cons_pos _ _ Hst) as Hpos.
  assert (0 < flen (layout 0 (b0 :: bs))) as Hpos' by (pose proof (layout_prefix [b0] bs) as Hle; cbn [app] in Hle; lia).
  assert (k = 1 ∨ k = 2 ∨ 3 ≤ k)%nat as [->|[->|Hk3]] by lia.
  1: apply (torn_reopens b0 bs b 1 nd ni); [done|auto|done|exact Hd|by rewrite <- Hidx; apply Hi3; lia].
  1: apply (torn_reopens b0 bs b 2 nd ni); [done|auto|done|exact Hd|by rewrite <- Hidx; apply Hi3; lia].
  assert (∃ l', open (close (run_writes (take k (append_steps b l)) l)) = Ok l' ∧ log_holds ((b0 :: bs) ++ [b]) l')
    as (l' & ? & ?); [|exists l'; split; [done|]; by do 3 (destruct k; [lia|])].
  assert (words (positions 0 ((b0 :: bs) ++ [b])) = words (positions 0 (b0 :: bs)) ++ le64 (flen (layout 0 (b0 :: bs))))
    as Ew by (rewrite words_split; cbn [positions]; by rewrite app_nil_r).
  apply reopen_holds; [done|done| |].
  - cbn [close block_file]. rewrite Hd, layout_split. cbn [layout]. rewrite app_nil_r.
    by do 3 (destruct k; [lia|]).
  - cbn [close index_file]. right. assert (k = 3 ∨ k = 4 ∨ k = 5 ∨ k = 6)%nat as Hc by lia.
    destruct Hc as [->|[->|Hc]]; [right..|left].
    + rewrite Hi3, Hidx by lia. exists (last_pos (b0 :: bs)). rewrite Elp.
      destruct (layout_last (b0 :: bs)) as (? & _ & _ & ->); [done|].
      pose proof (last_pos_lt (b0 :: bs) ltac:(done)). pose proof (st_size _ _ Hst).
      split; [apply get_last_word; split; [apply flen_nonneg|lia]|lia].
    + rewrite Hi4 by lia. cbn [file_after snd]. rewrite Gi. exists 0. rewrite Elp.
      assert (replicate 8 0 = le64 0) as -> by done.
      split; [by apply get_last_word|lia].
    + rewrite Hi4 by lia. rewrite Ew. by destruct Hc as [-> | ->].
Qed.
End spec.

(** ** Three blocks *)

#[local] Existing Instance test_env.

Definition stored_1 : signed_block := example_block 0 5.
Definition stored_2 : signed_block := example_block (block_id stored_1) 9.
Definition stored_3 : signed_block := example_block (block_id stored_2) 11.

(** A block takes two bytes, of which the second tells which it is. *)
Definition byte_files : LogFiles := {|
  pack b := [7; validator_signature b];
  unpack f :=
    match f with
    | _ :: x :: _ =>
        if x =? 5 then Ok (stored_1, 2) else if x =? 9 then Ok (stored_2, 2)
        else if x =? 11 then Ok (stored_3, 2) else Err (E_parse "block")
    | _ => Err (E_parse "block")
    end;
  grown n := replicate n 0;
  grown_length n := length_replicate n 0
|}.
#[local] Existing Instance byte_files.

Definition three_blocks : list signed_block := [stored_1; stored_2; stored_3].
Definition two_logged : log_state :=
  mk_log (layout 0 [stored_1; stored_2]) (words (positions 0 [stored_1; stored_2]))
    (Some stored_2) (block_id stored_2).

Lemma three_storable : storable 1 three_blocks.
Proof.
  split.
  - repeat constructor; vm_compute; congruence.
  - intros [|[|[|i]]] b H; [injection H as <-; vm_compute; reflexivity..|done].
  - vm_compute. reflexivity.
Qed.
Lemma two_hold : log_holds [stored_1; stored_2] two_logged.
Proof. by split. Qed.

Lemma block_log_refines_witness :
  BlockLog.read_block_by_num 2 two_logged = Ok (Some stored_2) ∧
  ∃ l', append stored_3 two_logged = Ok (20, l') ∧ log_holds three_blocks l'.
Proof.
  set (s := test_db <| block_log := [stored_1; stored_2] |>).
  assert (storable 1 (block_log s)) as Hst by exact (storable_app 1 [stored_1; stored_2] [stored_3] three_storable).
  destruct (block_log_refines s two_logged Hst two_hold) as (_ & Hr & Ha & _). split.
  - rewrite (Hr 2 ltac:(done)). vm_compute. reflexivity.
  - specialize (Ha stored_3 ltac:(vm_compute; reflexivity)). cbn in Ha.
    destruct Ha as (pos & l' & Hp & Hh & _). exists l'. split; [|exact Hh].
    enough (pos = 20) as -> by exact Hp. unfold append in Hp. vm_compute in Hp. congruence.
Defined.

Lemma grown_bytes n : grown n = replicate n 0.
Proof. reflexivity. Qed.

(** The node stops when the bytes of the third block are there, but not its position. *)
Lemma interrupted_append_witness :
  ∃ l', open (close (run_writes (take 2 (append_steps stored_3 two_logged)) two_logged)) = Ok l' ∧
    log_head l' = Some stored_1 ∧ BlockLog.read_block_by_num 2 l' = Ok None.
Proof.
  destruct (interrupted_append stored_1 [stored_2] stored_3 two_logged 2 grown_bytes three_storable two_hold
    ltac:(lia)) as (l' & Ho & Hh & Hr & _).
  exists l'. split; [exact Ho|]. split; [exact Hh|]. exact (Hr 2 ltac:(lia)).
Defined.
