(* ===== verification/DltLog.v ===== *)
(** * The rolling block log (libraries/chain/dlt_block_log.cpp)

    The log of a node that starts from a snapshot: the same file of blocks, from
    any number on, and an index with that number before the positions.  Old
    blocks are dropped by writing the others to new files that take the place
    of the old ones.  The mapping of a file is the file, so that the sizes that
    the code tracks on its own are the sizes of the files. *)

From stdpp Require Import gmap strings list.
From Stdlib Require Import ZArith Lia.
From S2P Require Import Prelude Block Database BlockLog.

Definition INDEX_HEADER_SIZE : Z := 8.

(** The files.  An empty one of the first and last two stands for one that does
    not exist as well; what is left of a backup is restored. *)
Record dlt_disk := mk_disk {
  data_file : list Z;
  data_index : list Z;
  data_bak : option (list Z);
  index_bak : option (list Z);
  data_tmp : list Z;
  index_tmp : list Z
}.
Record dlt_log := mk_dlt {
  disk : dlt_disk;
  dlt_head : option signed_block;
  dlt_head_id : Z;
  _start_block_num : Z
}.

Section dlt_log.
Context {BH : BlockHash} {LF : LogFiles}.

Definition dlt_has_index_records (f : list Z) : bool := INDEX_HEADER_SIZE <? flen f.

Definition dlt_block_pos (block_num : Z) (l : dlt_log) : res (option Z) :=
  let index := data_index (disk l) in
  match dlt_head l with
  | Some _ =>
      if (_start_block_num l =? 0) || (block_num <? _start_block_num l) || (num_from_id (dlt_head_id l) <? block_num)
      then Ok None
      else
        let idx_offset := INDEX_HEADER_SIZE + 8 * (block_num - _start_block_num l) in
        if get_mapped_size index <? idx_offset + 8 then Ok None
        else let? pos := get_uint64 index idx_offset in Ok (Some pos)
  | None => Ok None
  end.

(** The index, and the number that it starts with. *)
Definition dlt_construct_index (data : list Z) (head : signed_block) : res (list Z * Z) :=
  let? end_pos := get_last_uint64 data in
  let? first_block := read_block data 0 in
  let first_num := block_num first_block.1 in
  let count := u32 (block_num head - first_num + 1) in
  let index := resize (INDEX_HEADER_SIZE + count * 8) (create_nonexist_file []) in
  let index := write_at 0 (le64 first_num) index in
  let? index := index_loop (S (length data)) data 0 end_pos INDEX_HEADER_SIZE index in
  Ok (index, first_num).

(** A file that is missing, or has at most a byte, comes back from its backup. *)
Definition restore (f : list Z) (bak : option (list Z)) : list Z :=
  match bak with Some b => if flen f <=? 1 then b else f | None => f end.

Definition dlt_open (d : dlt_disk) : res dlt_log :=
  let data := create_nonexist_file (restore (data_file d) (data_bak d)) in
  let index := create_nonexist_file (restore (data_index d) (index_bak d)) in
  let opened data index := mk_disk data index None None [] [] in
  if has_block_records data then
    let? head := read_head data in
    let? r :=
      (if dlt_has_index_records index then
         let? start := get_uint64 index 0 in
         let? block_pos := get_last_uint64 data in
         let? index_pos := get_last_uint64 index in
         if block_pos =? index_pos then Ok (index, u32 start) else dlt_construct_index data head
       else dlt_construct_index data head) in
    Ok (mk_dlt (opened data r.1) (Some head) (block_id head) r.2)
  else if dlt_has_index_records index
  then Ok (mk_dlt (opened (create_nonexist_file []) (create_nonexist_file [])) None 0 0)
  else Ok (mk_dlt (opened data index) None 0 0).

Definition set_files (data index : list Z) (d : dlt_disk) : dlt_disk :=
  mk_disk data index (data_bak d) (index_bak d) (data_tmp d) (index_tmp d).

(** The file with a block and its position after it. *)
Definition append_block (b : signed_block) (f : list Z) : list Z :=
  let data := pack b in
  let block_pos := get_mapped_size f in
  let f := resize (block_pos + flen data + 8) f in
  write_at (block_pos + flen data) (le64 block_pos) (write_at block_pos data f).

Definition dlt_append (b : signed_block) (l : dlt_log) : res (Z * dlt_log) :=
  let d := disk l in
  let block_pos := get_mapped_size (data_file d) in
  let idx_size := get_mapped_size (data_index d) in
  let stored index start :=
    (block_pos, mk_dlt (set_files (append_block b (data_file d)) index d) (Some b) (block_id b) start) in
  if _start_block_num l =? 0 then
    let index := resize (INDEX_HEADER_SIZE + 8) (data_index d) in
    let index := write_at 0 (le64 (block_num b)) index in
    Ok (stored (write_at INDEX_HEADER_SIZE (le64 block_pos) index) (block_num b))
  else
    do? rassert (idx_size =? INDEX_HEADER_SIZE + 8 * u32 (block_num b - _start_block_num l))
      (E_assert "append to index at wrong position") in
    let index := resize (idx_size + 8) (data_index d) in
    Ok (stored (write_at idx_size (le64 block_pos) index) (_start_block_num l)).

Definition dlt_read_by_num (n : Z) (l : dlt_log) : res (option signed_block) :=
  let? pos := dlt_block_pos n l in
  match pos with
  | None => Ok None
  | Some pos =>
      let? r := read_block (data_file (disk l)) pos in
      do? rassert (block_num r.1 =? n) (E_assert "wrong block read") in
      Ok (Some r.1)
  end.

Definition dlt_head_num (l : dlt_log) : Z :=
  match dlt_head l with Some _ => num_from_id (dlt_head_id l) | None => 0 end.
Definition num_blocks (l : dlt_log) : Z :=
  match dlt_head l with
  | Some _ => if _start_block_num l =? 0 then 0 else u32 (num_from_id (dlt_head_id l) - _start_block_num l + 1)
  | None => 0
  end.

(** The blocks that are kept go to a log of their own. *)
Definition copy_block (l : dlt_log) (n : Z) (temp : dlt_log) : res dlt_log :=
  let? pos := dlt_block_pos n l in
  match pos with
  | None => Ok temp
  | Some pos =>
      let? r := read_block (data_file (disk l)) pos in
      let? temp := dlt_append r.1 temp in Ok temp.2
  end.
Fixpoint copy_blocks (l : dlt_log) (ns : list Z) (temp : dlt_log) : res dlt_log :=
  match ns with
  | [] => Ok temp
  | n :: ns => let? temp := copy_block l n temp in copy_blocks l ns temp
  end.

Definition empty_dlt : dlt_log :=
  mk_dlt (mk_disk (create_nonexist_file []) (create_nonexist_file []) None None [] []) None 0 0.

(** The files of the new log take the place of the old ones. *)
Definition swap_steps : list (dlt_disk → dlt_disk) := [
  (λ d, mk_disk (data_file d) (data_index d) None (index_bak d) (data_tmp d) (index_tmp d));
  (λ d, mk_disk (data_file d) (data_index d) (data_bak d) None (data_tmp d) (index_tmp d));
  (λ d, mk_disk [] (data_index d) (Some (data_file d)) (index_bak d) (data_tmp d) (index_tmp d));
  (λ d, mk_disk (data_file d) [] (data_bak d) (Some (data_index d)) (data_tmp d) (index_tmp d));
  (λ d, mk_disk (data_tmp d) (data_index d) (data_bak d) (index_bak d) [] (index_tmp d));
  (λ d, mk_disk (data_file d) (index_tmp d) (data_bak d) (index_bak d) (data_tmp d) []);
  (λ d, mk_disk (data_file d) (data_index d) None (index_bak d) (data_tmp d) (index_tmp d));
  (λ d, mk_disk (data_file d) (data_index d) (data_bak d) None (data_tmp d) (index_tmp d))].
Definition swap_files (steps : list (dlt_disk → dlt_disk)) (d : dlt_disk) : dlt_disk :=
  foldl (λ d f, f d) d steps.

(** The temporary files of [truncate_before]. *)
Definition kept_files (new_start : Z) (l : dlt_log) : res dlt_disk :=
  let? temp := copy_blocks l (seqZ new_start (num_from_id (dlt_head_id l) - new_start + 1)) empty_dlt in
  let d := disk l in
  Ok (mk_disk (data_file d) (data_index d) (data_bak d) (index_bak d)
        (data_file (disk temp)) (data_index (disk temp))).

Definition truncate_before (new_start : Z) (l : dlt_log) : res dlt_log :=
  match dlt_head l with
  | None => Ok l
  | Some _ =>
      if (_start_block_num l =? 0) || (new_start <=? _start_block_num l) ||
         (num_from_id (dlt_head_id l) <? new_start)
      then Ok l
      else let? d := kept_files new_start l in dlt_open (swap_files swap_steps d)
  end.

Definition dlt_reset (l : dlt_log) : res dlt_log := dlt_open (mk_disk [] [] None None [] []).

(** The blocks that cannot be read. *)
Definition readable (n : Z) (l : dlt_log) : bool :=
  match (let? pos := dlt_block_pos n l in
         match pos with
         | None => Ok None
         | Some pos => let? r := read_block (data_file (disk l)) pos in Ok (Some r.1)
         end) with
  | Ok (Some b) => block_num b =? n
  | _ => false
  end.
Definition verify_continuity (l : dlt_log) : list Z :=
  match dlt_head l with
  | None => []
  | Some _ =>
      if _start_block_num l =? 0 then []
      else filter (λ n, readable n l = false)
             (seqZ (_start_block_num l) (num_from_id (dlt_head_id l) - _start_block_num l + 1))
  end.

Definition is_consistent_with (db_head_block_num : Z) (l : dlt_log) : bool :=
  let dlt_blocks := num_blocks l in
  let dlt_head_block := dlt_head_num l in
  if (db_head_block_num =? 0) || (dlt_blocks =? 0) then true
  else if (dlt_blocks =? 1) && (1 <? db_head_block_num) then false
  else if db_head_block_num <? dlt_head_block then false
  else negb ((u32 (dlt_head_block + 1000) <? db_head_block_num) && (dlt_blocks <? 10)).

(** What the files hold: the blocks [bs] from number [first] on. *)
Record dlt_holds (first : Z) (bs : list signed_block) (l : dlt_log) : Prop := {
  dh_data : data_file (disk l) = layout 0 bs;
  dh_index : data_index (disk l) = le64 first ++ words (positions 0 bs);
  dh_head : dlt_head l = last bs;
  dh_head_id : dlt_head_id l = match last bs with Some b => block_id b | None => 0 end;
  dh_start : _start_block_num l = first
}.
End dlt_log.
