(* ===== verification/DltLogProofs.v ===== *)
(** * The rolling log keeps its blocks

    The files of the rolling log hold a run of blocks; truncating it leaves the
    blocks from the given number on, and a node that stops in the middle finds
    the old blocks or the new ones. *)

From stdpp Require Import gmap strings list.
From Stdlib Require Import ZArith Lia.
From S2P Require Import Prelude Block ForkDb Objects Database Scenario BlockLog BlockLogProofs BlockLogSpec DltLog.

#[local] Opaque le64.

Section dlt_log.
Context {BH : BlockHash} {LF : LogFiles}.

Lemma first_range first bs b : storable first bs → last bs = Some b → 0 < first →
  block_num b = first + Z.of_nat (length bs) - 1 ∧ 0 < Z.of_nat (length bs) < 2 ^ 32 ∧ first < 2 ^ 32.
Proof.
  intros Hst Hl Hf. pose proof (last_number _ _ _ (st_order _ _ Hst) Hl) as E. pose proof (block_num_range b).
  destruct bs; [done|]. cbn [length] in *. lia.
Qed.

Lemma restored_same f : restore f None = f.
Proof. done. Qed.
Lemma created_same f : 0 < flen f → create_nonexist_file f = f.
Proof. by destruct f. Qed.

(** A block takes nine bytes or more. *)
Lemma layout_length pos bs : Forall packs bs → 9 * Z.of_nat (length bs) ≤ flen (layout pos bs).
Proof.
  intros Hp. revert pos. induction Hp as [|b bs [[Hb _] _] Hp IH]; intros pos; [done|].
  cbn [layout length]. rewrite !flen_app, flen_le64. specialize (IH (pos + flen (pack b) + 8)). lia.
Qed.

(** The bytes of a log that is not empty. *)
Lemma layout_size first bs : storable first bs → bs ≠ [] → 8 < flen (layout 0 bs).
Proof.
  intros Hst Hn. pose proof (layout_length 0 bs (st_packs _ _ Hst)). destruct bs; [done|]. cbn [length] in *. lia.
Qed.

Lemma dlt_construct_spec first bs h :
  storable first bs → 0 < first → last bs = Some h →
  dlt_construct_index (layout 0 bs) h = Ok (le64 first ++ words (positions 0 bs), first).
Proof.
  intros Hst Hf Hl. assert (bs ≠ []) as Hn by by destruct bs.
  destruct (first_range _ _ _ Hst Hl Hf) as (Eh & Hlen & _). pose proof (st_size _ _ Hst) as Hs.
  pose proof (index_fits 0 bs (st_packs _ _ Hst)) as Hfit. rewrite flen_words, length_positions in Hfit.
  unfold dlt_construct_index. rewrite (last_of_log first bs Hst Hn). cbn [rbind].
  assert (∃ b0 p, bs !! 0%nat = Some b0 ∧ read_block (layout 0 bs) 0 = Ok (b0, p)) as (b0 & p & Hb0 & Hr).
  { destruct bs as [|b0 bs]; [done|]. exists b0. eexists. split; [done|].
    apply (read_block_app [] b0 (layout (0 + flen (pack b0) + 8) bs)); [|done].
    by apply (storable_packs first (b0 :: bs) 0). }
  rewrite Hr. cbn [rbind fst]. rewrite (st_order _ _ Hst _ _ Hb0), Eh.
  replace (first + Z.of_nat (length bs) - 1 - (first + Z.of_nat 0) + 1) with (Z.of_nat (length bs)) by lia.
  unfold u32, INDEX_HEADER_SIZE. rewrite Z.mod_small by lia.
  destruct (resize_exact (create_nonexist_file []) (8 + Z.of_nat (length bs) * 8)) as (new & -> & En & _).
  { unfold flen. cbn [create_nonexist_file length]. lia. }
  set (index := create_nonexist_file [] ++ new).
  assert (flen index = 8 + 8 * Z.of_nat (length bs)) as Ei by (unfold index; rewrite flen_app; lia).
  replace (first + Z.of_nat 0) with first by lia.
  assert (write_at 0 (le64 first) index = le64 first ++ drop 8 index) as ->.
  { rewrite <- (take_drop 8 index) at 1. apply (write_at_app [] (le64 first)). rewrite length_take, length_le64.
    unfold flen in Ei. lia. }
  pose proof (index_loop_spec (le64 first) [] bs [] (drop 8 index) (S (length (layout 0 bs)))) as Hloop.
  rewrite app_nil_r in Hloop. cbn [app layout positions] in Hloop. change (words []) with (@nil Z) in Hloop.
  cbn [app] in Hloop. change (flen []) with 0 in Hloop. rewrite flen_le64 in Hloop.
  change (8 + 8 * Z.of_nat (length [])) with 8 in Hloop.
  rewrite Hloop; [done|exact (st_packs _ _ Hst)|lia|done| |].
  - unfold flen in *. rewrite length_drop. lia.
  - unfold flen in Hfit. lia.
Qed.

(** ** Opening *)

(** The index was lost, is another's, or is right. *)
Definition dlt_index_recoverable (first : Z) (bs : list signed_block) (index : list Z) : Prop :=
  flen index ≤ 8 ∨ index = le64 first ++ words (positions 0 bs) ∨
  8 < flen index < 2 ^ 64 - 8 ∧ ∃ x, get_last_uint64 index = Ok x ∧ x ≠ last_pos bs.

Lemma index_last first bs : storable first bs → bs ≠ [] →
  get_last_uint64 (le64 first ++ words (positions 0 bs)) = Ok (last_pos bs).
Proof.
  intros Hst Hn. destruct (layout_last bs Hn) as (b & _ & _ & ->). rewrite app_assoc. apply get_last_word.
  pose proof (last_pos_lt bs Hn). pose proof (st_size _ _ Hst). split; [apply flen_nonneg|lia].
Qed.

Lemma header_read f : 8 ≤ flen f < 2 ^ 64 - 8 → ∃ x, get_uint64 f 0 = Ok x.
Proof.
  intros Hf. unfold get_uint64. rewrite mapped_size by lia. unfold u64, rassert. rewrite Z.mod_small by lia.
  destruct (Z.leb_spec (0 + 8) (flen f)); [|lia]. by eexists.
Qed.

Lemma dlt_open_spec first bs d :
  storable first bs → 0 < first → bs ≠ [] →
  restore (data_file d) (data_bak d) = layout 0 bs →
  dlt_index_recoverable first bs (restore (data_index d) (index_bak d)) →
  ∃ l, dlt_open d = Ok l ∧ dlt_holds first bs l.
Proof.
  intros Hst Hf Hn Ed Hi. destruct (layout_last bs Hn) as (h & Hl & _ & _).
  pose proof (layout_size _ _ Hst Hn) as H8. pose proof (last_of_log _ _ Hst Hn) as Hlast.
  pose proof (read_head_spec bs [] h (st_packs _ _ Hst) Hl) as Hh. rewrite app_nil_r in Hh.
  specialize (Hh ltac:(pose proof (st_size _ _ Hst); lia) Hlast).
  pose proof (dlt_construct_spec _ _ _ Hst Hf Hl) as Hc.
  destruct (first_range _ _ _ Hst Hl Hf) as (_ & Hlen & Hfst).
  unfold dlt_open. rewrite Ed. revert Hi. generalize (restore (data_index d) (index_bak d)) as index. intros index Hi.
  rewrite (created_same (layout 0 bs)) by lia. unfold has_block_records, min_valid_file_size.
  destruct (Z.ltb_spec 8 (flen (layout 0 bs))); [|lia]. rewrite Hh. cbn [rbind].
  match goal with |- context [let? r := ?m in _] =>
    assert (m = Ok (le64 first ++ words (positions 0 bs), first)) as -> end.
  2:{ eexists. split; [done|]. split; cbn; rewrite ?Hl; done. }
  unfold dlt_has_index_records, INDEX_HEADER_SIZE.
  assert (flen (create_nonexist_file index) ≤ 8 ↔ flen index ≤ 8) as Hcr
    by (destruct index; unfold flen; cbn [create_nonexist_file length]; lia).
  destruct (Z.ltb_spec 8 (flen (create_nonexist_file index))) as [Hx|]; [|done].
  rewrite created_same in Hx |- * by lia. rewrite Hlast. destruct Hi as [|[E|[Hs (x & Hx' & Hne)]]]; [lia|..].
  - rewrite E. pose proof (get_word [] first (words (positions 0 bs))) as Hw. cbn [app] in Hw.
    change (flen []) with 0 in Hw. pose proof (layout_length 0 bs (st_packs _ _ Hst)). pose proof (st_size _ _ Hst).
    assert (flen (le64 first ++ words (positions 0 bs)) < 2 ^ 64 - 8) as Hsz.
    { rewrite flen_app, flen_le64, flen_words, length_positions. lia. }
    rewrite Hw by (lia || done). rewrite (index_last _ _ Hst Hn). cbn [rbind]. rewrite Z.eqb_refl.
    unfold u32. by rewrite Z.mod_small by lia.
  - destruct (header_read index ltac:(lia)) as [y ->]. rewrite Hx'. cbn [rbind].
    destruct (Z.eqb_spec (last_pos bs) x); [congruence|done].
Qed.

(** ** Reading and appending *)

Lemma dlt_block_at first bs l i b :
  storable first bs → 0 < first → dlt_holds first bs l → bs !! i = Some b →
  dlt_block_pos (first + Z.of_nat i) l = Ok (Some (flen (layout 0 (take i bs)))) ∧
  ∃ p, read_block (data_file (disk l)) (flen (layout 0 (take i bs))) = Ok (b, p).
Proof.
  intros Hst Hf Hh Hi. pose proof (lookup_lt_Some _ _ _ Hi) as Hlt. pose proof (storable_packs _ _ _ _ Hst Hi) as Hb.
  pose proof (st_size _ _ Hst) as Hs. pose proof (layout_length 0 bs (st_packs _ _ Hst)) as Hfit.
  assert (bs = take i bs ++ b :: drop (S i) bs) as E by by rewrite take_drop_middle.
  assert (∃ h, last bs = Some h) as [h Hl] by by apply last_is_Some; destruct bs.
  destruct (first_range _ _ _ Hst Hl Hf) as (Eh & Hlen & _). split.
  - unfold dlt_block_pos. rewrite (dh_head _ _ _ Hh), (dh_head_id _ _ _ Hh), (dh_start _ _ _ Hh), Hl, num_from_block_id, Eh.
    rewrite (dh_index _ _ _ Hh). destruct (Z.eqb_spec first 0); [lia|].
    destruct (Z.ltb_spec (first + Z.of_nat i) first); [lia|].
    destruct (Z.ltb_spec (first + Z.of_nat (length bs) - 1) (first + Z.of_nat i)); [lia|]. cbn [orb].
    unfold INDEX_HEADER_SIZE. replace (first + Z.of_nat i - first) with (Z.of_nat i) by lia.
    rewrite mapped_size by (rewrite flen_app, flen_le64, flen_words; lia).
    rewrite flen_app, flen_le64, flen_words, length_positions.
    destruct (Z.ltb_spec (8 + 8 * Z.of_nat (length bs)) (8 + 8 * Z.of_nat i + 8)); [lia|].
    rewrite E at 1. rewrite words_split, app_assoc.
    replace (8 + 8 * Z.of_nat i) with (flen (le64 first ++ words (positions 0 (take i bs)))).
    2:{ rewrite flen_app, flen_le64, flen_words, length_positions, length_take. lia. }
    rewrite get_word; [done|..].
    + split; [apply flen_nonneg|]. pose proof (layout_prefix (take i bs) (b :: drop (S i) bs)) as Hle.
      rewrite <- E in Hle. lia.
    + rewrite <- app_assoc, <- words_split, <- E, flen_app, flen_le64, flen_words, length_positions. lia.
  - rewrite (dh_data _ _ _ Hh). eexists. rewrite E at 1. rewrite layout_split. apply read_block_app; [done|].
    by rewrite <- layout_split, <- E.
Qed.

Lemma append_block_spec bs b f :
  (f = layout 0 bs ∧ 8 ≤ flen f) ∨ (layout 0 bs = [] ∧ flen f < 8) →
  append_block b f = layout 0 (bs ++ [b]) ∧ get_mapped_size f = flen (layout 0 bs).
Proof.
  intros Hf. assert (get_mapped_size f = flen (layout 0 bs)) as Em.
  { destruct Hf as [[<- ?]|[-> ?]]; [by apply mapped_size|by apply mapped_small]. }
  split; [|done]. unfold append_block. rewrite Em, <- Z.add_assoc.
  destruct (grow_file (layout 0 bs) f (flen (pack b) + 8) Hf) as (room & -> & Hr & _);
    [pose proof (flen_nonneg (pack b)); lia|].
  rewrite write_block, write_position, layout_split by done. cbn [layout]. by rewrite app_nil_r.
Qed.

Lemma dlt_append_first b :
  ∃ p l, dlt_append b empty_dlt = Ok (p, l) ∧ dlt_holds (block_num b) [b] l.
Proof.
  do 2 eexists. split; [reflexivity|]. split; [..|done|done|done]; cbn [disk set_files data_file data_index].
  - by apply (append_block_spec [] b [0]); right.
  - change (data_index (disk empty_dlt)) with (create_nonexist_file []).
    destruct (resize_exact (create_nonexist_file []) (INDEX_HEADER_SIZE + 8)) as (room & -> & Hr & _); [done|].
    set (index := create_nonexist_file [] ++ room).
    assert (flen index = 16) as Ei.
    { unfold index. rewrite flen_app. unfold flen, INDEX_HEADER_SIZE in *. cbn [create_nonexist_file length] in *. lia. }
    assert (write_at 0 (le64 (block_num b)) index = le64 (block_num b) ++ drop 8 index) as ->.
    { rewrite <- (take_drop 8 index) at 1. apply (write_at_app []). rewrite length_take, length_le64.
      unfold flen in Ei. lia. }
    change INDEX_HEADER_SIZE with (flen (le64 (block_num b))).
    rewrite <- (app_nil_r (drop 8 index)). rewrite write_at_app; [by rewrite app_nil_r|].
    rewrite length_drop, length_le64. unfold flen in Ei. lia.
Qed.

Lemma dlt_append_next first bs b l :
  storable first (bs ++ [b]) → 0 < first → bs ≠ [] → dlt_holds first bs l →
  ∃ p l', dlt_append b l = Ok (p, l') ∧ dlt_holds first (bs ++ [b]) l'.
Proof.
  intros Hst' Hf Hn Hh. pose proof (storable_app _ _ _ Hst') as Hst.
  pose proof (layout_size _ _ Hst Hn) as H8.
  assert (block_num b = first + Z.of_nat (length bs)) as Eb.
  { apply (st_order _ _ Hst' (length bs)). by rewrite lookup_app_r, Nat.sub_diag. }
  destruct (first_range _ _ b Hst' (last_snoc _ _) Hf) as (_ & Hlen & _). rewrite length_app in Hlen. cbn in Hlen.
  unfold dlt_append. rewrite (dh_start _ _ _ Hh), (dh_index _ _ _ Hh), (dh_data _ _ _ Hh), Eb.
  destruct (Z.eqb_spec first 0); [lia|].
  assert (flen (le64 first ++ words (positions 0 bs)) = 8 + 8 * Z.of_nat (length bs)) as Ei
    by by rewrite flen_app, flen_le64, flen_words, length_positions.
  rewrite (mapped_size (le64 first ++ _)) by lia. rewrite Ei. unfold INDEX_HEADER_SIZE, u32, rassert.
  replace (first + Z.of_nat (length bs) - first) with (Z.of_nat (length bs)) by lia.
  rewrite Z.mod_small, Z.eqb_refl by lia. cbn [rbind].
  destruct (append_block_spec bs b (layout 0 bs)) as [Ed Em]; [left; split; [done|lia]|].
  rewrite Ed, Em. do 2 eexists. split; [done|].
  split; cbn [disk set_files data_file data_index dlt_head dlt_head_id _start_block_num]; rewrite ?last_snoc; [done| |done..].
  rewrite <- Ei. destruct (resize_exact (le64 first ++ words (positions 0 bs)) (flen (le64 first ++ words (positions 0 bs)) + 8))
    as (room & -> & Hr & _); [lia|].
  rewrite <- (app_nil_r room), write_at_app, app_nil_r by (rewrite length_le64; unfold flen in *; lia).
  rewrite words_split. cbn [positions]. by rewrite app_nil_r, <- app_assoc.
Qed.

(** ** Truncating *)

Lemma flen_layout pos bs : flen (layout pos bs) = flen (layout 0 bs).
Proof.
  assert (∀ bs p q, flen (layout p bs) = flen (layout q bs)) as H; [|apply H].
  clear. induction bs as [|b bs IH]; intros p q; [done|]. cbn [layout]. rewrite !flen_app, !flen_le64.
  by rewrite (IH (p + flen (pack b) + 8) (q + flen (pack b) + 8)).
Qed.

Lemma storable_drop first bs i : storable first bs → storable (first + Z.of_nat i) (drop i bs).
Proof.
  intros [Hp Ho Hs]. split.
  - by apply Forall_drop.
  - intros j b Hj. rewrite lookup_drop in Hj. rewrite (Ho _ _ Hj). lia.
  - rewrite <- (take_drop i bs), layout_app, flen_app, (flen_layout (0 + _)) in Hs.
    pose proof (flen_nonneg (layout 0 (take i bs))). lia.
Qed.

(** The log of the blocks that have been copied. *)
Definition copied (n : Z) (bs : list signed_block) (temp : dlt_log) : Prop :=
  match bs with [] => temp = empty_dlt | _ => dlt_holds n bs temp end.

Lemma copy_one first bs l n kept b temp :
  storable first bs → 0 < first → dlt_holds first bs l → storable n (kept ++ [b]) → 0 < n →
  copied n kept temp → first ≤ n →
  bs !! Z.to_nat (n + Z.of_nat (length kept) - first) = Some b →
  ∃ temp', copy_block l (n + Z.of_nat (length kept)) temp = Ok temp' ∧ copied n (kept ++ [b]) temp'.
Proof.
  intros Hst Hf Hh Hk Hn Hc Hle Hb. destruct (dlt_block_at _ _ _ _ _ Hst Hf Hh Hb) as [Hp [p Hr]].
  replace (first + Z.of_nat (Z.to_nat (n + Z.of_nat (length kept) - first)))
    with (n + Z.of_nat (length kept)) in Hp by lia.
  unfold copy_block. rewrite Hp. cbn [rbind]. rewrite Hr. cbn [rbind fst].
  destruct kept as [|c kept].
  - cbn [copied] in Hc. subst temp. destruct (dlt_append_first b) as (q & l' & -> & Hl'). cbn [rbind snd].
    exists l'. split; [done|]. cbn [app copied]. pose proof (st_order _ _ Hk 0%nat b eq_refl) as E.
    replace n with (block_num b) by lia. done.
  - destruct (dlt_append_next n (c :: kept) b temp Hk Hn ltac:(done) Hc) as (q & l' & -> & Hl'). cbn [rbind snd].
    by exists l'.
Qed.

Lemma copy_spec first bs l n kept todo temp :
  storable first bs → 0 < first → dlt_holds first bs l → first ≤ n →
  drop (Z.to_nat (n - first)) bs = kept ++ todo → copied n kept temp →
  ∃ temp', copy_blocks l (seqZ (n + Z.of_nat (length kept)) (Z.of_nat (length todo))) temp = Ok temp' ∧
    copied n (kept ++ todo) temp'.
Proof.
  intros Hst Hf Hh Hn. revert kept temp. induction todo as [|b todo IH]; intros kept temp E Hc.
  { exists temp. rewrite app_nil_r. by split. }
  pose proof (storable_drop _ _ (Z.to_nat (n - first)) Hst) as Hk. rewrite E in Hk.
  replace (first + Z.of_nat (Z.to_nat (n - first))) with n in Hk by lia.
  replace (kept ++ b :: todo) with ((kept ++ [b]) ++ todo) in * by by rewrite <- app_assoc.
  destruct (copy_one first bs l n kept b temp) as (temp1 & H1 & Hc1); [done..| |lia|done|done| |].
  - by eapply storable_app.
  - replace (Z.to_nat (n + Z.of_nat (length kept) - first)) with (Z.to_nat (n - first) + length kept)%nat by lia.
    rewrite <- lookup_drop, E, <- app_assoc, lookup_app_r, Nat.sub_diag by done. done.
  - destruct (IH _ _ E Hc1) as (temp' & H2 & Hc'). exists temp'. split; [|done].
    cbn [length]. rewrite seqZ_cons by lia. cbn [copy_blocks]. rewrite H1. cbn [rbind].
    rewrite <- H2. f_equal. f_equal; [rewrite length_app; cbn [length]; lia|lia].
Qed.

Lemma restore_full f bak : 1 < flen f → restore f bak = f.
Proof. intros Hf. destruct bak; [|done]. cbn. by destruct (Z.leb_spec (flen f) 1); [lia|]. Qed.

Lemma right_index first bs : dlt_index_recoverable first bs (le64 first ++ words (positions 0 bs)).
Proof. by right; left. Qed.

(** The index of the longer log does not fit the shorter one. *)
Lemma stale_index first n pre rest :
  storable first (pre ++ rest) → pre ≠ [] → rest ≠ [] →
  dlt_index_recoverable n rest (le64 first ++ words (positions 0 (pre ++ rest))).
Proof.
  intros Hst Hp Hr. right; right. pose proof (layout_length 0 _ (st_packs _ _ Hst)) as Hlen.
  pose proof (st_size _ _ Hst). rewrite flen_app, flen_le64, flen_words, length_positions.
  assert (pre ++ rest ≠ []) as Hn by by destruct pre.
  split; [destruct pre; [done|]; cbn [length app] in *; lia|].
  exists (last_pos (pre ++ rest)). split; [by apply index_last|].
  destruct (exists_last Hr) as (r & c & ->). rewrite app_assoc, !last_pos_snoc, layout_app, flen_app.
  rewrite (flen_layout (0 + _)). pose proof (layout_length 0 pre) as Hl.
  destruct Hst as [[Hpk _]%Forall_app _ _]. specialize (Hl Hpk).
  destruct pre; [done|]. cbn [length] in Hl. lia.
Qed.

Lemma index_length first bs : flen (le64 first ++ words (positions 0 bs)) = 8 + 8 * Z.of_nat (length bs).
Proof. by rewrite flen_app, flen_le64, flen_words, length_positions. Qed.

(** After each step of the swap the old files or the new ones come back. *)
Lemma swap_recovers first n pre rest bak bak' k :
  storable first (pre ++ rest) → 0 < first → pre ≠ [] → rest ≠ [] → storable n rest → 0 < n → (k ≤ 8)%nat →
  ∃ l, dlt_open (swap_files (take k swap_steps) (mk_disk (layout 0 (pre ++ rest))
      (le64 first ++ words (positions 0 (pre ++ rest))) bak bak' (layout 0 rest)
      (le64 n ++ words (positions 0 rest)))) = Ok l ∧
    if decide (k ≤ 4)%nat then dlt_holds first (pre ++ rest) l else dlt_holds n rest l.
Proof.
  intros Hst Hf Hp Hr Hsr Hn Hk. assert (pre ++ rest ≠ []) as Hne by by destruct pre.
  pose proof (layout_size _ _ Hst Hne) as S1. pose proof (layout_size _ _ Hsr Hr) as S2.
  pose proof (index_length first (pre ++ rest)) as S3. pose proof (index_length n rest) as S4.
  pose proof (λ d, dlt_open_spec first (pre ++ rest) d Hst Hf Hne) as Hold.
  pose proof (λ d, dlt_open_spec n rest d Hsr Hn Hr) as Hnew.
  pose proof (stale_index _ n _ _ Hst Hp Hr) as Hstale.
  pose proof (right_index first (pre ++ rest)) as R1. pose proof (right_index n rest) as R2.
  assert (k = 5 ∨ (k ≤ 4 ∨ 6 ≤ k))%nat as [->|[Hlo|Hhi]] by lia.
  - apply Hnew; cbn [swap_files foldl take swap_steps data_file data_index data_bak index_bak data_tmp index_tmp]; [|exact Hstale].
    apply restore_full. lia.
  - assert (k = 0 ∨ k = 1 ∨ k = 2 ∨ k = 3 ∨ k = 4)%nat as Hc by lia.
    destruct Hc as [->|[->|[->|[->| ->]]]];
      apply Hold; cbn [swap_files foldl take swap_steps data_file data_index data_bak index_bak data_tmp index_tmp];
      rewrite ?restore_full by lia; done.
  - assert (k = 6 ∨ k = 7 ∨ k = 8)%nat as [->|[->| ->]] by lia;
      apply Hnew; cbn [swap_files foldl take swap_steps data_file data_index data_bak index_bak data_tmp index_tmp];
      rewrite ?restore_full by lia; done.
Qed.

(** C21 (safety).  Truncating the rolling log keeps exactly the blocks from the
    given number on; and a node that stops on the way, while the new files are
    written or after any of the steps that put them in place of the old ones,
    opens a log that holds the old blocks, or the new ones from the step on that
    moves the new blocks into place. *)
Theorem truncation_crash_safe first bs l n :
  storable first bs → 0 < first → dlt_holds first bs l → first < n < first + Z.of_nat (length bs) →
  let rest := drop (Z.to_nat (n - first)) bs in
  (∃ l', truncate_before n l = Ok l' ∧ dlt_holds n rest l') ∧
  (∀ tmp tmp', ∃ l',
     dlt_open (mk_disk (data_file (disk l)) (data_index (disk l)) (data_bak (disk l)) (index_bak (disk l)) tmp tmp') = Ok l' ∧
     dlt_holds first bs l') ∧
  ∃ d, kept_files n l = Ok d ∧
    ∀ k, (k ≤ 8)%nat → ∃ l', dlt_open (swap_files (take k swap_steps) d) = Ok l' ∧
      if decide (k ≤ 4)%nat then dlt_holds first bs l' else dlt_holds n rest l'.
Proof.
  intros Hst Hf Hh Hn rest.
  assert (bs ≠ []) as Hne by (intros ->; cbn in Hn; lia).
  assert (rest ≠ []) as Hnr.
  { intros E. apply (f_equal length) in E. unfold rest in E. rewrite length_drop in E. cbn in E. lia. }
  assert (storable n rest) as Hsr.
  { pose proof (storable_drop _ _ (Z.to_nat (n - first)) Hst) as H.
    by replace (first + Z.of_nat (Z.to_nat (n - first))) with n in H by lia. }
  assert (∃ h, last bs = Some h) as [h Hl] by by apply last_is_Some.
  destruct (first_range _ _ _ Hst Hl Hf) as (Eh & _ & _).
  destruct (copy_spec first bs l n [] rest empty_dlt Hst Hf Hh ltac:(lia) eq_refl eq_refl) as (temp & Ht & Hc).
  assert (dlt_holds n rest temp) as Htemp by by destruct rest.
  assert (kept_files n l = Ok (mk_disk (layout 0 bs) (le64 first ++ words (positions 0 bs)) (data_bak (disk l))
    (index_bak (disk l)) (layout 0 rest) (le64 n ++ words (positions 0 rest)))) as Hk.
  { unfold kept_files. rewrite (dh_head_id _ _ _ Hh), Hl, num_from_block_id, Eh.
    replace (first + Z.of_nat (length bs) - 1 - n + 1) with (Z.of_nat (length rest))
      by (unfold rest; rewrite length_drop; lia).
    rewrite Z.add_0_r in Ht. rewrite Ht. cbn [rbind].
    by rewrite (dh_data _ _ _ Hh), (dh_index _ _ _ Hh), (dh_data _ _ _ Htemp), (dh_index _ _ _ Htemp). }
  assert (bs = take (Z.to_nat (n - first)) bs ++ rest) as Eb by (unfold rest; by rewrite take_drop).
  assert (take (Z.to_nat (n - first)) bs ≠ []) as Hnp.
  { intros E. apply (f_equal length) in E. rewrite length_take in E. cbn in E. lia. }
  pose proof (λ bak bak' k, swap_recovers first n _ rest bak bak' k ltac:(rewrite <- Eb; exact Hst) Hf Hnp Hnr Hsr ltac:(lia))
    as Hsteps.
  rewrite <- Eb in Hsteps.
  split_and!.
  - destruct (Hsteps (data_bak (disk l)) (index_bak (disk l)) 8%nat ltac:(lia)) as (l' & Ho & Hl'). exists l'. split; [|done].
    unfold truncate_before. rewrite (dh_head _ _ _ Hh), (dh_start _ _ _ Hh), (dh_head_id _ _ _ Hh), Hl, num_from_block_id, Eh.
    destruct (Z.eqb_spec first 0); [lia|]. destruct (Z.leb_spec n first); [lia|].
    destruct (Z.ltb_spec (first + Z.of_nat (length bs) - 1) n); [lia|]. cbn [orb]. rewrite Hk. cbn [rbind].
    exact Ho.
  - intros tmp tmp'. pose proof (layout_size _ _ Hst Hne). pose proof (index_length first bs).
    apply dlt_open_spec; [done..| |]; cbn [data_file data_index data_bak index_bak].
    + rewrite (dh_data _ _ _ Hh). apply restore_full. lia.
    + rewrite (dh_index _ _ _ Hh), restore_full by lia. apply right_index.
  - eexists. split; [exact Hk|]. apply Hsteps.
Qed.
End dlt_log.

#[local] Existing Instance test_env.
#[local] Existing Instance byte_files.

(** The log of three blocks, of which the first is dropped. *)
Definition three_dlt : dlt_log :=
  mk_dlt (mk_disk (layout 0 three_blocks) (le64 1 ++ words (positions 0 three_blocks)) None None [] [])
    (Some stored_3) (block_id stored_3) 1.

Lemma truncation_crash_safe_witness :
  (∃ l', truncate_before 2 three_dlt = Ok l' ∧ dlt_holds 2 [stored_2; stored_3] l') ∧
  ∃ d l', kept_files 2 three_dlt = Ok d ∧
    dlt_open (swap_files (take 5 swap_steps) d) = Ok l' ∧ dlt_holds 2 [stored_2; stored_3] l'.
Proof.
  assert (dlt_holds 1 three_blocks three_dlt) as Hh by by split.
  destruct (truncation_crash_safe 1 three_blocks three_dlt 2 three_storable ltac:(lia) Hh
    ltac:(vm_compute; split; reflexivity)) as (Ht & _ & d & Hd & Hk).
  split; [exact Ht|]. destruct (Hk 5%nat ltac:(lia)) as (l' & Ho & Hl'). exists d, l'. split_and!; [exact Hd|exact Ho|].
  destruct (decide (5 ≤ 4)%nat); [lia|exact Hl'].
Defined.
