(* ===== verification/Schedule.v ===== *)
(** * The schedule of validators (libraries/chain/database.cpp, lines 3015-3457,
      6814-6829)

    Once in [CHAIN_MAX_VALIDATORS] blocks [update_validator_schedule] chooses
    the validators of the next round: those with most votes, and others in turn
    by virtual time.  It counts the votes for the next hardfork, fills the
    places that nobody can serve with the committee during an emergency, ends
    the emergency when enough validators are back, and takes the medians of the
    chain properties that the validators propose. *)

From stdpp Require Import gmap strings list sorting.
From Stdlib Require Import ZArith Lia.
From S2P Require Import Prelude Fc Text Asset Authority Block ForkDb Objects Database Supply Frame.
From S2P Require Import Scenario EvalTransfer Slots BlockData BlockDataProofs Irreversible.

Definition CHAIN_BLOCK_VALIDATOR_REPEAT : Z := 1.
Definition CHAIN_HARDFORK_REQUIRED_VALIDATORS : Z := 17.

(** ** The indexes of validators *)

(** [by_counted_vote_name]: more votes first, then the smaller name. *)
Definition by_counted_vote (p q : string * validator_object) : Prop :=
  counted_votes q.2 < counted_votes p.2 ∨
  (counted_votes q.2 = counted_votes p.2 ∧ String.leb p.1 q.1 = true).
#[export] Instance by_counted_vote_dec : RelDecision by_counted_vote.
Proof. unfold by_counted_vote. intros p q. apply _. Defined.

(** [by_schedule_time]: smaller virtual time first, then the smaller id. *)
Definition by_schedule_time (p q : string * validator_object) : Prop :=
  virtual_scheduled_time p.2 < virtual_scheduled_time q.2 ∨
  (virtual_scheduled_time p.2 = virtual_scheduled_time q.2 ∧ val_id p.2 ≤ val_id q.2).
#[export] Instance by_schedule_time_dec : RelDecision by_schedule_time.
Proof. unfold by_schedule_time. intros p q. apply _. Defined.

Definition validators_by_votes (s : database) : list (string * validator_object) :=
  merge_sort by_counted_vote (map_to_list (validators s)).
Definition validators_by_time (s : database) : list (string * validator_object) :=
  merge_sort by_schedule_time (map_to_list (validators s)).

Section schedule.
Context {CE : ChainEnv}.

(** ** Penalties that have run out *)

Definition by_expires : relation validator_penalty_expire_object := λ p q, wpe_expires p ≤ wpe_expires q.
#[export] Instance by_expires_dec : RelDecision by_expires := λ p q, decide (wpe_expires p ≤ wpe_expires q).

Definition lift_penalty (e : validator_penalty_expire_object) : DB unit :=
  let* w := get_validator (wpe_validator e) in
  modify_validator (wpe_validator e) (λ w,
    let w := w <| penalty_percent := u32 (penalty_percent w - wpe_penalty_percent e) |> in
    let? c := recount_votes true w in
    Ok (w <| counted_votes := c |>)).

Definition remove_expired_penalties : DB unit :=
  let* now := head_block_time in
  let* l := sgets penalty_expirations in
  do* sfor (filter (λ e, wpe_expires e ≤ now) (merge_sort by_expires l)) lift_penalty in
  supd (λ s, s <| penalty_expirations ::= filter (λ e, now < wpe_expires e) |>).

(** ** The choice *)

(** A validator that can be chosen: it has a key, and is not the committee's. *)
Definition eligible (hf12 : bool) (p : string * validator_object) : Prop :=
  signing_key p.2 ≠ 0 ∧ ¬ (hf12 = true ∧ owner p.2 = CHAIN_EMERGENCY_VALIDATOR_ACCOUNT).
#[export] Instance eligible_dec hf12 p : Decision (eligible hf12 p).
Proof. unfold eligible. apply _. Defined.

(** The highest voted validators. *)
Definition top_validators (hf12 : bool) (s : database) : list string :=
  take (Z.to_nat CHAIN_MAX_TOP_VALIDATORS) (filter (eligible hf12) (validators_by_votes s)).*1.

(** The walk over [by_schedule_time]: [room] places are free.  The support
    validators, the ones that were passed, and the virtual time reached. *)
Fixpoint pick_support (hf12 : bool) (selected : list string) (room : nat)
    (l : list (string * validator_object)) (new_virtual_time : Z) :
    list string * list string * Z :=
  match room, l with
  | O, _ | _, [] => ([], [], new_virtual_time)
  | S room', (n, w) :: l =>
      let chosen := bool_decide (eligible hf12 (n, w)) && bool_decide (n ∉ selected) in
      let r := pick_support hf12 selected (if chosen then room' else room) l (virtual_scheduled_time w) in
      (if chosen then n :: r.1.1 else r.1.1, n :: r.1.2, r.2)
  end.

Definition set_schedule_type (t : validator_schedule_type) (names : list string) : DB unit :=
  sfor names (λ n, modify_validator n (λ w, Ok (w <| val_schedule := t |>))).

(** [VIRTUAL_SCHEDULE_LAP_LENGTH2 / (counted_votes.value + 1)] *)
Definition lap_time (w : validator_object) : res Z :=
  wu_div (w := 128) VIRTUAL_SCHEDULE_LAP_LENGTH2 (wide_i64 (counted_votes w + 1)).

Definition reset_virtual_schedule_time : DB unit :=
  do* supd (λ s, s <| schedule ::= λ o, o <| current_virtual_time := 0 |> |>) in
  let* names := sgets (λ s, (map_to_list (validators s)).*1) in
  sfor names (λ n, modify_validator n (λ w,
    let? t := lap_time w in
    Ok (w <| virtual_position := 0 |> <| virtual_last_update := 0 |> <| virtual_scheduled_time := t |>))).

(** The passed validators start a new lap; the result tells of an overflow. *)
Fixpoint start_laps (new_virtual_time : Z) (processed : list string) : DB bool :=
  match processed with
  | [] => sret false
  | n :: processed =>
      let* w := get_validator n in
      let* lap := slift (lap_time w) in
      let t := wu_add (w := 128) new_virtual_time lap in
      if t <? new_virtual_time then sret true
      else
        do* modify_validator n (λ w,
          Ok (w <| virtual_position := 0 |> <| virtual_last_update := new_virtual_time |>
                <| virtual_scheduled_time := t |>)) in
        start_laps new_virtual_time processed
  end.

(** ** Votes for versions and hardforks *)

Definition in_emergency (s : database) : bool :=
  (CHAIN_HARDFORK_12 <? processed_hardforks s) && emergency_consensus_active (dgpo s).

(** The places of the schedule whose validators count: not the committee's
    during an emergency. *)
Definition counted_places (s : database) : list string :=
  filter (λ n, ¬ (in_emergency s = true ∧ n = CHAIN_EMERGENCY_VALIDATOR_ACCOUNT)) (scheduled s).

Fixpoint get_validators (names : list string) : DB (list validator_object) :=
  match names with
  | [] => sret []
  | n :: names => let* w := get_validator n in let* r := get_validators names in sret (w :: r)
  end.

Definition tally {A} `{EqDecision A} (l : list A) (x : A) : Z := Z.of_nat (length (filter (eq x) l)).

(** The highest version that enough validators run at least. *)
Fixpoint majority_of (on_version : Z) (votes : list Z) (versions : list Z) : option Z :=
  match versions with
  | [] => None
  | v :: versions =>
      let n := on_version + tally votes v in
      if CHAIN_HARDFORK_REQUIRED_VALIDATORS <=? n then Some v else majority_of n votes versions
  end.

Definition highest_first : relation Z := λ x y, y ≤ x.
#[export] Instance highest_first_dec : RelDecision highest_first := λ x y, decide (y ≤ x).

(** The order of [std::tuple<hardfork_version, time_point_sec>]. *)
Definition by_version_time (p q : Z * Z) : Prop := p.1 < q.1 ∨ (p.1 = q.1 ∧ p.2 ≤ q.2).
#[export] Instance by_version_time_dec : RelDecision by_version_time.
Proof. unfold by_version_time. intros p q. apply _. Defined.

Definition hardfork_majority (votes : list (Z * Z)) : option (Z * Z) :=
  head (filter (λ v, CHAIN_HARDFORK_REQUIRED_VALIDATORS ≤ tally votes v)
          (merge_sort by_version_time (remove_dups votes))).

(** The vote on the next hardfork; the majority version. *)
Definition count_version_votes : DB Z :=
  let* wso := sgets schedule in
  let* names := sgets counted_places in
  let* l := get_validators names in
  let versions := running_version <$> l in
  let hf_votes := (λ w, (hardfork_version_vote w, hardfork_time_vote w)) <$> l in
  do* supd (λ s, s <| hardforks ::= λ hfp,
    match hardfork_majority hf_votes with
    | Some v => hfp <| next_hardfork := v.1 |> <| next_hardfork_time := v.2 |>
    | None => hfp <| next_hardfork := current_hardfork_version hfp |>
    end |>) in
  sret (match majority_of 0 versions (merge_sort highest_first (remove_dups versions)) with
        | Some v => v
        | None => majority_version wso
        end).

(** ** The places *)

(** Top and support validators take turns. *)
Fixpoint interleave (active others : list string) : list string :=
  match active, others with
  | x :: active, y :: others => x :: y :: interleave active others
  | [], l | l, [] => l
  end.

Definition fill_places (names : list string) : list string :=
  names ++ replicate (Z.to_nat CHAIN_MAX_VALIDATORS - length names) "".

Definition build_schedule (active others : list string) (new_virtual_time majority head : Z)
    (w : validator_schedule_object) : validator_schedule_object :=
  let names := interleave active others in
  let n := Z.max (Z.of_nat (length names)) 1 in
  w <| current_shuffled_validators := fill_places names |> <| num_scheduled_validators := n |>
    <| current_virtual_time := new_virtual_time |> <| next_shuffle_block_num := u32 (head + n) |>
    <| majority_version := majority |>.

(** ** The emergency *)

(** The place [n] of the schedule can be served. *)
Definition available (s : database) (n : string) : bool :=
  bool_decide (n ≠ "") &&
  match validators s !! n with Some w => negb (signing_key w =? 0) | None => false end.

Definition hybrid_place (s : database) (n : string) : string :=
  if available s n then n else CHAIN_EMERGENCY_VALIDATOR_ACCOUNT.

(** The places [0 ... CHAIN_MAX_VALIDATORS - 1], empty from [num] on. *)
Definition all_places (w : validator_schedule_object) : list string :=
  take (Z.to_nat CHAIN_MAX_VALIDATORS)
    (take (Z.to_nat (num_scheduled_validators w)) (current_shuffled_validators w)
       ++ replicate (Z.to_nat CHAIN_MAX_VALIDATORS) "").

Definition exit_threshold : Z := CHAIN_MAX_VALIDATORS * CHAIN_IRREVERSIBLE_THRESHOLD / CHAIN_100_PERCENT.

Definition hybrid_schedule : DB unit :=
  let* places := sgets (λ s, all_places (schedule s)) in
  let* real := sgets (λ s, Z.of_nat (length (filter (λ n, available s n = true) places))) in
  let* hybrid := sgets (λ s, hybrid_place s <$> places) in
  let* head := head_block_num in
  do* supd (λ s, s <| schedule ::= λ w,
    w <| current_shuffled_validators := hybrid |> <| num_scheduled_validators := CHAIN_MAX_VALIDATORS |>
      <| next_shuffle_block_num := u32 (head + CHAIN_MAX_VALIDATORS) |> |>) in
  let* committee := find_in validators CHAIN_EMERGENCY_VALIDATOR_ACCOUNT in
  do* (match committee with
       | Some _ => λ s, modify_validator CHAIN_EMERGENCY_VALIDATOR_ACCOUNT (neutral_votes s) s
       | None => sret tt
       end) in
  swhen (exit_threshold <=? real)
    (do* modify_dgpo (λ p, Ok (p <| emergency_consensus_active := false |>)) in
     on_fork_db (set_emergency_mode false)).

(** ** Medians of the chain properties *)

(** The value that [std::nth_element] puts in the middle. *)
Definition median_of (l : list Z) : res Z :=
  res_of_option (merge_sort Z.le l !! (length l / 2)%nat) E_undefined.

(** Comparing assets of different symbols throws. *)
Definition median_asset (l : list asset) : res asset :=
  match l with
  | [] => Err E_undefined
  | a :: _ =>
      do? rassert (forallb (λ b, symbol b =? symbol a) l) (E_assert "symbol") in
      let? m := median_of (amount <$> l) in Ok (mk_asset m (symbol a))
  end.

(** One property: the median of what [l] proposes when it is [on], else the
    value that a fresh [chain_properties] has. *)
Definition calc_median (on : bool) (l : list chain_properties) (param : chain_properties → Z) : res Z :=
  if on then median_of (param <$> l) else Ok (param default_chain_properties).
Definition calc_median_asset (on : bool) (l : list chain_properties) (param : chain_properties → asset) :
    res asset :=
  if on then median_asset (param <$> l) else Ok (param default_chain_properties).

(** The medians; [hf] tells which hardforks are active. *)
Definition median_properties (hf : Z → bool) (l : list chain_properties) : res chain_properties :=
  let? v0 := calc_median_asset true l account_creation_fee in
  let? v1 := calc_median true l maximum_block_size in
  let? v2 := calc_median true l create_account_delegation_ratio in
  let? v3 := calc_median true l create_account_delegation_time in
  let? v4 := calc_median_asset true l min_delegation in
  let? v5 := calc_median true l min_curation_percent in
  let? v6 := calc_median (hf 1) l max_curation_percent in
  let? v7 := calc_median true l bandwidth_reserve_percent in
  let? v8 := calc_median_asset true l bandwidth_reserve_below in
  let? v9 := calc_median true l flag_energy_additional_cost in
  let? v10 := calc_median true l vote_accounting_min_rshares in
  let? v11 := calc_median true l committee_request_approve_min_percent in
  let? v12 := calc_median (hf 4) l inflation_validator_percent in
  let? v13 := calc_median (hf 4) l inflation_ratio_committee_vs_reward_fund in
  let? v14 := calc_median (hf 4) l inflation_recalc_period in
  let? v15 := calc_median (hf 6) l data_operations_cost_additional_bandwidth in
  let? v16 := calc_median (hf 6) l validator_miss_penalty_percent in
  let? v17 := calc_median (hf 6) l validator_miss_penalty_duration in
  let? v18 := calc_median_asset (hf 9) l create_invite_min_balance in
  let? v19 := calc_median_asset (hf 9) l committee_create_request_fee in
  let? v20 := calc_median_asset (hf 9) l create_paid_subscription_fee in
  let? v21 := calc_median_asset (hf 9) l account_on_sale_fee in
  let? v22 := calc_median_asset (hf 9) l subaccount_on_sale_fee in
  let? v23 := calc_median_asset (hf 9) l validator_declaration_fee in
  let? v24 := calc_median (hf 9) l withdraw_intervals in
  let? v25 := calc_median (hf 13) l distribution_epoch_length in
  Ok {| account_creation_fee := v0;
        maximum_block_size := v1;
        create_account_delegation_ratio := v2;
        create_account_delegation_time := v3;
        min_delegation := v4;
        min_curation_percent := v5;
        max_curation_percent := v6;
        bandwidth_reserve_percent := v7;
        bandwidth_reserve_below := v8;
        flag_energy_additional_cost := v9;
        vote_accounting_min_rshares := v10;
        committee_request_approve_min_percent := v11;
        inflation_validator_percent := v12;
        inflation_ratio_committee_vs_reward_fund := v13;
        inflation_recalc_period := v14;
        data_operations_cost_additional_bandwidth := v15;
        validator_miss_penalty_percent := v16;
        validator_miss_penalty_duration := v17;
        create_invite_min_balance := v18;
        committee_create_request_fee := v19;
        create_paid_subscription_fee := v20;
        account_on_sale_fee := v21;
        subaccount_on_sale_fee := v22;
        validator_declaration_fee := v23;
        withdraw_intervals := v24;
        distribution_epoch_length := v25 |}.

Definition update_median_validator_props : DB unit :=
  let* names := sgets counted_places in
  let* active := get_validators names in
  match active with
  | [] => sret tt
  | _ =>
      let* s := sget in
      let* m := slift (median_properties (λ n, n <? processed_hardforks s) (props <$> active)) in
      do* supd (λ s, s <| schedule ::= λ w, w <| median_props := m |> |>) in
      modify_dgpo (λ p, Ok (p <| dgp_maximum_block_size := maximum_block_size m |>))
  end.

(** ** The whole update *)

Definition choose_validators : DB (list string * list string * Z) :=
  let* hf12 := has_hardfork CHAIN_HARDFORK_12 in
  let* active := sgets (top_validators hf12) in
  do* set_schedule_type top active in
  let* vt := sgets (λ s, current_virtual_time (schedule s)) in
  let* by_time := sgets validators_by_time in
  let r := pick_support hf12 active (Z.to_nat CHAIN_MAX_VALIDATORS - length active) by_time vt in
  do* set_schedule_type support r.1.1 in
  let* overflow := start_laps r.2 r.1.2 in
  do* swhen overflow reset_virtual_schedule_time in
  sret (active, r.1.1, if overflow : bool then 0 else r.2).

Definition update_validator_schedule : DB unit :=
  let* head := head_block_num in
  swhen (head mod (CHAIN_MAX_VALIDATORS * CHAIN_BLOCK_VALIDATOR_REPEAT) =? 0)
    (let* hf6 := has_hardfork 6 in
     do* swhen hf6 remove_expired_penalties in
     let* r := choose_validators in
     do* sassert (Z.of_nat (length r.1.1 + length r.1.2) <=? CHAIN_MAX_VALIDATORS)
       "Number of active validators cannot be more than CHAIN_MAX_VALIDATORS" in
     let* majority := count_version_votes in
     do* supd (λ s, s <| schedule ::= build_schedule r.1.1 r.1.2 r.2 majority head |>) in
     let* emergency := sgets in_emergency in
     do* swhen emergency hybrid_schedule in
     update_median_validator_props).
End schedule.
