(* ===== verification/ScheduleProofs.v ===== *)
(** * Properties of the schedule

    Who is scheduled in normal times and in an emergency, when the emergency
    ends, and what the medians of the chain properties are. *)

From stdpp Require Import gmap strings list sorting.
From Stdlib Require Import ZArith Lia.
From S2P Require Import Prelude Fc Text Asset Authority Block ForkDb Objects Database Supply Frame.
From S2P Require Import Scenario EvalTransfer Slots BlockData BlockDataProofs Irreversible Schedule.

(** ** What the steps keep of the validators *)

Section views.
Context {A : Type} (f : validator_object → A).

Record same_vals (s s' : database) : Prop := {
  sv_view : f <$> validators s' = f <$> validators s;
  sv_hf : processed_hardfork_times (hardforks s') = processed_hardfork_times (hardforks s);
  sv_dgpo : dgpo s' = dgpo s;
  sv_eff : eff s s' 0
}.

#[export] Instance same_vals_preorder : PreOrder same_vals.
Proof.
  split.
  - intros s. split; [done..|apply eff_refl].
  - intros x y z [V1 H1 D1 E1] [V2 H2 D2 E2]. split; [congruence..|].
    eapply eff_eq; [by eapply eff_trans|lia].
Qed.

Lemma same_vals_lookup s s' n w' :
  same_vals s s' → validators s' !! n = Some w' → ∃ w, validators s !! n = Some w ∧ f w' = f w.
Proof.
  intros [V _ _ _] Hw. assert ((f <$> validators s') !! n = Some (f w')) as H by (by rewrite lookup_fmap, Hw).
  rewrite V, lookup_fmap in H. apply fmap_Some in H as (w & ? & ?). by exists w.
Qed.

Lemma same_vals_sym_lookup s s' n w :
  same_vals s s' → validators s !! n = Some w → ∃ w', validators s' !! n = Some w' ∧ f w' = f w.
Proof.
  intros [V _ _ _] Hw. assert ((f <$> validators s) !! n = Some (f w)) as H by (by rewrite lookup_fmap, Hw).
  rewrite <- V, lookup_fmap in H. apply fmap_Some in H as (w' & ? & ?). by exists w'.
Qed.

Lemma same_vals_modify n g s u s' :
  (∀ w w', g w = Ok w' → f w' = f w ∧ pending_stakeholder_reward w' = pending_stakeholder_reward w) →
  modify_validator n g s = Ok (u, s') → same_vals s s'.
Proof.
  intros Hg H. assert (eff s s' 0) as He by (eapply eff_modify_validator; [|exact H]; intros; by apply Hg).
  apply modify_in_Ok in H as (w & w' & Hw & Hgw & [= _ ->]). split; [|done|done|done].
  cbn. rewrite fmap_insert. apply insert_id. rewrite lookup_fmap, Hw. cbn. by rewrite (proj1 (Hg _ _ Hgw)).
Qed.

Lemma same_vals_sfor {B} (l : list B) (body : B → DB unit) s u s' :
  (∀ x s u s', body x s = Ok (u, s') → same_vals s s') →
  sfor l body s = Ok (u, s') → same_vals s s'.
Proof.
  intros Hb. revert s. induction l as [|x l IH]; intros s H; cbn [sfor] in H.
  - by injection H as _ <-.
  - apply sbind_Ok in H as (? & s1 & H1 & H). etrans; [by eapply Hb|by apply IH].
Qed.

(** A step that changes other tables. *)
Lemma same_vals_other s s' :
  validators s' = validators s → processed_hardfork_times (hardforks s') = processed_hardfork_times (hardforks s) →
  dgpo s' = dgpo s → eff s s' 0 → same_vals s s'.
Proof. intros E ? ? ?. split; [by rewrite E|done..]. Qed.
End views.

(** What decides the choice of a validator. *)
Definition choice_view (w : validator_object) : string * Z * Z := (owner w, signing_key w, counted_votes w).
Definition key_view (w : validator_object) : string * Z := (owner w, signing_key w).

Lemma same_vals_weaken s s' : same_vals choice_view s s' → same_vals key_view s s'.
Proof.
  intros [V H D E]. split; [|done|done|done]. apply map_eq. intros n.
  assert ((choice_view <$> validators s') !! n = (choice_view <$> validators s) !! n) as Hn by (by rewrite V).
  rewrite !lookup_fmap in *. destruct (validators s' !! n), (validators s !! n); cbn in *; try done.
  injection Hn as H1 H2 H3. unfold key_view. by rewrite H1, H2.
Qed.

Section choice.
Context {CE : ChainEnv}.

Lemma same_penalties s u s' : remove_expired_penalties s = Ok (u, s') → same_vals key_view s s'.
Proof.
  unfold remove_expired_penalties. intros H.
  do 2 (apply sbind_Ok in H as (? & ? & Hg & H); apply sgets_Ok in Hg; injection Hg as -> ->).
  apply sbind_Ok in H as (? & s1 & H1 & H). apply supd_Ok in H as [= _ ->].
  etrans; [|apply (same_vals_other _ s1); [done|done|done|by apply eff_same]].
  eapply same_vals_sfor; [|exact H1]. intros e s0 u0 s0' He. unfold lift_penalty in He.
  apply sbind_Ok in He as (w & ? & Hg & He). apply get_in_Ok in Hg as (? & _ & [= _ ->]).
  eapply same_vals_modify; [|exact He]. intros w1 w2 Hw. by inv_ok.
Qed.

Lemma same_schedule_type t l s u s' : set_schedule_type t l s = Ok (u, s') → same_vals choice_view s s'.
Proof.
  apply same_vals_sfor. intros n s0 u0 s0' H. eapply same_vals_modify; [|exact H]. intros w w' Hw. by inv_ok.
Qed.

Lemma same_start_laps t l s r s' : start_laps t l s = Ok (r, s') → same_vals choice_view s s'.
Proof.
  revert s. induction l as [|n l IH]; intros s H; cbn [start_laps] in H; [by injection H as _ <-|].
  apply sbind_Ok in H as (w & ? & Hg & H). apply get_in_Ok in Hg as (? & _ & [= _ ->]).
  apply sbind_Ok in H as (lap & ? & Hr & H). apply slift_Ok in Hr as (? & _ & [= _ ->]).
  destruct (_ <? _); [by injection H as _ <-|].
  apply sbind_Ok in H as (? & s1 & H1 & H). apply IH in H. etrans; [|exact H].
  eapply same_vals_modify; [|exact H1]. intros w1 w2 Hw. by inv_ok.
Qed.

Lemma same_reset s u s' : reset_virtual_schedule_time s = Ok (u, s') → same_vals choice_view s s'.
Proof.
  unfold reset_virtual_schedule_time. intros H.
  apply sbind_Ok in H as (? & s1 & H1 & H). apply supd_Ok in H1 as [= _ ->].
  apply sbind_Ok in H as (? & ? & Hg & H); apply sgets_Ok in Hg; injection Hg as -> ->.
  etrans; [|eapply same_vals_sfor; [|exact H]].
  - apply same_vals_other; [done|done|done|by apply eff_same].
  - intros n s0 u0 s0' Hn. eapply same_vals_modify; [|exact Hn]. intros w1 w2 Hw. by inv_ok.
Qed.

(** *** The walk over the index by virtual time *)

Lemma pick_support_spec hf12 selected room l t sup processed t' :
  pick_support hf12 selected room l t = (sup, processed, t') → NoDup l.*1 →
  sup `sublist_of` (filter (λ p, eligible hf12 p ∧ p.1 ∉ selected) l).*1 ∧
  (length sup ≤ room)%nat ∧
  ((length sup < room)%nat → sup = (filter (λ p, eligible hf12 p ∧ p.1 ∉ selected) l).*1).
Proof.
  revert room t sup processed t'. induction l as [|[n w] l IH]; intros room t sup processed t' H Hnd.
  { destruct room; injection H as <- _ _; split_and!; first [apply sublist_nil_l|cbn; lia|done]. }
  apply NoDup_cons in Hnd as [_ Hnd].
  destruct room as [|room]; [injection H as <- _ _; split_and!; [apply sublist_nil_l|done|cbn; lia]|].
  cbn [pick_support] in H. destruct (pick_support _ _ _ l _) as [[sup0 p0] t0] eqn:Hr.
  destruct (_ && _) eqn:Hc; cbn in H; injection H as <- _ _; apply IH in Hr as (Hs & Hl & He); try done.
  - apply andb_true_iff in Hc as [H1%bool_decide_eq_true H2%bool_decide_eq_true].
    rewrite filter_cons_True by done. cbn. split_and!; [by apply sublist_skip|lia|].
    intros. rewrite He by lia. done.
  - rewrite filter_cons_False; [done|]. intros [H1 H2]. cbn in H2.
    by rewrite !bool_decide_true in Hc.
Qed.

(** *** The most voted *)

Lemma by_votes_elem s n w : (n, w) ∈ validators_by_votes s ↔ validators s !! n = Some w.
Proof. unfold validators_by_votes. by rewrite merge_sort_Permutation, elem_of_map_to_list. Qed.

Lemma by_time_elem s n w : (n, w) ∈ validators_by_time s ↔ validators s !! n = Some w.
Proof. unfold validators_by_time. by rewrite merge_sort_Permutation, elem_of_map_to_list. Qed.

Lemma by_votes_NoDup s : NoDup (validators_by_votes s).*1.
Proof. unfold validators_by_votes. rewrite merge_sort_Permutation. apply NoDup_fst_map_to_list. Qed.

Lemma by_time_NoDup s : NoDup (validators_by_time s).*1.
Proof. unfold validators_by_time. rewrite merge_sort_Permutation. apply NoDup_fst_map_to_list. Qed.

Lemma by_votes_sorted s :
  StronglySorted (λ p q : string * validator_object, counted_votes q.2 ≤ counted_votes p.2) (validators_by_votes s).
Proof.
  apply Sorted_StronglySorted; [intros x y z; lia|].
  assert (Total by_counted_vote) as Ht.
  { intros p q. unfold by_counted_vote.
    destruct (String.leb_total p.1 q.1); destruct (Z.lt_trichotomy (counted_votes p.2) (counted_votes q.2))
      as [|[|]]; auto. }
  unfold validators_by_votes. pose proof (Sorted_merge_sort by_counted_vote (map_to_list (validators s))) as H.
  induction H as [|x l Hs IH Hd]; constructor; [done|]. destruct Hd; constructor.
  unfold by_counted_vote in *. lia.
Qed.

Lemma eligible_view hf12 n w w' : key_view w' = key_view w → eligible hf12 (n, w') ↔ eligible hf12 (n, w).
Proof. unfold key_view, eligible. intros [= E1 E2]. cbn. by rewrite E1, E2. Qed.

Lemma sublist_names {B} (l l' : list (string * B)) : l `sublist_of` l' → l.*1 `sublist_of` l'.*1.
Proof. intros H. by apply fmap_sublist. Qed.

Lemma StronglySorted_filter {B} (R : relation B) (P : B → Prop) `{∀ x, Decision (P x)} l :
  StronglySorted R l → StronglySorted R (filter P l).
Proof.
  induction 1 as [|x l Hs IH Hx]; [constructor|]. rewrite filter_cons. case_decide; [|done].
  constructor; [done|]. apply Forall_forall. intros y [_ Hy]%list_elem_of_filter.
  rewrite Forall_forall in Hx. by apply Hx.
Qed.

(** The most voted eligible validators, without repetition; one that is left
    out has no more votes than any of them. *)
Lemma top_validators_spec hf12 s :
  let top := top_validators hf12 s in
  NoDup top ∧ (length top ≤ 11)%nat ∧
  (∀ n, n ∈ top → ∃ w, validators s !! n = Some w ∧ eligible hf12 (n, w)) ∧
  ∀ n w, validators s !! n = Some w → eligible hf12 (n, w) → n ∈ top ∨
    (length top = 11%nat ∧ ∀ m, m ∈ top → ∃ wm, validators s !! m = Some wm ∧ counted_votes w ≤ counted_votes wm).
Proof.
  unfold top_validators. set (F := filter (eligible hf12) (validators_by_votes s)).
  change (Z.to_nat CHAIN_MAX_TOP_VALIDATORS) with 11%nat.
  assert (StronglySorted (λ p q : string * validator_object, counted_votes q.2 ≤ counted_votes p.2) F) as Hs
    by (apply StronglySorted_filter, by_votes_sorted).
  assert (NoDup F.*1) as Hnd by (eapply sublist_NoDup; [apply by_votes_NoDup|apply sublist_names, sublist_filter]).
  assert (∀ n w, (n, w) ∈ F ↔ validators s !! n = Some w ∧ eligible hf12 (n, w)) as HF.
  { intros n w. unfold F. rewrite list_elem_of_filter, by_votes_elem. tauto. }
  cbn zeta. rewrite <- fmap_take. split_and!.
  - eapply sublist_NoDup; [exact Hnd|]. apply sublist_names, sublist_take.
  - rewrite length_fmap, length_take. lia.
  - intros n ([n' w] & -> & Hin)%list_elem_of_fmap. exists w. apply HF.
    eapply elem_of_sublist; [exact Hin|apply sublist_take].
  - intros n w Hw He. assert ((n, w) ∈ F) as Hin by by apply HF.
    rewrite <- (take_drop 11 F) in Hin, Hs. apply elem_of_app in Hin as [Hin|Hin]; [left|right].
    + apply list_elem_of_fmap. by exists (n, w).
    + split.
      { rewrite length_fmap, length_take. destruct (decide (11 ≤ length F)%nat); [lia|].
        rewrite drop_ge in Hin by lia. by apply elem_of_nil in Hin. }
      apply StronglySorted_app in Hs as (Hcross & _ & _).
      intros m ([m' wm] & -> & Hm)%list_elem_of_fmap. exists wm. split; [|by apply (Hcross (m', wm) (n, w))].
      apply HF. rewrite <- (take_drop 11 F). apply elem_of_app. by left.
Qed.

(** The validators that [choose_validators] finds. *)
Record good_choice (hf12 : bool) (s : database) (names : list string) : Prop := {
  gc_NoDup : NoDup names;
  gc_length : (length names ≤ 21)%nat;
  gc_eligible : ∀ n, n ∈ names → ∃ w, validators s !! n = Some w ∧ eligible hf12 (n, w);
  gc_full : ∀ n w, validators s !! n = Some w → eligible hf12 (n, w) → n ∈ names ∨ length names = 21%nat;
  gc_top : ∀ n w, validators s !! n = Some w → eligible hf12 (n, w) → n ∉ names →
    ∃ top, top ⊆+ names ∧ length top = 11%nat ∧
      ∀ m, m ∈ top → ∃ wm, validators s !! m = Some wm ∧ counted_votes w ≤ counted_votes wm
}.

Lemma choose_validators_spec s active others vt s' :
  choose_validators s = Ok ((active, others, vt), s') →
  same_vals choice_view s s' ∧
  good_choice (CHAIN_HARDFORK_12 <? processed_hardforks s) s (active ++ others).
Proof.
  unfold choose_validators. intros H.
  do 2 (apply sbind_Ok in H as (? & ? & Hg & H); apply sgets_Ok in Hg; injection Hg as -> ->).
  set (hf12 := CHAIN_HARDFORK_12 <? processed_hardforks s) in *.
  apply sbind_Ok in H as (? & s1 & H1 & H). apply same_schedule_type in H1.
  do 2 (apply sbind_Ok in H as (? & ? & Hg & H); apply sgets_Ok in Hg; injection Hg as -> ->).
  destruct (pick_support _ _ _ _ _) as [[sup processed] t] eqn:Hp. cbn [fst snd] in H.
  apply sbind_Ok in H as (? & s2 & H2 & H). apply same_schedule_type in H2.
  apply sbind_Ok in H as (overflow & s3 & H3 & H). apply same_start_laps in H3.
  apply sbind_Ok in H as (? & s4 & H4 & H).
  assert (same_vals choice_view s3 s4) as H4'.
  { destruct overflow; cbn [swhen] in H4; [by apply same_reset in H4|by injection H4 as _ <-]. }
  injection H as <- <- _ <-. split; [by do 3 (etrans; [eassumption|])|].
  apply pick_support_spec in Hp as (Hsub & Hlen & Hfull); [|apply by_time_NoDup].
  destruct (top_validators_spec hf12 s) as (Hnd & Hl & Hin & Hout). set (top := top_validators hf12 s) in *.
  change (Z.to_nat CHAIN_MAX_VALIDATORS) with 21%nat in *.
  apply same_vals_weaken in H1.
  assert (∀ n w, validators s1 !! n = Some w → ∃ w0, validators s !! n = Some w0 ∧
    (eligible hf12 (n, w) ↔ eligible hf12 (n, w0))) as Hback.
  { intros n w Hw. destruct (same_vals_lookup _ _ _ _ _ H1 Hw) as (w0 & ? & ?).
    exists w0. split; [done|]. by apply eligible_view. }
  assert (∀ n w, validators s !! n = Some w → eligible hf12 (n, w) → n ∉ top →
    n ∈ (filter (λ p, eligible hf12 p ∧ p.1 ∉ top) (validators_by_time s1)).*1) as Hall.
  { intros n w Hw He Hn. destruct (same_vals_sym_lookup _ _ _ _ _ H1 Hw) as (w1 & Hw1 & Ev).
    apply list_elem_of_fmap. exists (n, w1). split; [done|]. apply list_elem_of_filter.
    split; [split; [by apply (eligible_view hf12 n w w1)|done]|]. by apply by_time_elem. }
  split.
  - apply NoDup_app. split; [done|]. split.
    + intros n Hn Hs. eapply elem_of_sublist in Hs; [|exact Hsub].
      apply list_elem_of_fmap in Hs as (p & -> & [[_ ?] _]%list_elem_of_filter). done.
    + eapply sublist_NoDup; [|exact Hsub]. eapply sublist_NoDup; [apply by_time_NoDup|].
      apply sublist_names, sublist_filter.
  - rewrite length_app. lia.
  - intros n [Hn|Hn]%elem_of_app; [by apply Hin|].
    eapply elem_of_sublist in Hn; [|exact Hsub].
    apply list_elem_of_fmap in Hn as ([n' w] & -> & [[He _] Hw]%list_elem_of_filter).
    apply by_time_elem in Hw. destruct (Hback _ _ Hw) as (w0 & ? & E). exists w0. split; [done|]. by apply E.
  - intros n w Hw He. rewrite length_app, elem_of_app.
    destruct (decide (n ∈ top)) as [|Hn]; [tauto|].
    destruct (decide (length top + length sup = 21)%nat) as [|Hne]; [tauto|]. left. right.
    rewrite Hfull by lia. by eapply Hall.
  - intros n w Hw He Hn. exists top. split; [by apply submseteq_inserts_r|].
    destruct (Hout n w Hw He) as [Ht|[? ?]]; [|done]. destruct Hn. apply elem_of_app. by left.
Qed.

Lemma good_choice_perm hf12 s l l' : l ≡ₚ l' → good_choice hf12 s l → good_choice hf12 s l'.
Proof.
  intros Hp [H1 H2 H3 H4 H5]. split.
  - by rewrite <- Hp.
  - by rewrite <- (Permutation_length Hp).
  - intros n. rewrite <- Hp. auto.
  - intros n w Hw He. rewrite <- Hp. by eapply H4.
  - intros n w Hw He. rewrite <- Hp. intros Hn. destruct (H5 n w Hw He Hn) as (t & Ht & ?).
    exists t. split; [by rewrite <- Hp|done].
Qed.

Lemma good_choice_same hf12 s s' l :
  same_vals choice_view s s' → good_choice hf12 s l → good_choice hf12 s' l.
Proof.
  intros Hs [H1 H2 H3 H4 H5].
  assert (∀ n w', validators s' !! n = Some w' → ∃ w, validators s !! n = Some w ∧
    counted_votes w' = counted_votes w ∧ (eligible hf12 (n, w') ↔ eligible hf12 (n, w))) as Hback.
  { intros n w' Hw. destruct (same_vals_lookup _ _ _ _ _ Hs Hw) as (w & ? & E). exists w.
    injection E as E1 E2 E3. split_and!; [done..|]. apply eligible_view. unfold key_view. congruence. }
  assert (∀ n w, validators s !! n = Some w → ∃ w', validators s' !! n = Some w' ∧
    counted_votes w' = counted_votes w ∧ (eligible hf12 (n, w') ↔ eligible hf12 (n, w))) as Hforth.
  { intros n w Hw. destruct (same_vals_sym_lookup _ _ _ _ _ Hs Hw) as (w' & Hw' & E). exists w'.
    injection E as E1 E2 E3. split_and!; [done..|]. apply eligible_view. unfold key_view. congruence. }
  split; [done|done|..].
  - intros n Hn. destruct (H3 n Hn) as (w & Hw & He). destruct (Hforth n w Hw) as (w' & ? & _ & Hiff).
    exists w'. split; [done|]. by apply Hiff.
  - intros n w' Hw' He. destruct (Hback n w' Hw') as (w & Hw & _ & Hiff). eapply H4; [done|by apply Hiff].
  - intros n w' Hw' He Hn. destruct (Hback n w' Hw') as (w & Hw & Ec & Hiff).
    destruct (H5 n w Hw) as (t & Hsub & Hlen & Hv); [by apply Hiff|done|]. exists t. split_and!; [done..|].
    intros m Hm. destruct (Hv m Hm) as (wm & Hwm & Hle). destruct (Hforth m wm Hwm) as (wm' & ? & Em & _).
    exists wm'. split; [done|]. lia.
Qed.

Lemma interleave_perm l l' : interleave l l' ≡ₚ l ++ l'.
Proof.
  revert l'. induction l as [|x l IH]; intros [|y l']; cbn; try done; [by rewrite app_nil_r|].
  rewrite IH. f_equiv. by rewrite Permutation_middle.
Qed.

Lemma get_validators_Ok names s l s' :
  get_validators names s = Ok (l, s') → s' = s ∧ Forall2 (λ n w, validators s !! n = Some w) names l.
Proof.
  revert l s'. induction names as [|n names IH]; intros l s' H; cbn [get_validators] in H.
  { apply sret_Ok in H as [= -> ->]. by split. }
  apply sbind_Ok in H as (w & ? & Hw & H). apply get_in_Ok in Hw as (? & Hw & [= -> ->]).
  apply sbind_Ok in H as (r & ? & Hr & H). apply IH in Hr as (-> & Hf).
  apply sret_Ok in H as [= -> ->]. split; [done|]. by constructor.
Qed.

Lemma count_version_votes_Ok s v s' :
  count_version_votes s = Ok (v, s') →
  same_vals choice_view s s' ∧ schedule s' = schedule s ∧ fork_db s' = fork_db s.
Proof.
  unfold count_version_votes. intros H.
  do 2 (apply sbind_Ok in H as (? & ? & Hg & H); apply sgets_Ok in Hg; injection Hg as -> ->).
  apply sbind_Ok in H as (l & ? & Hl & H). apply get_validators_Ok in Hl as [-> _].
  apply sbind_Ok in H as (? & s1 & H1 & H). apply supd_Ok in H1 as [= _ ->]. apply sret_Ok in H as [= _ ->].
  split; [|done]. apply same_vals_other; [done| |done|by apply eff_same]. cbn. by case_match.
Qed.

(** What the medians change, and that every place has a validator. *)
Lemma update_median_Ok s u s' :
  update_median_validator_props s = Ok (u, s') →
  (∀ n, n ∈ counted_places s → is_Some (validators s !! n)) ∧
  validators s' = validators s ∧ scheduled s' = scheduled s ∧
  num_scheduled_validators (schedule s') = num_scheduled_validators (schedule s) ∧
  current_shuffled_validators (schedule s') = current_shuffled_validators (schedule s) ∧
  emergency_consensus_active (dgpo s') = emergency_consensus_active (dgpo s) ∧
  fork_db s' = fork_db s ∧ hardforks s' = hardforks s ∧ eff s s' 0.
Proof.
  unfold update_median_validator_props. intros H.
  apply sbind_Ok in H as (? & ? & Hg & H); apply sgets_Ok in Hg; injection Hg as -> ->.
  apply sbind_Ok in H as (l & ? & Hl & H). apply get_validators_Ok in Hl as [-> Hf].
  assert (∀ n, n ∈ counted_places s → is_Some (validators s !! n)) as Hall.
  { intros n Hn. apply list_elem_of_lookup in Hn as [i Hi].
    eapply Forall2_lookup_l in Hf as (w & _ & Hw); [|exact Hi]. by exists w. }
  split; [done|]. destruct l as [|w l]; [injection H as _ <-; split_and!; [done..|apply eff_refl]|].
  apply sbind_Ok in H as (? & ? & Hg & H); injection Hg as <- <-.
  apply sbind_Ok in H as (m & ? & Hr & H). apply slift_Ok in Hr as (? & _ & [= _ ->]).
  apply sbind_Ok in H as (? & s1 & H1 & H). apply supd_Ok in H1 as [= _ ->].
  pose proof (eff_modify_dgpo _ _ _ _ H) as (p & [= <-] & He).
  apply modify_dgpo_Ok in H as (p & [= <-] & [= _ ->]). split_and!; [done..|].
  eapply eff_eq; [eapply eff_trans; [|exact He]; by apply eff_same|]. unfold fund_tokens. cbn. lia.
Qed.

(** The update, up to the emergency. *)
Lemma update_schedule_steps s u s' :
  head_block_number (dgpo s) mod CHAIN_MAX_VALIDATORS = 0 →
  update_validator_schedule s = Ok (u, s') →
  ∃ names s1 s2, good_choice (CHAIN_HARDFORK_12 <? processed_hardforks s) s1 names ∧
    same_vals key_view s s1 ∧
    current_shuffled_validators (schedule s1) = fill_places names ∧
    num_scheduled_validators (schedule s1) = Z.max (Z.of_nat (length names)) 1 ∧
    swhen (in_emergency s) hybrid_schedule s1 = Ok (tt, s2) ∧
    update_median_validator_props s2 = Ok (u, s').
Proof.
  intros Hhead H. unfold update_validator_schedule in H.
  apply sbind_Ok in H as (? & ? & Hg & H); apply sgets_Ok in Hg; injection Hg as -> ->.
  change (CHAIN_MAX_VALIDATORS * CHAIN_BLOCK_VALIDATOR_REPEAT) with CHAIN_MAX_VALIDATORS in H.
  rewrite Hhead in H. cbn [Z.eqb swhen] in H.
  apply sbind_Ok in H as (? & ? & Hg & H); apply sgets_Ok in Hg; injection Hg as -> ->.
  apply sbind_Ok in H as (? & sa & Ha & H).
  assert (same_vals key_view s sa) as Ka.
  { destruct (6 <? _); cbn [swhen] in Ha; [by apply same_penalties in Ha|by injection Ha as _ <-]. }
  apply sbind_Ok in H as ([[active others] vt] & sb & Hb & H).
  apply choose_validators_spec in Hb as [Kb Hgood].
  apply sbind_Ok in H as (? & ? & Hs & H). apply sassert_Ok in Hs as [_ [= _ ->]].
  apply sbind_Ok in H as (v & sc & Hc & H). apply count_version_votes_Ok in Hc as (Kc & Es & _).
  apply sbind_Ok in H as (? & sd & Hd & H). apply supd_Ok in Hd as [= _ ->].
  apply sbind_Ok in H as (? & ? & Hg & H); apply sgets_Ok in Hg; injection Hg as -> ->.
  apply sbind_Ok in H as ([] & s2 & H2 & H). cbn [fst snd] in *.
  set (s1 := sc <| schedule ::= _ |>) in *.
  assert (same_vals choice_view sc s1) as Kd by (apply same_vals_other; [done..|by apply eff_same]).
  assert (same_vals key_view s s1) as K.
  { etrans; [exact Ka|]. apply same_vals_weaken. do 2 (etrans; [eassumption|]). done. }
  assert (processed_hardforks sa = processed_hardforks s) as Ehf
    by (unfold processed_hardforks; by rewrite (sv_hf _ _ _ Ka)).
  exists (interleave active others), s1, s2. split_and!.
  - eapply good_choice_same; [exact Kd|]. eapply good_choice_same; [exact Kc|].
    eapply good_choice_same; [exact Kb|]. rewrite Ehf in Hgood.
    eapply good_choice_perm; [|exact Hgood]. symmetry. apply interleave_perm.
  - exact K.
  - done.
  - done.
  - assert (in_emergency s = in_emergency s1) as ->; [|done].
    unfold in_emergency, processed_hardforks. by rewrite (sv_hf _ _ _ K), (sv_dgpo _ _ _ K).
  - done.
Qed.

(** C31 (functional).  In normal times a new round is served by validators with
    a signing key, none of them twice, at most 21; all that are eligible are
    scheduled when they fit; and one that is left out has no more votes than
    eleven of the scheduled ones.  The round is never empty, and no tokens
    move. *)
Theorem schedule_serves_by_votes s u s' :
  head_block_number (dgpo s) mod CHAIN_MAX_VALIDATORS = 0 → in_emergency s = false →
  validators s !! "" = None →
  update_validator_schedule s = Ok (u, s') →
  good_choice (CHAIN_HARDFORK_12 <? processed_hardforks s) s' (scheduled s') ∧
  num_scheduled_validators (schedule s') = Z.of_nat (length (scheduled s')) ∧
  0 < num_scheduled_validators (schedule s') ∧ gap s' = gap s.
Proof.
  intros Hhead Hcalm Hnone H.
  destruct (update_schedule_steps _ _ _ Hhead H) as (names & s1 & s2 & Hgood & K & Ec & En & H2 & Hm).
  rewrite Hcalm in H2. injection H2 as <-.
  apply update_median_Ok in Hm as (Hall & Ev & Esch & En' & _ & Ed & _ & Eh & He).
  assert (in_emergency s1 = false) as Hcalm1.
  { rewrite <- Hcalm. unfold in_emergency, processed_hardforks. by rewrite (sv_hf _ _ _ K), (sv_dgpo _ _ _ K). }
  assert (names ≠ [] → scheduled s1 = names) as Hsch.
  { intros Hne. unfold scheduled. rewrite En, Ec. unfold fill_places. rewrite Z.max_l, Nat2Z.id.
    - by rewrite take_app_length.
    - destruct names; [done|cbn [length]; lia]. }
  assert (names ≠ []) as Hne.
  { intros ->. destruct (Hall "") as [w Hw].
    - unfold counted_places. rewrite Hcalm1. apply list_elem_of_filter. split; [by intros [? _]|].
      unfold scheduled. rewrite En, Ec. vm_compute. by left.
    - destruct (same_vals_lookup _ _ _ _ _ K Hw) as (w0 & ? & _). congruence. }
  rewrite Esch, En', En, (Hsch Hne).
  assert (1 ≤ length names)%nat by (destruct names; [done|cbn [length]; lia]).
  split_and!; [|lia|lia|].
  - destruct Hgood as [? ? G1 G2 G3]. split; rewrite ?Ev; done.
  - destruct (sv_eff _ _ _ K), He. lia.
Qed.

(** *** The emergency *)

Lemma all_places_spec w n :
  n ∈ all_places w → n = "" ∨ n ∈ take (Z.to_nat (num_scheduled_validators w)) (current_shuffled_validators w).
Proof.
  unfold all_places. intros Hn. eapply elem_of_sublist in Hn; [|apply sublist_take].
  apply elem_of_app in Hn as [Hn|Hn]; [by right|left]. by apply elem_of_replicate in Hn as [? _].
Qed.

Lemma all_places_length w : length (all_places w) = 21%nat.
Proof.
  unfold all_places. change (Z.to_nat CHAIN_MAX_VALIDATORS) with 21%nat.
  rewrite length_take, length_app, length_replicate. lia.
Qed.

(** The places of a hybrid schedule that are not the committee's are those
    that could be served. *)
Lemma hybrid_real s l :
  (∀ n, n ∈ l → available s n = true → n ≠ CHAIN_EMERGENCY_VALIDATOR_ACCOUNT) →
  length (filter (λ n, n ≠ CHAIN_EMERGENCY_VALIDATOR_ACCOUNT) (hybrid_place s <$> l)) =
    length (filter (λ n, available s n = true) l).
Proof.
  induction l as [|n l IH]; intros Hl; [done|]. cbn [fmap list_fmap]. unfold hybrid_place at 1.
  rewrite !filter_cons. destruct (available s n) eqn:Ha.
  - rewrite decide_True by (apply Hl; [by left|done]). rewrite decide_True by done.
    cbn [length]. f_equal. apply IH. intros m Hm. apply Hl. by right.
  - rewrite decide_False by (intros []; done). rewrite decide_False by done.
    apply IH. intros m Hm. apply Hl. by right.
Qed.

Lemma hybrid_schedule_Ok s u s' :
  hybrid_schedule s = Ok (u, s') →
  let places := hybrid_place s <$> all_places (schedule s) in
  let real := Z.of_nat (length (filter (λ n, available s n = true) (all_places (schedule s)))) in
  current_shuffled_validators (schedule s') = places ∧ num_scheduled_validators (schedule s') = 21 ∧
  key_view <$> validators s' = key_view <$> validators s ∧ hardforks s' = hardforks s ∧ gap s' = gap s ∧
  (if exit_threshold <=? real
   then emergency_consensus_active (dgpo s') = false ∧ _emergency_consensus_active (fork_db s') = false
   else emergency_consensus_active (dgpo s') = emergency_consensus_active (dgpo s)).
Proof.
  intros H places real. unfold hybrid_schedule in H.
  do 4 (apply sbind_Ok in H as (? & ? & Hg & H); apply sgets_Ok in Hg; injection Hg as -> ->).
  apply sbind_Ok in H as (? & s1 & H1 & H). apply supd_Ok in H1 as [= _ ->].
  apply sbind_Ok in H as (? & ? & Hg & H); apply sgets_Ok in Hg; injection Hg as -> ->.
  apply sbind_Ok in H as (? & s2 & H2 & H). set (s1 := s <| schedule ::= _ |>) in *.
  assert (same_vals key_view s1 s2 ∧ schedule s2 = schedule s1 ∧ fork_db s2 = fork_db s1 ∧
    hardforks s2 = hardforks s1) as ([V _ D E] & Es & Ef & Eh).
  { destruct (validators s !! CHAIN_EMERGENCY_VALIDATOR_ACCOUNT); [|by injection H2 as _ <-]. split.
    - eapply same_vals_modify; [|exact H2]. intros w w' Hw.
      apply neutral_votes_Ok in Hw as (E1 & E2 & E3). unfold key_view. by rewrite E1, E2.
    - by apply modify_in_Ok in H2 as (? & ? & _ & _ & [= _ ->]). }
  fold real in H. destruct (exit_threshold <=? real); cbn [swhen] in H.
  - apply sbind_Ok in H as (? & s3 & H3 & H).
    pose proof (eff_modify_dgpo _ _ _ _ H3) as (p & [= <-] & [G _ _]).
    apply modify_dgpo_Ok in H3 as (p & [= <-] & [= _ ->]). injection H as _ <-.
    split_and!; try done; [by cbn; rewrite Es|by cbn; rewrite Es|].
    destruct E as [G' _ _]. unfold gap, accounted, fund_tokens in *. cbn in *. lia.
  - injection H as _ <-. rewrite Es, D. split_and!; try done. destruct E as [G' _ _].
    unfold gap, accounted, fund_tokens in *. cbn in *. lia.
Qed.

(** In an emergency every one of the 21 places of the new round
    belongs to the committee or to a validator with a signing key, so that
    every slot can be served; and the emergency ends, for the chain and its
    fork database, exactly when at least fifteen places are not the
    committee's. *)
Theorem emergency_schedule s u s' :
  head_block_number (dgpo s) mod CHAIN_MAX_VALIDATORS = 0 → in_emergency s = true → owners_ok s →
  update_validator_schedule s = Ok (u, s') →
  length (scheduled s') = 21%nat ∧
  (∀ n, n ∈ scheduled s' → n = CHAIN_EMERGENCY_VALIDATOR_ACCOUNT ∨
     ∃ w, validators s' !! n = Some w ∧ signing_key w ≠ 0) ∧
  (emergency_consensus_active (dgpo s') = false ↔
     (15 ≤ length (filter (λ n, n ≠ CHAIN_EMERGENCY_VALIDATOR_ACCOUNT) (scheduled s')))%nat) ∧
  (emergency_consensus_active (dgpo s') = false → _emergency_consensus_active (fork_db s') = false) ∧
  gap s' = gap s.
Proof.
  intros Hhead He Hown H.
  destruct (update_schedule_steps _ _ _ Hhead H) as (names & s1 & s2 & Hgood & K & Ec & En & H2 & Hm).
  rewrite He in H2. cbn [swhen] in H2.
  apply hybrid_schedule_Ok in H2 as (Ep & Enum & V & Eh & G & Hexit).
  apply update_median_Ok in Hm as (_ & Ev & Esch & _ & _ & Ed & Ef & _ & [G' _ _]).
  assert (scheduled s' = hybrid_place s1 <$> all_places (schedule s1)) as Es.
  { rewrite Esch. unfold scheduled. rewrite Enum, Ep. apply take_ge. rewrite length_fmap, all_places_length.
    change (Z.to_nat 21) with 21%nat. lia. }
  assert (∀ n, n ∈ all_places (schedule s1) → available s1 n = true → n ≠ CHAIN_EMERGENCY_VALIDATOR_ACCOUNT)
    as Hreal.
  { intros n Hn Ha ->. apply all_places_spec in Hn as [?|Hn]; [done|].
    rewrite Ec in Hn. eapply elem_of_sublist in Hn; [|apply sublist_take].
    unfold fill_places in Hn. apply elem_of_app in Hn as [Hn|Hn]; [|by apply elem_of_replicate in Hn as [? _]].
    destruct (gc_eligible _ _ _ Hgood _ Hn) as (w & Hw & [_ Hnot]). apply Hnot. split.
    - unfold in_emergency in He. by apply andb_true_iff in He as [? _].
    - destruct (same_vals_lookup _ _ _ _ _ K Hw) as (w0 & Hw0 & Eq). injection Eq as Eo _. cbn.
      rewrite Eo. by apply Hown. }
  rewrite Es. split; [by rewrite length_fmap, all_places_length|]. split; [|split; [|split]].
  - intros n (m & -> & Hm)%list_elem_of_fmap. unfold hybrid_place. destruct (available s1 m) eqn:Ha; [right|by left].
    unfold available in Ha. apply andb_true_iff in Ha as [_ Ha].
    destruct (validators s1 !! m) as [w|] eqn:Hw; [|done]. rewrite Ev.
    assert ((key_view <$> validators s2) !! m = Some (key_view w)) as Hv by (rewrite V, lookup_fmap, Hw; done).
    rewrite lookup_fmap in Hv. apply fmap_Some in Hv as (w' & Hw' & Eq). injection Eq as _ Ek.
    exists w'. split; [done|]. rewrite <- Ek. by propify.
  - rewrite (hybrid_real s1) by exact Hreal. rewrite Ed. revert Hexit. case_match; propify; intros Hexit.
    + split; [|by intros _; apply Hexit]. intros _. change exit_threshold with 15 in *. lia.
    + assert (in_emergency s1 = true) as He1.
      { rewrite <- He. unfold in_emergency, processed_hardforks. by rewrite (sv_hf _ _ _ K), (sv_dgpo _ _ _ K). }
      apply andb_true_iff in He1 as [_ He1]. change exit_threshold with 15 in *.
      rewrite Hexit, He1. split; [done|lia].
  - rewrite Ed, Ef. intros Hoff. revert Hexit. case_match; [by intros [_ ?]|]. intros Hexit.
    assert (in_emergency s1 = true) as He1.
    { rewrite <- He. unfold in_emergency, processed_hardforks. by rewrite (sv_hf _ _ _ K), (sv_dgpo _ _ _ K). }
    apply andb_true_iff in He1 as [_ He1]. congruence.
  - destruct (sv_eff _ _ _ K). lia.
Qed.
End choice.

(** ** Medians *)

(** The properties that have a median, with the condition under which it is
    taken. *)
Definition median_params (hf : Z → bool) : list (bool * (chain_properties → Z)) :=
  [(true, amount ∘ account_creation_fee);
   (true, maximum_block_size);
   (true, create_account_delegation_ratio);
   (true, create_account_delegation_time);
   (true, amount ∘ min_delegation);
   (true, min_curation_percent);
   (hf 1, max_curation_percent);
   (true, bandwidth_reserve_percent);
   (true, amount ∘ bandwidth_reserve_below);
   (true, flag_energy_additional_cost);
   (true, vote_accounting_min_rshares);
   (true, committee_request_approve_min_percent);
   (hf 4, inflation_validator_percent);
   (hf 4, inflation_ratio_committee_vs_reward_fund);
   (hf 4, inflation_recalc_period);
   (hf 6, data_operations_cost_additional_bandwidth);
   (hf 6, validator_miss_penalty_percent);
   (hf 6, validator_miss_penalty_duration);
   (hf 9, amount ∘ create_invite_min_balance);
   (hf 9, amount ∘ committee_create_request_fee);
   (hf 9, amount ∘ create_paid_subscription_fee);
   (hf 9, amount ∘ account_on_sale_fee);
   (hf 9, amount ∘ subaccount_on_sale_fee);
   (hf 9, amount ∘ validator_declaration_fee);
   (hf 9, withdraw_intervals);
   (hf 13, distribution_epoch_length)].

(** [v] is proposed, half of the proposals are at least [v], and nothing above
    [v] is backed by more than half. *)
Definition middle (v : Z) (l : list Z) : Prop :=
  v ∈ l ∧ (length l ≤ 2 * count_ge v l)%nat ∧ ∀ m, v < m → (2 * count_ge m l ≤ length l)%nat.

Lemma median_of_middle l v : median_of l = Ok v → middle v l.
Proof.
  unfold median_of. intros H. apply res_of_option_Ok in H.
  assert (merge_sort Z.le l ≡ₚ l) as Hp by apply merge_sort_Permutation.
  assert (StronglySorted Z.le (merge_sort Z.le l)) as Hs by (apply StronglySorted_merge_sort; apply _).
  split; [rewrite <- Hp; by eapply list_elem_of_lookup_2|].
  apply (sorted_rank _ _ _ Hs) in H as [H1 H2].
  rewrite (Permutation_length Hp), (count_ge_perm v _ _ Hp) in H1.
  pose proof (Nat.div_mod_eq (length l) 2). pose proof (Nat.mod_upper_bound (length l) 2 ltac:(done)).
  split; [lia|]. intros m Hm. specialize (H2 m Hm).
  rewrite (count_ge_perm m _ _ Hp), (Permutation_length Hp) in H2. lia.
Qed.

Lemma median_asset_middle l v : median_asset l = Ok v → middle (amount v) (amount <$> l).
Proof.
  unfold median_asset. destruct l as [|a l]; [done|]. intros H.
  apply rbind_Ok in H as (? & _ & H). apply rbind_Ok in H as (m & Hm & [= <-]). by apply median_of_middle.
Qed.

Definition median_or_default (on : bool) (v : Z) (p : chain_properties → Z) (l : list chain_properties) :=
  if on then middle v (p <$> l) else v = p default_chain_properties.

Lemma calc_median_Ok on l p v : calc_median on l p = Ok v → median_or_default on v p l.
Proof. unfold calc_median, median_or_default. destruct on; [apply median_of_middle|by intros [=]]. Qed.

Lemma calc_median_asset_Ok on l p v :
  calc_median_asset on l p = Ok v → median_or_default on (amount v) (amount ∘ p) l.
Proof.
  unfold calc_median_asset, median_or_default. destruct on; [|by intros [= <-]].
  intros H%median_asset_middle. by rewrite list_fmap_compose.
Qed.

(** Every chain property is the median of what the validators
    of the round propose: it is proposed by one of them, at least half propose
    as much, and nothing greater has more than half behind it.  A property of
    a hardfork that is not active has its default. *)
Theorem medians_are_in_the_middle hf l m :
  median_properties hf l = Ok m →
  Forall (λ p, median_or_default p.1 (p.2 m) p.2 l) (median_params hf).
Proof.
  unfold median_properties, median_params. intros H.
  do 26 (apply rbind_Ok in H as (? & ? & H)). injection H as <-.
  repeat match goal with
  | H : calc_median _ _ _ = Ok _ |- _ => apply calc_median_Ok in H
  | H : calc_median_asset _ _ _ = Ok _ |- _ => apply calc_median_asset_Ok in H
  end.
  repeat (apply Forall_cons; split; [assumption|]). by apply Forall_nil.
Qed.

(** ** On the small chain *)

(** The head ends a round. *)
Definition round_db : database := test_db <| dgpo ::= λ p, p <| head_block_number := 105 |> |>.

Lemma schedule_serves_by_votes_witness :
  let run := @update_validator_schedule test_env in
  good_choice true (after run round_db) (scheduled (after run round_db)) ∧
  scheduled (after run round_db) = ["alice"].
Proof.
  intros run. assert (run round_db = Ok (tt, after run round_db)) as H by (vm_compute; reflexivity).
  destruct (@schedule_serves_by_votes test_env round_db tt (after run round_db)) as (Hg & _);
    [vm_compute; reflexivity..|exact H|]. split; [exact Hg|vm_compute; reflexivity].
Defined.

Lemma emergency_schedule_witness :
  let s := round_db <| dgpo ::= λ p, p <| emergency_consensus_active := true |> |> in
  let run := @update_validator_schedule test_env in
  length (scheduled (after run s)) = 21%nat ∧ emergency_consensus_active (dgpo (after run s)) = true.
Proof.
  intros s run. assert (run s = Ok (tt, after run s)) as H by (vm_compute; reflexivity).
  destruct (@emergency_schedule test_env s tt (after run s)) as (Hl & _);
    [vm_compute; reflexivity|vm_compute; reflexivity|apply test_owners; reflexivity|exact H|].
  split; [exact Hl|vm_compute; reflexivity].
Defined.

Lemma medians_are_in_the_middle_witness :
  let p n := default_chain_properties <| maximum_block_size := n |> in
  ∃ m, median_properties (λ _, true) [p 100; p 300; p 200] = Ok m ∧ maximum_block_size m = 200 ∧
    Forall (λ q, median_or_default q.1 (q.2 m) q.2 [p 100; p 300; p 200]) (median_params (λ _, true)).
Proof.
  intros p. destruct (median_properties (λ _, true) [p 100; p 300; p 200]) as [m|] eqn:H;
    [|vm_compute in H; discriminate H].
  exists m. split; [reflexivity|]. split; [|exact (medians_are_in_the_middle _ _ _ H)].
  vm_compute in H. injection H as <-. reflexivity.
Defined.
