(* ===== verification/Transactions.v ===== *)
(** * Transactions (libraries/protocol/transaction.cpp, operations.cpp,
      libraries/chain/database.cpp, lines 1356-1407, 5121-5221, 5487-5546)

    A transaction is checked (its operations, the signatures it needs, the block
    it refers to, its expiration), charged to the bandwidth of the accounts that
    sign, recorded until it expires, and its operations are applied.  The
    record keeps a transaction from being applied twice. *)

From stdpp Require Import gmap strings list sorting.
From Stdlib Require Import ZArith Lia.
From S2P Require Import Prelude Fc Text Asset Authority SignState Operations ChainOperations.
From S2P Require Import Block ForkDb Objects Database Supply Frame Scenario EvalTransfer EvalAccount EvalGovern.
From S2P Require Import EvalAward EvalInvite Evaluators Duties Slots BlockData Irreversible.

(** Hashing, recovery of the key of a signature, and serialization. *)
Class TransactionEnv := {
  digest : transaction → Z;                     (* transaction::digest, 256 bits *)
  sig_digest : transaction → Z;                 (* with the chain's id *)
  signee_key : Z → Z → res Z;                   (* fc::ecc::public_key(signature, digest) *)
  tx_pack_size : signed_transaction → Z         (* fc::raw::pack_size *)
}.

(** ** Flags of what is skipped *)

Definition skip_nothing : Z := 0.
Definition skip_validator_signature : Z := Z.shiftl 1 0.
Definition skip_transaction_signatures : Z := Z.shiftl 1 1.
Definition skip_transaction_dupe_check : Z := Z.shiftl 1 2.
Definition skip_fork_db : Z := Z.shiftl 1 3.
Definition skip_block_size_check : Z := Z.shiftl 1 4.
Definition skip_tapos_check : Z := Z.shiftl 1 5.
Definition skip_authority_check : Z := Z.shiftl 1 6.
Definition skip_merkle_check : Z := Z.shiftl 1 7.
Definition skip_undo_history_check : Z := Z.shiftl 1 8.
Definition skip_validator_schedule_check : Z := Z.shiftl 1 9.
Definition skip_validate_operations : Z := Z.shiftl 1 10.
Definition skip_block_log : Z := Z.shiftl 1 12.
Definition skip_apply_transaction : Z := Z.shiftl 1 13.
Definition skip_database_locking : Z := Z.shiftl 1 14.

(** [skip & flags] is not zero. *)
Definition skips (skip flags : Z) : bool := negb (Z.land skip flags =? 0).

(** Blocks of the past whose transactions or Merkle root are accepted as they
    are (shared_db_merkle.hpp). *)
Definition shared_db_merkle : list (Z * Z) := [
  (3705111, 0x0a8f0fd5450c3706ec8b8cbad795cd0b3679bf35);
  (3705120, 0x2027edb72b671f7011c8cc4c7a8b59c39b305093);
  (3713940, 0xbf8a1d516927c506ebdbb7b38bef2e992435435f);
  (3714132, 0xe8b77773d268b72c8d650337b8cce360bbe64779);
  (3714567, 0x45af59a8c2d7d4a606151ef5dae03d2dfe13fbdd);
  (3714588, 0xe64275443bdc82f104ac936486d367af8f6d1584);
  (4138790, 0xf65a3a788a2ef52406d8ba5705d7288be228403f);
  (5435426, 0x0b32538b2d22bd3146d54b6e3cb5ae8b9780e8a5)
].

Definition CHAIN_MAX_TIME_UNTIL_EXPIRATION : Z := 60 * 60.

Section transactions.
Context {CE : ChainEnv} {CI : CustomInterpreters} {TE : TransactionEnv}.

(** [transaction::id]: the first 20 bytes of the digest. *)
Definition tx_id (t : transaction) : Z := Z.shiftr (digest t) 96.

(** [get_signature_keys]: the keys must differ. *)
Fixpoint add_signature_keys (sigs : list Z) (d : Z) (result : gset Z) : res (gset Z) :=
  match sigs with
  | [] => Ok result
  | sg :: sigs =>
      let? k := signee_key sg d in
      do? rassert (bool_decide (k ∉ result)) (E_assert "Duplicate Signature detected") in
      add_signature_keys sigs d ({[k]} ∪ result)
  end.
Definition get_signature_keys (trx : signed_transaction) : res (gset Z) :=
  add_signature_keys (signatures trx) (sig_digest (tx trx)) ∅.

Definition authority_of (which : account_authority_object → authority) (s : database) (n : string) :
    res authority :=
  match authorities s !! n with
  | Some a => Ok (which a)
  | None => Err (E_not_found "account_authority")
  end.

(** [signed_transaction::verify_authority] on the state of the chain. *)
Definition tx_verify_authority (s : database) (trx : signed_transaction) : res unit :=
  let? keys := get_signature_keys trx in
  verify_authority (authority_of active s) (authority_of master s) (authority_of regular s)
    (required_authorities (operations (tx trx))) keys CHAIN_MAX_SIG_CHECK_DEPTH [] [] [].

(** A missing active authority is forgiven in the blocks of the list. *)
Definition check_authorities (s : database) (trx : signed_transaction) : res unit :=
  match tx_verify_authority s trx with
  | Err (E_tx_missing which accounts used) =>
      if bool_decide (which = "active"%string) &&
         bool_decide (u32 (head_block_number (dgpo s) + 1) ∈ shared_db_merkle.*1)
      then Ok tt
      else Err (E_tx_missing which accounts used)
  | r => r
  end.

(** The transaction refers to a block of this chain. *)
Definition check_tapos (t : transaction) : DB unit :=
  let* tapos_block_summary := get_in block_summaries "block_summary" (ref_block_num t) in
  sassert (ref_block_prefix t =? id_word1 tapos_block_summary) "ref_block_prefix".

Definition check_expiration (t : transaction) : DB unit :=
  let* now := head_block_time in
  do* sassert (expiration t <=? u32 (now + CHAIN_MAX_TIME_UNTIL_EXPIRATION)) "max_til_exp" in
  sassert (now <? expiration t) "trx.exp".

Definition _validate_transaction (trx : signed_transaction) (skip : Z) : DB unit :=
  do* swhen (negb (skips skip skip_validate_operations)) (slift (transaction_validate (tx trx))) in
  do* swhen (negb (skips skip (Z.lor skip_transaction_signatures skip_authority_check)))
    (let* s := sget in slift (check_authorities s trx)) in
  let* num := head_block_num in
  swhen (0 <? num)
    (do* swhen (negb (skips skip skip_tapos_check)) (check_tapos (tx trx)) in
     check_expiration (tx trx)).

(** ** Bandwidth *)

(** What is left of the average after [delta] seconds. *)
Definition decayed_bandwidth (delta average : Z) : res Z :=
  if CHAIN_BANDWIDTH_AVERAGE_WINDOW_SECONDS <? delta then Ok 0
  else
    let? q := wu_div (wu_mul (w := 128) (wide_i64 (CHAIN_BANDWIDTH_AVERAGE_WINDOW_SECONDS - delta))
                        (wide_i64 average)) (wide_i64 CHAIN_BANDWIDTH_AVERAGE_WINDOW_SECONDS) in
    to_share q.

(** The share of the bandwidth that is the account's. *)
Definition bandwidth_shares (a : account_object) (p : dynamic_global_property_object)
    (median : chain_properties) : res Z :=
  let? v := effective_vesting_shares a in
  let account_vshares := wide_i64 (amount v) in
  if account_vshares <? wide_i64 (amount (bandwidth_reserve_below median))
  then
    let? reserve := wu_div (wu_mul (w := 128) (wide_i64 (amount (total_vesting_shares p)))
                              (wide_i64 (bandwidth_reserve_percent median))) (wide_i64 CHAIN_100_PERCENT) in
    wu_div reserve (wide_i64 (bandwidth_reserve_candidates p))
  else
    wu_div (wu_mul (w := 128) account_vshares
              (wide_i64 (CHAIN_100_PERCENT - bandwidth_reserve_percent median)))
      (wide_i64 CHAIN_100_PERCENT).

Definition within_bandwidth (a : account_object) (p : dynamic_global_property_object)
    (median : chain_properties) : res bool :=
  let? account_vshares := bandwidth_shares a p median in
  Ok (wu_mul (w := 128) (wide_i64 (average_bandwidth a)) (wide_i64 (amount (total_vesting_shares p)))
        <? wu_mul (w := 128) account_vshares (max_virtual_bandwidth p)).

Definition charge_bandwidth (now trx_size : Z) (a : account_object) : res account_object :=
  let trx_bandwidth := trx_size * CHAIN_BANDWIDTH_PRECISION in
  let? left := decayed_bandwidth (now - last_bandwidth_update a) (average_bandwidth a) in
  let? new_bandwidth := safe_add left trx_bandwidth in
  let? lifetime := safe_add (lifetime_bandwidth a) trx_bandwidth in
  Ok (a <| average_bandwidth := new_bandwidth |> <| lifetime_bandwidth := lifetime |>
        <| last_bandwidth_update := now |>).

Definition update_account_bandwidth (n : string) (trx_size : Z) : DB bool :=
  let* p := get_dgpo in
  let* median := get_median_props in
  if 0 <? amount (total_vesting_shares p)
  then
    let* now := head_block_time in
    do* modify_account n (charge_bandwidth now trx_size) in
    let* a := get_account n in
    let* has_bandwidth := slift (within_bandwidth a p median) in
    let* producing := sgets is_producing in
    do* swhen producing
      (sassert has_bandwidth "Account exceeded maximum allowed bandwidth per vesting share.") in
    sret has_bandwidth
  else sret true.

Definition charge (n : string) (trx_size : Z) : DB unit :=
  let* r := update_account_bandwidth n trx_size in sret tt.

(** The bandwidth of a transaction, for one account. *)
Definition charge_transaction (trx_size : Z) (ops : list chain_operation) (n : string) : DB unit :=
  let* acnt := get_account n in
  do* charge n (u32 trx_size) in
  let* hf6 := has_hardfork 6 in
  swhen hf6 (sfor ops (λ op,
    swhen (is_data_operation op)
      (let* median := get_median_props in
       charge n (u32 (u64 (trx_size * data_operations_cost_additional_bandwidth median)
                        / CHAIN_100_PERCENT))))).

(** ** Applying a transaction *)

(** What comes before the operations: the checks, the bandwidth, the record. *)
Definition prepare_transaction (trx : signed_transaction) (skip : Z) : DB unit :=
  let id := tx_id (tx trx) in
  let* known := find_in transactions id in
  do* sassert (skips skip skip_transaction_dupe_check || bool_decide (known = None))
    "Duplicate transaction check failed" in
  do* _validate_transaction trx skip in
  let ops := operations (tx trx) in
  do* sfor (required_accounts ops) (charge_transaction (tx_pack_size trx) ops) in
  swhen (negb (skips skip skip_transaction_dupe_check))
    (create_in transactions "transaction" id (expiration (tx trx))).

(** [apply_op] is [apply_operation]; a proposal applies a transaction in turn. *)
Definition _apply_transaction (apply_op : chain_operation → DB unit)
    (trx : signed_transaction) (skip : Z) : DB unit :=
  do* prepare_transaction trx skip in sfor (operations (tx trx)) apply_op.

(** An undo session that is undone. *)
Definition dry_run (m : DB unit) : DB unit := λ s,
  match m s with Ok _ => Ok (tt, s) | Err e => Err e end.

Definition validate_transaction_steps : Z :=
  Z.lor (Z.lor skip_authority_check skip_transaction_signatures)
        (Z.lor skip_validate_operations skip_tapos_check).

Definition validate_transaction (apply_op : chain_operation → DB unit)
    (trx : signed_transaction) (skip : Z) : DB Z :=
  let todo := negb (Z.land skip validate_transaction_steps =? validate_transaction_steps) in
  do* swhen todo (_validate_transaction trx skip) in
  let skip := if todo then Z.lor skip validate_transaction_steps else skip in
  do* swhen (negb (skips skip skip_apply_transaction)) (dry_run (_apply_transaction apply_op trx skip)) in
  sret skip.

(** [detail::with_producing] *)
Definition with_producing (m : DB unit) : DB unit :=
  do* supd (λ s, s <| is_producing := true |>) in
  do* m in
  supd (λ s, s <| is_producing := false |>).

(** The state that [push_transaction] leaves for the next pending one. *)
Definition push_transaction (apply_op : chain_operation → DB unit)
    (trx : signed_transaction) (skip : Z) : DB unit :=
  let* p := get_dgpo in
  do* sassert (tx_pack_size trx <=? u32 (dgp_maximum_block_size p - 256)) "pack_size" in
  with_producing (_apply_transaction apply_op trx skip).

Definition is_known_transaction (id : Z) (s : database) : bool :=
  bool_decide (is_Some (transactions s !! id)).
End transactions.
