(* ===== verification/Proposals.v ===== *)
(** * Proposals (libraries/chain/proposal_evaluator.cpp, proposal_object.cpp,
      database_proposal_object.cpp, and [database::apply_operation])

    A proposal is a transaction that waits for approvals.  It is executed when
    an update gives it the last approval it needs, or when it expires.  The
    operations of a proposal can update another proposal and so execute it:
    [apply_chain_operation] recurses through the state, with fuel.  A failed
    execution is caught; running out of fuel is not an exception and is not. *)

From stdpp Require Import gmap strings list sorting.
From Stdlib Require Import ZArith Lia.
From S2P Require Import Prelude Fc Text Asset Authority SignState Operations ChainOperations.
From S2P Require Import Block ForkDb Objects Database Supply Frame Scenario EvalTransfer EvalAccount.
From S2P Require Import EvalGovern EvalAward EvalInvite Evaluators Duties Slots BlockData Irreversible.
From S2P Require Import Transactions.

Definition CHAIN_MAX_PROPOSAL_LIFETIME_SEC : Z := 60 * 60 * 24 * 7 * 4.
Definition CHAIN_MAX_PROPOSAL_DEPTH : Z := 2.

(** What [catch (fc::exception&)] catches: not undefined behaviour, the overflow
    of the stack or the limits of the model. *)
Definition is_exception (e : fc_error) : bool :=
  match e with E_undefined | E_recursion | E_unmodelled => false | _ => true end.

(** [try { m } catch (const fc::exception&) { handler }], where what [m] did is
    undone when it throws. *)
Definition try_catch {A} (m handler : DB A) : DB A := λ s,
  match m s with
  | Ok r => Ok r
  | Err e => if is_exception e then handler s else Err e
  end.

Section proposals.
Context {CE : ChainEnv} {CI : CustomInterpreters} {TE : TransactionEnv}.

Definition get_proposal (author title : string) : DB proposal_object :=
  get_in proposals "proposal" (author, title).

Definition proposal_verify_authority (s : database) (p : proposal_object)
    (active_approvals_to_add master_approvals_to_add regular_approvals_to_add : gset string) : res unit :=
  verify_authority (authority_of active s) (authority_of master s) (authority_of regular s)
    (required_authorities (proposed_operations p)) (available_key_approvals p) CHAIN_MAX_SIG_CHECK_DEPTH
    (elements (available_active_approvals p ∪ active_approvals_to_add))
    (elements (available_master_approvals p ∪ master_approvals_to_add))
    (elements (available_regular_approvals p ∪ regular_approvals_to_add)).

Definition is_authorized_to_execute (s : database) (p : proposal_object) : bool :=
  match proposal_verify_authority s p ∅ ∅ ∅ with
  | Ok _ | Err (E_tx_irrelevant_sig _) | Err (E_tx_irrelevant_approval _) => true
  | Err _ => false
  end.

Definition operation_approvals (o : proposal_update_operation) : gset string :=
  active_approvals_to_add o ∪ master_approvals_to_add o ∪ regular_approvals_to_add o.

(** The loop of [assert_irrelevant_proposal_authority]: [n] rounds are left; the
    approvals that are missing are added once per kind, to see whether what
    the operation adds is of use. *)
Fixpoint assert_irrelevant_loop (n : nat) (s : database) (p : proposal_object)
    (o : proposal_update_operation) (aa ma ra : gset string) (used_signatures : gset Z) : res unit :=
  match n with
  | O => Ok tt
  | S n =>
      match proposal_verify_authority s p aa ma ra with
      | Ok _ => Ok tt
      | Err e =>
          match e with
          | E_tx_missing which accounts used =>
              let missing : gset string := list_to_set accounts in
              let used_signatures := used_signatures ∪ list_to_set used in
              if bool_decide (which = "active"%string) then
                if bool_decide (aa = ∅) then assert_irrelevant_loop n s p o missing ma ra used_signatures
                else Err e
              else if bool_decide (which = "master"%string) then
                if bool_decide (ma = ∅) then assert_irrelevant_loop n s p o aa missing ra used_signatures
                else Err e
              else if bool_decide (which = "regular"%string) then
                if bool_decide (ra = ∅) then assert_irrelevant_loop n s p o aa ma missing used_signatures
                else Err e
              else Err e
          | E_tx_irrelevant_sig unused =>
              if existsb (λ k, bool_decide (k ∈ key_approvals_to_add o) && bool_decide (k ∉ used_signatures)) unused
              then Err e else Ok tt
          | E_tx_irrelevant_approval unused =>
              if existsb (λ a, bool_decide (a ∈ operation_approvals o)) unused then Err e else Ok tt
          | e => Err e
          end
      end
  end.

Definition assert_irrelevant_proposal_authority (o : proposal_update_operation) (p : proposal_object) :
    DB unit :=
  let* s := sget in slift (assert_irrelevant_loop 3 s p o ∅ ∅ ∅ ∅).

(** All accounts whose approval the proposal needs. *)
Definition required_total (p : proposal_object) : gset string :=
  required_active_approvals p ∪ required_master_approvals p ∪ required_regular_approvals p.

(** [database::remove(const proposal_object&)]; the reference must still be to
    an object of the table. *)
Definition remove_proposal (p : proposal_object) : DB unit :=
  let* stored := find_in proposals (prop_author p, prop_title p) in
  match stored with
  | Some q =>
      if prop_id q =? prop_id p then
        do* supd (λ s, s <| required_approvals ::=
          filter (λ r, ¬ (r.1 ∈ required_total q ∧ r.2 = prop_id q)) |>) in
        remove_in proposals (prop_author p, prop_title p)
      else sthrow E_undefined
  | None => sthrow E_undefined
  end.

(** [apply_op] is [apply_operation]. *)
Definition push_proposal (apply_op : chain_operation → DB unit) (p : proposal_object) : DB unit :=
  do* sfor (proposed_operations p) apply_op in
  remove_proposal p.

(** ** The evaluators *)

(** The accounts that must approve, by kind; a master approval implies the
    active one. *)
Definition required_sets (ops : list chain_operation) : gset string * gset string * gset string :=
  let required_master : gset string := list_to_set (ops ≫= get_required_master_authorities) in
  let required_active : gset string := list_to_set (ops ≫= get_required_active_authorities) in
  let required_regular : gset string := list_to_set (ops ≫= get_required_regular_authorities) in
  (required_active ∖ required_master, required_master, required_regular).

(** The new object and the index of the approvals it requires. *)
Definition store_proposal (o : proposal_create_operation chain_operation) : DB unit :=
  let r := required_sets (pc_proposed_operations o) in
  let* id := sgets next_proposal_id in
  do* create_in proposals "proposal" (pc_author o, pc_title o)
    (mk_proposal id (pc_author o) (pc_title o) (pc_memo o) (pc_expiration_time o)
       (pc_review_period_time o) (pc_proposed_operations o) r.1.1 ∅ r.1.2 ∅ r.2 ∅ ∅) in
  do* supd (λ s, s <| next_proposal_id := id + 1 |>) in
  sfor (elements (r.1.1 ∪ r.1.2 ∪ r.2)) (λ n,
    let* a := get_account n in
    supd (λ s, s <| required_approvals ::= union {[(n, id)]} |>)).

Definition proposal_create_apply (apply_op : chain_operation → DB unit) (depth : Z)
    (o : proposal_create_operation chain_operation) : DB unit :=
  let* producing := sgets is_producing in
  do* swhen producing (sassert (depth <=? CHAIN_MAX_PROPOSAL_DEPTH) "You can't create more nested proposals") in
  let* author := get_account (pc_author o) in
  let* known := find_in proposals (pc_author o, pc_title o) in
  do* sassert (bool_decide (known = None)) "Proposal already exists." in
  let* now := head_block_time in
  do* sassert (now <? pc_expiration_time o) "Proposal has already expired on creation." in
  do* sassert (pc_expiration_time o <=? u32 (now + CHAIN_MAX_PROPOSAL_LIFETIME_SEC))
    "Proposal expiration time is too far in the future." in
  do* sassert (match pc_review_period_time o with
               | Some t => (now <? t) && (t <? pc_expiration_time o)
               | None => true
               end) "Proposal review period" in
  let ops := pc_proposed_operations o in
  do* sassert (match ops ≫= get_other_authorities with [] => true | _ => false end) "other.size() == 0" in
  let r := required_sets ops in
  do* sassert (xorb (bool_decide (r.2 = ∅)) (bool_decide (r.1.1 ∪ r.1.2 = ∅)))
    "Can't combine operations required regular authority and active or master authority" in
  let total := r.1.1 ∪ r.1.2 ∪ r.2 in
  do* sfor (elements total) (λ n,
    let* a := find_account n in
    sassert (bool_decide (a ≠ None)) "Account for proposed operation doesn't exist") in
  do* sassert (negb (bool_decide (total = ∅))) "No operations require approvals" in
  let trx := mk_signed_transaction (mk_transaction 0 0 (u32 (now + CHAIN_MAX_TIME_UNTIL_EXPIRATION)) ops) [] in
  let skip_steps := Z.lor (Z.lor skip_authority_check skip_transaction_signatures)
                          (Z.lor skip_tapos_check skip_database_locking) in
  do* (let* r := validate_transaction apply_op trx skip_steps in sret tt) in
  store_proposal o.

(** The approvals after an update. *)
Definition update_approvals (o : proposal_update_operation) (p : proposal_object) : proposal_object :=
  p <| available_active_approvals ::= λ x, (x ∪ active_approvals_to_add o) ∖ active_approvals_to_remove o |>
    <| available_master_approvals ::= λ x, (x ∪ master_approvals_to_add o) ∖ master_approvals_to_remove o |>
    <| available_regular_approvals ::= λ x, (x ∪ regular_approvals_to_add o) ∖ regular_approvals_to_remove o |>
    <| available_key_approvals ::= λ x, (x ∪ key_approvals_to_add o) ∖ key_approvals_to_remove o |>.

(** The removed approvals exist, and the added ones do not. *)
Definition check_existing (o : proposal_update_operation) (p : proposal_object) : bool :=
  bool_decide (active_approvals_to_remove o ⊆ available_active_approvals p) &&
  bool_decide (master_approvals_to_remove o ⊆ available_master_approvals p) &&
  bool_decide (regular_approvals_to_remove o ⊆ available_regular_approvals p) &&
  bool_decide (key_approvals_to_remove o ⊆ available_key_approvals p).
Definition check_duplicate (o : proposal_update_operation) (p : proposal_object) : bool :=
  bool_decide (active_approvals_to_add o ## available_active_approvals p) &&
  bool_decide (master_approvals_to_add o ## available_master_approvals p) &&
  bool_decide (regular_approvals_to_add o ## available_regular_approvals p) &&
  bool_decide (key_approvals_to_add o ## available_key_approvals p).

Definition nothing_to_add (o : proposal_update_operation) : bool :=
  bool_decide (active_approvals_to_add o = ∅) && bool_decide (master_approvals_to_add o = ∅) &&
  bool_decide (regular_approvals_to_add o = ∅) && bool_decide (key_approvals_to_add o = ∅).
Definition no_approvals (p : proposal_object) : bool :=
  bool_decide (available_active_approvals p = ∅) && bool_decide (available_master_approvals p = ∅) &&
  bool_decide (available_regular_approvals p = ∅) && bool_decide (available_key_approvals p = ∅).

Definition proposal_update_apply (apply_op : chain_operation → DB unit) (depth : Z)
    (o : proposal_update_operation) : DB unit :=
  let* producing := sgets is_producing in
  do* swhen producing (sassert (depth <=? CHAIN_MAX_PROPOSAL_DEPTH) "You can't create more nested proposals") in
  let* proposal := get_proposal (pu_author o) (pu_title o) in
  let* now := head_block_time in
  let in_review := match prop_review_period_time proposal with Some t => t <=? now | None => false end in
  do* swhen in_review (sassert (nothing_to_add o) "This proposal is in its review period.") in
  do* sassert (check_existing o proposal) "Can't remove the non existing approval" in
  do* sassert (check_duplicate o proposal) "Can't add already exist approval" in
  do* modify_in proposals (pu_author o, pu_title o) (λ p, Ok (update_approvals o p)) in
  let* proposal := get_proposal (pu_author o) (pu_title o) in
  match prop_review_period_time proposal with
  | Some _ => swhen (in_review && no_approvals proposal) (remove_proposal proposal)
  | None =>
      do* assert_irrelevant_proposal_authority o proposal in
      let* s := sget in
      swhen (is_authorized_to_execute s proposal) (try_catch (push_proposal apply_op proposal) (sret tt))
  end.

Definition proposal_delete_apply (o : proposal_delete_operation) : DB unit :=
  let* proposal := get_proposal (pd_author o) (pd_title o) in
  do* sassert (bool_decide (prop_author proposal = pd_requester o) ||
               bool_decide (pd_requester o ∈ required_total proposal))
    "Provided authority is not authoritative for this proposal." in
  remove_proposal proposal.

(** [database::apply_operation] with its evaluators; [create_depth] and
    [update_depth] are the [depth_] of the two evaluators. *)
Fixpoint apply_chain_operation (fuel : nat) (create_depth update_depth : Z) (op : chain_operation) : DB unit :=
  match op with
  | op_plain o => apply_operation o
  | op_proposal_create o =>
      match fuel with
      | O => sthrow E_recursion
      | S fuel =>
          proposal_create_apply (apply_chain_operation fuel (create_depth + 1) update_depth)
            (create_depth + 1) o
      end
  | op_proposal_update o =>
      match fuel with
      | O => sthrow E_recursion
      | S fuel =>
          proposal_update_apply (apply_chain_operation fuel create_depth (update_depth + 1))
            (update_depth + 1) o
      end
  | op_proposal_delete o => proposal_delete_apply o
  end.

(** ** The end of proposals *)

(** [by_expiration]: equal times in the order of creation. *)
Definition by_expiration : relation proposal_object := λ p q,
  prop_expiration_time p < prop_expiration_time q ∨
  (prop_expiration_time p = prop_expiration_time q ∧ prop_id p ≤ prop_id q).
#[export] Instance by_expiration_dec : RelDecision by_expiration.
Proof. unfold by_expiration. intros p q. apply _. Defined.

Definition first_to_expire (s : database) : option proposal_object :=
  head (merge_sort by_expiration (map_to_list (proposals s)).*2).

Fixpoint clear_expired_loop (apply_op : chain_operation → DB unit) (n : nat) : DB unit :=
  match n with
  | O => sret tt
  | S n =>
      let* first := sgets first_to_expire in
      let* now := head_block_time in
      match first with
      | Some p =>
          if prop_expiration_time p <=? now then
            do* (let* s := sget in
                 if is_authorized_to_execute s p
                 then try_catch (push_proposal apply_op p) (remove_proposal p)
                 else remove_proposal p) in
            clear_expired_loop apply_op n
          else sret tt
      | None => sret tt
      end
  end.

(** Every round removes the first proposal, so as many rounds as there are
    proposals are enough. *)
Definition clear_expired_proposals (fuel : nat) : DB unit :=
  let* n := sgets (λ s, size (proposals s)) in
  clear_expired_loop (apply_chain_operation fuel 0 0) n.
End proposals.
