(* ===== verification/ApplyBlock.v ===== *)
(** * Applying a block (libraries/chain/database.cpp, lines 1445-1482,
      5317-5486, 5558-5645, 6831-6850 and the hardforks)

    [_apply_block] checks a block against the chain and its header, applies its
    transactions, and then runs the duties that every block has, in the order
    of the source.  The chain is one past hardfork 9: the content that earlier
    hardforks paid out is gone, and the one-time migrations of hardforks 1 to 9
    are not modelled.  The notifications of plugins are left out. *)

From stdpp Require Import gmap strings list sorting.
From Stdlib Require Import ZArith Lia.
From S2P Require Import Prelude Fc Text Asset Authority SignState Operations ChainOperations.
From S2P Require Import Block ForkDb Objects Database Supply Frame Scenario EvalTransfer EvalAccount.
From S2P Require Import EvalGovern EvalAward EvalInvite Evaluators Funds Duties Withdrawals Auctions Renewals.
From S2P Require Import Slots BlockData Irreversible PostValidation Schedule Transactions Proposals.

(** Recovering the key that signed a block, and the orders of the two indexes
    that the state does not determine. *)
Class BlockEnv := {
  signee : signed_block → res Z;                     (* signed_block_header::signee *)
  auction_index : database → list string;
  subscription_index : database → list subscription;
  auction_index_ok s : auction_order s (auction_index s);
  subscription_index_ok s : subscription_order s (subscription_index s)
}.

Definition CHAIN_BLOCKS_PER_HOUR : Z := 60 * 60 / CHAIN_BLOCK_INTERVAL.
Definition CHAIN_BANDWIDTH_RESERVE_ACTIVE_TIME : Z := 30 * 86400.
Definition CHAIN_NUM_HARDFORKS : Z := 13.

(** [_hardfork_versions] and [_hardfork_times]; the first time is the genesis'. *)
Definition hardfork_versions : list Z :=
  [version 1 0 0; version 1 1 0; version 1 2 0; version 1 3 0; version 2 0 0; version 2 1 0; version 2 2 0;
   version 2 3 0; version 2 4 0; version 2 5 0; version 2 6 0; version 3 0 0; version 3 1 0; version 3 2 0].
Definition hardfork_times : list Z :=
  [0; 1538647200; 1538906400; 1540497600; 1547460000; 1550656800; 1555236000; 1556359200; 1556600400;
   1589173200; 1638162000; 1691643600; 1776620500; 1778961600].

(** [hardfork_version] keeps the upper half of a version. *)
Definition to_hardfork_version (v : Z) : Z := Z.land v 0xFFFF0000.

Section apply_block.
Context {CE : ChainEnv} {CI : CustomInterpreters} {TE : TransactionEnv} {FA : FreshArrays} {BE : BlockEnv}.

(** ** Checks *)

Definition check_merkle (b : signed_block) : res unit :=
  let? merkle_root := calculate_merkle_root b in
  if transaction_merkle_root b =? merkle_root then Ok tt
  else
    match list_find (λ p, p.1 = block_num b) shared_db_merkle with
    | Some (_, (_, root)) => rassert (root =? merkle_root) (E_assert "Merkle check failed")
    | None => Err (E_assert "Merkle check failed")
    end.

Definition _validate_block (b : signed_block) (skip : Z) : DB unit :=
  do* swhen (negb (skips skip skip_merkle_check)) (slift (check_merkle b)) in
  let* p := get_dgpo in
  swhen (negb (skips skip skip_block_size_check))
    (sassert (pack_size b <=? dgp_maximum_block_size p) "Block Size is too Big").

(** The signature of the block by the key of its validator. *)
Definition check_signee (b : signed_block) : DB unit :=
  let* w := get_validator (validator b) in
  do* sassert (negb (signing_key w =? 0)) "Validator has null signing key" in
  let* k := slift (signee b) in
  sassert (k =? signing_key w) "validate_signee".

(** The turn of the validator; in an emergency any validator of the schedule
    may take any slot. *)
Definition check_turn (b : signed_block) : DB unit :=
  let* slot_num := sgets (λ s, get_slot_at_time s (timestamp b)) in
  do* sassert (0 <? slot_num) "slot_num > 0" in
  let* scheduled_validator := get_scheduled_validator slot_num in
  let* emergency := sgets emergency_mode in
  let* names := sgets scheduled in
  let* wso := sgets schedule in
  swhen (negb (bool_decide (validator b = scheduled_validator)))
    (if emergency
     then if bool_decide (validator b ∈ names) then sret tt
          else if Z.of_nat (length names) =? num_scheduled_validators wso
          then sthrow (E_assert "Emergency mode: block from validator not in current schedule")
          else sthrow E_undefined
     else sthrow E_wrong_scheduled_validator).

Definition validate_block_header (skip : Z) (b : signed_block) : DB string :=
  let* p := get_dgpo in
  do* sassert (head_block_id p =? previous b) "head_block_id" in
  do* sassert (time p <? timestamp b) "head_block_time" in
  let* w := get_validator (validator b) in
  do* swhen (negb (skips skip skip_validator_signature)) (check_signee b) in
  do* swhen (negb (skips skip skip_validator_schedule_check)) (check_turn b) in
  sret (validator b).

(** ** The header's extensions *)

Definition process_extension (b : signed_block) (e : block_header_extension) : DB unit :=
  match e with
  | ext_void => sret tt
  | ext_version reported_version =>
      let* w := get_validator (validator b) in
      swhen (negb (reported_version =? running_version w))
        (modify_validator (validator b) (λ w, Ok (w <| running_version := reported_version |>)))
  | ext_hardfork_version_vote v t =>
      let* w := get_validator (validator b) in
      swhen (negb (v =? hardfork_version_vote w) || negb (t =? hardfork_time_vote w))
        (modify_validator (validator b) (λ w,
           Ok (w <| hardfork_version_vote := to_hardfork_version v |> <| hardfork_time_vote := t |>)))
  end.
Definition process_header_extensions (b : signed_block) : DB unit :=
  sfor (extensions b) (process_extension b).

(** ** Duties that are not in files of their own *)

Definition create_block_summary (b : signed_block) : DB unit :=
  let sid := Z.land (block_num b) 0xffff in
  let* summary := get_in block_summaries "block_summary" sid in
  modify_in block_summaries sid (λ _, Ok (block_id b)).

(** Whether an account may use the reserve of the bandwidth. *)
Definition uses_reserve (s : database) (a : account_object) : res bool :=
  let? v := effective_vesting_shares a in
  Ok ((amount v <? amount (bandwidth_reserve_below (median_props (schedule s)))) &&
      (time (dgpo s) <=? u32 (last_bandwidth_update a + CHAIN_BANDWIDTH_RESERVE_ACTIVE_TIME))).
Fixpoint count_reserve (s : database) (l : list account_object) : res Z :=
  match l with
  | [] => Ok 1
  | a :: l =>
      let? b := uses_reserve s a in
      let? n := count_reserve s l in
      Ok (if b : bool then u32 (n + 1) else n)
  end.
Definition update_bandwidth_reserve_candidates : DB unit :=
  let* num := head_block_num in
  swhen (num mod CHAIN_BLOCKS_PER_HOUR =? 0)
    (let* s := sget in
     let* n := slift (count_reserve s (map_to_list (accounts s)).*2) in
     modify_dgpo (λ p, Ok (p <| bandwidth_reserve_candidates := n |>))).

(** ** Hardforks *)

(** What a hardfork changes in the state, from hardfork 10 on. *)
Definition migrate (hardfork : Z) : DB unit :=
  if hardfork <? 10 then sthrow E_unmodelled
  else if hardfork =? 11 then supd (λ s, s <| accounts ::= fmap (λ a, a <| valid := true |>) |>)
  else sret tt.

Definition enter_hardfork (hardfork : Z) (hfp : hardfork_property_object) : res hardfork_property_object :=
  do? rassert (hardfork =? last_hardfork hfp + 1) (E_assert "Hardfork being applied out of order") in
  do? rassert (Z.of_nat (length (processed_hardfork_times hfp)) =? hardfork)
    (E_assert "Hardfork being applied out of order") in
  let? t := res_of_option (hardfork_times !! Z.to_nat hardfork) E_undefined in
  let? v := res_of_option (hardfork_versions !! Z.to_nat hardfork) E_undefined in
  Ok (hfp <| processed_hardfork_times ::= λ l, l ++ [t] |> <| last_hardfork := hardfork |>
          <| current_hardfork_version := v |>).

Definition apply_hardfork (hardfork : Z) : DB unit :=
  do* migrate hardfork in
  let* hfp := sgets hardforks in
  let* hfp := slift (enter_hardfork hardfork hfp) in
  do* supd (λ s, s <| hardforks := hfp |>) in
  push_virtual_operation (hardfork_operation hardfork).

Fixpoint process_hardforks_loop (fuel : nat) : DB unit :=
  match fuel with
  | O => sthrow E_undefined
  | S fuel =>
      let* hfp := sgets hardforks in
      let* now := head_block_time in
      let* v := slift (res_of_option (hardfork_versions !! Z.to_nat (last_hardfork hfp)) E_undefined) in
      swhen ((v <? next_hardfork hfp) && (next_hardfork_time hfp <=? now))
        (if last_hardfork hfp <? CHAIN_NUM_HARDFORKS
         then do* apply_hardfork (last_hardfork hfp + 1) in process_hardforks_loop fuel
         else sthrow E_unknown_hardfork)
  end.

(** Every round but the last applies one of the hardforks. *)
Definition process_hardforks : DB unit :=
  let* hfp := sgets hardforks in
  process_hardforks_loop (Z.to_nat (CHAIN_NUM_HARDFORKS - last_hardfork hfp + 2)).

(** ** A block *)

(** [next_block_num == 1]: the time of the genesis is known. *)
Definition set_genesis_time (b : signed_block) : DB unit :=
  let t := u32 (timestamp b - CHAIN_BLOCK_INTERVAL) in
  do* modify_dgpo (λ p, Ok (p <| genesis_time := t |>)) in
  supd (λ s, s <| hardforks ::= λ h, h <| processed_hardfork_times ::= <[0%nat := t]> |> |>).

(** Everything before the transactions. *)
Definition open_block (b : signed_block) (skip : Z) : DB unit :=
  do* _validate_block b skip in
  do* (let* w := validate_block_header skip b in sret tt) in
  do* modify_dgpo (λ p, Ok (p <| current_validator := validator b |>)) in
  do* swhen (block_num b =? 1) (set_genesis_time b) in
  do* process_header_extensions b in
  let* w := get_validator (validator b) in
  let* hfp := sgets hardforks in
  sassert (current_hardfork_version hfp <=? running_version w)
    "Block produced by validator that is not running current hardfork".

(** The head moves to the block. *)
Definition advance_head (b : signed_block) (skip : Z) : DB unit :=
  do* update_global_dynamic_data b (skips skip skip_undo_history_check) in
  do* update_signing_validator (validator b) b in
  do* update_last_irreversible_block (skips skip skip_block_log) in
  create_block_summary b.

(** What is cleared, scheduled and paid after the head has moved. *)
Definition clear_and_schedule (fuel : nat) : DB unit :=
  do* clear_expired_proposals fuel in
  do* clear_expired_transactions in
  do* clear_expired_delegations in
  let* hf9 := has_hardfork 9 in
  do* swhen hf9 (do* clear_used_invites in clear_closed_committee_requests) in
  do* update_bandwidth_reserve_candidates in
  update_validator_schedule.

(** A loop that came to its end; else the code would not return. *)
Definition ended (loop : DB bool) : DB unit :=
  let* r := loop in if r : bool then sret tt else sthrow E_recursion.

Definition pay_and_settle : DB unit :=
  let* hf4 := has_hardfork 4 in
  do* swhen hf4 (do* process_inflation_recalc in expire_award_shares_processing) in
  do* process_funds in
  let* hf13 := has_hardfork 13 in
  do* swhen hf13 process_validator_epoch_distribution in
  do* ended process_vesting_withdrawals in
  do* account_recovery_processing in
  do* expire_escrow_ratification in
  let* hf11 := has_hardfork 11 in
  do* swhen hf11 (let* order := sgets auction_index in account_on_auction_expiration order) in
  do* clear_null_account_balance in
  do* clear_anonymous_account_balance in
  do* claim_committee_account_balance in
  do* committee_processing in
  let* order := sgets subscription_index in
  ended (paid_subscribe_processing order).

(** [fuel] bounds the recursion of proposals. *)
Definition _apply_block (fuel : nat) (b : signed_block) (skip : Z) : DB unit :=
  do* open_block b skip in
  do* sfor (Block.transactions b) (λ trx, _apply_transaction (apply_chain_operation fuel 0 0) trx skip) in
  do* advance_head b skip in
  do* clear_and_schedule fuel in
  do* pay_and_settle in
  do* process_hardforks in
  do* check_block_post_validation_chain in
  create_block_post_validation (block_num b) (block_id b) (validator b).
End apply_block.
