(* ===== verification/Backdrop.v ===== *)
(** * What operations leave alone

    No operation moves the head of the chain or touches the transaction index,
    the block summaries, the hardforks, the fork database, the block log or
    the producing flag; the operations of [Operations.v] leave the proposals
    alone too. *)

From stdpp Require Import gmap strings list sorting.
From Stdlib Require Import ZArith Lia.
From S2P Require Import Prelude Fc Text Asset Authority SignState Operations ChainOperations.
From S2P Require Import Block ForkDb Objects Database Supply Frame EvalTransfer EvalAccount.
From S2P Require Import EvalGovern EvalAward EvalInvite Evaluators Duties Transactions Proposals.

(** The head of the chain and what belongs to it. *)
Definition clock (s : database) :=
  (is_producing s, time (dgpo s), head_block_number (dgpo s), head_block_id (dgpo s),
   (last_irreversible_block_num (dgpo s), block_summaries s, hardforks s, fork_db s, block_log s)).

Definition backdrop (s : database) :=
  (clock s, transactions s, (proposals s, required_approvals s, next_proposal_id s)).

Lemma leaves_part {X Y A} (P : database → X) (f : X → Y) (m : DB A) :
  leaves P m → leaves (λ s, f (P s)) m.
Proof. intros H s r s' Hm. by rewrite (H _ _ _ Hm). Qed.

Lemma leaves_dry_run {X} (P : database → X) (m : DB unit) : leaves P (dry_run m).
Proof. intros s r s' H. unfold dry_run in H. destruct (m s) as [[]|]; naive_solver. Qed.

Lemma leaves_try_catch {X A} (P : database → X) (m h : DB A) :
  leaves P m → leaves P h → leaves P (try_catch m h).
Proof.
  intros Hm Hh s r s' H. unfold try_catch in H.
  destruct (m s) as [[? ?]|e] eqn:E; [injection H as <- <-; by eapply Hm|].
  destruct (is_exception e); [by eapply Hh|done].
Qed.
#[export] Hint Resolve leaves_dry_run leaves_try_catch : leaves.

Section backdrop.
Context {CE : ChainEnv} {CI : CustomInterpreters} {TE : TransactionEnv}.

Lemma leaves_adjust_voted a d : leaves backdrop (adjust_voted a d).
Proof. solve_leaves. Qed.

Lemma leaves_adjust_validator_votes a d : leaves backdrop (adjust_validator_votes a d).
Proof. solve_leaves. Qed.
#[local] Hint Resolve leaves_adjust_voted leaves_adjust_validator_votes : leaves.

Lemma leaves_proxied_array left n l : leaves backdrop (adjust_proxied_validator_votes_array left n l).
Proof. revert n l. induction left; intros; cbn [adjust_proxied_validator_votes_array]; solve_leaves. Qed.

Lemma leaves_proxied_at left n l : leaves backdrop (adjust_proxied_validator_votes_at left n l).
Proof. revert n l. induction left; intros; cbn [adjust_proxied_validator_votes_at]; solve_leaves. Qed.

Lemma leaves_pay i x l t : leaves backdrop (pay_beneficiaries i x l t).
Proof.
  revert t. induction l; intros; cbn [pay_beneficiaries]; solve_leaves;
    by apply leaves_proxied_at.
Qed.

Lemma leaves_chain f c x : leaves backdrop (check_proxy_chain f c x).
Proof. revert c x. induction f; intros; cbn [check_proxy_chain]; solve_leaves. Qed.
#[local] Hint Resolve leaves_proxied_array leaves_proxied_at leaves_pay leaves_chain : leaves.

Lemma leaves_custom o : leaves backdrop (custom_apply o).
Proof.
  unfold custom_apply. apply leaves_bind; [solve_leaves|intros _].
  apply leaves_bind; [solve_leaves|intros _].
  destruct (get_custom_evaluator _) as [eval|] eqn:He; [|solve_leaves]. intros s r s' H.
  destruct (eval o s) as [[? ?]|] eqn:E; [|by destruct (is_producing s); naive_solver].
  injection H as <- <-. by erewrite (custom_own_tables _ _ _ _ _ _ He) by done.
Qed.
#[local] Hint Resolve leaves_custom : leaves.

Lemma leaves_apply_operation op : leaves backdrop (apply_operation op).
Proof. destruct op; cbn [apply_operation]; solve_leaves. Qed.
End backdrop.
