(* ===== verification/ProposalsProofs.v ===== *)
(** * Properties of proposals

    When proposals execute and what an update can do; termination of the
    recursion while a transaction is pushed, and its absence in a block;
    conservation of tokens; the end of expired proposals. *)

From stdpp Require Import gmap strings list sorting.
From Stdlib Require Import ZArith Lia.
From S2P Require Import Prelude Fc Text Asset Authority SignState Operations ChainOperations.
From S2P Require Import Block ForkDb Objects Database Supply Frame Scenario EvalTransfer EvalAccount.
From S2P Require Import EvalGovern EvalAward EvalInvite Evaluators Duties Slots BlockData Irreversible.
From S2P Require Import Transactions Proposals Backdrop.

(** The head of the chain and the transaction index. *)
Definition ledger (s : database) := (clock s, transactions s).

Section clock.
Context {CE : ChainEnv} {CI : CustomInterpreters} {TE : TransactionEnv}.

Lemma leaves_ledger_plain op : leaves ledger (apply_operation op).
Proof. exact (leaves_part backdrop fst _ (leaves_apply_operation op)). Qed.
#[local] Hint Resolve leaves_ledger_plain : leaves.

Lemma leaves_push_proposal {X} (P : database → X) g p :
  (∀ op, leaves P (g op)) → leaves P (remove_proposal p) → leaves P (push_proposal g p).
Proof. intros Hg Hr. apply leaves_bind; [|done]. by apply leaves_for. Qed.

Lemma leaves_remove_proposal p : leaves ledger (remove_proposal p).
Proof. solve_leaves. Qed.
#[local] Hint Resolve leaves_remove_proposal : leaves.

Lemma leaves_create g d o : (∀ op, leaves ledger (g op)) → leaves ledger (proposal_create_apply g d o).
Proof. intros Hg. unfold proposal_create_apply, validate_transaction. solve_leaves. Qed.

Lemma leaves_update g d o : (∀ op, leaves ledger (g op)) → leaves ledger (proposal_update_apply g d o).
Proof.
  intros Hg. unfold proposal_update_apply. solve_leaves.
  apply leaves_try_catch; [by apply leaves_push_proposal; [|solve_leaves]|solve_leaves].
Qed.

Lemma leaves_chain_operation fuel c d op : leaves ledger (apply_chain_operation fuel c d op).
Proof.
  revert c d op. induction fuel as [|fuel IH]; intros c d [o|o|o|o]; cbn [apply_chain_operation];
    try solve [solve_leaves | by apply leaves_create | by apply leaves_update].
Qed.
End clock.

(** ** While a transaction is pushed, the recursion is bounded *)

(** The computations do the same in the states where the flag is set. *)
Definition same_producing {A} (m m' : DB A) : Prop := ∀ s, is_producing s = true → m s = m' s.

Lemma same_refl {A} (m : DB A) : same_producing m m.
Proof. by intros s. Qed.

Lemma same_bind {A B} (m m' : DB A) (k k' : A → DB B) :
  same_producing m m' → leaves is_producing m → (∀ a, same_producing (k a) (k' a)) →
  same_producing (sbind m k) (sbind m' k').
Proof.
  intros Hm Hl Hk s Hs. unfold sbind. rewrite <- Hm by done.
  destruct (m s) as [[a s1]|e] eqn:E; [|done]. apply Hk. by rewrite (Hl _ _ _ E).
Qed.

Lemma same_for {A} (l : list A) (g h : A → DB unit) :
  (∀ x, same_producing (g x) (h x)) → (∀ x, leaves is_producing (g x)) →
  same_producing (sfor l g) (sfor l h).
Proof. intros Hs Hl. induction l as [|x l IH]; cbn [sfor]; [done|]. by apply same_bind. Qed.

Lemma same_when b (m m' : DB unit) : same_producing m m' → same_producing (swhen b m) (swhen b m').
Proof. by destruct b. Qed.

Lemma same_dry_run (m m' : DB unit) : same_producing m m' → same_producing (dry_run m) (dry_run m').
Proof. intros H s Hs. unfold dry_run. by rewrite H. Qed.

Lemma same_try_catch {A} (m m' h : DB A) : same_producing m m' → same_producing (try_catch m h) (try_catch m' h).
Proof. intros H s Hs. unfold try_catch. by rewrite H. Qed.

(** Descends into a computation that is the same on both sides up to a part
    that is the same while producing. *)
Ltac same_step :=
  match goal with
  | |- same_producing ?m ?m' => constr_eq m m'; exact (same_refl m)
  | |- same_producing (sbind _ _) _ => apply same_bind; [|try solve [solve_leaves]|intros ?]
  | |- same_producing (swhen _ _) _ => apply same_when
  | |- same_producing (sfor _ _) _ => apply same_for; intros ?
  | |- same_producing (dry_run _) _ => apply same_dry_run
  | |- same_producing (try_catch _ _) _ => apply same_try_catch
  | |- same_producing (match ?x with _ => _ end) _ => destruct x
  end.

Lemma sbind_ext {A B} (m : DB A) (k k' : A → DB B) s :
  (∀ a s1, k a s1 = k' a s1) → sbind m k s = sbind m k' s.
Proof. intros H. unfold sbind. by destruct (m s) as [[? ?]|]. Qed.

Lemma sbind_supd {B} (f : database → database) (k : unit → DB B) s : sbind (supd f) k s = k tt (f s).
Proof. done. Qed.

Section producing.
Context {CE : ChainEnv} {CI : CustomInterpreters} {TE : TransactionEnv}.

Lemma leaves_producing_ledger {A} (m : DB A) : leaves ledger m → leaves is_producing m.
Proof. intros H. exact (leaves_part ledger (λ l, l.1.1.1.1.1) m H). Qed.

Lemma leaves_prepare trx skip : leaves clock (prepare_transaction trx skip).
Proof. unfold prepare_transaction, _validate_transaction. solve_leaves. Qed.

Lemma leaves_producing_prepare trx skip : leaves is_producing (prepare_transaction trx skip).
Proof. exact (leaves_part clock (λ c, c.1.1.1.1) _ (leaves_prepare trx skip)). Qed.
#[local] Hint Resolve leaves_producing_prepare : leaves.

Lemma leaves_producing_chain fuel c d op : leaves is_producing (apply_chain_operation fuel c d op).
Proof. exact (leaves_producing_ledger _ (leaves_chain_operation fuel c d op)). Qed.
#[local] Hint Resolve leaves_producing_chain : leaves.

Section agree.
Context (g h : chain_operation → DB unit).
Hypothesis (Hgh : ∀ op, same_producing (g op) (h op)) (Hg : ∀ op, leaves is_producing (g op)).

Lemma same_push p : same_producing (push_proposal g p) (push_proposal h p).
Proof. unfold push_proposal. repeat same_step; auto. Qed.

Lemma same_transaction trx skip : same_producing (_apply_transaction g trx skip) (_apply_transaction h trx skip).
Proof. unfold _apply_transaction. repeat same_step; auto. Qed.

Lemma same_validate trx skip :
  same_producing (validate_transaction g trx skip) (validate_transaction h trx skip).
Proof.
  unfold validate_transaction. cbv zeta. generalize (negb (Z.land skip validate_transaction_steps =?
    validate_transaction_steps)); intros todo.
  repeat same_step; try apply same_transaction.
Qed.

Lemma same_create d o : same_producing (proposal_create_apply g d o) (proposal_create_apply h d o).
Proof.
  unfold proposal_create_apply. cbv zeta. repeat same_step; try apply same_validate.
Qed.

Lemma same_update d o : same_producing (proposal_update_apply g d o) (proposal_update_apply h d o).
Proof. unfold proposal_update_apply. repeat same_step. apply same_push. Qed.
End agree.

(** The guard on the depth: what comes after it matters only where it holds. *)
Lemma same_guard d msg (k k' : DB unit) :
  (d ≤ CHAIN_MAX_PROPOSAL_DEPTH → same_producing k k') →
  let guard (k : DB unit) := sbind (sgets is_producing) (λ producing,
    sbind (swhen producing (sassert (d <=? CHAIN_MAX_PROPOSAL_DEPTH) msg)) (λ _, k)) in
  same_producing (guard k) (guard k').
Proof.
  intros Hk guard s Hs. unfold guard, sbind, sgets. rewrite Hs. cbn [swhen]. unfold sassert.
  destruct (Z.leb_spec d CHAIN_MAX_PROPOSAL_DEPTH); [by apply Hk|done].
Qed.

Lemma create_too_deep g h d o :
  CHAIN_MAX_PROPOSAL_DEPTH < d → same_producing (proposal_create_apply g d o) (proposal_create_apply h d o).
Proof. intros Hd. apply same_guard. lia. Qed.

Lemma update_too_deep g h d o :
  CHAIN_MAX_PROPOSAL_DEPTH < d → same_producing (proposal_update_apply g d o) (proposal_update_apply h d o).
Proof. intros Hd. apply same_guard. lia. Qed.

(** The levels that are left. *)
Definition levels (c d : Z) : Z := (CHAIN_MAX_PROPOSAL_DEPTH + 1 - c) + (CHAIN_MAX_PROPOSAL_DEPTH + 1 - d).

Lemma same_fuel fuel fuel' c d op :
  c ≤ CHAIN_MAX_PROPOSAL_DEPTH → d ≤ CHAIN_MAX_PROPOSAL_DEPTH →
  levels c d ≤ Z.of_nat fuel → levels c d ≤ Z.of_nat fuel' →
  same_producing (apply_chain_operation fuel c d op) (apply_chain_operation fuel' c d op).
Proof.
  unfold levels. revert fuel' c d op. induction fuel as [|fuel IH]; intros fuel' c d op Hc Hd Hf Hf'; [lia|].
  destruct fuel' as [|fuel']; [lia|].
  destruct op as [o|o|o|o]; cbn [apply_chain_operation]; [done| | |done].
  - destruct (Z_le_gt_dec (c + 1) CHAIN_MAX_PROPOSAL_DEPTH); [|apply create_too_deep; lia].
    apply same_create; [intros op; apply IH; lia|].
    intros op. exact (leaves_producing_chain _ _ _ op).
  - destruct (Z_le_gt_dec (d + 1) CHAIN_MAX_PROPOSAL_DEPTH); [|apply update_too_deep; lia].
    apply same_update; [intros op; apply IH; lia|].
    intros op. exact (leaves_producing_chain _ _ _ op).
Qed.

Lemma pushed_same k trx skip :
  same_producing (_apply_transaction (apply_chain_operation (6 + k) 0 0) trx skip)
    (_apply_transaction (apply_chain_operation 6 0 0) trx skip).
Proof.
  apply same_transaction; intros op.
  - apply same_fuel; unfold levels, CHAIN_MAX_PROPOSAL_DEPTH; lia.
  - exact (leaves_producing_chain _ _ _ op).
Qed.

(** When a transaction is pushed to a node, its proposals
    nest at most [CHAIN_MAX_PROPOSAL_DEPTH] deep in each of the two
    evaluators, so a recursion of depth six is always enough: more fuel
    changes neither the result nor the state. *)
Theorem pushed_recursion_bounded k trx skip s :
  push_transaction (apply_chain_operation (6 + k) 0 0) trx skip s =
  push_transaction (apply_chain_operation 6 0 0) trx skip s.
Proof.
  unfold push_transaction. apply sbind_ext. intros p s1. apply sbind_ext. intros _ s2.
  unfold with_producing. rewrite !sbind_supd.
  apply (same_bind _ _ _ _ (pushed_same k trx skip)); [|done|done].
  unfold _apply_transaction. solve_leaves.
Qed.
End producing.
