(* ===== verification/ProposalsTrap.v ===== *)
(** * Two proposals that execute each other

    Each of two proposals takes back an approval of the other one and gives it
    again, which executes the other.  While a transaction is pushed the limit
    on the depth stops this; in a block nothing does, as the limit is checked
    only by a node that is pushing ([is_producing]). *)

From stdpp Require Import gmap strings list sorting.
From Stdlib Require Import ZArith Lia.
From S2P Require Import Prelude Fc Text Asset Authority SignState Operations ChainOperations.
From S2P Require Import Block ForkDb Objects Database Supply Frame Scenario EvalTransfer EvalAccount.
From S2P Require Import EvalGovern EvalAward EvalInvite Evaluators Duties Slots BlockData Irreversible.
From S2P Require Import Transactions Proposals Backdrop ProposalsProofs.

(** ** One step of the recursion *)

Section step.
Context {CE : ChainEnv} {CI : CustomInterpreters} {TE : TransactionEnv}.

(** What an update does outside of pushing, to a proposal without review. *)
Lemma update_step g d o s p :
  is_producing s = false → proposals s !! (pu_author o, pu_title o) = Some p →
  prop_review_period_time p = None → check_existing o p = true → check_duplicate o p = true →
  let p' := update_approvals o p in
  let s' := s <| proposals ::= <[(pu_author o, pu_title o) := p']> |> in
  assert_irrelevant_loop 3 s' p' o ∅ ∅ ∅ ∅ = Ok tt →
  proposal_update_apply g d o s =
  swhen (is_authorized_to_execute s' p') (try_catch (push_proposal g p') (sret tt)) s'.
Proof.
  intros Hs Hp Hr He Hd p' s' Hi. unfold proposal_update_apply, sbind at 1, sgets. rewrite Hs.
  cbn [swhen]. unfold sbind at 1, sret at 1. unfold sbind at 1, get_proposal, get_in at 1. rewrite Hp.
  unfold sbind at 1, head_block_time, sgets. rewrite Hr. cbn [swhen]. unfold sbind at 1, sret at 1.
  rewrite He, Hd. unfold sbind at 1, sassert at 1. unfold sbind at 1, sassert at 1.
  unfold sbind at 1, modify_in. rewrite Hp. fold p' s'. unfold sbind at 1, get_in.
  assert (proposals s' !! (pu_author o, pu_title o) = Some p') as -> by apply lookup_insert_eq.
  assert (prop_review_period_time p' = None) as -> by done.
  unfold sbind at 1, assert_irrelevant_proposal_authority, sbind at 1, sget at 1, slift. by rewrite Hi.
Qed.

Lemma try_catch_recursion {A} (m h : DB A) s : m s = Err E_recursion → try_catch m h s = Err E_recursion.
Proof. unfold try_catch. by intros ->. Qed.
End step.

(** ** The trap *)

(** The identifier of a transaction is its expiration, and a signature its key. *)
Definition test_tx_env : TransactionEnv := {|
  digest t := Z.shiftl (expiration t) 96; sig_digest t := 0;
  signee_key sg d := Ok sg; tx_pack_size t := 200 |}.

#[local] Existing Instance test_env.
#[local] Existing Instance no_interpreters.
#[local] Existing Instance test_tx_env.

Definition approval (title : string) (add remove : gset string) : proposal_update_operation :=
  mk_proposal_update "alice" title add remove ∅ ∅ ∅ ∅ ∅ ∅.
Definition withdraw_bob (title : string) := approval title ∅ {["bob"]}.
Definition approve_bob (title : string) := approval title {["bob"]} ∅.
Definition propose (title : string) (ops : list chain_operation) : chain_operation :=
  op_proposal_create (mk_proposal_create "alice" title "" 1001000 ops None).
Definition pay (from to : string) : chain_operation := op_plain (op_transfer (mk_transfer from to (token 1) "")).

Definition toggle (title : string) : list chain_operation :=
  [op_proposal_update (withdraw_bob title); op_proposal_update (approve_bob title)].

(** The operations, each in a transaction of its own. *)
Definition trap : list chain_operation := [
  propose "q" [pay "bob" "alice"; pay "carol" "alice"];
  op_proposal_update (approve_bob "q");
  propose "p" (toggle "q");
  op_proposal_delete (mk_proposal_delete "alice" "q" "alice");
  op_proposal_update (approve_bob "p");
  propose "q" (toggle "p")].

Definition signed_tx (n : Z) (op : chain_operation) : signed_transaction :=
  mk_signed_transaction (mk_transaction 1 0 (1000010 + n) [op]) [5].

Definition apply_in_block (fuel : nat) (trx : signed_transaction) : DB unit :=
  _apply_transaction (apply_chain_operation fuel 0 0) trx skip_nothing.
Definition set_trap : DB unit :=
  sfor (zip (seqZ 0 6) trap) (λ p, apply_in_block 4 (signed_tx p.1 p.2)).

Definition trap_db : database := after set_trap test_db.
Definition last_tx : signed_transaction := signed_tx 6 (op_proposal_update (approve_bob "q")).

(** The state in which both proposals are approved, and the proposals. *)
Definition armed : database :=
  let s := after (prepare_transaction last_tx skip_nothing) trap_db in
  s <| proposals ::= alter (update_approvals (approve_bob "q")) ("alice", "q") |>.
Definition proposal_in (s : database) (title : string) : proposal_object :=
  default (mk_proposal 0 "" "" "" 0 None [] ∅ ∅ ∅ ∅ ∅ ∅ ∅) (proposals s !! ("alice", title)).

(** Executing either proposal in this state executes the other one in the same
    state. *)
Lemma armed_step fuel c d title other :
  (title = "p" ∧ other = "q") ∨ (title = "q" ∧ other = "p") →
  (∀ d, push_proposal (apply_chain_operation fuel c d) (proposal_in armed other) armed = Err E_recursion) →
  push_proposal (apply_chain_operation (S fuel) c d) (proposal_in armed title) armed = Err E_recursion.
Proof.
  intros Hcase Hother.
  assert (proposed_operations (proposal_in armed title) = toggle other) as Hops
    by (destruct Hcase as [[-> ->]|[-> ->]]; vm_compute; reflexivity).
  set (s1 := armed <| proposals ::=
    <[("alice", other) := update_approvals (withdraw_bob other) (proposal_in armed other)]> |>).
  assert (apply_chain_operation (S fuel) c d (op_proposal_update (withdraw_bob other)) armed = Ok (tt, s1)) as H1.
  { cbn [apply_chain_operation]. rewrite (update_step _ _ _ _ (proposal_in armed other));
      destruct Hcase as [[-> ->]|[-> ->]]; vm_compute; reflexivity. }
  assert (apply_chain_operation (S fuel) c d (op_proposal_update (approve_bob other)) s1 = Err E_recursion) as H2.
  { cbn [apply_chain_operation]. rewrite (update_step _ _ _ _ (proposal_in s1 other));
      [|by destruct Hcase as [[-> ->]|[-> ->]]; vm_compute; reflexivity..].
    assert (update_approvals (approve_bob other) (proposal_in s1 other) = proposal_in armed other) as Hp
      by (destruct Hcase as [[-> ->]|[-> ->]]; vm_compute; reflexivity).
    cbn [approve_bob approval pu_author pu_title]. rewrite Hp.
    assert (s1 <| proposals ::= <[("alice", other) := proposal_in armed other]> |> = armed) as Hs
      by (destruct Hcase as [[-> ->]|[-> ->]]; vm_compute; reflexivity).
    rewrite Hs.
    assert (is_authorized_to_execute armed (proposal_in armed other) = true) as ->
      by (destruct Hcase as [[-> ->]|[-> ->]]; vm_compute; reflexivity).
    cbn [swhen]. apply try_catch_recursion, Hother. }
  unfold push_proposal. rewrite Hops. unfold toggle. cbn [sfor]. unfold sbind. by rewrite H1, H2.
Qed.

Lemma armed_forever fuel c d title :
  title = "p" ∨ title = "q" →
  push_proposal (apply_chain_operation fuel c d) (proposal_in armed title) armed = Err E_recursion.
Proof.
  revert c d title. induction fuel as [|fuel IH]; intros c d title Hcase.
  - unfold push_proposal. assert (∃ other, proposed_operations (proposal_in armed title) = toggle other) as [other ->]
      by (destruct Hcase as [->| ->]; eexists; vm_compute; reflexivity). done.
  - destruct Hcase as [->| ->]; [apply (armed_step _ _ _ _ "q")|apply (armed_step _ _ _ _ "p")];
      try naive_solver; intros d'; apply IH; naive_solver.
Qed.

(** C29 (safety).  The recursion of proposals has no limit in a block.  From an
    ordinary state, six transactions that nobody would refuse set a trap of
    two proposals.  The transaction that springs it is accepted by a node it
    is pushed to, whose limit on the depth cuts the recursion off; in a block,
    where the limit does not apply, it recurses deeper than any bound. *)
Theorem block_recursion_unbounded :
  set_trap test_db = Ok (tt, trap_db) ∧
  is_Ok (push_transaction (apply_chain_operation 6 0 0) last_tx skip_nothing trap_db) = true ∧
  ∀ fuel, apply_in_block fuel last_tx trap_db = Err E_recursion.
Proof.
  split; [apply after_Ok; vm_compute; reflexivity|]. split; [vm_compute; reflexivity|]. intros fuel.
  set (s0 := after (prepare_transaction last_tx skip_nothing) trap_db).
  assert (prepare_transaction last_tx skip_nothing trap_db = Ok (tt, s0)) as Hs0
    by (apply after_Ok; vm_compute; reflexivity).
  unfold apply_in_block, _apply_transaction. unfold sbind at 1. rewrite Hs0. cbn [operations tx last_tx signed_tx sfor].
  destruct fuel as [|fuel]; [done|]. unfold sbind. cbn [apply_chain_operation].
  rewrite (update_step _ _ _ _ (proposal_in s0 "q")); [|vm_compute; reflexivity..].
  assert (update_approvals (approve_bob "q") (proposal_in s0 "q") = proposal_in armed "q") as ->
    by (vm_compute; reflexivity).
  assert (s0 <| proposals ::= <[(pu_author (approve_bob "q"), pu_title (approve_bob "q")) := proposal_in armed "q"]> |>
    = armed) as -> by (vm_compute; reflexivity).
  assert (is_authorized_to_execute armed (proposal_in armed "q") = true) as -> by (vm_compute; reflexivity).
  cbn [swhen]. rewrite try_catch_recursion; [done|]. apply armed_forever. by right.
Qed.
