(* ===== verification/ProposalsState.v ===== *)
(** * The table of proposals

    The invariant of the proposals and the approvals they require, kept by all
    operations, and the end of expired proposals. *)

From stdpp Require Import gmap strings list sorting.
From Stdlib Require Import ZArith Lia.
From S2P Require Import Prelude Fc Text Asset Authority SignState Operations ChainOperations.
From S2P Require Import Block ForkDb Objects Database Supply Frame Scenario EvalTransfer EvalAccount.
From S2P Require Import EvalGovern EvalAward EvalInvite Evaluators Duties Slots BlockData Irreversible.
From S2P Require Import Transactions Proposals Backdrop ProposalsProofs ProposalsTrap.

(** ** Relations that steps keep *)

Definition steps {A} (R : relation database) (m : DB A) : Prop := ∀ s a s', m s = Ok (a, s') → R s s'.

Section steps.
Context (R : relation database) `{!PreOrder R}.

Lemma steps_bind {A B} (m : DB A) (k : A → DB B) : steps R m → (∀ a, steps R (k a)) → steps R (sbind m k).
Proof. intros Hm Hk s b s' H. apply sbind_Ok in H as (a & s1 & H1 & H). etrans; [by eapply Hm|by eapply Hk]. Qed.

Lemma steps_ret {A} (a : A) : steps R (sret a).
Proof. by intros s b s' [= _ <-]. Qed.

Lemma steps_when b (m : DB unit) : steps R m → steps R (swhen b m).
Proof. intros Hm. destruct b; [done|apply steps_ret]. Qed.

Lemma steps_for {A} (l : list A) (body : A → DB unit) : (∀ x, steps R (body x)) → steps R (sfor l body).
Proof. intros Hb. induction l as [|x l IH]; cbn [sfor]; [apply steps_ret|by apply steps_bind]. Qed.

Lemma steps_try_catch {A} (m h : DB A) : steps R m → steps R h → steps R (try_catch m h).
Proof.
  intros Hm Hh s a s' H. unfold try_catch in H. destruct (m s) as [[? ?]|e] eqn:E;
    [injection H as <- <-; by eapply Hm|]. destruct (is_exception e); [by eapply Hh|done].
Qed.
End steps.

(** ** The invariant *)

(** The key of a proposal is its author and title; identifiers are unique and
    below the next one; the required approvals are exactly those of the
    proposals in the table. *)
Record proposals_wf (s : database) : Prop := {
  wf_key k p : proposals s !! k = Some p → k = (prop_author p, prop_title p);
  wf_fresh k p : proposals s !! k = Some p → prop_id p < next_proposal_id s;
  wf_unique k p k' p' : proposals s !! k = Some p → proposals s !! k' = Some p' →
    prop_id p = prop_id p' → k = k';
  wf_required n id : (n, id) ∈ required_approvals s ↔
    ∃ k p, proposals s !! k = Some p ∧ prop_id p = id ∧ n ∈ required_total p
}.

(** A step does not move the clock, keeps the invariant, and what is due after
    it was there before. *)
Record proposal_step (s s' : database) : Prop := {
  step_time : time (dgpo s') = time (dgpo s);
  step_wf : proposals_wf s → proposals_wf s';
  step_due k p' : proposals s' !! k = Some p' → prop_expiration_time p' ≤ time (dgpo s) →
    ∃ p, proposals s !! k = Some p ∧ prop_expiration_time p = prop_expiration_time p'
}.

#[export] Instance proposal_step_preorder : PreOrder proposal_step.
Proof.
  split; [intros s; split; eauto|]. intros s1 s2 s3 [T1 W1 D1] [T2 W2 D2]. split; [congruence|auto|].
  intros k p' Hk Hd. destruct (D2 k p' Hk) as (p2 & Hk2 & E2); [lia|].
  destruct (D1 k p2 Hk2) as (p1 & Hk1 & E1); [lia|]. exists p1. split; [done|lia].
Qed.

(** What [proposal_step] looks at. *)
Definition proposal_view (s : database) :=
  (time (dgpo s), proposals s, required_approvals s, next_proposal_id s).

Lemma step_leaves {A} (m : DB A) : leaves proposal_view m → steps proposal_step m.
Proof.
  intros Hl s a s' H. pose proof (Hl _ _ _ H) as [= Et Ep Er En]. split; [done| |].
  - intros [K F U Q]. split; rewrite ?Ep, ?Er, ?En; eauto.
  - rewrite Ep. eauto.
Qed.

Section state.
Context {CE : ChainEnv} {CI : CustomInterpreters} {TE : TransactionEnv}.

Lemma step_plain op : steps proposal_step (apply_operation op).
Proof.
  apply step_leaves. intros s a s' H.
  pose proof (leaves_part backdrop (λ b, (b.1.1.1.1.1.2, b.2)) _ (leaves_apply_operation op) _ _ _ H) as E.
  cbn in E. unfold proposal_view. by injection E as -> -> -> ->.
Qed.

Lemma step_remove p : steps proposal_step (remove_proposal p).
Proof.
  intros s u s' H. unfold remove_proposal in H. apply sbind_Ok in H as (stored & s0 & [= <- <-] & H).
  destruct (proposals s !! _) as [q|] eqn:Hq; [|done]. destruct (Z.eqb_spec (prop_id q) (prop_id p)); [|done].
  apply sbind_Ok in H as (? & s1 & [= _ <-] & H). apply remove_in_Ok in H as (q' & Hq' & [= _ ->]).
  split; [done| |].
  - intros [K F U Q]. split; cbn.
    + intros k p1 [_ Hk]%lookup_delete_Some. eauto.
    + intros k p1 [_ Hk]%lookup_delete_Some. eauto.
    + intros k p1 k' p2 [_ Hk]%lookup_delete_Some [_ Hk']%lookup_delete_Some. eauto.
    + intros n id. rewrite elem_of_filter, Q. cbn. split.
      * intros [Hn (k & p1 & Hk & Hid & Hr)]. exists k, p1. split; [|done]. apply lookup_delete_Some.
        split; [|done]. intros <-. rewrite Hq in Hk. injection Hk as ->. by apply Hn.
      * intros (k & p1 & [Hne Hk]%lookup_delete_Some & Hid & Hr). split; [|eauto].
        intros [_ E]. apply Hne. eapply U; [exact Hq|exact Hk|congruence].
  - intros k p' Hk _. cbn in Hk. apply lookup_delete_Some in Hk as [_ Hk]. eauto.
Qed.

Lemma step_push g p : (∀ op, steps proposal_step (g op)) → steps proposal_step (push_proposal g p).
Proof. intros Hg. apply steps_bind; [apply _|by apply steps_for; [apply _|]|intros _; apply step_remove]. Qed.

Lemma step_approvals k o : steps proposal_step (modify_in proposals k (λ p, Ok (update_approvals o p))).
Proof.
  intros s u s' H. apply modify_in_Ok in H as (p & p' & Hp & [= <-] & [= _ ->]). split; [done| |].
  - intros [K F U Q].
    assert (∀ k' p', <[k := update_approvals o p]> (proposals s) !! k' = Some p' →
      ∃ q, proposals s !! k' = Some q ∧ prop_id q = prop_id p' ∧ prop_author q = prop_author p' ∧
        prop_title q = prop_title p' ∧ required_total q = required_total p') as Hold.
    { intros k' p' Hk'. destruct (decide (k' = k)) as [->|].
      - rewrite lookup_insert_eq in Hk'. injection Hk' as <-. by exists p.
      - rewrite lookup_insert_ne in Hk' by done. by exists p'. }
    split; cbn.
    + intros k' p' (q & Hk & ? & ? & ? & ?)%Hold. rewrite (K _ _ Hk). congruence.
    + intros k' p' (q & Hk & E & ?)%Hold. rewrite <- E. eauto.
    + intros k1 p1 k2 p2 (q1 & Hk1 & E1 & _)%Hold (q2 & Hk2 & E2 & _)%Hold E. eapply U; eauto. congruence.
    + intros n id. rewrite Q. split; intros (k' & q & Hk & Hid & Hr).
      * destruct (decide (k' = k)) as [->|].
        -- exists k, (update_approvals o p). rewrite lookup_insert_eq. rewrite Hp in Hk. by injection Hk as <-.
        -- exists k', q. by rewrite lookup_insert_ne by done.
      * apply Hold in Hk as (q' & Hk & E & _ & _ & Er). exists k', q'. by rewrite E, Er.
  - intros k' p' Hk' _. cbn in Hk'. destruct (decide (k' = k)) as [->|].
    + rewrite lookup_insert_eq in Hk'. injection Hk' as <-. by exists p.
    + rewrite lookup_insert_ne in Hk' by done. eauto.
Qed.

(** The new object, with no approvals yet. *)
Definition new_proposal (o : proposal_create_operation chain_operation) (id : Z) : proposal_object :=
  let r := required_sets (pc_proposed_operations o) in
  mk_proposal id (pc_author o) (pc_title o) (pc_memo o) (pc_expiration_time o)
    (pc_review_period_time o) (pc_proposed_operations o) r.1.1 ∅ r.1.2 ∅ r.2 ∅ ∅.

Lemma index_approvals_Ok id l s u s' :
  sfor l (λ n, let* a := get_account n in
               supd (λ s, s <| required_approvals ::= union {[(n, id)]} |>)) s = Ok (u, s') →
  ∃ R, s' = s <| required_approvals := R |> ∧
       ∀ n id', (n, id') ∈ R ↔ (n, id') ∈ required_approvals s ∨ (n ∈ l ∧ id' = id).
Proof.
  revert s. induction l as [|n l IH]; intros s H; cbn [sfor] in H.
  - injection H as _ <-. exists (required_approvals s). split; [by destruct s|set_solver].
  - apply sbind_Ok in H as (? & s1 & H1 & H). apply sbind_Ok in H1 as (a & s2 & H2 & [= _ <-]).
    apply get_in_Ok in H2 as (? & _ & [= _ ->]). destruct (IH _ H) as (R & -> & HR).
    exists R. split; [done|]. intros n' id'. rewrite HR. cbn. set_solver.
Qed.

Lemma store_Ok o s u s' :
  store_proposal o s = Ok (u, s') →
  let p := new_proposal o (next_proposal_id s) in
  proposals s !! (pc_author o, pc_title o) = None ∧
  ∃ R, s' = s <| proposals ::= <[(pc_author o, pc_title o) := p]> |>
              <| next_proposal_id := next_proposal_id s + 1 |> <| required_approvals := R |> ∧
       ∀ n id, (n, id) ∈ R ↔ (n, id) ∈ required_approvals s ∨ (n ∈ required_total p ∧ id = prop_id p).
Proof.
  unfold store_proposal. cbv zeta. intros H. apply sbind_Ok in H as (id & s1 & [= <- <-] & H).
  apply sbind_Ok in H as (? & s1 & H1 & H). apply create_in_Ok in H1 as (Hnew & [= _ ->]).
  apply sbind_Ok in H as (? & s1 & [= _ <-] & H). apply index_approvals_Ok in H as (R & -> & HR).
  split; [done|]. exists R. split; [reflexivity|]. intros n id. rewrite HR, elem_of_elements. reflexivity.
Qed.

(** A creation checks, and then stores. *)
Lemma create_Ok g d o s u s' :
  proposal_create_apply g d o s = Ok (u, s') →
  time (dgpo s) < pc_expiration_time o ∧ store_proposal o s = Ok (u, s').
Proof.
  unfold proposal_create_apply. cbv zeta. intros H.
  repeat match type of H with sbind ?m _ _ = _ =>
    let s1 := fresh "s" in let H1 := fresh in let E := fresh in let E' := fresh in
    assert (leaves (λ s, s) m) as E by (unfold validate_transaction, _validate_transaction; solve_leaves);
    apply sbind_Ok in H as (? & s1 & H1 & H); apply E in H1 as E'; cbn beta in E'; subst s1; clear E end.
  split; [|done]. inv_db; propify; done.
Qed.

Lemma step_create g d o : steps proposal_step (proposal_create_apply g d o).
Proof.
  intros s u s' H. apply create_Ok in H as [Ht H]. apply store_Ok in H as (Hnew & R & -> & HR).
  set (p := new_proposal o (next_proposal_id s)) in *. set (key := (pc_author o, pc_title o)) in *.
  split; [done| |].
  - intros [K F U Q].
    assert (∀ k q, <[key := p]> (proposals s) !! k = Some q → (k = key ∧ q = p) ∨ (k ≠ key ∧ proposals s !! k = Some q))
      as Hold by (intros k q [[<- <-]|[? ?]]%lookup_insert_Some; auto).
    split; cbn.
    + intros k q [[-> ->]|[_ Hk]]%Hold; [done|eauto].
    + intros k q [[-> ->]|[_ Hk]]%Hold; [cbn; lia|]. pose proof (F _ _ Hk). lia.
    + intros k q k' q' [[-> ->]|[_ Hk]]%Hold [[-> ->]|[_ Hk']]%Hold E; [done| | |eauto];
        [pose proof (F _ _ Hk')|pose proof (F _ _ Hk)]; cbn in E; lia.
    + intros n id. rewrite HR, Q. split.
      * intros [(k & q & Hk & Hid & Hr)|[Hr ->]].
        -- exists k, q. split; [|done]. apply lookup_insert_Some. right. split; [|done]. congruence.
        -- exists key, p. by rewrite lookup_insert_eq.
      * intros (k & q & [[-> ->]|[_ Hk]]%Hold & Hid & Hr); [by right|left; eauto].
  - intros k q Hk Hd. cbn in Hk. apply lookup_insert_Some in Hk as [[<- <-]|[_ Hk]]; [cbn in Hd; lia|eauto].
Qed.

Lemma step_update g d o : (∀ op, steps proposal_step (g op)) → steps proposal_step (proposal_update_apply g d o).
Proof.
  intros Hg. unfold proposal_update_apply. cbv zeta.
  repeat (apply steps_bind; [apply _|first [solve [apply step_leaves; solve_leaves] | apply step_approvals]|intros ?]).
  match goal with |- steps _ (match prop_review_period_time ?p with _ => _ end) =>
    destruct (prop_review_period_time p) end.
  - apply steps_when; [apply _|apply step_remove].
  - repeat (apply steps_bind; [apply _|solve [apply step_leaves; solve_leaves]|intros ?]).
    apply steps_when; [apply _|]. apply steps_try_catch; [by apply step_push|apply steps_ret, _].
Qed.

Lemma step_chain fuel c d op : steps proposal_step (apply_chain_operation fuel c d op).
Proof.
  assert (∀ o, steps proposal_step (proposal_delete_apply o)) as Hdel.
  { intros o. unfold proposal_delete_apply.
    repeat first [apply step_remove | apply steps_bind; [apply _|solve [apply step_leaves; solve_leaves]|intros ?]]. }
  revert c d op. induction fuel as [|fuel IH]; intros c d [o|o|o|o]; cbn [apply_chain_operation];
    auto using step_plain, step_create, step_update.
  all: apply step_leaves, leaves_sthrow.
Qed.

(** C30 (invariant).  The table of proposals stays consistent whatever operations
    are applied, nested to any depth: a proposal is filed under its author and
    title, identifiers are never reused, and the index of required approvals
    holds exactly what the proposals in the table require. *)
Theorem proposals_stay_consistent fuel ops s u s' :
  proposals_wf s → sfor ops (apply_chain_operation fuel 0 0) s = Ok (u, s') → proposals_wf s'.
Proof.
  intros Hwf H. refine (step_wf s s' _ Hwf). eapply (steps_for proposal_step ops); [|exact H].
  intros op. apply step_chain.
Qed.

(** ** The end of proposals *)

Definition due (s : database) : gmap (string * string) proposal_object :=
  filter (λ kp, prop_expiration_time kp.2 ≤ time (dgpo s)) (proposals s).

Lemma due_lookup s k p : due s !! k = Some p ↔ proposals s !! k = Some p ∧ prop_expiration_time p ≤ time (dgpo s).
Proof. unfold due. by rewrite map_lookup_filter_Some. Qed.

Lemma step_due_dom s s' : proposal_step s s' → dom (due s') ⊆ dom (due s).
Proof.
  intros [Ht _ Hd] k. rewrite !elem_of_dom. intros [p' [Hk Hp]%due_lookup].
  destruct (Hd k p' Hk) as (p & Hk' & E); [lia|]. exists p. apply due_lookup. split; [done|lia].
Qed.

Lemma first_to_expire_spec s p :
  first_to_expire s = Some p →
  (∃ k, proposals s !! k = Some p) ∧
  ∀ k q, proposals s !! k = Some q → prop_expiration_time p ≤ prop_expiration_time q.
Proof.
  unfold first_to_expire. intros Hp.
  set (l := (map_to_list (proposals s)).*2) in *.
  assert (∀ q, q ∈ l ↔ ∃ k, proposals s !! k = Some q) as Hl.
  { intros q. unfold l. rewrite list_elem_of_fmap. split.
    - intros ([k q'] & -> & Hq%elem_of_map_to_list). by exists k.
    - intros [k Hk]. exists (k, q). split; [done|]. by apply elem_of_map_to_list. }
  pose proof (merge_sort_Permutation by_expiration l) as Hperm.
  destruct (merge_sort by_expiration l) as [|p' rest] eqn:E; [done|]. injection Hp as ->.
  split; [apply Hl; rewrite <- Hperm; by left|]. intros k q Hk.
  assert (Sorted by_expiration (p :: rest)) as Hs.
  { rewrite <- E. apply Sorted_merge_sort. intros x y. unfold by_expiration. lia. }
  assert (Transitive by_expiration) by (intros x y z; unfold by_expiration; lia).
  apply Sorted_StronglySorted in Hs; [|done]. apply StronglySorted_inv in Hs as [_ Hs].
  assert (q ∈ p :: rest) as Hq by (rewrite Hperm; apply Hl; eauto).
  apply elem_of_cons in Hq as [->|Hq]; [lia|]. rewrite Forall_forall in Hs. specialize (Hs q Hq).
  unfold by_expiration in Hs. lia.
Qed.

Lemma first_to_expire_None s : first_to_expire s = None → proposals s = ∅.
Proof.
  unfold first_to_expire. intros H. pose proof (merge_sort_Permutation by_expiration (map_to_list (proposals s)).*2) as Hp.
  destruct (merge_sort _ _); [|done]. apply Permutation_nil_l in Hp.
  apply map_to_list_empty_iff. by apply (fmap_nil_inv snd).
Qed.

Lemma remove_gone p s u s' :
  remove_proposal p s = Ok (u, s') → proposals s' !! (prop_author p, prop_title p) = None.
Proof.
  intros H. unfold remove_proposal in H. apply sbind_Ok in H as (stored & s0 & [= <- <-] & H).
  destruct (proposals s !! _) as [q|]; [|done]. destruct (_ =? _); [|done].
  apply sbind_Ok in H as (? & s1 & [= _ <-] & H). apply remove_in_Ok in H as (q' & _ & [= _ ->]).
  apply lookup_delete_eq.
Qed.

(** One round: the first proposal is executed or dropped, and gone either way. *)
Lemma end_first_gone g p s u s' :
  (∀ op, steps proposal_step (g op)) →
  (let* s := sget in
   if is_authorized_to_execute s p
   then try_catch (push_proposal g p) (remove_proposal p)
   else remove_proposal p) s = Ok (u, s') →
  proposal_step s s' ∧ proposals s' !! (prop_author p, prop_title p) = None.
Proof.
  intros Hg H. apply sbind_Ok in H as (? & ? & [= <- <-] & H).
  destruct (is_authorized_to_execute s p); [|split; [by eapply step_remove|by eapply remove_gone]].
  split; [eapply steps_try_catch; [by apply step_push|apply step_remove|exact H]|].
  unfold try_catch in H. destruct (push_proposal g p s) as [[? ?]|e] eqn:E.
  - injection H as <- <-. unfold push_proposal in E. apply sbind_Ok in E as (? & s1 & _ & E).
    by eapply remove_gone.
  - destruct (is_exception e); [|done]. by eapply remove_gone.
Qed.

Lemma clear_loop_spec fuel n s u s' :
  proposals_wf s → (size (due s) ≤ n)%nat →
  clear_expired_loop (apply_chain_operation fuel 0 0) n s = Ok (u, s') →
  proposal_step s s' ∧ due s' = ∅.
Proof.
  revert s. induction n as [|n IH]; intros s Hwf Hn H; cbn [clear_expired_loop] in H.
  { injection H as _ <-. split; [done|]. apply map_size_empty_inv. lia. }
  apply sbind_Ok in H as (first & s1 & [= <- <-] & H). apply sbind_Ok in H as (now & s1 & [= <- <-] & H).
  destruct (first_to_expire s) as [p|] eqn:Hp.
  2:{ injection H as _ <-. split; [done|]. unfold due. by rewrite (first_to_expire_None _ Hp). }
  apply first_to_expire_spec in Hp as [[k Hk] Hmin].
  destruct (Z.leb_spec (prop_expiration_time p) (time (dgpo s))) as [Hd|Hd].
  2:{ injection H as _ <-. split; [done|]. apply map_empty. intros k'. apply eq_None_not_Some.
      intros [q [Hq Hle]%due_lookup]. specialize (Hmin _ _ Hq). lia. }
  apply sbind_Ok in H as (? & s1 & H1 & H). apply end_first_gone in H1 as [Hstep Hgone]; [|intros; apply step_chain].
  rewrite <- (wf_key _ Hwf _ _ Hk) in Hgone.
  assert (size (due s1) < size (due s))%nat as Hsize.
  { rewrite <- !size_dom. apply subset_size. split; [by apply step_due_dom|]. intros Hsub.
    assert (k ∈ dom (due s1)) as [q [Hq _]%due_lookup]%elem_of_dom; [|by rewrite Hq in Hgone].
    apply Hsub, elem_of_dom. exists p. by apply due_lookup. }
  destruct (IH s1 (step_wf _ _ Hstep Hwf) ltac:(lia) H). split; [by etrans|done].
Qed.

Lemma clear_expired_spec fuel s u s' :
  proposals_wf s → clear_expired_proposals fuel s = Ok (u, s') → proposal_step s s' ∧ due s' = ∅.
Proof.
  intros Hwf H. apply sbind_Ok in H as (n & s1 & [= <- <-] & H). apply clear_loop_spec in H; [done..|].
  unfold due. rewrite <- !size_dom. apply subseteq_size, dom_filter_subseteq.
Qed.

(** At the end of a block the walk over the expired proposals
    needs no more rounds than there are proposals, although executing one may
    create, execute and remove others; after it no expired proposal is left and
    the table is consistent. *)
Theorem expired_proposals_end fuel s u s' :
  proposals_wf s → clear_expired_proposals fuel s = Ok (u, s') →
  proposals_wf s' ∧ time (dgpo s') = time (dgpo s) ∧
  ∀ k p, proposals s' !! k = Some p → time (dgpo s) < prop_expiration_time p.
Proof.
  intros Hwf H. destruct (clear_expired_spec _ _ _ _ Hwf H) as [Hstep Hdue].
  split; [by apply Hstep|]. split; [apply Hstep|]. intros k p Hk.
  apply Z.nle_gt. intros Hle. assert (due s' !! k = Some p) as E.
  { apply due_lookup. split; [done|]. by rewrite (step_time _ _ Hstep). }
  by rewrite Hdue in E.
Qed.
End state.

(** ** On a small chain *)

Lemma test_db_proposals : proposals_wf test_db.
Proof.
  split; cbn; try (intros *; by rewrite lookup_empty). intros n id. split; [set_solver|].
  intros (k & p & Hk & _). by rewrite lookup_empty in Hk.
Qed.

Definition run_test (ops : list chain_operation) : DB unit :=
  sfor ops (@apply_chain_operation test_env no_interpreters test_tx_env 5 0 0).

Lemma proposals_stay_consistent_witness :
  run_test trap test_db = Ok (tt, after (run_test trap) test_db) ∧ proposals_wf (after (run_test trap) test_db).
Proof.
  assert (run_test trap test_db = Ok (tt, after (run_test trap) test_db)) as H
    by (apply after_Ok; vm_compute; reflexivity).
  split; [exact H|].
  exact (@proposals_stay_consistent test_env no_interpreters test_tx_env 5 trap test_db tt _ test_db_proposals H).
Defined.

Definition on_time (t : Z) (s : database) : database := s <| dgpo ::= λ d, d <| time := t |> |>.

Lemma wf_on_time t s : proposals_wf s → proposals_wf (on_time t s).
Proof. intros [K F U Q]. by split. Qed.

(** Two proposals, of which one waits for an approval and the other one is
    approved, at the time at which they expire. *)
Definition expiring : database :=
  on_time 1001000 (after (run_test
    [propose "p" [pay "carol" "alice"]; propose "q" [pay "bob" "alice"; pay "carol" "bob"];
     op_proposal_update (approve_bob "q")]) test_db).

Lemma expiring_wf : proposals_wf expiring.
Proof.
  apply wf_on_time. refine (step_wf test_db _ _ test_db_proposals).
  refine (steps_for proposal_step _ _ _ _ tt _ (after_Ok _ _ _)).
  - intros op. apply (@step_chain test_env no_interpreters test_tx_env 5 0 0).
  - vm_compute. reflexivity.
Qed.

Lemma expired_proposals_end_witness :
  let run := @clear_expired_proposals test_env no_interpreters test_tx_env 5 in
  size (proposals expiring) = 2%nat ∧ run expiring = Ok (tt, after run expiring) ∧
  proposals_wf (after run expiring) ∧ time (dgpo (after run expiring)) = time (dgpo expiring) ∧
  ∀ k p, proposals (after run expiring) !! k = Some p → time (dgpo expiring) < prop_expiration_time p.
Proof.
  intros run. split; [vm_compute; reflexivity|].
  assert (run expiring = Ok (tt, after run expiring)) as H by (apply after_Ok; vm_compute; reflexivity).
  split; [exact H|].
  exact (@expired_proposals_end test_env no_interpreters test_tx_env 5 expiring tt _ expiring_wf H).
Defined.
