(* ===== verification/ProposalsSupply.v ===== *)
(** * Transactions, proposals and the supply of tokens

    Conservation of tokens for whole transactions, with the proposals that they
    execute. *)

From stdpp Require Import gmap strings list sorting.
From Stdlib Require Import ZArith Lia.
From S2P Require Import Prelude Fc Text Asset Authority SignState Operations ChainOperations.
From S2P Require Import Block ForkDb Objects Database Supply Frame Scenario EvalTransfer EvalAccount.
From S2P Require Import EvalGovern EvalAward EvalInvite Evaluators Duties Slots BlockData Irreversible.
From S2P Require Import Transactions Proposals Backdrop ProposalsProofs ProposalsTrap ProposalsState.

Section supply.
Context {CE : ChainEnv} {CI : CustomInterpreters} {TE : TransactionEnv}.

(** The operations of a proposal are sound in turn. *)
Fixpoint sound_chain (op : chain_operation) : Prop :=
  match op with
  | op_plain o => sound_op o
  | op_proposal_create o => foldr (λ op P, sound_chain op ∧ P) True (pc_proposed_operations o)
  | _ => True
  end.

Lemma sound_chain_all l : foldr (λ op P, sound_chain op ∧ P) True l ↔ Forall sound_chain l.
Proof. induction l as [|op l IH]; cbn; [by rewrite Forall_nil|]. by rewrite Forall_cons, IH. Qed.

(** What the proposals in the state keep true. *)
Definition proposals_sound (s : database) : Prop :=
  map_Forall (λ _ p, Forall sound_chain (proposed_operations p)) (proposals s).

Definition chain_ok (s : database) : Prop := holdings_ok s ∧ proposals_sound s.

Definition conserves {A} (m : DB A) : Prop :=
  ∀ s a s', chain_ok s → m s = Ok (a, s') → gap s' = gap s ∧ chain_ok s'.

(** Where tokens and proposals are. *)
Definition books (s : database) :=
  (accounts s, escrows s, invites s, validators s, dgpo s, proposals s).

Lemma conserves_leaves {A} (m : DB A) : leaves books m → conserves m.
Proof.
  intros Hl s a s' [[He Hi] Hp] H. pose proof (Hl _ _ _ H) as [= Ea Ee Ei Ev Ed Ep].
  split; [unfold gap, accounted; by rewrite Ea, Ee, Ei, Ev, Ed|].
  unfold chain_ok, holdings_ok, escrows_ok, invites_ok, proposals_sound. rewrite Ee, Ei, Ep. done.
Qed.

Lemma conserves_bind {A B} (m : DB A) (k : A → DB B) :
  conserves m → (∀ a, conserves (k a)) → conserves (sbind m k).
Proof.
  intros Hm Hk s b s' Hok H. apply sbind_Ok in H as (a & s1 & H1 & H).
  destruct (Hm _ _ _ Hok H1) as [Hg Hok1]. destruct (Hk _ _ _ _ Hok1 H). split; [lia|done].
Qed.

Lemma conserves_when b (m : DB unit) : conserves m → conserves (swhen b m).
Proof. intros Hm. destruct b; [done|]. apply conserves_leaves, leaves_sret. Qed.

Lemma conserves_for {A} (l : list A) (body : A → DB unit) :
  Forall (λ x, conserves (body x)) l → conserves (sfor l body).
Proof.
  induction 1 as [|x l Hx _ IH]; cbn [sfor]; [apply conserves_leaves; solve_leaves|].
  by apply conserves_bind.
Qed.

Lemma conserves_try_catch {A} (m h : DB A) : conserves m → conserves h → conserves (try_catch m h).
Proof.
  intros Hm Hh s a s' Hok H. unfold try_catch in H.
  destruct (m s) as [[? ?]|e] eqn:E; [injection H as <- <-; by eapply Hm|].
  destruct (is_exception e); [by eapply Hh|done].
Qed.

Lemma conserves_keeps {A} (m : DB A) :
  (∀ s a s', m s = Ok (a, s') → keeps s s') → leaves proposals m → conserves m.
Proof.
  intros Hk Hl s a s' [Hh Hp] H. destruct (keeps_ok _ _ Hh (Hk _ _ _ H)) as [Hg Hh'].
  split; [done|]. split; [done|]. unfold proposals_sound. by rewrite (Hl _ _ _ H).
Qed.

(** ** Before the operations *)

Lemma charge_liquid now size a a' : charge_bandwidth now size a = Ok a' → liquid a' = liquid a + 0.
Proof. unfold charge_bandwidth. intros H. inv_ok. unfold liquid. cbn. lia. Qed.

Lemma conserves_charge size ops n : conserves (charge_transaction size ops n).
Proof.
  apply conserves_keeps; [|solve_leaves].
  assert (∀ n x s u s', charge n x s = Ok (u, s') → eff s s' 0) as Hc.
  { intros n' x s u s' H. unfold charge, update_account_bandwidth in H. inv_db; try apply eff_refl;
      by eapply (eff_modify_account _ _ 0); [|eassumption]; intros a a' _ ?%charge_liquid. }
  intros s u s' H. apply (eff_keeps _ _ 0); [|done]. unfold charge_transaction in H. inv_db.
  - eapply (eff_eq _ _ (0 + 0)); [eapply eff_trans; [by eapply Hc|]|done].
    match goal with H : sfor _ _ _ = Ok _ |- _ => revert H end. apply eff_sfor.
    intros op s1 u1 s2 _ H'. destruct (is_data_operation op); [|inv_ok; apply eff_refl].
    apply sbind_Ok in H' as (median & s3 & [= <- <-] & H'). by eapply Hc.
  - by eapply Hc.
Qed.

Lemma conserves_prepare trx skip : conserves (prepare_transaction trx skip).
Proof.
  unfold prepare_transaction. apply conserves_bind; [apply conserves_leaves; solve_leaves|intros known].
  apply conserves_bind; [apply conserves_leaves; solve_leaves|intros _].
  apply conserves_bind; [apply conserves_leaves; unfold _validate_transaction; solve_leaves|intros _].
  apply conserves_bind; [|intros _; apply conserves_leaves; solve_leaves].
  apply conserves_for, Forall_true. intros n. apply conserves_charge.
Qed.

(** ** Proposals *)

Lemma conserves_remove p : conserves (remove_proposal p).
Proof.
  intros s u s' [Hh Hp] H. unfold remove_proposal in H. apply sbind_Ok in H as (stored & s0 & [= <- <-] & H).
  destruct (proposals s !! _) as [q|]; [|done]. destruct (_ =? _); [|done].
  apply sbind_Ok in H as (? & s1 & [= _ <-] & H). apply remove_in_Ok in H as (q' & Hq & [= _ ->]).
  split; [done|]. split; [done|]. intros k p' Hk. cbn in Hk.
  apply lookup_delete_Some in Hk as [_ Hk]. by apply (Hp k p').
Qed.

Lemma conserves_push g p :
  Forall sound_chain (proposed_operations p) → (∀ op, sound_chain op → conserves (g op)) →
  conserves (push_proposal g p).
Proof.
  intros Hp Hg. apply conserves_bind; [|intros _; apply conserves_remove].
  apply conserves_for. eapply Forall_impl; [exact Hp|]. auto.
Qed.

Lemma sound_insert k p s :
  Forall sound_chain (proposed_operations p) → chain_ok s → chain_ok (s <| proposals ::= <[k := p]> |>).
Proof. intros Hp [Hh Hs]. split; [done|]. by apply map_Forall_insert_2. Qed.

Lemma conserves_create_in what k p :
  Forall sound_chain (proposed_operations p) → conserves (create_in proposals what k p).
Proof.
  intros Hp s u s' Hok H. apply create_in_Ok in H as (Hk & [= _ ->]). split; [done|by apply sound_insert].
Qed.

Lemma conserves_approvals k o : conserves (modify_in proposals k (λ p, Ok (update_approvals o p))).
Proof.
  intros s u s' Hok H. apply modify_in_Ok in H as (p & p' & Hp & [= <-] & [= _ ->]).
  split; [done|]. apply sound_insert; [|done]. exact (proj2 Hok _ _ Hp).
Qed.

Lemma conserves_get_proposal {B} author title (k : proposal_object → DB B) :
  (∀ p, Forall sound_chain (proposed_operations p) → conserves (k p)) →
  conserves (sbind (get_proposal author title) k).
Proof.
  intros Hk s b s' Hok H. apply sbind_Ok in H as (p & s1 & H1 & H).
  apply get_in_Ok in H1 as (p' & Hp & [= -> ->]). eapply Hk; [|exact Hok|exact H]. exact (proj2 Hok _ _ Hp).
Qed.

Lemma conserves_create g d o : sound_chain (op_proposal_create o) → conserves (proposal_create_apply g d o).
Proof.
  cbn [sound_chain]. rewrite sound_chain_all. intros Ho. unfold proposal_create_apply, store_proposal. cbv zeta.
  repeat (apply conserves_bind;
    [first [ solve [apply conserves_leaves; unfold validate_transaction, _validate_transaction; solve_leaves]
           | by apply conserves_create_in ]|intros ?]).
  apply conserves_leaves. solve_leaves.
Qed.

Lemma conserves_update g d o :
  (∀ op, sound_chain op → conserves (g op)) → conserves (proposal_update_apply g d o).
Proof.
  intros Hg. unfold proposal_update_apply. cbv zeta.
  repeat first
    [ apply conserves_get_proposal; intros ? ?
    | apply conserves_bind;
      [first [ solve [apply conserves_leaves; solve_leaves] | apply conserves_approvals ]|intros ?] ].
  match goal with |- conserves (match prop_review_period_time ?p with _ => _ end) =>
    destruct (prop_review_period_time p) end.
  - apply conserves_when, conserves_remove.
  - apply conserves_bind; [apply conserves_leaves; solve_leaves|intros _].
    apply conserves_bind; [apply conserves_leaves; solve_leaves|intros s].
    apply conserves_when, conserves_try_catch; [by apply conserves_push|apply conserves_leaves, leaves_sret].
Qed.

Lemma conserves_plain op : sound_op op → conserves (apply_operation op).
Proof.
  intros Ho s u s' [Hh Hp] H. destruct u. destruct (apply_operation_conserves _ _ _ _ Ho Hh H) as [Hg Hh'].
  split; [done|]. split; [done|]. unfold proposals_sound.
  pose proof (leaves_part backdrop (λ b, b.2.1.1) _ (leaves_apply_operation op) _ _ _ H) as Ep.
  cbn in Ep. by rewrite Ep.
Qed.

Lemma conserves_chain fuel c d op : sound_chain op → conserves (apply_chain_operation fuel c d op).
Proof.
  revert c d op. induction fuel as [|fuel IH]; intros c d op Ho; destruct op as [o|o|o|o];
    cbn [apply_chain_operation]; try by apply conserves_plain.
  - apply conserves_leaves, leaves_sthrow.
  - apply conserves_leaves, leaves_sthrow.
  - apply conserves_get_proposal. intros p _.
    apply conserves_bind; [apply conserves_leaves; solve_leaves|intros _]. apply conserves_remove.
  - by apply conserves_create.
  - apply conserves_update. auto.
  - apply conserves_get_proposal. intros p _.
    apply conserves_bind; [apply conserves_leaves; solve_leaves|intros _]. apply conserves_remove.
Qed.

Lemma conserves_transaction fuel trx skip :
  Forall sound_chain (operations (tx trx)) → conserves (_apply_transaction (apply_chain_operation fuel 0 0) trx skip).
Proof.
  intros Ho. apply conserves_bind; [apply conserves_prepare|intros _]. apply conserves_for.
  eapply Forall_impl; [exact Ho|]. intros op. apply conserves_chain.
Qed.

Lemma conserves_clear_loop fuel n : conserves (clear_expired_loop (apply_chain_operation fuel 0 0) n).
Proof.
  induction n as [|n IH]; cbn [clear_expired_loop]; [apply conserves_leaves, leaves_sret|].
  intros s u s' Hok H. apply sbind_Ok in H as (first & s1 & [= <- <-] & H).
  apply sbind_Ok in H as (now & s1 & [= <- <-] & H).
  destruct (first_to_expire s) as [p|] eqn:Hp; [|by injection H as _ <-].
  destruct (_ <=? _); [|by injection H as _ <-].
  apply first_to_expire_spec in Hp as [[k Hk] _]. revert s u s' Hok H Hk.
  assert (Forall sound_chain (proposed_operations p) → conserves (
    let* _ := (let* s := sget in
      if is_authorized_to_execute s p
      then try_catch (push_proposal (apply_chain_operation fuel 0 0) p) (remove_proposal p)
      else remove_proposal p) in
    clear_expired_loop (apply_chain_operation fuel 0 0) n)) as Hround.
  { intros Hp. apply conserves_bind; [|done]. apply conserves_bind; [apply conserves_leaves; solve_leaves|].
    intros s. destruct (is_authorized_to_execute _ _); [|apply conserves_remove].
    apply conserves_try_catch; [|apply conserves_remove].
    apply conserves_push; [done|]. apply conserves_chain. }
  intros s u s' Hok H Hk. exact (Hround (proj2 Hok _ _ Hk) _ _ _ Hok H).
Qed.

Lemma conserves_clear fuel : conserves (clear_expired_proposals fuel).
Proof.
  apply conserves_bind; [apply conserves_leaves; solve_leaves|intros n]. apply conserves_clear_loop.
Qed.

(** C1 (safety).  Conservation of tokens by transactions without split fixed awards:
    when transactions of validated operations, none of them a fixed award with
    beneficiaries ([sound_chain], also of the operations inside proposals, those already
    stored included), are applied successfully, with the proposals that they create,
    approve and execute at any depth, and the proposals that have expired are then
    executed or dropped, the difference between the recorded supply and the tokens held
    in balances, escrows, invites and funds is as it was.  The exclusion is needed: a
    fixed award with beneficiaries creates tokens ([EvalAward.fixed_award_balance]). *)
Theorem transactions_conserve_supply fuel trxs skip s u s' :
  Forall (λ trx, Forall sound_chain (operations (tx trx))) trxs → chain_ok s →
  (let* _ := sfor trxs (λ trx, _apply_transaction (apply_chain_operation fuel 0 0) trx skip) in
   clear_expired_proposals fuel) s = Ok (u, s') →
  gap s' = gap s ∧ chain_ok s'.
Proof.
  intros Ht. refine (_ s u s'). apply conserves_bind; [|intros _; apply conserves_clear].
  apply conserves_for. eapply Forall_impl; [exact Ht|]. intros trx. apply conserves_transaction.
Qed.
End supply.

(** Bob's payment is approved and executed by a transaction; Carol's proposal
    expires at the end of the block. *)
Definition story_txs : list signed_transaction := [
  signed_tx 1 (propose "q" [pay "bob" "alice"]); signed_tx 2 (op_proposal_update (approve_bob "q"));
  mk_signed_transaction (mk_transaction 1 0 1000013 [pay "alice" "bob"; propose "p" [pay "carol" "alice"]]) [5]].

#[local] Existing Instance test_env.
#[local] Existing Instance no_interpreters.
#[local] Existing Instance test_tx_env.

Lemma transactions_conserve_supply_witness :
  let run := (let* _ := sfor story_txs (λ trx,
                _apply_transaction (apply_chain_operation 3 0 0) trx skip_nothing) in
              clear_expired_proposals 3) in
  run test_db = Ok (tt, after run test_db) ∧ gap (after run test_db) = gap test_db ∧
  chain_ok (after run test_db).
Proof.
  intros run. assert (run test_db = Ok (tt, after run test_db)) as H by (apply after_Ok; vm_compute; reflexivity).
  split; [exact H|].
  refine (transactions_conserve_supply 3 story_txs skip_nothing test_db tt _ _ _ H).
  - repeat constructor; cbn; lia.
  - split; [exact test_db_holdings|]. intros k p Hk. cbn in Hk. by rewrite lookup_empty in Hk.
Defined.
