(* ===== verification/HardforkProofs.v ===== *)
(** * Hardforks are applied in order, once, and when they are due

    The loop of [process_hardforks] (libraries/chain/database.cpp, lines
    6831-6850) on a chain past hardfork 9. *)

From stdpp Require Import gmap strings list sorting.
From Stdlib Require Import ZArith Lia.
From S2P Require Import Prelude Fc Text Asset Authority SignState Operations ChainOperations.
From S2P Require Import Block ForkDb Objects Database Supply Frame Scenario EvalTransfer EvalAccount.
From S2P Require Import EvalGovern EvalAward EvalInvite Evaluators Duties Slots BlockData Irreversible.
From S2P Require Import PostValidation Schedule Transactions Proposals ApplyBlock.

(** The version of hardfork [n]. *)
Definition version_of (n : Z) : Z := nth (Z.to_nat n) hardfork_versions 0.

(** The state of the hardforks: [n] is the last, the version and the times are
    the table's (the first time is the genesis'). *)
Record hardforks_wf (h : hardfork_property_object) : Prop := {
  hf_range : 9 ≤ last_hardfork h ≤ CHAIN_NUM_HARDFORKS;
  hf_version : current_hardfork_version h = version_of (last_hardfork h);
  hf_times : tail (processed_hardfork_times h) = take (Z.to_nat (last_hardfork h)) (tail hardfork_times);
  hf_genesis : processed_hardfork_times h ≠ []
}.

Lemma hf_length h : hardforks_wf h → Z.of_nat (length (processed_hardfork_times h)) = last_hardfork h + 1.
Proof.
  intros [[? ?] _ Ht Hn]. destruct (processed_hardfork_times h) as [|t l]; [done|]. cbn in Ht. subst l.
  unfold CHAIN_NUM_HARDFORKS in *. cbn [length]. rewrite length_take. cbn [length tail hardfork_times]. lia.
Qed.

Lemma versions_increase n m : 9 ≤ n → n < m → m ≤ 13 → version_of n < version_of m.
Proof.
  intros. assert (n = 9 ∨ n = 10 ∨ n = 11 ∨ n = 12) as [->|[->|[->| ->]]] by lia;
    assert (m = 10 ∨ m = 11 ∨ m = 12 ∨ m = 13) as [->|[->|[->| ->]]] by lia; solve [lia | vm_compute; reflexivity].
Qed.

#[local] Arguments hardfork_times : simpl never.
#[local] Arguments hardfork_versions : simpl never.

Section hardforks.
Context {CE : ChainEnv}.

(** Entering a hardfork keeps the state of the hardforks in order. *)
Lemma enter_hardfork_Ok h :
  hardforks_wf h → last_hardfork h < CHAIN_NUM_HARDFORKS →
  ∃ h', enter_hardfork (last_hardfork h + 1) h = Ok h' ∧ hardforks_wf h' ∧
    last_hardfork h' = last_hardfork h + 1 ∧ next_hardfork h' = next_hardfork h ∧
    next_hardfork_time h' = next_hardfork_time h ∧
    processed_hardfork_times h `prefix_of` processed_hardfork_times h'.
Proof.
  intros Hwf Hlt. pose proof (hf_length _ Hwf) as Hlen. destruct Hwf as [[H9 H13] Hv Ht Hg].
  unfold CHAIN_NUM_HARDFORKS in *. unfold enter_hardfork. rewrite Z.eqb_refl, Hlen, Z.eqb_refl. cbn [rassert rbind].
  assert (∃ t v, hardfork_times !! Z.to_nat (last_hardfork h + 1) = Some t ∧
    hardfork_versions !! Z.to_nat (last_hardfork h + 1) = Some v ∧ v = version_of (last_hardfork h + 1) ∧
    take (Z.to_nat (last_hardfork h + 1)) (tail hardfork_times) =
      take (Z.to_nat (last_hardfork h)) (tail hardfork_times) ++ [t]) as (t & v & Et & Ev & Ew & El).
  { assert (last_hardfork h = 9 ∨ last_hardfork h = 10 ∨ last_hardfork h = 11 ∨ last_hardfork h = 12)
      as [->|[->|[->| ->]]] by lia; by do 2 eexists. }
  rewrite Et, Ev. cbn. eexists. split; [reflexivity|]. split_and!; try done; [|by apply prefix_app_r].
  split; cbn; [unfold CHAIN_NUM_HARDFORKS; lia|done| |].
  - rewrite El, <- Ht. by destruct (processed_hardfork_times h).
  - by destruct (processed_hardfork_times h).
Qed.

(** What the loop does from [s] to [s']. *)
Record advanced (s s' : database) : Prop := {
  ad_wf : hardforks_wf (hardforks s');
  ad_order : last_hardfork (hardforks s) ≤ last_hardfork (hardforks s');
  ad_times : processed_hardfork_times (hardforks s) `prefix_of` processed_hardfork_times (hardforks s');
  ad_due : next_hardfork_time (hardforks s) ≤ time (dgpo s) →
    next_hardfork (hardforks s) ≤ version_of (last_hardfork (hardforks s'));
  ad_least m : last_hardfork (hardforks s) ≤ m < last_hardfork (hardforks s') →
    next_hardfork_time (hardforks s) ≤ time (dgpo s) ∧ version_of m < next_hardfork (hardforks s);
  ad_ops : virtual_ops s' = virtual_ops s ++
    (hardfork_operation <$> seqZ (last_hardfork (hardforks s) + 1)
       (last_hardfork (hardforks s') - last_hardfork (hardforks s)))
}.

Lemma migrate_Ok n s :
  10 ≤ n → ∃ s1, migrate n s = Ok (tt, s1) ∧ dgpo s1 = dgpo s ∧ hardforks s1 = hardforks s ∧
    virtual_ops s1 = virtual_ops s.
Proof.
  intros Hn. unfold migrate. destruct (Z.ltb_spec n 10); [lia|].
  destruct (n =? 11); eexists; by split_and!.
Qed.

Lemma apply_hardfork_Ok s :
  hardforks_wf (hardforks s) → last_hardfork (hardforks s) < CHAIN_NUM_HARDFORKS →
  let n := last_hardfork (hardforks s) + 1 in
  ∃ s', apply_hardfork n s = Ok (tt, s') ∧ hardforks_wf (hardforks s') ∧ dgpo s' = dgpo s ∧
    last_hardfork (hardforks s') = n ∧ next_hardfork (hardforks s') = next_hardfork (hardforks s) ∧
    next_hardfork_time (hardforks s') = next_hardfork_time (hardforks s) ∧
    processed_hardfork_times (hardforks s) `prefix_of` processed_hardfork_times (hardforks s') ∧
    virtual_ops s' = virtual_ops s ++ [hardfork_operation n].
Proof.
  intros Hwf Hlt n. destruct (migrate_Ok n s) as (s1 & H1 & Ed & Eh & Ev); [subst n; destruct Hwf; lia|].
  destruct (enter_hardfork_Ok _ Hwf Hlt) as (h' & H2 & W & El & En & Et & Ep). subst n.
  eexists. split.
  - unfold apply_hardfork, sbind, sgets, slift, supd, push_virtual_operation. rewrite H1, Eh, H2. reflexivity.
  - cbn. by rewrite Ev.
Qed.

Lemma version_lookup n : 0 ≤ n ≤ 13 → hardfork_versions !! Z.to_nat n = Some (version_of n).
Proof.
  intros Hn. unfold version_of. destruct (hardfork_versions !! Z.to_nat n) as [v|] eqn:E.
  - f_equal. symmetry. apply nth_lookup_Some with (d := 0) in E. done.
  - apply lookup_ge_None in E. change (length hardfork_versions) with 14%nat in E. lia.
Qed.

Lemma hardforks_loop_Ok fuel s :
  hardforks_wf (hardforks s) →
  (next_hardfork_time (hardforks s) ≤ time (dgpo s) → next_hardfork (hardforks s) ≤ version_of 13) →
  CHAIN_NUM_HARDFORKS - last_hardfork (hardforks s) < Z.of_nat fuel →
  ∃ s', process_hardforks_loop fuel s = Ok (tt, s') ∧ advanced s s'.
Proof.
  revert s. induction fuel as [|fuel IH]; intros s Hwf Hnext Hfuel; [destruct Hwf; lia|].
  set (h := hardforks s) in *. pose proof (hf_range _ Hwf) as Hr. unfold CHAIN_NUM_HARDFORKS in *.
  cbn [process_hardforks_loop]. unfold sbind at 1, sgets at 1. fold h.
  unfold head_block_time, sbind at 1, sgets at 1. rewrite version_lookup by lia.
  cbn [res_of_option]. unfold slift, sbind at 1.
  destruct ((version_of (last_hardfork h) <? next_hardfork h) && (next_hardfork_time h <=? time (dgpo s))) eqn:E;
    cbn [swhen].
  2:{ exists s. split; [reflexivity|]. split; fold h; try done; [|intros; lia|].
      - intros Ht. apply andb_false_iff in E as [E|E]; propify; lia.
      - by rewrite Z.sub_diag, app_nil_r. }
  apply andb_prop in E as [E1 E2]. propify. assert (last_hardfork h < CHAIN_NUM_HARDFORKS) as Hlt.
  { unfold CHAIN_NUM_HARDFORKS. destruct (decide (last_hardfork h = 13)) as [E|]; [rewrite E in E1|]; lia. }
  destruct (apply_hardfork_Ok s Hwf Hlt) as (s1 & H1 & W1 & D1 & L1 & N1 & T1 & P1 & V1).
  fold h in H1, L1, N1, T1, P1, V1.
  destruct (IH s1 W1) as (s' & H' & [W O Pt Du Le Vo]); rewrite ?N1, ?T1, ?D1, ?L1; [done|lia|].
  rewrite N1, T1, D1, L1 in *. exists s'. split.
  { unfold CHAIN_NUM_HARDFORKS in *. destruct (Z.ltb_spec (last_hardfork h) 13); [|lia]. unfold sbind. by rewrite H1. }
  split; fold h; [done|lia|by etrans|done| |].
  - intros m Hm. destruct (decide (m = last_hardfork h)) as [->|]; [lia|]. apply Le. lia.
  - rewrite Vo, V1, <- app_assoc. f_equal.
    rewrite (seqZ_cons (last_hardfork h + 1)) by lia. cbn. do 2 f_equal. f_equal; lia.
Qed.

(** C27 (termination).  At the end of a block the hardforks that the validators
    have voted for and that are due are applied one after the other, none is
    left out and none is applied twice: the loop ends, whatever number of them
    is due at once, exactly when the version voted for is reached, provided
    that the node knows that version once it is due. *)
Theorem due_hardforks_applied s :
  hardforks_wf (hardforks s) →
  (next_hardfork_time (hardforks s) ≤ time (dgpo s) →
   next_hardfork (hardforks s) ≤ version_of CHAIN_NUM_HARDFORKS) →
  ∃ s', process_hardforks s = Ok (tt, s') ∧ advanced s s'.
Proof.
  intros Hwf Hn. unfold process_hardforks, sbind at 1, sgets at 1. apply hardforks_loop_Ok; [done..|].
  pose proof (hf_range _ Hwf). unfold CHAIN_NUM_HARDFORKS in *. lia.
Qed.
End hardforks.

(** A chain at hardfork 11 with hardfork 13 voted for and due. *)
Definition voting_db : database :=
  test_db <| hardforks := mk_hardfork_property (0 :: take 11 (tail hardfork_times)) 11 (version 3 0 0)
    (version 3 2 0) 900000 |>.

Lemma due_hardforks_applied_witness :
  ∃ s', @process_hardforks voting_db = Ok (tt, s') ∧ last_hardfork (hardforks s') = 13 ∧ advanced voting_db s'.
Proof.
  destruct (due_hardforks_applied voting_db) as (s' & H & A).
  - split; [vm_compute; split; discriminate|reflexivity|reflexivity|discriminate].
  - intros _. vm_compute. discriminate.
  - exists s'. split; [exact H|]. split; [|exact A]. destruct A as [[? _ _ _] _ _ Du _ _].
    unfold CHAIN_NUM_HARDFORKS in *.
    destruct (decide (last_hardfork (hardforks s') = 13)) as [|Hne]; [done|exfalso].
    assert (version_of (last_hardfork (hardforks s')) < version_of 13) as Hlt by (apply versions_increase; lia).
    change (next_hardfork (hardforks voting_db)) with (version_of 13) in Du.
    enough (version_of 13 ≤ version_of (last_hardfork (hardforks s'))) by lia.
    apply Du. vm_compute. discriminate.
Defined.
