(* ===== verification/BlockScenario.v ===== *)
(** * Blocks of the small chain

    An environment and a state on which whole blocks are applied. *)

From stdpp Require Import gmap strings list sorting.
From Stdlib Require Import ZArith Lia.
From S2P Require Import Prelude Fc Text Asset Authority SignState Operations ChainOperations.
From S2P Require Import Block ForkDb Objects Database Supply Frame Scenario EvalTransfer EvalAccount.
From S2P Require Import EvalGovern EvalAward EvalInvite Evaluators Duties Auctions Renewals Slots BlockData.
From S2P Require Import Irreversible PostValidation Schedule Transactions Proposals ApplyBlock ProposalsTrap.

(** Auctions in the order of names; subscriptions by time. *)
Definition earlier (s : database) : relation subscription := λ k k', next_time s k ≤ next_time s k'.
#[export] Instance earlier_dec s : RelDecision (earlier s).
Proof. unfold earlier. intros k k'. apply _. Defined.

Definition on_auction_names (s : database) : list string :=
  elements (dom (filter (λ p, account_on_auction p.2 = true) (accounts s)) : gset string).
Definition by_next_time (s : database) : list subscription :=
  merge_sort (earlier s) (elements (dom (paid_subscribes s) : gset subscription)).

Lemma on_auction_names_ok s : auction_order s (on_auction_names s).
Proof.
  unfold on_auction_names. split; [apply NoDup_elements|]. intros n. rewrite elem_of_elements, elem_of_dom.
  split; [intros [a [Ha E]%map_lookup_filter_Some]; eauto|intros (a & Ha & E)].
  exists a. by apply map_lookup_filter_Some.
Qed.

Lemma by_next_time_ok s : subscription_order s (by_next_time s).
Proof.
  pose proof (merge_sort_Permutation (earlier s) (elements (dom (paid_subscribes s) : gset subscription))) as Hp.
  split_and!.
  - unfold by_next_time. rewrite Hp. apply NoDup_elements.
  - intros k. unfold by_next_time. by rewrite Hp, elem_of_elements, elem_of_dom.
  - apply Sorted_StronglySorted; [intros x y z; unfold earlier; lia|].
    apply Sorted_merge_sort. intros x y. unfold earlier. lia.
Qed.

Definition test_block_env : BlockEnv := {|
  signee b := Ok 5; auction_index := on_auction_names; subscription_index := by_next_time;
  auction_index_ok := on_auction_names_ok; subscription_index_ok := by_next_time_ok
|}.

#[local] Existing Instance test_env.
#[local] Existing Instance no_interpreters.
#[local] Existing Instance test_tx_env.
#[local] Existing Instance clear_arrays.
#[local] Existing Instance test_block_env.

(** The second block is the head, and the first one irreversible.  There are
    four validators; Alice and Bob sign a block each, with a payment. *)
Definition keyed_validator (id : Z) (n : string) : validator_object :=
  (new_validator id n) <| signing_key := 5 |> <| current_run := 2 |>.
Definition block_1 : signed_block := mk_block 0 999990 "alice" 0 5 [] [].
Definition block_2 : signed_block := mk_block (block_id block_1) 1000000 "alice" 0 9 [] [].
Definition chain_db : database :=
  test_db
    <| dgpo ::= λ p, p <| head_block_number := 2 |> <| head_block_id := block_id block_2 |>
       <| last_irreversible_block_num := 1 |> |>
    <| block_log := [block_1] |> <| fork_db := (start_block block_2 empty_fork_database).1 |>
    <| block_summaries := <[1 := 77]> (list_to_map ((λ n, (n, 0)) <$> seqZ 0 16)) |>
    <| validators := <["alice" := keyed_validator 0 "alice"]> (<["bob" := keyed_validator 1 "bob"]>
       (<["carol" := keyed_validator 2 "carol"]> (<["dave" := keyed_validator 3 "dave"]> ∅))) |>
    <| schedule ::= λ w, w <| current_shuffled_validators := ["dave"; "alice"; "bob"; "carol"] |>
       <| num_scheduled_validators := 4 |> |>.
Definition payment_block (n : string) (parent_id t salt : Z) : signed_block :=
  mk_block parent_id t n 0 salt [signed_tx salt (pay "alice" "bob")] [].
Definition block_a : signed_block := payment_block "alice" (block_id block_2) 1000002 1.
Definition block_b : signed_block := payment_block "bob" (block_id block_a) 1000005 2.
