(* ===== verification/ApplyBlockProofs.v ===== *)
(** * What a block does to the chain

    The head, the record of transactions, the irreversible blocks and the
    proposals, across whole blocks. *)

From stdpp Require Import gmap strings list sorting.
From Stdlib Require Import ZArith Lia.
From S2P Require Import Prelude Fc Text Asset Authority SignState Operations ChainOperations.
From S2P Require Import Block ForkDb Objects Database Supply Frame Scenario EvalTransfer EvalAccount.
From S2P Require Import EvalGovern EvalAward EvalInvite Evaluators Funds Duties Withdrawals Auctions Renewals.
From S2P Require Import Slots BlockData BlockDataProofs Irreversible PostValidation Schedule.
From S2P Require Import Transactions Proposals ApplyBlock Backdrop ProposalsProofs ProposalsTrap ProposalsState.
From S2P Require Import BlockScenario.

(** ** What the duties leave alone *)

(** The head of the chain. *)
Definition tip (s : database) : Z * Z * Z :=
  (head_block_number (dgpo s), head_block_id (dgpo s), time (dgpo s)).

Definition skeleton (s : database) :=
  (tip s, last_irreversible_block_num (dgpo s), block_log s, transactions s,
   (proposals s, required_approvals s, next_proposal_id s)).

Section leaves.
Context {CE : ChainEnv} {CI : CustomInterpreters} {TE : TransactionEnv} {FA : FreshArrays} {BE : BlockEnv}.

Lemma leaves_skeleton {A} (m : DB A) : leaves backdrop m → leaves skeleton m.
Proof.
  intros H s r s' Hm. apply (H _ _ _) in Hm. unfold backdrop, clock, skeleton, tip in *. congruence.
Qed.
Lemma leaves_proxied_array' k n l : leaves skeleton (adjust_proxied_validator_votes_array k n l).
Proof. apply leaves_skeleton, leaves_proxied_array. Qed.
Lemma leaves_proxied_at' k n l : leaves skeleton (adjust_proxied_validator_votes_at k n l).
Proof. apply leaves_skeleton, leaves_proxied_at. Qed.
#[local] Hint Resolve leaves_proxied_array' leaves_proxied_at' : leaves.

Lemma leaves_delegations : leaves skeleton clear_expired_delegations.
Proof. solve_leaves. Qed.
Lemma leaves_used_invites : leaves skeleton clear_used_invites.
Proof. solve_leaves. Qed.
Lemma leaves_closed_requests : leaves skeleton clear_closed_committee_requests.
Proof. solve_leaves. Qed.
Lemma leaves_candidates : leaves skeleton update_bandwidth_reserve_candidates.
Proof. solve_leaves. Qed.
Lemma leaves_inflation : leaves skeleton process_inflation_recalc.
Proof. solve_leaves. Qed.
Lemma leaves_award_shares : leaves skeleton expire_award_shares_processing.
Proof. solve_leaves. Qed.
Lemma leaves_recovery : leaves skeleton account_recovery_processing.
Proof. solve_leaves. Qed.
Lemma leaves_escrow : leaves skeleton expire_escrow_ratification.
Proof. solve_leaves. Qed.
Lemma leaves_null : leaves skeleton clear_null_account_balance.
Proof. solve_leaves. Qed.
Lemma leaves_anonymous : leaves skeleton clear_anonymous_account_balance.
Proof. solve_leaves. Qed.
Lemma leaves_claim : leaves skeleton claim_committee_account_balance.
Proof. solve_leaves. Qed.
Lemma leaves_tally l max actual : leaves skeleton (tally_votes l max actual).
Proof. revert max actual. induction l; intros; cbn [tally_votes]; solve_leaves. Qed.
#[local] Hint Resolve leaves_tally : leaves.
Lemma leaves_committee : leaves skeleton committee_processing.
Proof. solve_leaves. Qed.
Lemma leaves_auctions order : leaves skeleton (account_on_auction_expiration order).
Proof. solve_leaves. Qed.
Lemma leaves_funds : leaves skeleton process_funds.
Proof. solve_leaves. Qed.
Lemma leaves_entries head start l total : leaves skeleton (stakeholder_entries head start l total).
Proof. revert total. induction l; intros; cbn [stakeholder_entries]; solve_leaves. Qed.
Lemma leaves_pay_stakeholders n a b l d : leaves skeleton (pay_stakeholders n a b l d).
Proof. revert d. induction l; intros; cbn [pay_stakeholders]; solve_leaves. Qed.
#[local] Hint Resolve leaves_entries leaves_pay_stakeholders : leaves.
Lemma leaves_epoch : leaves skeleton process_validator_epoch_distribution.
Proof. solve_leaves. Qed.
Lemma leaves_route_vests n x l t : leaves skeleton (route_vests n x l t).
Proof. revert t. induction l; intros; cbn [route_vests]; solve_leaves. Qed.
Lemma leaves_route_tokens n x l t : leaves skeleton (route_tokens n x l t).
Proof. revert t. induction l; intros; cbn [route_tokens]; solve_leaves. Qed.
#[local] Hint Resolve leaves_route_vests leaves_route_tokens : leaves.
Lemma leaves_withdrawal n : leaves skeleton (process_withdrawal n).
Proof. solve_leaves. Qed.
#[local] Hint Resolve leaves_withdrawal : leaves.
Lemma leaves_visit fuel c : leaves skeleton (visit_withdrawals fuel c).
Proof. revert c. induction fuel; intros; destruct c; cbn [visit_withdrawals]; solve_leaves. Qed.
#[local] Hint Resolve leaves_visit : leaves.
Lemma leaves_withdrawals : leaves skeleton process_vesting_withdrawals.
Proof. solve_leaves. Qed.
Lemma leaves_renew k : leaves skeleton (renew_or_close k).
Proof. solve_leaves. Qed.
#[local] Hint Resolve leaves_renew : leaves.
Lemma leaves_renew_from fuel l l' : leaves skeleton (renew_from fuel l l').
Proof. revert l l'. induction fuel; intros l [|k l']; cbn [renew_from]; solve_leaves. Qed.
#[local] Hint Resolve leaves_renew_from : leaves.
Lemma leaves_subscriptions order : leaves skeleton (paid_subscribe_processing order).
Proof. solve_leaves. Qed.
Lemma leaves_start_laps t l : leaves skeleton (start_laps t l).
Proof. induction l; intros; cbn [start_laps]; solve_leaves. Qed.
Lemma leaves_get_validators l : leaves skeleton (get_validators l).
Proof. induction l; intros; cbn [get_validators]; solve_leaves. Qed.
#[local] Hint Resolve leaves_start_laps leaves_get_validators : leaves.
Lemma leaves_schedule : leaves skeleton update_validator_schedule.
Proof. solve_leaves. intros s r s' H. by apply modify_in_Ok in H as (? & ? & _ & _ & [= _ ->]). Qed.

Lemma leaves_settle : leaves skeleton pay_and_settle.
Proof.
  unfold pay_and_settle, ended.
  pose proof leaves_inflation. pose proof leaves_award_shares. pose proof leaves_funds.
  pose proof leaves_epoch. pose proof leaves_withdrawals. pose proof leaves_recovery.
  pose proof leaves_escrow. pose proof leaves_auctions. pose proof leaves_null. pose proof leaves_anonymous.
  pose proof leaves_claim. pose proof leaves_committee. pose proof leaves_subscriptions.
  solve_leaves.
Qed.

Lemma leaves_hardforks : leaves skeleton process_hardforks.
Proof.
  unfold process_hardforks. apply leaves_bind; [solve_leaves|]. intros hfp.
  generalize (Z.to_nat (CHAIN_NUM_HARDFORKS - last_hardfork hfp + 2)) as fuel.
  induction fuel; cbn [process_hardforks_loop]; solve_leaves.
Qed.

(** What comes before the transactions; the extensions change a validator. *)
Lemma leaves_open b skip : leaves skeleton (open_block b skip).
Proof. solve_leaves. Qed.
End leaves.

(** ** The head moves *)

Section head.
Context {CE : ChainEnv} {CI : CustomInterpreters} {TE : TransactionEnv} {FA : FreshArrays} {BE : BlockEnv}.

(** The parts that the head's update leaves: the log, the records, and what the
    schedule and the objects are not part of. *)
Definition records (s : database) :=
  (block_log s, transactions s, (proposals s, required_approvals s, next_proposal_id s)).

Lemma leaves_install {X} (P : database → X) :
  (∀ n f, leaves P (create_validator n f)) →
  (∀ n s (r : unit) s' f, modify_validator n f s = Ok (r, s') → P s' = P s) →
  leaves P install_emergency_validator.
Proof.
  intros Hc Hm s r s' H. unfold install_emergency_validator in H.
  apply sbind_Ok in H as (key & s1 & Hk & H). apply slift_Ok in Hk as (? & _ & [= -> ->]).
  apply sbind_Ok in H as (wit & s1 & Hw & H). unfold find_in in Hw. apply sgets_Ok in Hw. injection Hw as -> ->.
  destruct (validators s !! _); [by eapply Hm|].
  apply sbind_Ok in H as (now & s1 & Ht & H). apply sgets_Ok in Ht. injection Ht as -> ->. by eapply Hc.
Qed.

Lemma leaves_install_records : leaves records install_emergency_validator.
Proof.
  apply leaves_install; [intros; solve_leaves|].
  by intros n s r s' f (? & ? & _ & _ & [= _ ->])%modify_in_Ok.
Qed.
Lemma leaves_install_tip : leaves tip install_emergency_validator.
Proof.
  apply leaves_install; [intros; solve_leaves|].
  by intros n s r s' f (? & ? & _ & _ & [= _ ->])%modify_in_Ok.
Qed.
#[local] Hint Resolve leaves_install_records leaves_install_tip : leaves.

Lemma leaves_check_emergency b : leaves tip (check_emergency b).
Proof. solve_leaves. Qed.
Lemma leaves_update_gdd b k : leaves records (update_global_dynamic_data b k).
Proof. solve_leaves. Qed.

Lemma update_gdd_tip b k s u s' :
  update_global_dynamic_data b k s = Ok (u, s') → tip s' = (block_num b, block_id b, timestamp b).
Proof.
  unfold update_global_dynamic_data. intros H. apply sbind_Ok in H as (missed & ? & Hg & H).
  apply sgets_Ok in Hg. injection Hg as -> ->. apply sbind_Ok in H as (? & s1 & _ & H).
  apply sbind_Ok in H as (? & s2 & H2 & H). apply modify_dgpo_Ok in H2 as (p & [= <-] & [= _ ->]).
  apply sbind_Ok in H as (? & ? & Hg & H). apply sgets_Ok in Hg. injection Hg as -> ->.
  apply sbind_Ok in H as (? & s3 & H3 & H). apply leaves_check_emergency in H as ->.
  assert (s3 = s1 <| dgpo := advance_dgp b (missed_before b s) (dgpo s1) |>) as ->; [|done].
  destruct (negb k); cbn [swhen] in H3; [|by injection H3].
  by apply sassert_Ok in H3 as [_ [= _ ->]].
Qed.

Lemma update_lib_effect skip s u s' :
  update_last_irreversible_block skip s = Ok (u, s') → tip s' = tip s ∧ keeps_log s s' ∧
    transactions s' = transactions s ∧ proposal_view s' = proposal_view s.
Proof.
  intros (Ho & Hw & (bs & Hb & _) & _)%update_lib_steps.
  split_and!; [|split; [by exists bs|done]|..]; destruct Ho as [R D]; rewrite R;
    unfold tip, proposal_view; cbn; try done; by rewrite D.
Qed.

Lemma check_confirmations_effect l s rest s' :
  check_confirmations l s = Ok (rest, s') → only_lib s s' ∧ keeps_log s s'.
Proof.
  revert s rest s'. induction l as [|c l IH]; intros s rest s' H; cbn [check_confirmations] in H.
  { by injection H as _ <-. }
  apply sbind_Ok in H as (b & s1 & H1 & H). apply sbind_Ok in H as (r & s2 & [O2 K2]%IH & [= _ <-]).
  cut (only_lib s s1 ∧ keeps_log s s1); [intros [O1 K1]; split; by etrans|].
  unfold check_confirmation, get_dgpo in H1.
  do 2 (apply sbind_Ok in H1 as (? & ? & Hg & H1); apply sgets_Ok in Hg; injection Hg as -> ->).
  apply sbind_Ok in H1 as (? & s3 & H3 & [= _ <-]). destruct (_ && _); cbn [swhen] in H3.
  - apply advance_lib_Ok in H3 as (? & _ & ?). done.
  - by injection H3 as _ <-.
Qed.

Lemma check_chain_effect s u s' :
  check_block_post_validation_chain s = Ok (u, s') → tip s' = tip s ∧ keeps_log s s' ∧
    transactions s' = transactions s ∧ proposal_view s' = proposal_view s.
Proof.
  unfold check_block_post_validation_chain. intros H.
  apply sbind_Ok in H as (? & ? & Hg & H). apply sgets_Ok in Hg. injection Hg as -> ->.
  destruct (negb _); cbn [swhen] in H; [|by injection H as _ <-].
  apply sbind_Ok in H as (? & ? & Hg & H). apply sgets_Ok in Hg. injection Hg as -> ->.
  apply sbind_Ok in H as (rest & s1 & [[R D] K]%check_confirmations_effect & [= _ <-]).
  unfold tip, proposal_view. cbn. rewrite D, R. cbn. split_and!; [done| |done|done].
  destruct K as [[bs E] W]. split; [by exists bs|]. intros Hw. exact (W Hw).
Qed.

Lemma leaves_confirmations num id n : leaves skeleton (create_block_post_validation num id n).
Proof. solve_leaves. Qed.

(** The end of a block, after the records have been cleared. *)
Record same_records (s s' : database) : Prop := {
  sr_tip : tip s' = tip s;
  sr_transactions : transactions s' = transactions s;
  sr_proposals : proposal_view s' = proposal_view s;
  sr_log : keeps_log s s'
}.

#[export] Instance same_records_preorder : PreOrder same_records.
Proof. split; [done|]. intros x y z [? ? ? ?] [? ? ? ?]. split; by etrans. Qed.

Lemma same_records_leaves {A} (m : DB A) : leaves skeleton m → steps same_records m.
Proof.
  intros Hl s a s' H. apply Hl in H. unfold skeleton in H. injection H as Ht ? ? ? ? ? ? ? ?.
  split; [unfold tip; congruence|done|unfold proposal_view; congruence|by apply keeps_log_same].
Qed.

Lemma steps_settle b : steps same_records (
  do* pay_and_settle in
  do* process_hardforks in
  do* check_block_post_validation_chain in
  create_block_post_validation (block_num b) (block_id b) (validator b)).
Proof.
  apply steps_bind; [apply _|apply same_records_leaves, leaves_settle|intros _].
  apply steps_bind; [apply _|apply same_records_leaves, leaves_hardforks|intros _].
  apply steps_bind; [apply _| |intros _; apply same_records_leaves, leaves_confirmations].
  intros s u s' H. apply check_chain_effect in H as (? & ? & ? & ?). by split.
Qed.

(** The parts of a block. *)
Lemma apply_block_parts fuel b skip s u s' :
  _apply_block fuel b skip s = Ok (u, s') → ∃ s1 s2 s3 s4,
    open_block b skip s = Ok (tt, s1) ∧
    sfor (Block.transactions b) (λ trx, _apply_transaction (apply_chain_operation fuel 0 0) trx skip) s1
      = Ok (tt, s2) ∧
    advance_head b skip s2 = Ok (tt, s3) ∧ clear_and_schedule fuel s3 = Ok (tt, s4) ∧ same_records s4 s'.
Proof.
  unfold _apply_block. intros H. apply sbind_Ok in H as ([] & s1 & H1 & H).
  apply sbind_Ok in H as ([] & s2 & H2 & H). apply sbind_Ok in H as ([] & s3 & H3 & H).
  apply sbind_Ok in H as ([] & s4 & H4 & H). exists s1, s2, s3, s4. split_and!; [done..|].
  by eapply steps_settle.
Qed.

Lemma advance_head_effect b skip s u s' :
  advance_head b skip s = Ok (u, s') →
  tip s' = (block_num b, block_id b, timestamp b) ∧ transactions s' = transactions s ∧
  (proposals s', required_approvals s', next_proposal_id s') =
    (proposals s, required_approvals s, next_proposal_id s) ∧ keeps_log s s'.
Proof.
  unfold advance_head. intros H. apply sbind_Ok in H as (? & s1 & H1 & H).
  pose proof (update_gdd_tip _ _ _ _ _ H1) as Ht. apply leaves_update_gdd in H1.
  apply sbind_Ok in H as (? & s2 & H2 & H).
  assert (leaves skeleton (update_signing_validator (validator b) b)) as L2 by solve_leaves.
  apply L2 in H2. apply sbind_Ok in H as (? & s3 & H3 & H). apply update_lib_effect in H3 as (T3 & K3 & X3 & P3).
  assert (leaves skeleton (create_block_summary b)) as L4 by solve_leaves. apply L4 in H.
  unfold skeleton, records, proposal_view in *. injection H1 as ? ? ? ? ?.
  injection H2 as ? ? ? ? ? ? ? ? ?. injection P3 as ? ? ? ?. injection H as ? ? ? ? ? ? ? ? ?.
  assert (tip s2 = tip s1) by (unfold tip; congruence). assert (tip s' = tip s3) by (unfold tip; congruence).
  split_and!; [congruence|congruence|congruence|].
  etrans; [by apply (keeps_log_same s s2); congruence|]. etrans; [exact K3|]. by apply keeps_log_same.
Qed.

Lemma leaves_transaction fuel trx skip :
  leaves clock (_apply_transaction (apply_chain_operation fuel 0 0) trx skip).
Proof.
  apply leaves_bind; [apply leaves_prepare|intros _]. apply leaves_for. intros op.
  exact (leaves_part ledger fst _ (leaves_chain_operation fuel 0 0 op)).
Qed.

(** The rest of the clearing leaves the records. *)
Lemma clear_parts fuel s u s' :
  clear_and_schedule fuel s = Ok (u, s') → ∃ s1,
    clear_expired_proposals fuel s = Ok (tt, s1) ∧ tip s' = tip s1 ∧ block_log s' = block_log s1 ∧
    proposal_view s' = proposal_view s1 ∧
    transactions s' = filter (λ p, time (dgpo s1) ≤ p.2) (transactions s1).
Proof.
  unfold clear_and_schedule. intros H. apply sbind_Ok in H as ([] & s1 & H1 & H). exists s1. split; [done|].
  apply sbind_Ok in H as ([] & s2 & H2 & H).
  assert (leaves skeleton (
    do* clear_expired_delegations in
    let* hf9 := has_hardfork 9 in
    do* swhen hf9 (do* clear_used_invites in clear_closed_committee_requests) in
    do* update_bandwidth_reserve_candidates in
    update_validator_schedule)) as L.
  { pose proof leaves_delegations. pose proof leaves_used_invites. pose proof leaves_closed_requests.
    pose proof leaves_candidates. pose proof leaves_schedule. solve_leaves. }
  apply L in H. clear L. unfold skeleton in H. injection H as ? ? ? ? ? ? ? ? ?.
  injection H2 as <-. unfold tip, proposal_view in *. cbn in *. split_and!; congruence.
Qed.
End head.

(** ** The chain *)

Section chain.
Context {CE : ChainEnv} {CI : CustomInterpreters} {TE : TransactionEnv} {FA : FreshArrays} {BE : BlockEnv}.

(** Blocks one after the other, each with what is skipped for it. *)
Definition apply_blocks (fuel : nat) (bs : list (signed_block * Z)) : DB unit :=
  sfor bs (λ p, _apply_block fuel p.1 p.2).

Lemma leaves_clear_proposals fuel : leaves ledger (clear_expired_proposals fuel).
Proof.
  unfold clear_expired_proposals. apply leaves_bind; [solve_leaves|]. intros n.
  induction n as [|n IH]; cbn [clear_expired_loop]; [solve_leaves|].
  assert (∀ p, leaves ledger (push_proposal (apply_chain_operation fuel 0 0) p)) as Hp.
  { intros p. apply leaves_push_proposal; [apply leaves_chain_operation|apply leaves_remove_proposal]. }
  pose proof leaves_remove_proposal. solve_leaves.
Qed.

(** What a block needs of the chain, and what becomes of its head. *)
Lemma open_block_spec b skip s u s' :
  open_block b skip s = Ok (u, s') →
  head_block_id (dgpo s) = previous b ∧ time (dgpo s) < timestamp b ∧
  (skips skip skip_merkle_check = false → check_merkle b = Ok tt) ∧
  (skips skip skip_validator_signature = false → check_signee b s = Ok (tt, s)) ∧
  (skips skip skip_validator_schedule_check = false → check_turn b s = Ok (tt, s)).
Proof.
  unfold open_block, _validate_block, validate_block_header, get_dgpo. intros H.
  apply sbind_Ok in H as (? & s1 & H1 & H).
  assert (s1 = s ∧ (skips skip skip_merkle_check = false → check_merkle b = Ok tt)) as [-> Hm].
  { apply sbind_Ok in H1 as (? & s2 & Hk & H1).
    assert (s2 = s ∧ (skips skip skip_merkle_check = false → check_merkle b = Ok tt)) as [-> Hm].
    { destruct (skips skip skip_merkle_check); cbn [negb swhen] in Hk; [by injection Hk as _ <-|].
      apply slift_Ok in Hk as ([] & Hk & [= _ ->]). done. }
    split; [|done]. assert (leaves (λ s, s) (
      let* p := sgets dgpo in swhen (negb (skips skip skip_block_size_check))
        (sassert (pack_size b <=? dgp_maximum_block_size p) "Block Size is too Big"))) as L by solve_leaves.
    exact (L _ _ _ H1). }
  clear H1. apply sbind_Ok in H as (? & s1 & H1 & _). apply sbind_Ok in H1 as (w & s2 & H1 & [= _ <-]).
  apply sbind_Ok in H1 as (? & ? & Hg & H1). apply sgets_Ok in Hg. injection Hg as -> ->.
  apply sbind_Ok in H1 as (? & ? & Hp & H1). apply sassert_Ok in Hp as [Hp [= _ ->]].
  apply sbind_Ok in H1 as (? & ? & Hl & H1). apply sassert_Ok in Hl as [Hl [= _ ->]]. propify.
  apply sbind_Ok in H1 as (w' & s1 & Hg & H1). apply get_in_Ok in Hg as (? & _ & [= _ ->]).
  assert (leaves (λ s, s) (check_signee b)) as L1 by solve_leaves.
  assert (leaves (λ s, s) (check_turn b)) as L2 by solve_leaves.
  apply sbind_Ok in H1 as ([] & s1 & Hs & H1). apply sbind_Ok in H1 as ([] & s3 & Ht & _).
  split_and!; [done|lia|done|..].
  - intros E. rewrite E in Hs. cbn [negb swhen] in Hs. rewrite Hs. f_equal. f_equal. by apply L1 in Hs.
  - intros E. rewrite E in Ht. cbn [negb swhen] in Ht.
    assert (s1 = s) as ->; [|rewrite Ht; f_equal; f_equal; by apply L2 in Ht].
    destruct (negb (skips skip skip_validator_signature)); [by apply L1 in Hs|by injection Hs].
Qed.

(** Everything before the head moves leaves the clock; the rest moves it to the
    block. *)
Lemma block_clock fuel b skip s u s' :
  _apply_block fuel b skip s = Ok (u, s') → ∃ s1 s2 s3 s4,
    open_block b skip s = Ok (tt, s1) ∧ skeleton s1 = skeleton s ∧
    sfor (Block.transactions b) (λ trx, _apply_transaction (apply_chain_operation fuel 0 0) trx skip) s1
      = Ok (tt, s2) ∧ clock s2 = clock s1 ∧
    advance_head b skip s2 = Ok (tt, s3) ∧ tip s3 = (block_num b, block_id b, timestamp b) ∧
    clear_and_schedule fuel s3 = Ok (tt, s4) ∧ tip s4 = tip s3 ∧ same_records s4 s'.
Proof.
  intros H. apply apply_block_parts in H as (s1 & s2 & s3 & s4 & H1 & H2 & H3 & H4 & H5).
  exists s1, s2, s3, s4. pose proof (leaves_open _ _ _ _ _ H1) as E1.
  pose proof (leaves_for _ _ (λ trx, leaves_transaction fuel trx skip) _ _ _ H2) as E2.
  pose proof (advance_head_effect _ _ _ _ _ H3) as (E3 & _).
  split_and!; [done..| |done]. apply clear_parts in H4 as (s5 & H4 & -> & _).
  apply leaves_clear_proposals in H4. unfold ledger, clock, tip in *. congruence.
Qed.

Lemma head_moves fuel b skip s u s' :
  _apply_block fuel b skip s = Ok (u, s') → tip s' = (block_num b, block_id b, timestamp b).
Proof. intros (? & ? & ? & ? & _ & _ & _ & _ & _ & E & _ & E' & [-> _ _ _])%block_clock. congruence. Qed.

(** ** What the checks of a block are worth *)

(** The root that a header gives is that of the tree of the transactions, or the
    block is one of those of the shared database whose roots are listed. *)
Definition root_agrees (b : signed_block) : Prop :=
  ∃ root, merkle_root (Block.transactions b) = Some root ∧
    (transaction_merkle_root b = root ∨ ∃ i n, list_find (λ p, p.1 = block_num b) shared_db_merkle = Some (i, (n, root))).

(** The key that the block was signed with is the one its validator has set. *)
Definition signed_by_validator (b : signed_block) (s : database) : Prop :=
  ∃ w, validators s !! validator b = Some w ∧ signing_key w ≠ 0 ∧ signee b = Ok (signing_key w).

(** The slot in which the block's time lies is after the head's, and is the
    validator's place in the round, counted on from the slot of the head; or the
    chain is in an emergency and the validator has another place of the round. *)
Definition has_turn (b : signed_block) (s : database) : Prop :=
  ∃ slot, 0 < slot ∧
    (clock_started s → timestamp b + CHAIN_BLOCK_INTERVAL < 2 ^ 32 →
       get_slot_time s slot ≤ timestamp b < get_slot_time s slot + CHAIN_BLOCK_INTERVAL) ∧
    (current_shuffled_validators (schedule s) !!
       Z.to_nat (u64 (current_aslot (dgpo s) + slot) mod num_scheduled_validators (schedule s)) = Some (validator b) ∨
     emergency_mode s = true ∧ validator b ∈ scheduled s).

Lemma check_merkle_agrees b u : check_merkle b = Ok u → root_agrees b.
Proof.
  unfold check_merkle. destruct (merkle_root_tree b) as (root & -> & E). cbn [rbind].
  destruct (Z.eqb_spec (transaction_merkle_root b) root) as [Er|Er]; [exists root; auto|].
  destruct (list_find _ _) as [[i [n r]]|] eqn:Ef; [|done]. unfold rassert.
  destruct (Z.eqb_spec r root) as [->|]; [|done]. exists root. eauto.
Qed.

Lemma check_signee_signed b s u s' : check_signee b s = Ok (u, s') → signed_by_validator b s.
Proof.
  unfold check_signee. intros H. apply sbind_Ok in H as (w & ? & Hw & H). apply get_in_Ok in Hw as (w' & Hw & [= -> ->]).
  apply sbind_Ok in H as (? & ? & Hk & H). apply sassert_Ok in Hk as [Hk [= _ ->]].
  apply sbind_Ok in H as (k & ? & Hs & H). apply slift_Ok in Hs as (k' & Hs & [= -> ->]).
  apply sassert_Ok in H as [He _]. propify. exists w'. subst. done.
Qed.

Lemma check_turn_turn b s u s' : time (dgpo s) < timestamp b → check_turn b s = Ok (u, s') → has_turn b s.
Proof.
  intros Hlt. unfold check_turn. intros H. apply sbind_Ok in H as (slot & ? & Hs & H). apply sgets_Ok in Hs. injection Hs as -> ->.
  apply sbind_Ok in H as (? & ? & Hp & H). apply sassert_Ok in Hp as [Hp [= _ ->]]. propify.
  apply sbind_Ok in H as (w & s1 & Hg & H). unfold get_scheduled_validator in Hg.
  destruct (_ =? 0); [done|]. destruct (current_shuffled_validators (schedule s) !! _) as [w'|] eqn:Ew; [|done].
  injection Hg as <- <-. exists (get_slot_at_time s (timestamp b)). split_and!; [done|..].
  - intros Hc Hb. pose proof (slot_zero_bounds s Hc). unfold clock_started in Hc.
    assert (CHAIN_BLOCK_INTERVAL = 3) as E3 by done.
    destruct (slot_times_roundtrip s 1 (timestamp b)) as (_ & H2 & H3 & _); [done|lia..|].
    apply H2. destruct (Z.le_gt_cases (get_slot_time s 1) (timestamp b)); [done|]. rewrite H3 in Hp by done. lia.
  - case_bool_decide as E; [left; by rewrite E|right]. unfold sbind, sgets in H. cbn [negb swhen] in H.
    destruct (emergency_mode s); [|done].
    case_bool_decide; [done|]. by destruct (_ =? _) in H.
Qed.

(** The number of the head is the one that its identifier carries. *)
Definition numbered (s : database) : Prop := num_from_id (head_block_id (dgpo s)) = head_block_number (dgpo s).

(** C2 (safety).  A block is applied only as the next one of the chain: it names
    the head as its previous block and its time is after the head's.  Its Merkle root
    is the root of the tree of its transactions (or its number is one of the listed
    exceptions and the listed root is that root), its validator exists and has set the
    key that it is signed with, and the slot of its time belongs to that validator (in
    an emergency: the validator has a slot of the round) - each unless the flag that
    skips this check is set.  Afterwards the head is the block, with its number one
    above the head's, and identifiers go on to carry the numbers. *)
Theorem block_extends_head fuel b skip s u s' :
  _apply_block fuel b skip s = Ok (u, s') →
  head_block_id (dgpo s) = previous b ∧ time (dgpo s) < timestamp b ∧
  (skips skip skip_merkle_check = false → root_agrees b) ∧
  (skips skip skip_validator_signature = false → signed_by_validator b s) ∧
  (skips skip skip_validator_schedule_check = false → has_turn b s) ∧
  tip s' = (block_num b, block_id b, timestamp b) ∧ numbered s' ∧
  (numbered s → head_block_number (dgpo s') = u32 (head_block_number (dgpo s) + 1)).
Proof.
  intros H. pose proof (head_moves _ _ _ _ _ _ H) as Ht. apply block_clock in H as (s1 & _ & _ & _ & H & _).
  apply open_block_spec in H as (Hp & Hl & Hm & Hs & Hw). pose proof Ht as [= En Ei _].
  split_and!; [done|done| | | |done| | ].
  - intros E. exact (check_merkle_agrees b tt (Hm E)).
  - intros E. exact (check_signee_signed b s tt s (Hs E)).
  - intros E. exact (check_turn_turn b s tt s Hl (Hw E)).
  - unfold numbered. by rewrite En, Ei, num_from_block_id.
  - unfold numbered. intros <-. by rewrite En, Hp.
Qed.

(** ** Transactions are applied once *)

(** The record of a transaction is there, or the transaction has expired. *)
Definition spent (t : transaction) (s : database) : Prop :=
  transactions s !! tx_id t = Some (expiration t) ∨ expiration t < time (dgpo s).

Lemma validate_expiration trx skip s u s' :
  _validate_transaction trx skip s = Ok (u, s') →
  s' = s ∧ (0 < head_block_number (dgpo s) → time (dgpo s) < expiration (tx trx)).
Proof.
  intros Hv. assert (leaves (λ s, s) (_validate_transaction trx skip)) as L
    by (unfold _validate_transaction; solve_leaves).
  split; [exact (L _ _ _ Hv)|]. clear L. intros Hh. unfold _validate_transaction in Hv.
  apply sbind_Ok in Hv as (? & s1 & H1 & Hv).
  assert (∀ b (r : res unit), leaves (λ s, s) (swhen b (slift r))) as L by (intros; solve_leaves).
  apply L in H1 as ->. clear L. apply sbind_Ok in Hv as (? & s1 & H1 & Hv).
  assert (∀ b, leaves (λ s, s) (swhen b (let* s := sget in slift (check_authorities s trx)))) as L
    by (intros; solve_leaves).
  apply L in H1 as ->. clear L. apply sbind_Ok in Hv as (num & ? & Hg & Hv).
  unfold head_block_num in Hg. apply sgets_Ok in Hg. injection Hg as -> ->.
  destruct (Z.ltb_spec 0 (head_block_number (dgpo s))); [|lia]. cbn [swhen] in Hv.
  apply sbind_Ok in Hv as (? & s1 & H1 & Hv).
  assert (∀ b, leaves (λ s, s) (swhen b (check_tapos (tx trx)))) as L by (intros; solve_leaves).
  apply L in H1 as ->. clear L. unfold check_expiration, head_block_time in Hv.
  apply sbind_Ok in Hv as (now & ? & Hg & Hv). apply sgets_Ok in Hg. injection Hg as -> ->.
  apply sbind_Ok in Hv as (? & ? & Ha & Hv). apply sassert_Ok in Ha as [_ [= _ ->]].
  apply sassert_Ok in Hv as [Hv _]. by propify.
Qed.

Lemma prepare_records trx skip s u s' :
  skips skip skip_transaction_dupe_check = false → 0 < head_block_number (dgpo s) →
  prepare_transaction trx skip s = Ok (u, s') →
  transactions s !! tx_id (tx trx) = None ∧ time (dgpo s) < expiration (tx trx) ∧
  transactions s' = <[tx_id (tx trx) := expiration (tx trx)]> (transactions s).
Proof.
  unfold prepare_transaction. intros Hd Hh H. rewrite Hd in H. cbn [negb swhen] in H.
  apply sbind_Ok in H as (known & ? & Hg & H). apply find_in_Ok, pair_eq in Hg as [-> ->].
  apply sbind_Ok in H as (? & ? & Hk & H). apply sassert_Ok in Hk as [Hk [= _ ->]]. cbn [orb] in Hk. propify.
  apply sbind_Ok in H as (? & s1 & Hv & H). apply validate_expiration in Hv as [-> Hv].
  apply sbind_Ok in H as (? & s1 & Hc & H).
  assert (leaves transactions (sfor (required_accounts (operations (tx trx)))
    (charge_transaction (tx_pack_size trx) (operations (tx trx))))) as L by solve_leaves.
  apply L in Hc. apply create_in_Ok in H as (_ & [= _ ->]). cbn. rewrite Hc. auto.
Qed.

(** The transactions of a block, at a head that is not the genesis. *)
Lemma transactions_spent fuel skip l s u s' :
  skips skip skip_transaction_dupe_check = false → 0 < head_block_number (dgpo s) →
  sfor l (λ trx, _apply_transaction (apply_chain_operation fuel 0 0) trx skip) s = Ok (u, s') →
  NoDup (tx <$> l) ∧ (∀ t, t ∈ tx <$> l → ¬ spent t s ∧ spent t s') ∧ (∀ t, spent t s → spent t s').
Proof.
  intros Hd. revert s. induction l as [|trx l IH]; intros s Hh H; cbn [sfor] in H.
  { injection H as _ <-. split_and!; [constructor|set_solver|done]. }
  apply sbind_Ok in H as (? & s1 & H1 & H). pose proof (leaves_transaction _ _ _ _ _ _ H1) as Ec.
  unfold clock in Ec. injection Ec as ? Et Eh ? ? ? ? ? ?. apply IH in H as (Hn & Hl & Hk); [|lia]. clear IH.
  apply sbind_Ok in H1 as (? & s0 & Hp & H1).
  assert (transactions s1 = transactions s0) as E0.
  { revert H1. apply (leaves_for (P := transactions)). intros op.
    exact (leaves_part ledger snd _ (leaves_chain_operation fuel 0 0 op)). }
  apply prepare_records in Hp as (Hnew & Hexp & Ep); [|done..]. rewrite Ep in E0.
  assert (∀ t, spent t s → spent t s1) as Hk1.
  { unfold spent. intros t [Ht|Ht]; [left; rewrite E0|right; lia].
    apply lookup_insert_Some. right. split; [|done]. intros E. by rewrite <- E, Hnew in Ht. }
  assert (spent (tx trx) s1) as Hs1 by (left; by rewrite E0, lookup_insert_eq).
  assert (¬ spent (tx trx) s) as Hs by (unfold spent; rewrite Hnew; intros [|]; [done|lia]).
  rewrite fmap_cons. split_and!; [|intros t [->|Ht]%elem_of_cons|auto].
  - constructor; [|done]. intros Hin. by apply Hl in Hin as [? _].
  - auto.
  - apply Hl in Ht as [? ?]. auto.
Qed.

(** A block keeps what is spent, and spends its transactions. *)
Lemma block_spent fuel b skip s u s' :
  skips skip skip_transaction_dupe_check = false → 0 < head_block_number (dgpo s) →
  _apply_block fuel b skip s = Ok (u, s') →
  let l := tx <$> Block.transactions b in
  NoDup l ∧ (∀ t, t ∈ l → ¬ spent t s ∧ spent t s') ∧ (∀ t, spent t s → spent t s').
Proof.
  intros Hd Hh H l.
  apply block_clock in H as (s1 & s2 & s3 & s4 & Ho & E1 & H2 & E2 & H3 & E3 & H4 & E4 & [E5 X5 _ _]).
  apply open_block_spec in Ho as (_ & Ht & _).
  unfold skeleton, tip in E1. injection E1 as Eh ? Et ? ? X1 ? ? ?.
  assert (∀ t, spent t s1 ↔ spent t s) as Es by (intros t; unfold spent; by rewrite X1, Et).
  apply transactions_spent in H2 as (Hn & Hl & Hk); [|done|lia].
  apply advance_head_effect in H3 as (_ & X3 & _).
  assert (time (dgpo s2) = time (dgpo s)) as T2 by (unfold clock in E2; congruence).
  assert (time (dgpo s') = timestamp b ∧ time (dgpo s4) = timestamp b) as [T5 T4]
    by (unfold tip in *; split; congruence).
  apply clear_parts in H4 as (s5 & H4 & E6 & _ & _ & X4).
  apply leaves_clear_proposals in H4. apply pair_eq in H4 as [_ X6].
  assert (time (dgpo s5) = timestamp b) as T6 by (unfold tip in *; congruence). cbn [snd] in X6.
  assert (∀ t, spent t s2 → spent t s') as Hend.
  { unfold spent. intros t Hs. destruct (decide (expiration t < timestamp b)); [right; lia|left].
    destruct Hs as [Hs|]; [|lia]. rewrite X5, X4. apply map_lookup_filter_Some.
    rewrite X6, X3. split; [done|cbn; lia]. }
  split_and!; [done| |intros t Hs; by apply Hend, Hk, Es].
  intros t [Hs ?]%Hl. rewrite Es in Hs. auto.
Qed.

(** C3 (safety).  A transaction is applied at most once on a chain: in a run of
    blocks whose check of duplicates is not skipped no transaction occurs twice,
    in one block or in two, although records are dropped as soon as their
    transaction has expired; afterwards each is still recorded or has expired. *)
Theorem no_transaction_twice fuel bs s u s' :
  0 < head_block_number (dgpo s) →
  Forall (λ p, 0 < block_num p.1 ∧ skips p.2 skip_transaction_dupe_check = false) bs →
  apply_blocks fuel bs s = Ok (u, s') →
  let ts := bs ≫= λ p, tx <$> Block.transactions p.1 in
  NoDup ts ∧ ∀ t, t ∈ ts → ¬ spent t s ∧ spent t s'.
Proof.
  unfold apply_blocks. intros Hh Hbs. cut (∀ s, 0 < head_block_number (dgpo s) →
    sfor bs (λ p, _apply_block fuel p.1 p.2) s = Ok (u, s') →
    let ts := bs ≫= λ p, tx <$> Block.transactions p.1 in
    NoDup ts ∧ (∀ t, t ∈ ts → ¬ spent t s ∧ spent t s') ∧ ∀ t, spent t s → spent t s').
  { intros Hc H. apply Hc in H as (? & ? & _); auto. }
  clear s Hh. induction Hbs as [|[b skip] bs [Hb Hd] _ IH]; intros s Hh H; cbn [sfor] in H.
  { injection H as _ <-. split_and!; [constructor|set_solver|done]. }
  cbn [fst snd] in *. apply sbind_Ok in H as (? & s1 & H1 & H).
  pose proof (head_moves _ _ _ _ _ _ H1) as [= Eh _ _].
  apply IH in H as (Hn & Hl & Hk); [|lia]. clear IH. apply block_spent in H1 as (Hn1 & Hl1 & Hk1); [|done..].
  cbn [mbind list_bind fst]. split_and!.
  - apply NoDup_app. split_and!; [done| |done]. intros t [_ Ht]%Hl1 [Hs _]%Hl. done.
  - intros t [Ht|Ht]%elem_of_app; [apply Hl1 in Ht as [? ?]|apply Hl in Ht as [? ?]]; auto.
  - auto.
Qed.

(** ** The records across blocks *)

Lemma step_transaction fuel trx skip :
  steps proposal_step (_apply_transaction (apply_chain_operation fuel 0 0) trx skip).
Proof.
  apply steps_bind; [apply _| |intros _; apply steps_for; [apply _|intros; apply step_chain]].
  apply step_leaves. unfold prepare_transaction, _validate_transaction. solve_leaves.
Qed.

Lemma wf_proposals_same s s' :
  (proposals s', required_approvals s', next_proposal_id s') =
    (proposals s, required_approvals s, next_proposal_id s) → proposals_wf s → proposals_wf s'.
Proof. intros [= Ep Er En] [K F U Q]. split; rewrite ?Ep, ?Er, ?En; eauto. Qed.

Lemma block_records fuel b skip s u s' :
  _apply_block fuel b skip s = Ok (u, s') →
  keeps_log s s' ∧ (proposals_wf s → proposals_wf s' ∧ due s' = ∅).
Proof.
  intros H. apply block_clock in H as (s1 & s2 & s3 & s4 & _ & E1 & H2 & E2 & H3 & E3 & H4 & E4 & [E5 X5 P5 K5]).
  apply advance_head_effect in H3 as (_ & _ & P3 & K3).
  apply clear_parts in H4 as (s5 & H4 & E6 & B6 & P6 & _).
  pose proof (leaves_clear_proposals _ _ _ _ H4) as L4.
  assert (block_log s5 = block_log s3 ∧ block_log s2 = block_log s) as [B5 B2].
  { unfold ledger, clock, skeleton in *. split; congruence. }
  split.
  - etrans; [by apply (keeps_log_same s s2)|]. etrans; [exact K3|]. etrans; [|exact K5].
    apply keeps_log_same. congruence.
  - intros Hwf. assert (proposals_wf s1) as W1.
    { eapply wf_proposals_same, Hwf. unfold skeleton in E1. congruence. }
    assert (proposals_wf s2) as W2.
    { refine (step_wf s1 s2 _ W1).
      exact (steps_for proposal_step _ _ (λ trx, step_transaction fuel trx skip) _ _ _ H2). }
    assert (proposals_wf s3) as W3 by by eapply wf_proposals_same, W2.
    destruct (clear_expired_spec _ _ _ _ W3 H4) as [Hstep Hdue].
    pose proof (step_wf _ _ Hstep W3) as W5.
    assert (proposal_view s' = proposal_view s5) as E by congruence.
    unfold proposal_view in E. injection E as Et Ep Er En. split.
    + eapply wf_proposals_same, W5. congruence.
    + unfold due in *. by rewrite Ep, Et.
Qed.

(** C16 (invariant).  Whatever blocks are applied, the log of irreversible blocks
    only grows and stays in the order of the numbers, the table of proposals
    stays consistent with its index, and after a block no proposal whose time
    has come is left. *)
Theorem blocks_keep_records fuel bs s u s' :
  proposals_wf s → log_wf s → apply_blocks fuel bs s = Ok (u, s') →
  proposals_wf s' ∧ log_wf s' ∧ (∃ l, block_log s' = block_log s ++ l) ∧
  (bs ≠ [] → ∀ k p, proposals s' !! k = Some p → time (dgpo s') < prop_expiration_time p).
Proof.
  unfold apply_blocks. intros Hp Hl H.
  cut (keeps_log s s' ∧ proposals_wf s' ∧ (bs ≠ [] → due s' = ∅)).
  { intros ([? W] & ? & D). split_and!; [done|auto|done|]. intros Hne k p Hk.
    apply Z.nle_gt. intros Hle. assert (due s' !! k = Some p) as E by by apply due_lookup.
    by rewrite D in E. }
  clear Hl. revert s Hp H. induction bs as [|b bs IH]; intros s Hp H; cbn [sfor] in H.
  { by injection H as _ <-. }
  apply sbind_Ok in H as (? & s1 & H1 & H). apply block_records in H1 as [K1 W1].
  destruct (W1 Hp) as [Hp1 D1]. destruct (IH s1 Hp1 H) as (K & Hw & D).
  split_and!; [by etrans|done|]. intros _. destruct bs; [by injection H as _ <-|by apply D].
Qed.
End chain.

(** ** On the small chain *)

#[local] Existing Instance test_env.
#[local] Existing Instance no_interpreters.
#[local] Existing Instance test_tx_env.
#[local] Existing Instance clear_arrays.
#[local] Existing Instance test_block_env.

Lemma block_extends_head_witness :
  let run := _apply_block 3 block_a skip_nothing in
  run chain_db = Ok (tt, after run chain_db) ∧
  tip (after run chain_db) = (block_num block_a, block_id block_a, timestamp block_a) ∧
  root_agrees block_a ∧ signed_by_validator block_a chain_db ∧ has_turn block_a chain_db ∧
  head_block_number (dgpo (after run chain_db)) = 3.
Proof.
  intros run. assert (run chain_db = Ok (tt, after run chain_db)) as H by (apply after_Ok; vm_compute; reflexivity).
  split; [exact H|].
  destruct (block_extends_head 3 block_a skip_nothing chain_db tt _ H) as (_ & _ & Hm & Hs & Ht & Htip & _ & Hn).
  split_and!; [exact Htip|by apply Hm|by apply Hs|by apply Ht|].
  rewrite Hn by (vm_compute; reflexivity). reflexivity.
Defined.

Definition two_blocks : list (signed_block * Z) := [(block_a, skip_nothing); (block_b, skip_nothing)].

Lemma two_blocks_run : apply_blocks 3 two_blocks chain_db = Ok (tt, after (apply_blocks 3 two_blocks) chain_db).
Proof. apply after_Ok. vm_compute. reflexivity. Qed.

Lemma no_transaction_twice_witness :
  let ts := two_blocks ≫= λ p, tx <$> Block.transactions p.1 in
  length ts = 2%nat ∧ NoDup ts ∧ ∀ t, t ∈ ts → ¬ spent t chain_db ∧ spent t (after (apply_blocks 3 two_blocks) chain_db).
Proof.
  intros ts. split; [reflexivity|].
  refine (no_transaction_twice 3 two_blocks chain_db tt _ _ _ two_blocks_run); [vm_compute; reflexivity|].
  repeat constructor; vm_compute; reflexivity.
Defined.

Lemma chain_db_proposals : proposals_wf chain_db.
Proof. exact (wf_proposals_same test_db chain_db eq_refl test_db_proposals). Qed.

Lemma chain_db_log : log_wf chain_db.
Proof. intros [|[|i]] b; [intros [= <-]; vm_compute; reflexivity|done|done]. Qed.

Lemma blocks_keep_records_witness :
  proposals_wf (after (apply_blocks 3 two_blocks) chain_db) ∧ log_wf (after (apply_blocks 3 two_blocks) chain_db).
Proof.
  destruct (blocks_keep_records 3 two_blocks chain_db tt _ chain_db_proposals chain_db_log two_blocks_run) as (Hp & Hl & _).
  exact (conj Hp Hl).
Defined.
