(* ===== verification/PushBlock.v ===== *)
(** * Pushing blocks and switching forks (libraries/chain/database.cpp,
      lines 1107-1201, 1481-2366, 2604-2641 and 5260-5287)

    [_push_block] gives a block to the fork database and then extends the chain
    with it, switches to another branch, or does neither.  The chain's state is
    undone block by block; the fork database and the log of blocks are not part
    of what is undone.  An exception leaves the node as it is at that point, so
    the state is threaded through failures ([NM]). *)

From stdpp Require Import gmap strings list sorting.
From Stdlib Require Import ZArith Lia.
From S2P Require Import Prelude Fc Text Asset Authority SignState Operations ChainOperations.
From S2P Require Import Block ForkDb Objects Database Supply Frame Scenario EvalTransfer EvalAccount.
From S2P Require Import EvalGovern EvalAward EvalInvite Evaluators Duties Slots BlockData Irreversible.
From S2P Require Import PostValidation Schedule Transactions Proposals ApplyBlock.

(** ** The state of a node *)

(** [undo_stack] holds the states before the reversible blocks, the newest
    first; [pending_session] the state to which the pending transactions were
    applied.  [_checkpoints] is in the order of the numbers. *)
Record node := mk_node {
  db : database;
  undo_stack : list database;
  pending_session : option database;
  _pending_tx : list signed_transaction;
  _popped_tx : list signed_transaction;
  _checkpoints : list (Z * Z)
}.
Definition eta_node (n : node) : node :=
  {| db := db n; undo_stack := undo_stack n; pending_session := pending_session n;
     _pending_tx := _pending_tx n; _popped_tx := _popped_tx n; _checkpoints := _checkpoints n |}.
#[export] Instance set_db : Setter db := ltac:(derive_setter eta_node db).
#[export] Instance set_undo_stack : Setter undo_stack := ltac:(derive_setter eta_node undo_stack).
#[export] Instance set_pending_session : Setter pending_session := ltac:(derive_setter eta_node pending_session).
#[export] Instance set__pending_tx : Setter _pending_tx := ltac:(derive_setter eta_node _pending_tx).
#[export] Instance set__popped_tx : Setter _popped_tx := ltac:(derive_setter eta_node _popped_tx).
#[export] Instance set__checkpoints : Setter _checkpoints := ltac:(derive_setter eta_node _checkpoints).

(** Computations that keep the state when they throw. *)
Definition NM (A : Type) : Type := node → node * (fc_error + A).
Definition nret {A} (a : A) : NM A := λ n, (n, inr a).
Definition nthrow {A} (e : fc_error) : NM A := λ n, (n, inl e).
Definition nbind {A B} (m : NM A) (k : A → NM B) : NM B :=
  λ n, match m n with (n', inr a) => k a n' | (n', inl e) => (n', inl e) end.
Definition nget {A} (f : node → A) : NM A := λ n, (n, inr (f n)).
Definition nupd (f : node → node) : NM unit := λ n, (f n, inr tt).
Definition nlift {A} (r : res A) : NM A := λ n, match r with Ok a => (n, inr a) | Err e => (n, inl e) end.
Definition nwhen (b : bool) (m : NM unit) : NM unit := if b then m else nret tt.
(** [catch] of the exceptions of which [P] holds. *)
Definition ncatch {A} (P : fc_error → bool) (m : NM A) (h : fc_error → NM A) : NM A := λ n,
  match m n with
  | (n', inl e) => if P e then h e n' else (n', inl e)
  | r => r
  end.
Notation "'let+' x := m 'in' k" := (nbind m (λ x, k))
  (at level 10, x name, m at level 100, k at level 200).
Notation "'do+' m 'in' k" := (nbind m (λ _, k)) (at level 10, m at level 100, k at level 200).

(** An operation on the fork database. *)
Definition on_forks {A} (m : FM A) : NM A := λ n,
  match m (fork_db (db n)) with (d, r) => (n <| db ::= λ s, s <| fork_db := d |> |>, r) end.

Fixpoint nfor {A} (l : list A) (body : A → NM unit) : NM unit :=
  match l with [] => nret tt | x :: l => do+ body x in nfor l body end.

(** What undoing gives back: everything but the fork database, the log, the
    producing flag and the clock of the node. *)
Definition restored (before now : database) : database :=
  before <| fork_db := fork_db now |> <| block_log := block_log now |>
         <| is_producing := is_producing now |> <| wall_clock := wall_clock now |>.

(** The undo sessions of chainbase, on the states in which the open ones started,
    the newest first.  [undone] is what [chainbase::database::undo] goes back to,
    when there is something to undo, and the sessions that are left.  [commit] is
    [chainbase::database::commit (lib)], the newest session being that of block
    [head]: those of the blocks up to [lib] are dropped. *)
Class UndoSessions := {
  undone : list database → option (database * list database);
  undone_nothing : undone [] = None;
  undone_newest s l : undone (s :: l) = Some (s, l);
  commit : Z → Z → list database → list database;
  commit_prefix head lib l : ∃ k, commit head lib l = take k l;
  commit_open head lib s l : lib < head → hd_error (commit head lib (s :: l)) = Some s;
  commit_all head lib l : head ≤ lib → commit head lib l = []
}.

Definition is_unlinkable (e : fc_error) : bool := match e with E_unlinkable_block => true | _ => false end.
Definition is_assert (e : fc_error) : bool := match e with E_assert _ => true | _ => false end.
Definition is_wrong_validator (e : fc_error) : bool :=
  match e with E_wrong_scheduled_validator => true | _ => false end.

Section push_block.
Context {CE : ChainEnv} {CI : CustomInterpreters} {TE : TransactionEnv} {FA : FreshArrays} {BE : BlockEnv}.
Context {US : UndoSessions}.

(** ** Finding blocks *)

Definition fetch_block_by_id (id : Z) (s : database) : res (option signed_block) :=
  match fetch_block id (fork_db s) with
  | Some a => Ok (stored_block s a)
  | None =>
      let? tmp := read_block_by_num (num_from_id id) s in
      Ok (match tmp with Some b => if block_id b =? id then Some b else None | None => None end)
  end.

(** The log of irreversible blocks, and then the main branch. *)
Definition find_stored_id (n : Z) (s : database) : res Z :=
  let? b := read_block_by_num n s in
  match b with
  | Some b => Ok (block_id b)
  | None =>
      let? fitem := fetch_block_on_main_branch_by_number n (fork_db s) in
      Ok (match fitem ≫= λ a, item_id <$> heap (fork_db s) !! a with Some id => id | None => 0 end)
  end.

Definition find_block_id_for_num (n : Z) (s : database) : res Z :=
  if n =? 0 then Ok 0
  else
    match block_summaries s !! Z.land n 0xFFFF with
    | Some id => if num_from_id id =? n then Ok id else find_stored_id n s
    | None => find_stored_id n s
    end.

(** ** Applying and undoing *)

(** [apply_block]: the checkpoints.  Up to the last one the checks are skipped. *)
Definition checkpoint_skip (checkpoints : list (Z * Z)) (b : signed_block) (skip : Z) : res Z :=
  match last checkpoints with
  | Some (last_num, last_id) =>
      if last_id =? 0 then Ok skip
      else
        do? (match list_find (λ p, p.1 = block_num b) checkpoints with
             | Some (_, (_, id)) => rassert (block_id b =? id) (E_assert "Block did not match checkpoint")
             | None => Ok tt
             end) in
        Ok (if block_num b <=? last_num
            then foldr Z.lor 0 [skip_validator_signature; skip_transaction_signatures;
                   skip_transaction_dupe_check; skip_fork_db; skip_block_size_check; skip_tapos_check;
                   skip_authority_check; skip_undo_history_check; skip_validator_schedule_check;
                   skip_validate_operations]
            else skip)
  | None => Ok skip
  end.

(** The steps of [_apply_block]. *)
Definition block_steps (fuel : nat) (b : signed_block) (skip : Z) : list (DB unit) := [
  open_block b skip;
  sfor (Block.transactions b) (λ trx, _apply_transaction (apply_chain_operation fuel 0 0) trx skip);
  update_global_dynamic_data b (skips skip skip_undo_history_check);
  update_signing_validator (validator b) b;
  update_last_irreversible_block (skips skip skip_block_log);
  create_block_summary b;
  clear_and_schedule fuel;
  pay_and_settle;
  process_hardforks;
  check_block_post_validation_chain;
  create_block_post_validation (block_num b) (block_id b) (validator b)].

(** The state after the steps that succeed, and the error of the one that does
    not; what a failing step itself did is not kept. *)
Fixpoint run_steps (l : list (DB unit)) (s : database) : database * option fc_error :=
  match l with
  | [] => (s, None)
  | m :: l => match m s with Ok (_, s') => run_steps l s' | Err e => (s, Some e) end
  end.

(** [chainbase::database::undo]: nothing happens when there is nothing to undo. *)
Definition undo : NM unit := λ n,
  match undone (undo_stack n) with
  | None => (n, inr tt)
  | Some (before, rest) => (n <| db := restored before (db n) |> <| undo_stack := rest |>, inr tt)
  end.

(** [start_undo_session], [apply_block], [session.push]; an exception undoes
    the session, unless the block has been committed. *)
Definition apply_session (fuel : nat) (b : signed_block) (skip : Z) : NM unit := λ n,
  match checkpoint_skip (_checkpoints n) b skip with
  | Err e => (n, inl e)
  | Ok skip =>
      let r := run_steps (block_steps fuel b skip) (db n) in
      let lib := last_irreversible_block_num (dgpo r.1) in
      let states := commit (head_block_number (dgpo (db n)) + 1) lib (db n :: undo_stack n) in
      let applied := n <| db := r.1 |> <| undo_stack := states |> in
      match r.2 with
      | None => (applied, inr tt)
      | Some e => ((undo applied).1, inl e)
      end
  end.

Definition reset_pending_session : NM unit := nupd (λ n,
  match pending_session n with
  | Some before => n <| db := restored before (db n) |> <| pending_session := None |>
  | None => n
  end).
Definition clear_pending : NM unit :=
  do+ nupd (λ n, n <| _pending_tx := [] |>) in reset_pending_session.

Definition pop_block : NM unit :=
  do+ reset_pending_session in
  let+ s := nget db in
  let+ head_block := nlift (fetch_block_by_id (head_block_id (dgpo s)) s) in
  match head_block with
  | None => nthrow (E_assert "there are no blocks to pop")
  | Some b =>
      do+ on_forks ForkDb.pop_block in
      do+ undo in
      nupd (λ n, n <| _popped_tx ::= λ l, Block.transactions b ++ l |>)
  end.

(** Pop until the head is [target]; [false] when that would pop an irreversible
    block.  Every round moves the head of the fork database to its parent. *)
Fixpoint pop_down (rounds : nat) (target lib : Z) : NM bool :=
  match rounds with
  | O => nthrow E_undefined
  | S rounds =>
      let+ p := nget (λ n, dgpo (db n)) in
      if head_block_id p =? target then nret true
      else if head_block_number p <=? lib then nret false
      else do+ pop_block in pop_down rounds target lib
  end.
Definition pop_to (target : Z) : NM bool :=
  let+ rounds := nget (λ n, S (next_addr (fork_db (db n)))) in
  let+ lib := nget (λ n, last_irreversible_block_num (dgpo (db n))) in
  pop_down rounds target lib.

(** ** Comparing branches *)

(** The weight of the validators of a branch, each counted once, and whether
    the emergency validator is among them. *)
Definition add_weight (s : database) (r : list string * Z * bool) (b : signed_block) : list string * Z * bool :=
  let '(seen, weight, emergency) := r in
  if bool_decide (validator b = CHAIN_EMERGENCY_VALIDATOR_ACCOUNT) then (seen, weight, true)
  else if bool_decide (validator b ∈ seen) then r
  else
    let weight :=
      match validators s !! validator b with
      | Some w => match safe_add weight (votes w) with Ok x => x | Err _ => weight end
      | None => weight
      end in
    (validator b :: seen, weight, emergency).
Definition branch_info (s : database) (branch : list signed_block) : Z * bool :=
  let r := foldl (add_weight s) ([], 0, false) branch in (r.1.2, r.2).

Definition bonus (weight : Z) : res Z :=
  let? x := safe_div weight 10 in safe_add weight x.

Definition compare_weights (emergency : bool) (a_num b_num : Z) (a b : Z * bool) : res Z :=
  if emergency && a.2 && negb b.2 then Ok 1
  else if emergency && negb a.2 && b.2 then Ok (-1)
  else
    let? weight_a := if b_num <? a_num then bonus a.1 else Ok a.1 in
    let? weight_b := if a_num <? b_num then bonus b.1 else Ok b.1 in
    Ok (if weight_b <? weight_a then 1 else if weight_a <? weight_b then -1 else 0).

Definition blocks_of (s : database) (l : list nat) : list signed_block := omap (stored_block s) l.

(** Every exception is caught, and is a tie. *)
Definition compare_fork_branches (tip_a tip_b : Z) (s : database) : res Z :=
  if negb (ForkDb.is_known_block tip_a (fork_db s)) || negb (ForkDb.is_known_block tip_b (fork_db s)) then Ok 0
  else
    match
      let? branches := fetch_branch_from tip_a tip_b (fork_db s) in
      compare_weights (emergency_consensus_active (dgpo s)) (num_from_id tip_a) (num_from_id tip_b)
        (branch_info s (blocks_of s branches.1)) (branch_info s (blocks_of s branches.2))
    with
    | Err e => if is_exception e then Ok 0 else Err e
    | r => r
    end.

(** ** Switching to another branch *)

Definition block_at (a : nat) : NM signed_block :=
  let+ s := nget db in nlift (res_of_option (stored_block s a) E_undefined).

(** The fork database is reset to the head of the chain. *)
Definition reset_to_head : NM unit :=
  let+ s := nget db in
  let+ head_blk := nlift (fetch_block_by_id (head_block_id (dgpo s)) s) in
  do+ on_forks reset in
  match head_blk with Some b => on_forks (start_block b) | None => nret tt end.

(** Whether the block was applied with the check of the schedule relaxed; the
    branch has been chosen, so that a validator out of turn is accepted. *)
Definition apply_relaxed (fuel : nat) (b : signed_block) (skip : Z) : NM bool :=
  ncatch is_wrong_validator (do+ apply_session fuel b skip in nret false)
    (λ _, do+ apply_session fuel b (Z.lor skip skip_validator_schedule_check) in nret true).

(** The blocks of the branch, from the oldest on; the result is whether a check
    was relaxed, or the blocks from the one that failed on. *)
Fixpoint apply_branch (fuel : nat) (l : list nat) (relaxed : bool) (skip : Z) : NM (bool + list nat) :=
  match l with
  | [] => nret (inl relaxed)
  | a :: l' =>
      let+ b := block_at a in
      let+ r := ncatch is_exception (let+ x := apply_relaxed fuel b skip in nret (Some x)) (λ _, nret None) in
      match r with
      | Some x => apply_branch fuel l' (relaxed || x) skip
      | None => nret (inr l)
      end
  end.

(** The branch that failed is removed, and the old one restored. *)
Definition restore_branch (fuel : nat) (linear : bool) (second : list nat) (skip : Z) : NM unit :=
  match last second with
  | None => reset_to_head
  | Some back =>
      let+ b := block_at back in
      if linear then
        let+ r := pop_to (block_id b) in on_forks (set_head (Some back))
      else
        let+ r := pop_to (previous b) in
        do+ nfor (rev second) (λ a, let+ b := block_at a in apply_session fuel b skip) in
        on_forks (set_head (head second))
  end.

(** The place of the head's validator in the schedule becomes that of the slot. *)
Fixpoint place_of (n : string) (i : Z) (l : list string) : option Z :=
  match l with
  | [] => None
  | x :: l => if bool_decide (x = n) then Some i else place_of n (i + 1) l
  end.
Definition correct_aslot (new_head : signed_block) (s : database) : database :=
  let num := num_scheduled_validators (schedule s) in
  if 0 <? num then
    let cur_pos := current_aslot (dgpo s) mod num in
    match place_of (validator new_head) 0 (scheduled s) with
    | Some actual_pos =>
        let delta := actual_pos - cur_pos in
        let delta := if delta <? 0 then delta + num else delta in
        s <| dgpo ::= λ p, p <| current_aslot ::= λ x, u64 (x + delta) |> |>
    | None => s
    end
  else s.

(** The branch from the head's ancestor to [new_head] takes the place of the
    chain; [false] when one of its blocks failed. *)
Definition switch_fork (fuel : nat) (new_head : nat) (skip : Z) : NM bool :=
  let+ tip := block_at new_head in
  let+ p := nget (λ n, dgpo (db n)) in
  let+ known := nget (λ n, ForkDb.is_known_block (head_block_id p) (fork_db (db n))) in
  if negb known then do+ on_forks (remove (block_id tip)) in nthrow E_unlinkable_block
  else
    let+ r := nget (λ n, fetch_branch_from (block_id tip) (head_block_id p) (fork_db (db n))) in
    match r with
    | Err e => if is_exception e then do+ reset_to_head in nthrow E_unlinkable_block else nthrow e
    | Ok (first, second) =>
        let+ s := nget db in
        let last_of := λ l, last l ≫= stored_block s in
        let back_id := block_id <$> last_of second in
        let linear := (length second =? 1)%nat && bool_decide (back_id = Some (head_block_id p)) &&
                      bool_decide (block_id <$> last_of first = back_id) in
        do+ (match last_of second with
             | Some back =>
                 nwhen (negb linear)
                   (let+ r := pop_to (previous back) in
                    nwhen (negb r) (do+ on_forks (remove (block_id tip)) in nthrow E_unlinkable_block))
             | None => nret tt
             end) in
        let todo := rev first in
        let todo := if linear then filter (λ a, block_id <$> stored_block s a ≠ back_id) todo else todo in
        let+ r := apply_branch fuel todo false skip in
        match r with
        | inl relaxed =>
            do+ nwhen (relaxed && linear) (nupd (λ n, n <| db ::= correct_aslot tip |>)) in
            do+ on_forks (set_head (Some new_head)) in
            nret true
        | inr rest =>
            do+ nfor rest (λ a, let+ b := block_at a in on_forks (remove (block_id b))) in
            do+ restore_branch fuel linear second skip in
            nret false
        end
    end.

(** Whether the branch of [tip] takes over: after hardfork 12 the heavier one,
    and the longer one of equal weight. *)
Definition should_switch (tip : signed_block) (s : database) : res bool :=
  let p := dgpo s in
  if CHAIN_HARDFORK_12 <? processed_hardforks s then
    if (head_block_number p <=? block_num tip) && ForkDb.is_known_block (head_block_id p) (fork_db s) then
      let? cmp := compare_fork_branches (block_id tip) (head_block_id p) s in
      Ok ((0 <? cmp) || ((cmp =? 0) && (head_block_number p <? block_num tip)))
    else Ok false
  else Ok (head_block_number p <? block_num tip).

(** ** Pushing a block *)

Definition known (id : Z) : NM bool := nget (λ n, ForkDb.is_known_block id (fork_db (db n))).
Definition head_num (n : node) : Z := head_block_number (dgpo (db n)).
Definition current_head (n : node) : Z := head_block_id (dgpo (db n)).

(** A block that is not above the head: one of the chain is known, and a base
    for competing blocks; one whose parent is neither in the fork database nor
    on the chain is refused. *)
Definition consider_old (b : signed_block) : NM (option bool) :=
  let+ s := nget db in
  let+ existing_id := nlift (find_block_id_for_num (block_num b) s) in
  let+ seen := known (block_id b) in
  let+ parent_known := known (previous b) in
  if existing_id =? block_id b then
    do+ nwhen (negb seen) (on_forks (insert_as_base b)) in nret (Some false)
  else if negb (previous b =? 0) && negb parent_known then
    let+ parent_block := nlift (fetch_block_by_id (previous b) s) in
    match parent_block with
    | Some p =>
        do+ ncatch is_assert (let+ r := on_forks (push_block p) in nret tt) (λ _, nret tt) in
        nret None
    | None => nthrow E_unlinkable_block
    end
  else nret None.

(** The block does not extend the head: [None] when it is too far ahead, else
    whether the fork database may keep it until its parent comes. *)
Definition consider_gap (b : signed_block) (n : node) : option bool :=
  if (head_num n <? block_num b) && negb (previous b =? 0) && negb (previous b =? current_head n)
  then if 100 <? u32 (block_num b - head_num n) then None else Some true
  else Some false.

(** The fork database contains the head that the block extends. *)
Definition seed_head (b : signed_block) : NM unit :=
  let+ id := nget current_head in
  let+ seen := known id in
  nwhen ((previous b =? id) && negb seen)
    (let+ s := nget db in
     let+ head_blk := nlift (fetch_block_by_id id s) in
     match head_blk with Some h => on_forks (start_block h) | None => nret tt end).

(** The fork database takes the block; a result when the push ends here. *)
Definition push_to_forks (fuel : nat) (b : signed_block) (skip : Z) (expect_unlinkable : bool) :
    NM (option bool) :=
  do+ seed_head b in
  let+ r := ncatch (λ e, expect_unlinkable && is_unlinkable e)
              (let+ h := on_forks (push_block b) in nret (Some h)) (λ _, nret None) in
  match r with
  | None => nret (Some false)
  | Some None => nthrow E_undefined
  | Some (Some new_head) =>
      let+ id := nget current_head in
      let+ tip := block_at new_head in
      if (previous b =? id) || (previous tip =? id) then nret None
      else
        let+ s := nget db in
        let+ switch := nlift (should_switch tip s) in
        if switch : bool then let+ r := switch_fork fuel new_head skip in nret (Some r) else nret (Some false)
  end.

(** The block is applied to the head.  Out of turn, it stays in the fork
    database; when it fails otherwise it is removed. *)
Definition extend_head (fuel : nat) (b : signed_block) (skip : Z) : NM bool :=
  ncatch is_wrong_validator
    (ncatch (λ e, is_exception e && negb (is_wrong_validator e))
       (do+ apply_session fuel b skip in nret true)
       (λ e, do+ on_forks (remove (block_id b)) in nthrow e))
    (λ _, nret false).

(** Competing blocks whose parent is gone. *)
Definition prune_dead (b : signed_block) : NM unit :=
  let+ competing := nget (λ n, ForkDb.fetch_block_by_number (block_num b) (fork_db (db n))) in
  nfor competing (λ cb,
    let+ c := block_at cb.2 in
    let+ parent_known := known (previous c) in
    nwhen (negb (cb.1 =? block_id b) && negb parent_known) (on_forks (remove cb.1))).

(** The blocks that waited for this one in the fork database. *)
Definition apply_cascade (fuel : nat) (fb_head : nat) (fb : signed_block) (skip : Z) : NM unit :=
  let+ s := nget db in
  let id := head_block_id (dgpo s) in
  let+ branches := nlift (fetch_branch_from (block_id fb) id (fork_db s)) in
  let last_id := λ l, block_id <$> (last l ≫= stored_block s) in
  nwhen ((length branches.2 =? 1)%nat && bool_decide (last_id branches.2 = Some id) &&
         bool_decide (last_id branches.1 = last_id branches.2))
    (do+ nfor (rev branches.1) (λ a,
       let+ b := block_at a in
       let+ now := nget current_head in
       nwhen (negb (block_id b =? now)) (apply_session fuel b skip)) in
     on_forks (set_head (Some fb_head))).

(** What becomes of them when one fails; the head that the fork database is
    reset to is the one before the blocks are popped. *)
Fixpoint pop_above (rounds : nat) (original_head lib : Z) : NM unit :=
  match rounds with
  | O => nthrow E_undefined
  | S rounds =>
      let+ h := nget head_num in
      nwhen ((original_head <? h) && (lib <? h)) (do+ pop_block in pop_above rounds original_head lib)
  end.
Definition undo_cascade (original_head : Z) : NM unit :=
  let+ s := nget db in
  let+ head_blk := nlift (fetch_block_by_id (head_block_id (dgpo s)) s) in
  do+ pop_above (S (next_addr (fork_db s))) original_head (last_irreversible_block_num (dgpo s)) in
  do+ on_forks reset in
  match head_blk with Some b => on_forks (start_block b) | None => nret tt end.

Definition cascade (fuel : nat) (b : signed_block) (skip : Z) : NM unit :=
  let+ n := nget id in
  match _head (fork_db (db n)) with
  | None => nret tt
  | Some fb_head =>
      let+ fb := block_at fb_head in
      nwhen ((block_num b <? block_num fb) && (head_num n <? block_num fb) &&
             ForkDb.is_known_block (current_head n) (fork_db (db n)))
        (ncatch is_exception (apply_cascade fuel fb_head fb skip) (λ _, undo_cascade (head_num n)))
  end.

(** The results are [false] where a block is not applied, or a switch failed. *)
Definition _push_block (fuel : nat) (b : signed_block) (skip : Z) : NM bool :=
  let+ h := nget head_num in
  let+ r := if block_num b <=? h then consider_old b else nret None in
  match r with
  | Some r => nret r
  | None =>
      let+ gap := nget (consider_gap b) in
      match gap with
      | None => nret false
      | Some expect_unlinkable =>
          let+ r := if negb (skips skip skip_fork_db) then push_to_forks fuel b skip expect_unlinkable
                    else nret None in
          match r with
          | Some r => nret r
          | None =>
              let+ r := extend_head fuel b skip in
              if r : bool then do+ prune_dead b in do+ cascade fuel b skip in nret true else nret false
          end
      end
  end.

(** ** Pending transactions (lines 2332-2366 and db_with.hpp) *)

(** A transaction is applied on top of the pending ones; it leaves the state
    alone when it fails. *)
Definition _push_transaction (fuel : nat) (trx : signed_transaction) (skip : Z) : NM unit :=
  do+ nupd (λ n, match pending_session n with
                 | Some _ => n
                 | None => n <| pending_session := Some (db n) |>
                 end) in
  λ n, match _apply_transaction (apply_chain_operation fuel 0 0) trx skip (db n) with
       | Ok (_, s) => (n <| db := s |> <| _pending_tx ::= λ l, l ++ [trx] |>, inr tt)
       | Err e => (n, inl e)
       end.

(** [~pending_transactions_restorer] tries each transaction that is not known,
    as long as its time lasts: [tries] of them; the rest is kept for later. *)
Definition repush (fuel : nat) (trx : signed_transaction) (skip : Z) : NM unit :=
  let+ s := nget db in
  nwhen (negb (is_known_transaction (tx_id (tx trx)) s))
    (ncatch is_exception (_push_transaction fuel trx skip) (λ _, nret tt)).
Definition restore_pending (fuel tries : nat) (pending : list signed_transaction) (skip : Z) : NM unit :=
  let+ popped := nget _popped_tx in
  let l := popped ++ pending in
  do+ nfor (take tries l) (λ trx, repush fuel trx skip) in
  nupd (λ n, n <| _pending_tx ::= λ p, p ++ drop tries l |> <| _popped_tx := [] |>).

(** [push_block]: without the pending transactions, which are restored whatever
    the outcome. *)
Definition push_block (fuel tries : nat) (b : signed_block) (skip : Z) : NM bool := λ n,
  let pending := _pending_tx n in
  let n1 := (clear_pending n).1 in
  let r := _push_block fuel b skip n1 in
  match restore_pending fuel tries pending skip r.1 with
  | (n', inr _) => (n', r.2)
  | (n', inl e) => (n', inl e)
  end.

(** [push_transaction] of a client: with the producing flag set. *)
Definition submit_transaction (fuel : nat) (trx : signed_transaction) (skip : Z) : NM unit :=
  let+ p := nget (λ n, dgpo (db n)) in
  do+ nlift (rassert (tx_pack_size trx <=? u32 (dgp_maximum_block_size p - 256)) (E_assert "pack_size")) in
  do+ nupd (λ n, n <| db ::= λ s, s <| is_producing := true |> |>) in
  λ n, let r := _push_transaction fuel trx skip n in
       (r.1 <| db ::= λ s, s <| is_producing := false |> |>, r.2).
End push_block.
