(* ===== verification/PushBlockProofs.v ===== *)
(** * The chain that pushing blocks leaves

    Whatever is pushed, and whether it is accepted, refused or fails, the state
    of the chain is the result of blocks that were applied one after the
    other. *)

From stdpp Require Import gmap strings list sorting.
From Stdlib Require Import ZArith Lia.
From S2P Require Import Prelude Fc Text Asset Authority SignState Operations ChainOperations.
From S2P Require Import Block ForkDb Objects Database Supply Frame Scenario EvalTransfer EvalAccount.
From S2P Require Import EvalGovern EvalAward EvalInvite Evaluators Duties Slots BlockData Irreversible.
From S2P Require Import PostValidation Schedule Transactions Proposals ApplyBlock PushBlock.

(** ** What a node keeps *)

(** The part of the state that is undone. *)
Definition chain_of (s : database) : database :=
  s <| fork_db := empty_fork_database |> <| block_log := [] |> <| is_producing := false |> <| wall_clock := 0 |>.

Lemma chain_restored a b : chain_of (restored a b) = chain_of a.
Proof. done. Qed.
Lemma chain_forks s d : chain_of (s <| fork_db := d |>) = chain_of s.
Proof. done. Qed.

(** [keeps I m]: [m] keeps [I], also when it throws. *)
Definition keeps {A} (I : node → Prop) (m : NM A) : Prop := ∀ n, I n → I (m n).1.

Section keeps.
Context (I : node → Prop).

Lemma keeps_bind {A B} (m : NM A) (k : A → NM B) : keeps I m → (∀ a, keeps I (k a)) → keeps I (nbind m k).
Proof.
  intros Hm Hk n Hn. unfold nbind. specialize (Hm n Hn). destruct (m n) as [n' [e|a]]; [done|]. by apply Hk.
Qed.
Lemma keeps_ret {A} (a : A) : keeps I (nret a).
Proof. by intros n Hn. Qed.
Lemma keeps_throw {A} e : keeps I (nthrow (A := A) e).
Proof. by intros n Hn. Qed.
Lemma keeps_get {A} (f : node → A) : keeps I (nget f).
Proof. by intros n Hn. Qed.
Lemma keeps_lift {A} (r : res A) : keeps I (nlift r).
Proof. intros n Hn. unfold nlift. by destruct r. Qed.
Lemma keeps_when b m : keeps I m → keeps I (nwhen b m).
Proof. intros Hm. destruct b; [done|apply keeps_ret]. Qed.
Lemma keeps_for {A} (l : list A) (body : A → NM unit) : (∀ x, keeps I (body x)) → keeps I (nfor l body).
Proof. intros Hb. induction l as [|x l IH]; cbn [nfor]; [apply keeps_ret|by apply keeps_bind]. Qed.
Lemma keeps_catch {A} P (m : NM A) h : keeps I m → (∀ e, keeps I (h e)) → keeps I (ncatch P m h).
Proof.
  intros Hm Hh n Hn. unfold ncatch. specialize (Hm n Hn). destruct (m n) as [n' [e|a]]; [|done].
  destruct (P e); [by apply Hh|done].
Qed.
End keeps.

Create HintDb keeps discriminated.
#[export] Hint Resolve keeps_ret keeps_throw keeps_get keeps_lift : keeps.
Ltac keeps_step :=
  lazymatch goal with
  | |- keeps _ (nbind _ _) => apply keeps_bind; [|intros ?]
  | |- keeps _ (nwhen _ _) => apply keeps_when
  | |- keeps _ (nfor _ _) => apply keeps_for; intros ?
  | |- keeps _ (ncatch _ _ _) => apply keeps_catch; [|intros ?]
  | |- keeps _ (match ?x with _ => _ end) => destruct x
  | |- keeps _ (let _ := _ in _) => cbv zeta
  | |- keeps _ ?m => first [ solve [eauto with keeps nocore] | let h := head_of m in progress (unfold h) ]
  end.
Ltac solve_keeps := repeat keeps_step.

Section replay.
Context {CE : ChainEnv} {CI : CustomInterpreters} {TE : TransactionEnv} {FA : FreshArrays} {BE : BlockEnv}.
Context {US : UndoSessions} (fuel : nat).

(** The flags with which a block, or a transaction of its own, may be applied;
    and the checkpoints of the node. *)
Context (block_flags : signed_block → Z → Prop) (tx_flags : Z → Prop) (checkpoints : list (Z * Z)).

(** A push with the flags [skip] keeps to them: with the checkpoints, and with
    the check of the schedule relaxed in a switch. *)
Definition fits (skip : Z) : Prop :=
  ∀ b skip', checkpoint_skip checkpoints b skip = Ok skip' → block_flags b skip'.
Definition permitted (skip : Z) : Prop :=
  fits skip ∧ fits (Z.lor skip skip_validator_schedule_check) ∧ tx_flags skip.

(** How the chain's state may change: a block is applied; the slot of the head
    is corrected after a branch was applied out of turn; a block that is already
    irreversible fails in the medium, which cannot be undone. *)
Inductive chain_step (s s' : database) : Prop :=
| step_block b skip t t' :
    block_flags b skip →
    chain_of t = chain_of s → _apply_block fuel b skip t = Ok (tt, t') → chain_of s' = chain_of t' →
    chain_step s s'
| step_correction tip :
    chain_of s' = chain_of (correct_aslot tip s) → chain_step s s'
| step_torn b skip t t' e :
    block_flags b skip →
    chain_of t = chain_of s → run_steps (block_steps fuel b skip) t = (t', Some e) →
    head_block_number (dgpo t) < last_irreversible_block_num (dgpo t') → chain_of s' = chain_of t' →
    chain_step s s'.

(** Blocks lead from [root] to the state, and from each state that can be
    restored to the next one. *)
Definition follows (s' s : database) : Prop := ∃ t, rtc chain_step s t ∧ chain_of t = chain_of s'.
Record replayed (root : database) (n : node) : Prop := {
  rp_checkpoints : _checkpoints n = checkpoints;
  rp_session : pending_session n = None;
  rp_root : Forall (λ s, follows s root) (db n :: undo_stack n);
  rp_order : Sorted follows (db n :: undo_stack n)
}.

Lemma chain_correct tip s : chain_of (correct_aslot tip s) = correct_aslot tip (chain_of s).
Proof. unfold correct_aslot. cbn. destruct (0 <? _); [|done]. by destruct (place_of _ _ _). Qed.

Lemma chain_step_same s1 s2 s' : chain_of s1 = chain_of s2 → chain_step s1 s' → chain_step s2 s'.
Proof.
  intros E [b skip t t' Hf Ht H Hs|tip Hs|b skip t t' e Hf Ht H Hl Hs].
  - eapply step_block; [done| |done|done]. congruence.
  - apply (step_correction _ _ tip). by rewrite Hs, !chain_correct, E.
  - eapply step_torn; [done| |done|done|done]. congruence.
Qed.

Lemma follows_same s1 s1' s2 s2' :
  chain_of s1 = chain_of s1' → chain_of s2 = chain_of s2' → follows s1 s2 → follows s1' s2'.
Proof.
  intros E1 E2 (t & Hr & Et). apply rtc_inv in Hr as [<-|(x & Hs & Hr)].
  - exists s2'. split; [done|]. congruence.
  - exists t. split; [|congruence]. eapply rtc_l; [by eapply chain_step_same|done].
Qed.

Lemma follows_refl s : follows s s.
Proof. by exists s. Qed.

Lemma follows_trans s1 s2 s3 : follows s1 s2 → follows s2 s3 → follows s1 s3.
Proof.
  intros H1 (t & Hr & Et). destruct (follows_same s1 s1 s2 t eq_refl (eq_sym Et) H1) as (t' & Hr' & Et').
  exists t'. split; [by etrans|done].
Qed.

Lemma follows_step s s' : chain_step s s' → follows s' s.
Proof. intros H. exists s'. split; [by apply rtc_once|done]. Qed.

(** The state of the chain may be replaced by an equal one. *)
Lemma replayed_same root n s' :
  chain_of s' = chain_of (db n) → replayed root n → replayed root (n <| db := s' |>).
Proof.
  intros E [Hk Hp Hr Ho]. split; [done|done|..].
  - apply Forall_cons in Hr as [Hd Hr]. apply Forall_cons. split; [|done]. by eapply follows_same, Hd.
  - cbn in *. apply Sorted_inv in Ho as [Ho Hd]. constructor; [done|].
    destruct Hd as [|x l Hd]; constructor. by eapply follows_same, Hd.
Qed.

Lemma keeps_forks {A} root (m : FM A) : keeps (replayed root) (on_forks m).
Proof.
  intros n Hn. unfold on_forks. destruct (m (fork_db (db n))) as [d r]. by apply (replayed_same root n).
Qed.
#[local] Hint Resolve keeps_forks : keeps.

Lemma keeps_undo root : keeps (replayed root) undo.
Proof.
  intros n Hn. unfold undo. destruct (undo_stack n) as [|before rest] eqn:E; rewrite ?undone_nothing, ?undone_newest; [done|].
  destruct Hn as [Hk Hp Hr Ho]. rewrite E in *. apply Forall_cons in Hr as [_ Hr]. apply Sorted_inv in Ho as [Ho _].
  assert (replayed root (n <| db := before |> <| undo_stack := rest |>)) as W by by split.
  exact (replayed_same root (n <| db := before |> <| undo_stack := rest |>) (restored before (db n)) eq_refl W).
Qed.

(** The states that can still be undone, after a commit. *)
Lemma sorted_take {A} (R : relation A) k l : Sorted R l → Sorted R (take k l).
Proof.
  intros H. revert k. induction H as [|x l Hl IH Hd]; intros [|k]; cbn; try constructor; [apply IH|].
  destruct Hd; destruct k; by constructor.
Qed.

Lemma run_steps_app l m s :
  run_steps (l ++ [m]) s =
    match run_steps l s with
    | (s', None) => match m s' with Ok (_, s'') => (s'', None) | Err e => (s', Some e) end
    | r => r
    end.
Proof.
  revert s. induction l as [|x l IH]; intros s; cbn [app run_steps]; [by destruct (m s) as [[]|]|].
  destruct (x s) as [[]|]; [apply IH|done].
Qed.

(** The steps are those of a block. *)
Lemma run_steps_block b skip s :
  _apply_block fuel b skip s =
    match run_steps (block_steps fuel b skip) s with (s', None) => Ok (tt, s') | (_, Some e) => Err e end.
Proof.
  unfold block_steps, _apply_block, advance_head. cbn [run_steps].
  unfold sbind at 1. destruct (open_block b skip s) as [[[] s1]|e]; [|done].
  unfold sbind at 1. destruct (sfor (Block.transactions b) _ s1) as [[[] s2]|e]; [|done].
  unfold sbind at 1 2. destruct (update_global_dynamic_data _ _ s2) as [[[] s3]|e]; [|done].
  unfold sbind at 1. destruct (update_signing_validator _ _ s3) as [[[] s4]|e]; [|done].
  unfold sbind at 1. destruct (update_last_irreversible_block _ s4) as [[[] s5]|e]; [|done].
  destruct (create_block_summary b s5) as [[[] s6]|e]; [|done].
  unfold sbind at 1. destruct (clear_and_schedule fuel s6) as [[[] s7]|e]; [|done].
  unfold sbind at 1. destruct (pay_and_settle s7) as [[[] s8]|e]; [|done].
  unfold sbind at 1. destruct (process_hardforks s8) as [[[] s9]|e]; [|done].
  unfold sbind at 1. destruct (check_block_post_validation_chain s9) as [[[] s10]|e]; [|done].
  by destruct (create_block_post_validation _ _ _ s10) as [[[] s11]|e].
Qed.

(** What a session leaves, for the block with its flags. *)
Lemma keeps_session root b skip : fits skip → keeps (replayed root) (apply_session fuel b skip).
Proof.
  intros Hf n Hn. unfold apply_session. destruct (checkpoint_skip _ _ _) as [skip'|e] eqn:Hcs; [|done].
  rewrite (rp_checkpoints _ _ Hn) in Hcs. apply Hf in Hcs. clear Hf.
  pose proof (run_steps_block b skip' (db n)) as Hrun.
  destruct (run_steps (block_steps fuel b skip') (db n)) as [s' o] eqn:E. cbn [fst snd].
  set (lib := last_irreversible_block_num (dgpo s')). destruct Hn as [Hcp Hp Hr Ho].
  destruct (commit_prefix (head_block_number (dgpo (db n)) + 1) lib (db n :: undo_stack n)) as [k Hk]. rewrite Hk.
  assert (Forall (λ s, follows s root) (take k (db n :: undo_stack n))) as Hr' by by apply Forall_take.
  assert (Sorted follows (take k (db n :: undo_stack n))) as Ho' by by apply sorted_take.
  assert (∀ l, follows s' (db n) → Forall (λ s, follows s root) l → Sorted follows l → hd_error l = None ∨ hd_error l = Some (db n) →
    Forall (λ s, follows s root) (s' :: l) ∧ Sorted follows (s' :: l)) as Hnew.
  { intros l Hs Hl1 Hl2 Hd. split.
    - apply Forall_cons. split; [|done]. eapply follows_trans; [exact Hs|]. by apply Forall_cons in Hr as [? _].
    - constructor; [done|]. destruct l as [|x l]; constructor. by destruct Hd as [|[= ->]]. }
  destruct o as [e|].
  - unfold undo. destruct k as [|k]; cbn; [rewrite undone_nothing|rewrite undone_newest].
    + destruct (Hnew []) as [H1 H2]; [|by constructor|by constructor|by left|by split].
      apply follows_step. eapply step_torn; [done|done|exact E| |done]. fold lib. apply Z.nle_gt. intros Hle.
      pose proof (commit_open (head_block_number (dgpo (db n)) + 1) lib (db n) (undo_stack n) ltac:(lia)) as Hc.
      by rewrite Hk in Hc.
    + cbn [take] in *. apply Forall_cons in Hr' as [Hd Hr']. apply Sorted_inv in Ho' as [Ho' Hd'].
      split; cbn; [done|done|..].
      * apply Forall_cons. split; [|done]. by eapply follows_same, Hd.
      * constructor; [done|]. destruct Hd'; constructor. by eapply follows_same.
  - destruct (Hnew (take k (db n :: undo_stack n))) as [H1 H2]; [|done|done| |by split].
    + apply follows_step. by eapply step_block.
    + destruct k; [by left|by right].
Qed.
#[local] Hint Resolve keeps_session keeps_undo : keeps.

Lemma keeps_reset_session root : keeps (replayed root) reset_pending_session.
Proof. intros n Hn. unfold reset_pending_session, nupd. by rewrite (rp_session _ _ Hn). Qed.
#[local] Hint Resolve keeps_reset_session : keeps.

Lemma keeps_popped root b :
  keeps (replayed root) (nupd (λ n, n <| _popped_tx ::= λ l, Block.transactions b ++ l |>)).
Proof. by intros n [Hk Hp Hr Ho]. Qed.
#[local] Hint Resolve keeps_popped : keeps.

Lemma keeps_pop root : keeps (replayed root) pop_block.
Proof. solve_keeps. Qed.
#[local] Hint Resolve keeps_pop : keeps.

Lemma keeps_pop_down root rounds target lib : keeps (replayed root) (pop_down rounds target lib).
Proof. induction rounds; cbn [pop_down]; solve_keeps. Qed.
#[local] Hint Resolve keeps_pop_down : keeps.

Lemma keeps_pop_above root rounds original lib : keeps (replayed root) (pop_above rounds original lib).
Proof. induction rounds; cbn [pop_above]; solve_keeps. Qed.
#[local] Hint Resolve keeps_pop_above : keeps.

(** The flags of the sessions of a push. *)
Lemma permitted_fits skip : permitted skip → fits skip.
Proof. by intros []. Qed.
Lemma permitted_relaxed skip : permitted skip → fits (Z.lor skip skip_validator_schedule_check).
Proof. by intros (_ & ? & _). Qed.
Lemma permitted_tx skip : permitted skip → tx_flags skip.
Proof. by intros (_ & _ & ?). Qed.
#[local] Hint Resolve permitted_fits permitted_relaxed permitted_tx : keeps.

Lemma keeps_branch root l relaxed skip : permitted skip → keeps (replayed root) (apply_branch fuel l relaxed skip).
Proof. intros Hs. revert relaxed. induction l; intros; cbn [apply_branch]; solve_keeps. Qed.
#[local] Hint Resolve keeps_branch : keeps.

Lemma keeps_correction root tip : keeps (replayed root) (nupd (λ n, n <| db ::= correct_aslot tip |>)).
Proof.
  intros n [Hk Hp Hr Ho]. split; cbn in *; [done|done|..].
  - apply Forall_cons in Hr as [Hd Hr]. apply Forall_cons. split; [|done].
    eapply follows_trans, Hd. by eapply follows_step, step_correction.
  - apply Sorted_inv in Ho as [Ho Hd]. constructor; [done|]. destruct Hd as [|x l Hd]; constructor.
    eapply follows_trans, Hd. by eapply follows_step, step_correction.
Qed.
#[local] Hint Resolve keeps_correction : keeps.

Lemma keeps_push root b skip : permitted skip → keeps (replayed root) (_push_block fuel b skip).
Proof. intros Hs. unfold _push_block. solve_keeps. Qed.

(** ** With pending transactions *)

(** The state without the pending transactions. *)
Definition base_state (n : node) : database := default (db n) (pending_session n).

(** Transactions lead from one state to the other. *)
Definition tx_step (s s' : database) : Prop :=
  ∃ trx skip t t', tx_flags skip ∧ chain_of t = chain_of s ∧ chain_of s' = chain_of t' ∧
    _apply_transaction (apply_chain_operation fuel 0 0) trx skip t = Ok (tt, t').

Record node_ok (root : database) (n : node) : Prop := {
  ok_checkpoints : _checkpoints n = checkpoints;
  ok_root : Forall (λ s, follows s root) (base_state n :: undo_stack n);
  ok_order : Sorted follows (base_state n :: undo_stack n);
  ok_pending : ∃ t, rtc tx_step (base_state n) t ∧ chain_of t = chain_of (db n)
}.

Lemma replayed_ok root n : replayed root n → node_ok root n.
Proof.
  intros [Hk Hp Hr Ho]. assert (base_state n = db n) as E by (unfold base_state; by rewrite Hp).
  split; rewrite ?E; [done..|]. by exists (db n).
Qed.

Lemma clear_pending_ok root n : node_ok root n → replayed root (clear_pending n).1.
Proof.
  intros [Hk Hr Ho _]. unfold clear_pending, reset_pending_session, nbind, nupd. cbn.
  unfold base_state in *. destruct (pending_session n) as [base|] eqn:E; cbn in *; [|by split].
  assert (replayed root (n <| db := base |> <| pending_session := None |>)) as W by by split.
  assert (chain_of (restored base (db n)) = chain_of base) as E' by done.
  pose proof (replayed_same root (n <| db := base |> <| pending_session := None |>) (restored base (db n)) E' W) as [].
  by split.
Qed.

(** A new session starts where the state is. *)
Lemma open_session_ok root :
  keeps (node_ok root) (nupd (λ n, match pending_session n with
                                   | Some _ => n
                                   | None => n <| pending_session := Some (db n) |>
                                   end)).
Proof.
  intros n [Hk Hr Ho Hd]. unfold nupd. cbn [fst]. destruct (pending_session n) as [base|] eqn:E; [by split|].
  assert (base_state n = db n) as Eb by (unfold base_state; by rewrite E). rewrite Eb in *.
  split; unfold base_state; cbn; [done..|]. by exists (db n).
Qed.

(** A change of the state that does not show in the chain, or is a transaction. *)
Lemma pending_ok root n s' pending popped :
  (is_Some (pending_session n) ∧ tx_step (db n) s') ∨ chain_of s' = chain_of (db n) →
  node_ok root n → node_ok root (n <| db := s' |> <| _pending_tx := pending |> <| _popped_tx := popped |>).
Proof.
  intros Hs [Hk Hr Ho (t & Ht & Et)].
  destruct (pending_session n) as [base|] eqn:E.
  - assert (base_state n = base) as Eb by (unfold base_state; by rewrite E). rewrite Eb in *.
    split; unfold base_state; cbn; rewrite ?E; cbn; [done..|].
    destruct Hs as [[_ (trx & skip & u & u' & Hf & Eu & Es & H)]|Hs]; [|exists t; split; [done|congruence]].
    exists s'. split; [|done]. eapply rtc_r; [exact Ht|]. exists trx, skip, u, u'. split_and!; [done|congruence|done|done].
  - destruct Hs as [[[? ?] _]|Hs]; [done|].
    assert (base_state n = db n) as Eb by (unfold base_state; by rewrite E). rewrite Eb in *.
    split; unfold base_state; cbn; rewrite ?E; cbn; [done|..].
    + apply Forall_cons in Hr as [Hd Hr]. apply Forall_cons. split; [|done]. by eapply follows_same, Hd.
    + apply Sorted_inv in Ho as [Ho Hd]. constructor; [done|]. destruct Hd as [|x l Hd]; constructor.
      by eapply follows_same, Hd.
    + by exists s'.
Qed.

Lemma push_transaction_ok root trx skip :
  tx_flags skip → keeps (node_ok root) (_push_transaction fuel trx skip).
Proof.
  intros Hf n Hn. apply (open_session_ok root) in Hn. unfold _push_transaction, nbind. unfold nupd at 1. unfold nupd in Hn.
  cbn [fst] in Hn. set (n1 := match pending_session n with Some _ => n | None => _ end) in *.
  destruct (_apply_transaction _ trx skip (db n1)) as [[[] s']|e] eqn:E; [|done]. cbn [fst].
  apply (pending_ok root n1 s' (_pending_tx n1 ++ [trx]) (_popped_tx n1)); [|done].
  left. split; [|by exists trx, skip, (db n1), s'].
  subst n1. destruct (pending_session n) as [?|] eqn:Ep; [by rewrite Ep|]. by cbn.
Qed.
#[local] Hint Resolve push_transaction_ok : keeps.

Lemma restore_ok root tries pending skip :
  permitted skip → keeps (node_ok root) (restore_pending fuel tries pending skip).
Proof.
  intros Hs. unfold restore_pending. solve_keeps. intros n Hn. by apply (pending_ok root n (db n)); [right|].
Qed.

Lemma push_block_ok root tries b skip : permitted skip → keeps (node_ok root) (push_block fuel tries b skip).
Proof.
  intros Hs n Hn. unfold push_block. apply clear_pending_ok in Hn.
  pose proof (keeps_push root b skip Hs _ Hn) as Hp. apply replayed_ok in Hp.
  apply (restore_ok root tries (_pending_tx n) skip Hs) in Hp.
  by destruct (restore_pending _ _ _ _ _) as [n' [e|u]].
Qed.

Lemma submit_ok root trx skip : tx_flags skip → keeps (node_ok root) (submit_transaction fuel trx skip).
Proof.
  intros Hx. unfold submit_transaction. apply keeps_bind; [apply keeps_get|intros p].
  apply keeps_bind; [apply keeps_lift|intros _].
  assert (∀ n f, (∀ s, chain_of (f s) = chain_of s) → node_ok root n → node_ok root (n <| db ::= f |>)) as Hf.
  { intros n f Hf Hn. apply (pending_ok root n (f (db n)) (_pending_tx n) (_popped_tx n)) in Hn; [done|]. by right. }
  apply keeps_bind; [intros n Hn; by apply Hf|intros _]. intros n Hn. cbn [fst]. apply Hf; [done|].
  by apply push_transaction_ok.
Qed.

End replay.

Section pushes.
Context {CE : ChainEnv} {CI : CustomInterpreters} {TE : TransactionEnv} {FA : FreshArrays} {BE : BlockEnv}.
Context {US : UndoSessions} (fuel : nat).

(** The calls that change a node. *)
Inductive node_step (n : node) : node → Prop :=
| step_push tries b skip : node_step n (push_block fuel tries b skip n).1
| step_submit trx skip : node_step n (submit_transaction fuel trx skip n).1.

(** C12 (invariant).  Whatever blocks and transactions are pushed, and whether
    they are accepted, refused or fail half way through a switch of forks, the
    state of the chain is one that blocks, applied one after the other, lead to
    from the state at the start, with the pending transactions applied on top
    of it; and each state on the stack that a block can be undone to is one that
    the blocks after it led from.  Two changes are not whole blocks: the
    correction of the slot after a switch, and what is left of a block that fails
    after it has made itself irreversible. *)
Theorem pushes_replay_blocks s checkpoints n :
  rtc node_step (mk_node s [] None [] [] checkpoints) n →
  node_ok fuel (λ _ _, True) (λ _, True) checkpoints s n.
Proof.
  assert (∀ skip, permitted (λ _ _, True) (λ _, True) checkpoints skip) as Hp by done.
  assert (node_ok fuel (λ _ _, True) (λ _, True) checkpoints s (mk_node s [] None [] [] checkpoints)) as H0.
  { split; cbn.
    - done.
    - constructor; [apply follows_refl|constructor].
    - repeat constructor.
    - by exists s. }
  intros H. revert H0. induction H as [x|x y z [tries b skip|trx skip] _ IH]; intros Hx; [done|..]; apply IH;
    [by apply push_block_ok|by apply submit_ok].
Qed.

(** ** Extending the head *)

(** A failing application can be undone: it does not make the block itself
    irreversible. *)
Definition undoable (b : signed_block) (skip : Z) (n : node) : Prop :=
  ∀ skip' s' e, checkpoint_skip (_checkpoints n) b skip = Ok skip' →
    run_steps (block_steps fuel b skip') (db n) = (s', Some e) →
    last_irreversible_block_num (dgpo s') ≤ head_block_number (dgpo (db n)).

Lemma checkpoint_error cps b skip e :
  checkpoint_skip cps b skip = Err e → e = E_assert "Block did not match checkpoint".
Proof.
  unfold checkpoint_skip. destruct (last cps) as [[last_num last_id]|]; [|done].
  destruct (last_id =? 0); [done|]. destruct (list_find _ _) as [[? [? id]]|]; [|done].
  unfold rassert. destruct (block_id b =? id); [done|]. by intros [= <-].
Qed.

Lemma session_outcome b skip n n' r :
  undoable b skip n → apply_session fuel b skip n = (n', r) →
  match r with
  | inr _ => ∃ skip', checkpoint_skip (_checkpoints n) b skip = Ok skip' ∧
      _apply_block fuel b skip' (db n) = Ok (tt, db n')
  | inl e => chain_of (db n') = chain_of (db n) ∧
      (checkpoint_skip (_checkpoints n) b skip = Err e ∧ n' = n ∨
       ∃ skip', checkpoint_skip (_checkpoints n) b skip = Ok skip' ∧ _apply_block fuel b skip' (db n) = Err e ∧
         fork_db (db n') = fork_db (run_steps (block_steps fuel b skip') (db n)).1)
  end.
Proof.
  intros Hu H. unfold apply_session in H. destruct (checkpoint_skip _ _ _) as [skip'|e] eqn:Hc.
  2:{ injection H as <- <-. split; [done|by left]. }
  pose proof (run_steps_block fuel b skip' (db n)) as Hrun.
  destruct (run_steps (block_steps fuel b skip') (db n)) as [s' [e|]] eqn:E; cbn [fst snd] in H.
  - specialize (Hu _ _ _ Hc E). unfold undo in H. cbn [undo_stack] in H.
    pose proof (commit_open (head_block_number (dgpo (db n)) + 1) (last_irreversible_block_num (dgpo s')) (db n)
      (undo_stack n) ltac:(lia)) as Hop.
    destruct (commit _ _ _) as [|x l]; [done|]. cbn in H. rewrite undone_newest in H.
    injection Hop as ->. injection H as <- <-.
    split; [done|]. right. exists skip'. by rewrite E.
  - injection H as <- <-. cbn. by exists skip'.
Qed.

(** A block whose checks fail leaves the state as it was. *)
Lemma open_block_fails b skip s e :
  open_block b skip s = Err e → run_steps (block_steps fuel b skip) s = (s, Some e).
Proof. intros H. unfold block_steps. cbn [run_steps]. by rewrite H. Qed.

(** C13 (error).  A block that extends the head has one of three outcomes, unless its
    failing application makes the block itself irreversible.  It is applied, as
    [_apply_block] applies it, with the flags of the checkpoints.  Or the application
    ends with the exception for a validator out of turn: nothing is thrown, the chain
    stays as it is, and the fork database is as the application left it; when it is the
    check of the header that finds the validator out of turn, this is the outcome and
    the fork database is untouched, so that the block stays in it.  Or it fails otherwise: the chain stays as it is, the error
    is reported and, if the error is an exception of the program, the fork database
    forgets the block. *)
Theorem extension_outcomes b skip n n' r :
  undoable b skip n → extend_head fuel b skip n = (n', r) →
  match r with
  | inr true => ∃ skip', checkpoint_skip (_checkpoints n) b skip = Ok skip' ∧
      _apply_block fuel b skip' (db n) = Ok (tt, db n')
  | inr false => chain_of (db n') = chain_of (db n) ∧
      ∃ skip', checkpoint_skip (_checkpoints n) b skip = Ok skip' ∧
        _apply_block fuel b skip' (db n) = Err E_wrong_scheduled_validator ∧
        fork_db (db n') = fork_db (run_steps (block_steps fuel b skip') (db n)).1
  | inl e => chain_of (db n') = chain_of (db n) ∧
      (checkpoint_skip (_checkpoints n) b skip = Err e ∨
       ∃ skip', checkpoint_skip (_checkpoints n) b skip = Ok skip' ∧ _apply_block fuel b skip' (db n) = Err e) ∧
      (is_exception e = true → _index (fork_db (db n')) !! block_id b = None)
  end ∧
  (∀ skip', checkpoint_skip (_checkpoints n) b skip = Ok skip' →
     open_block b skip' (db n) = Err E_wrong_scheduled_validator →
     r = inr false ∧ fork_db (db n') = fork_db (db n)).
Proof.
  intros Hu H. unfold extend_head, ncatch, nbind in H.
  destruct (apply_session fuel b skip n) as [n1 [e|[]]] eqn:E; apply session_outcome in E; try done.
  2:{ injection H as <- <-. split; [done|]. intros skip' Hc Ho. destruct E as (k & Hk & E).
      rewrite Hc in Hk. injection Hk as <-. by rewrite run_steps_block, (open_block_fails _ _ _ _ Ho) in E. }
  assert (∀ skip', checkpoint_skip (_checkpoints n) b skip = Ok skip' →
    open_block b skip' (db n) = Err E_wrong_scheduled_validator →
    e = E_wrong_scheduled_validator ∧ fork_db (db n1) = fork_db (db n)) as Ht.
  { intros skip' Hc Ho. destruct E as [_ [[Hk _]|(k & Hk & Ha & Ef)]]; [congruence|].
    rewrite Hc in Hk. injection Hk as <-. rewrite (open_block_fails _ _ _ _ Ho) in Ef.
    by rewrite run_steps_block, (open_block_fails _ _ _ _ Ho) in Ha; injection Ha as <-. }
  destruct E as [Ec He]. destruct (is_wrong_validator e) eqn:Ew.
  - rewrite andb_false_r, Ew in H. injection H as <- <-.
    assert (e = E_wrong_scheduled_validator) as -> by by destruct e.
    split; [split; [done|]; destruct He as [[He _]|He]; [by apply checkpoint_error in He|done]|].
    intros k Hc Ho. split; [done|]. by destruct (Ht k Hc Ho).
  - assert (∀ k, checkpoint_skip (_checkpoints n) b skip = Ok k →
      open_block b k (db n) = Err E_wrong_scheduled_validator → False) as Hno.
    { intros k Hc Ho. by destruct (Ht k Hc Ho) as [-> _]. }
    assert (checkpoint_skip (_checkpoints n) b skip = Err e ∨
      ∃ skip', checkpoint_skip (_checkpoints n) b skip = Ok skip' ∧ _apply_block fuel b skip' (db n) = Err e) as He'
      by (destruct He as [[? _]|(k & ? & ? & _)]; eauto).
    rewrite andb_true_r in H. destruct (is_exception e) eqn:Ex.
    + cbn in H. rewrite Ew in H. injection H as <- <-.
      split; [|intros k Hc Ho; by destruct (Hno k)]. split_and!; [done..|]. intros _. cbn. apply lookup_delete_eq.
    + rewrite Ew in H. injection H as <- <-. split; [|intros k Hc Ho; by destruct (Hno k)].
      split_and!; [done..|]. by rewrite Ex.
Qed.

(** ** Popping blocks *)

(** The states that a node can be at without applying anything. *)
Definition states (n : node) : list database := chain_of <$> (db n :: undo_stack n).

Definition popped (n n' : node) : Prop := pending_session n' = None ∧ ∃ k, states n' = drop k (states n).

Lemma popped_trans n1 n2 n3 : popped n1 n2 → popped n2 n3 → popped n1 n3.
Proof. intros [_ [j Ej]] [H [k Ek]]. split; [done|]. exists (j + k)%nat. by rewrite Ek, Ej, drop_drop. Qed.

(** The state is left, or the newest session undone. *)
Lemma pop_block_popped n : pending_session n = None → popped n (pop_block n).1.
Proof.
  intros Hp. assert (popped n n) as Hn by (split; [done|by exists 0%nat]).
  unfold pop_block, nbind, reset_pending_session, nupd, nget, nlift. rewrite Hp.
  destruct (fetch_block_by_id _ _) as [[b|]|e]; [|done..].
  unfold on_forks. destruct (ForkDb.pop_block _) as [d [e|[]]]; cbn [fst]; [done|].
  unfold undo. cbn. destruct (undo_stack n) as [|before rest] eqn:E; rewrite ?undone_nothing, ?undone_newest; cbn.
  - split; [done|]. exists 0%nat. unfold states. cbn. by rewrite E.
  - split; [done|]. exists 1%nat. unfold states. cbn. by rewrite E.
Qed.

Lemma pop_down_spec rounds target lib n n' r :
  pending_session n = None → pop_down rounds target lib n = (n', r) →
  popped n n' ∧
  match r with
  | inr true => current_head n' = target
  | inr false => head_num n' ≤ lib
  | inl _ => True
  end.
Proof.
  revert n. induction rounds as [|rounds IH]; intros n Hp H.
  { injection H as <- <-. split; [split; [done|by exists 0%nat]|done]. }
  assert (popped n n) as Hn by (split; [done|by exists 0%nat]).
  cbn [pop_down] in H. unfold nbind at 1, nget at 1 in H. cbn beta iota in H.
  destruct (Z.eqb_spec (head_block_id (dgpo (db n))) target); [by injection H as <- <-|].
  destruct (Z.leb_spec (head_block_number (dgpo (db n))) lib); [by injection H as <- <-|].
  unfold nbind in H. pose proof (pop_block_popped n Hp) as H1.
  destruct (pop_block n) as [n1 [e|[]]]; cbn [fst] in H1.
  - by injection H as <- <-.
  - apply IH in H as [H2 Hr]; [|by destruct H1]. split; [by eapply popped_trans|done].
Qed.

(** The head of a node is that of the first of its states. *)
Lemma popped_head (P : database → Prop) n n' :
  (∀ s, P (chain_of s) → P s) → Forall P (states n) → popped n n' → P (db n').
Proof.
  intros HP Hall [_ [k Ek]]. apply HP. apply (Forall_drop _ k) in Hall. rewrite <- Ek in Hall.
  by apply Forall_cons in Hall as [? _].
Qed.

(** Switching to a branch whose ancestor can no longer be reached. *)
Section refused.
Variables (new_head : nat) (skip : Z) (n : node) (tip back : signed_block) (first second : list nat).
Hypothesis Hpending : pending_session n = None.
Hypothesis Htip : stored_block (db n) new_head = Some tip.
Hypothesis Hknown : ForkDb.is_known_block (current_head n) (fork_db (db n)) = true.
Hypothesis Hbranch : fetch_branch_from (block_id tip) (current_head n) (fork_db (db n)) = Ok (first, second).
Hypothesis Hback : last second ≫= stored_block (db n) = Some back.
Hypothesis Happart : block_id <$> (last first ≫= stored_block (db n)) ≠ Some (block_id back).
Hypothesis Hgone : Forall (λ s, head_block_id (dgpo s) ≠ previous back) (states n).

Lemma refused_switch n' r :
  switch_fork fuel new_head skip n = (n', r) →
  pop_to (previous back) n = (n', r) ∧ (∃ e, r = inl e) ∨
  ∃ n1, pop_to (previous back) n = (n1, inr false) ∧ r = inl E_unlinkable_block ∧
    n' = (on_forks (remove (block_id tip)) n1).1.
Proof.
  intros H. unfold switch_fork, block_at in H.
  unfold nbind at 1 2 3 4, nget, nlift in H. cbn beta iota in H. rewrite Htip in H. cbn [res_of_option] in H.
  fold (current_head n) in H. rewrite Hknown in H. cbn [negb] in H.
  unfold nbind at 1 in H. cbn beta iota in H. rewrite Hbranch in H. unfold nbind at 1 in H. cbn beta iota zeta in H.
  rewrite Hback in H. cbn [fmap option_fmap option_map] in H. rewrite (bool_decide_eq_false_2 _ Happart), andb_false_r in H.
  cbn [negb nwhen] in H. unfold nbind at 1 2 in H.
  destruct (pop_to (previous back) n) as [n1 [e|b]] eqn:Hpop; [left; injection H as <- <-; eauto|].
  destruct b; cbn [negb nwhen] in H.
  - exfalso. unfold pop_to, nbind, nget in Hpop. apply pop_down_spec in Hpop as [Hp Hh]; [|done].
    revert Hh. eapply (popped_head (λ s, head_block_id (dgpo s) ≠ previous back)); done.
  - right. exists n1. unfold nbind, nthrow, on_forks in *. destruct (remove _ _) as [d [e|[]]] eqn:Er.
    + discriminate.
    + by injection H as <- <-.
Qed.
End refused.
End pushes.
