(* ===== verification/PushBlockFailures.v ===== *)
(** * What pushing a block does not undo

    A switch of forks that is refused at the last irreversible block leaves the
    blocks above it popped; short histories of the small chain after which a
    block that is refused leaves its traces; and three branches of which each
    beats the next one.  The blocks are ordinary; all of them come from the
    network. *)

From stdpp Require Import gmap strings list sorting.
From Stdlib Require Import ZArith Lia.
From S2P Require Import Prelude Fc Text Asset Authority SignState Operations ChainOperations.
From S2P Require Import Block ForkDb Objects Database Supply Frame Scenario EvalTransfer EvalAccount.
From S2P Require Import EvalGovern EvalAward EvalInvite Evaluators Duties Slots BlockData Irreversible.
From S2P Require Import PostValidation Schedule Transactions Proposals ProposalsTrap ApplyBlock BlockScenario.
From S2P Require Import PushBlock PushBlockProofs.

Section switch.
Context {CE : ChainEnv} {CI : CustomInterpreters} {TE : TransactionEnv} {FA : FreshArrays} {BE : BlockEnv}.
Context {US : UndoSessions} (fuel : nat).

(** C18 (error).  When the head is above the last irreversible block, no pending
    transactions are applied, and the ancestor of the two branches is none of the states
    that the node can go back to, as when it is below the last irreversible block, a
    switch of forks never takes place.  Unless a pop itself fails, it is refused, with the branch's
    tip forgotten, but only after the chain was popped down to the last irreversible
    block: the states above are gone from the undo stack and nothing puts them back,
    although a push is meant to be unwound when it fails. *)
Theorem refused_switch_pops_blocks new_head skip n tip back first second n' r :
  pending_session n = None →
  stored_block (db n) new_head = Some tip →
  ForkDb.is_known_block (current_head n) (fork_db (db n)) = true →
  fetch_branch_from (block_id tip) (current_head n) (fork_db (db n)) = Ok (first, second) →
  last second ≫= stored_block (db n) = Some back →
  block_id <$> (last first ≫= stored_block (db n)) ≠ Some (block_id back) →
  Forall (λ s, head_block_id (dgpo s) ≠ previous back) (db n :: undo_stack n) →
  last_irreversible_block_num (dgpo (db n)) < head_num n →
  switch_fork fuel new_head skip n = (n', r) →
  (∃ e, r = inl e ∧ pop_to (previous back) n = (n', inl e)) ∨
  (r = inl E_unlinkable_block ∧ _index (fork_db (db n')) !! block_id tip = None ∧
   head_num n' ≤ last_irreversible_block_num (dgpo (db n)) ∧
   ∃ k, (1 ≤ k)%nat ∧ states n' = drop k (states n)).
Proof.
  intros Hp Ht Hk Hb Hl Ha Hg Hlib H.
  assert (Forall (λ s, head_block_id (dgpo s) ≠ previous back) (states n)) as Hg'.
  { unfold states. apply Forall_fmap. eapply Forall_impl; [exact Hg|]. intros s Hs. exact Hs. }
  apply (refused_switch fuel new_head skip n tip back first second Hp Ht Hk Hb Hl Ha Hg') in H
    as [[H [e ->]]|(n1 & Hpop & -> & ->)]; [left; eauto|right].
  unfold pop_to, nbind, nget in Hpop. apply pop_down_spec in Hpop as [[_ [k Ek]] Hh]; [|done].
  split_and!; [done| |exact Hh|].
  - cbn. apply lookup_delete_eq.
  - exists k. split; [|exact Ek]. destruct k as [|k]; [|lia]. rewrite drop_0 in Ek.
    apply (f_equal (from_option (λ s, head_block_number (dgpo s)) 0 ∘ head)) in Ek. cbn in Ek. unfold head_num in *. lia.
Qed.
End switch.

#[local] Existing Instance test_env.
#[local] Existing Instance no_interpreters.
#[local] Existing Instance test_tx_env.
#[local] Existing Instance clear_arrays.
#[local] Existing Instance test_block_env.

(** One state per block above the irreversible one. *)
Definition reversible_states : UndoSessions.
Proof.
  refine {| undone l := match l with [] => None | s :: l => Some (s, l) end;
            commit head lib l := take (Z.to_nat (head - lib)) l |}.
  - done.
  - done.
  - intros head lib l. by eexists.
  - intros head lib s l Hlt. destruct (Z.to_nat (head - lib)) eqn:E; [lia|done].
  - intros head lib l Hle. by replace (Z.to_nat (head - lib)) with 0%nat by lia.
Defined.
#[local] Existing Instance reversible_states.

(** The node at the second block, and pushes to it. *)
Definition start_node : node := mk_node chain_db [] None [] [] [].
Definition push (b : signed_block) : NM bool := push_block 3 10 b skip_nothing.
Definition pushed (l : list signed_block) : node := foldl (λ n b, (push b n).1) start_node l.

Definition forks (n : node) : fork_database := fork_db (db n).
Definition knows (n : node) (b : signed_block) : bool := ForkDb.is_known_block (block_id b) (forks n).
Definition lib (n : node) : Z := last_irreversible_block_num (dgpo (db n)).

(** A block without transactions; [root] is its Merkle root, which should be 0. *)
Definition plain (n : string) (parent_id t root salt : Z) : signed_block := mk_block parent_id t n root salt [] [].

(** The chain, and a branch that competes with it from the second block on. *)
Definition a3 : signed_block := plain "alice" (block_id block_2) 1000002 0 3.
Definition a4 : signed_block := plain "bob" (block_id a3) 1000005 0 4.
Definition a5 : signed_block := plain "carol" (block_id a4) 1000008 0 5.
Definition b3 : signed_block := plain "alice" (block_id block_2) 1000002 0 13.
Definition b4 : signed_block := plain "bob" (block_id b3) 1000005 0 14.
Definition b5 : signed_block := plain "carol" (block_id b4) 1000008 0 15.
Definition b6 : signed_block := plain "dave" (block_id b5) 1000011 0 16.

(** Blocks whose Merkle root is wrong, and one out of turn. *)
Definition bad_a5 : signed_block := plain "carol" (block_id a4) 1000008 1 27.
Definition bad_b5 : signed_block := plain "carol" (block_id b4) 1000008 1 17.
Definition late_a4 : signed_block := plain "dave" (block_id a3) 1000005 0 24.

(** With blocks 3 to 5 applied and block 3 irreversible, the refused push of a branch's
    block 6 leaves the node at block 3, which is not irreversible any more. *)
Example refused_push_pops_blocks :
  let n := pushed [a3; a4; a5; b3; b4; b5] in
  (head_num n, current_head n, lib n) = (5, block_id a5, 3) ∧
  (push b6 n).2 = inl E_unlinkable_block ∧
  let n' := (push b6 n).1 in
  (head_num n', current_head n', lib n') = (3, block_id a3, 1) ∧ undo_stack n' = [].
Proof. cbv zeta. repeat split; vm_compute; reflexivity. Qed.

(** A branch that turns out to be invalid can still replace the
    chain: while the old branch is restored, the head of the fork database is
    moved back once for each block popped, the ones of the old branch included,
    and runs out of blocks.  The push throws in the middle of the recovery, and
    the node is left on the invalid branch, one block below its old head. *)
Theorem invalid_branch_stays_applied :
  let n := pushed [a3; a4; b3; b4] in
  (head_num n, current_head n) = (4, block_id a4) ∧
  (push bad_b5 n).2 = inl (E_assert "popping head block would leave fork DB empty") ∧
  let n' := (push bad_b5 n).1 in
  (head_num n', current_head n') = (3, block_id b3) ∧ knows n' bad_b5 = false.
Proof. cbv zeta. repeat split; vm_compute; reflexivity. Qed.

(** A block out of turn that is kept as a competing tip of the head
    makes the node refuse and forget every other block of a fork: as the tip of
    the fork database extends the head, the block just pushed is applied to a
    head that it does not extend.  Without the tip the same block is kept. *)
Theorem kept_tip_drops_forks :
  (push late_a4 (pushed [a3])).2 = inr false ∧ knows (pushed [a3; late_a4]) late_a4 = true ∧
  (push b3 (pushed [a3])).2 = inr false ∧ knows (pushed [a3; b3]) b3 = true ∧
  (push b3 (pushed [a3; late_a4])).2 = inl (E_assert "head_block_id") ∧
  knows (pushed [a3; late_a4; b3]) b3 = false.
Proof. cbv zeta. repeat split; vm_compute; reflexivity. Qed.

(** When one of the blocks that waited for the pushed one fails,
    the others are popped, but the fork database is reset to the block that was
    the head before they were: afterwards it does not know the head of the
    chain, and its own head is a block that is not applied. *)
Theorem cascade_forgets_head :
  let n := (push a3 (pushed [bad_a5; a4])).1 in
  (push a3 (pushed [bad_a5; a4])).2 = inr true ∧ current_head n = block_id a3 ∧
  knows n a3 = false ∧ knows n a4 = true.
Proof. cbv zeta. repeat split; vm_compute; reflexivity. Qed.

(** ** The comparison is not an order *)

(** Three branches of four, three and two blocks from the second block on. *)
Definition chain_from (names : list string) (salt : Z) : list signed_block :=
  (foldl (λ r n, let b := plain n r.2.1 r.2.2 0 salt in (r.1 ++ [b], (block_id b, r.2.2 + 3)))
     ([], (block_id block_2, 1000002)) names).1.
Definition long : list signed_block := chain_from ["alice"; "alice"; "alice"; "alice"] 31.
Definition medium : list signed_block := chain_from ["bob"; "bob"; "bob"] 32.
Definition short : list signed_block := chain_from ["carol"; "carol"] 33.
Definition tip_id (l : list signed_block) : Z := from_option block_id 0 (last l).

(** All three in the fork database; Alice has 100 votes, Bob 105, Carol 112. *)
Definition three_branches : database :=
  let d := foldl (λ d b, (ForkDb.push_block b d).1) (fork_db chain_db) (long ++ medium ++ short) in
  chain_db <| fork_db := d |>
    <| validators ::= λ m, alter (λ w, w <| votes := 100 |>) "alice"
         (alter (λ w, w <| votes := 105 |>) "bob" (alter (λ w, w <| votes := 112 |>) "carol" m)) |>.

(** The comparison of branches is not an order, since a branch's
    bonus depends on the one it is compared with: of three branches the long one
    beats the medium one, the medium one beats the short one, and the short one
    beats the long one, so that nodes that see them in different orders stay on
    different heads. *)
Theorem fork_choice_cycles :
  compare_fork_branches (tip_id long) (tip_id medium) three_branches = Ok 1 ∧
  compare_fork_branches (tip_id medium) (tip_id short) three_branches = Ok 1 ∧
  compare_fork_branches (tip_id short) (tip_id long) three_branches = Ok 1.
Proof. cbv zeta. repeat split; vm_compute; reflexivity. Qed.

(** ** The theorems on the small chain *)

(** The switch that this push makes: block 6 is in the fork database. *)
Definition at_switch : node := (on_forks (ForkDb.push_block b6) (pushed [a3; a4; a5; b3; b4; b5])).1.

Lemma refused_switch_pops_blocks_witness :
  let r := switch_fork 3 (default 0%nat (_head (forks at_switch))) skip_nothing at_switch in
  r.2 = inl E_unlinkable_block ∧ head_num at_switch = 5 ∧ head_num r.1 ≤ lib at_switch ∧
  ∃ k, (1 ≤ k)%nat ∧ states r.1 = drop k (states at_switch).
Proof.
  intros r. destruct (refused_switch_pops_blocks 3 (default 0%nat (_head (forks at_switch))) skip_nothing at_switch
    b6 a3 (default ([], []) (match fetch_branch_from (block_id b6) (current_head at_switch) (forks at_switch) with
                             | Ok x => Some x | Err _ => None end)).1
          (default ([], []) (match fetch_branch_from (block_id b6) (current_head at_switch) (forks at_switch) with
                             | Ok x => Some x | Err _ => None end)).2 r.1 r.2)
    as [(e & _ & Hpop)|(Hr & _ & Hh & Hk)]; try (vm_compute; reflexivity).
  - vm_compute. discriminate.
  - apply (bool_decide_eq_true_1 _). vm_compute. reflexivity.
  - exfalso. apply (f_equal snd) in Hpop. revert Hpop. vm_compute. discriminate.
  - split; [exact Hr|]. split; [vm_compute; reflexivity|]. exact (conj Hh Hk).
Defined.

Lemma pushes_replay_blocks_witness :
  node_ok 3 (λ _ _, True) (λ _, True) [] chain_db (push a4 (push a3 start_node).1).1 ∧ head_num (push a4 (push a3 start_node).1).1 = 4.
Proof.
  split; [|vm_compute; reflexivity]. refine (pushes_replay_blocks 3 chain_db [] _ _).
  eapply rtc_l; [exact (step_push 3 start_node 10 a3 skip_nothing)|].
  apply rtc_once. exact (step_push 3 _ 10 a4 skip_nothing).
Defined.

Lemma bad_block_undoable : undoable 3 (plain "alice" (block_id block_2) 1000002 1 3) skip_nothing start_node.
Proof.
  intros skip' s' e [= <-] H. assert (s' = chain_db) as ->; [|vm_compute; discriminate].
  assert (fst (run_steps (block_steps 3 (plain "alice" (block_id block_2) 1000002 1 3) skip_nothing) chain_db) = chain_db)
    as E by (vm_compute; reflexivity).
  change (db start_node) with chain_db in H. rewrite H in E. exact E.
Qed.

Lemma extension_outcomes_witness :
  let b := plain "alice" (block_id block_2) 1000002 1 3 in
  let r := extend_head 3 b skip_nothing start_node in
  r.2 = inl (E_assert "Merkle check failed") ∧ chain_of (db r.1) = chain_of chain_db.
Proof.
  intros b r. pose proof (extension_outcomes 3 b skip_nothing start_node r.1 r.2 bad_block_undoable
    (surjective_pairing _)) as H.
  assert (r.2 = inl (E_assert "Merkle check failed")) as E by (vm_compute; reflexivity).
  rewrite E in H. split; [exact E|]. exact (proj1 (proj1 H)).
Defined.
