(* ===== verification/ForkChoice.v ===== *)
(** * The comparison of branches (libraries/chain/database.cpp, lines 1604-1672)

    It does not depend on the order of its arguments, and in an emergency a
    branch with a block of the emergency validator wins over one without. *)

From stdpp Require Import gmap strings list sorting.
From Stdlib Require Import ZArith Lia.
From S2P Require Import Prelude Fc Text Asset Authority SignState Operations ChainOperations.
From S2P Require Import Block ForkDb ForkDbProofs Objects Database Supply Frame Scenario EvalTransfer EvalAccount.
From S2P Require Import EvalGovern EvalAward EvalInvite Evaluators Duties Slots BlockData Irreversible.
From S2P Require Import PostValidation Schedule Transactions Proposals ProposalsTrap ApplyBlock BlockScenario.
From S2P Require Import PushBlock PushBlockProofs PushBlockFailures.

(** ** The two branches, seen from the other side *)

Section swap.
Context {BH : BlockHash}.
Implicit Types (s : fork_database).

Lemma walk_both_swap fuel s x y l1 l2 : walk_both fuel s x y = Ok (l1, l2) → walk_both fuel s y x = Ok (l2, l1).
Proof.
  revert x y l1 l2. induction fuel as [|fuel IH]; intros x y l1 l2 H; cbn [walk_both] in *; [done|].
  destruct (heap s !! x) as [xi|], (heap s !! y) as [yi|]; try done.
  destruct (bool_decide_reflect (previous (item_data xi) = previous (item_data yi))) as [E|E].
  - rewrite bool_decide_eq_true_2 by done. by injection H as <- <-.
  - rewrite bool_decide_eq_false_2 by done.
    destruct (lock s (item_prev xi)) as [x'|], (lock s (item_prev yi)) as [y'|]; try done.
    destruct (walk_both fuel s x' y') as [[m1 m2]|] eqn:Em; [|done]. cbn in H. injection H as <- <-.
    by rewrite (IH _ _ _ _ Em).
Qed.

(** A walk that is not above its target stays where it is. *)
Lemma walk_down_stay fuel s x i target :
  heap s !! x = Some i → block_num (item_data i) ≤ target → walk_down (S fuel) s x target = Ok ([], x).
Proof. intros Hx Hle. cbn [walk_down]. rewrite Hx. by destruct (Z.ltb_spec target (block_num (item_data i))); [lia|]. Qed.

(** The result of a walk is at the target, or at the start below it. *)
Lemma walk_down_end fuel s x i target l e :
  fdb_wf s → heap s !! x = Some i → 0 ≤ target → (Z.to_nat (item_num i) < fuel)%nat →
  walk_down fuel s x target = Ok (l, e) →
  ∃ j, heap s !! e = Some j ∧ block_num (item_data j) = Z.min (block_num (item_data i)) target.
Proof.
  intros Hwf Hx Ht Hf H. pose proof (walk_down_spec fuel s x i target Hwf Hx Ht Hf) as Hs. rewrite H in Hs.
  destruct Hs as (Hp & _ & Hn). assert (is_Some (heap s !! e)) as [j Hj].
  { clear -Hp. remember (l ++ [e]) as l' eqn:E. clear E. induction Hp; auto. }
  exists j. split; [done|]. unfold num_at in Hn. rewrite Hj in Hn.
  destruct (wf_heap s Hwf x i Hx) as (_ & <- & _). by destruct (wf_heap s Hwf e j Hj) as (_ & <- & _).
Qed.

Lemma fetch_branch_swap s f g l1 l2 :
  fdb_wf s → fetch_branch_from f g s = Ok (l1, l2) → fetch_branch_from g f s = Ok (l2, l1).
Proof.
  intros Hwf. unfold fetch_branch_from.
  destruct (_index s !! f) as [fa|] eqn:Ef; [|done]. destruct (_index s !! g) as [ga|] eqn:Eg; [|done].
  cbn [res_of_option rbind]. destruct (wf_index s Hwf f fa Ef) as (fi & Hfa & _).
  destruct (wf_index s Hwf g ga Eg) as (gi & Hga & _). rewrite Hfa, Hga. cbn [res_of_option rbind].
  destruct (wf_heap s Hwf fa fi Hfa) as (_ & Ef' & Hpf & _).
  destruct (wf_heap s Hwf ga gi Hga) as (_ & Eg' & Hpg & _).
  destruct (walk_down (walk_fuel fi) s fa (block_num (item_data gi))) as [[m1 e1]|] eqn:E1; [|done].
  cbn [rbind fst snd]. destruct (walk_down_end (walk_fuel fi) s fa fi (block_num (item_data gi)) m1 e1 Hwf Hfa
    ltac:(lia) ltac:(unfold walk_fuel; lia) E1) as (j1 & Hj1 & N1). rewrite Hj1. cbn [res_of_option rbind].
  destruct (walk_down (walk_fuel gi) s ga (block_num (item_data j1))) as [[m2 e2]|] eqn:E2; [|done].
  cbn [rbind fst snd]. destruct (walk_down_end (walk_fuel gi) s ga gi (block_num (item_data j1)) m2 e2 Hwf Hga
    ltac:(lia) ltac:(unfold walk_fuel; lia) E2) as (j2 & Hj2 & N2).
  destruct (walk_both (walk_fuel j1) s e1 e2) as [[x y]|] eqn:E3; [|done]. cbn [rbind fst snd].
  intros [= <- <-]. apply walk_both_swap in E3.
  assert (walk_fuel j2 = walk_fuel j1) as Ew.
  { destruct (wf_heap s Hwf e1 j1 Hj1) as (_ & A1 & _). destruct (wf_heap s Hwf e2 j2 Hj2) as (_ & A2 & _).
    unfold walk_fuel. f_equal. f_equal. lia. }
  assert (walk_down (walk_fuel gi) s ga (block_num (item_data fi)) = Ok (m2, e2)) as W2.
  { destruct (Z.le_gt_cases (block_num (item_data fi)) (block_num (item_data gi))).
    - by replace (block_num (item_data fi)) with (block_num (item_data j1)) by lia.
    - replace (block_num (item_data j1)) with (block_num (item_data gi)) in E2 by lia.
      unfold walk_fuel in *. rewrite (walk_down_stay _ s ga gi) in E2 |- * by (done || lia). done. }
  rewrite W2. cbn [rbind fst snd]. rewrite Hj2. cbn [res_of_option rbind].
  assert (walk_down (walk_fuel fi) s fa (block_num (item_data j2)) = Ok (m1, e1)) as W1.
  { destruct (Z.le_gt_cases (block_num (item_data fi)) (block_num (item_data gi))).
    - unfold walk_fuel in *. rewrite (walk_down_stay _ s fa fi) in E1 |- * by (done || lia). done.
    - by replace (block_num (item_data j2)) with (block_num (item_data gi)) by lia. }
  rewrite W1. cbn [rbind fst snd]. by rewrite Ew, E3.
Qed.

(** What the walks throw. *)
Definition walk_error (e : fc_error) : Prop := e = E_undefined ∨ ∃ msg, e = E_assert msg.

Lemma walk_down_error fuel s x target e : walk_down fuel s x target = Err e → walk_error e.
Proof.
  unfold walk_error. revert x. induction fuel as [|fuel IH]; intros x H; cbn [walk_down] in H; [naive_solver|].
  destruct (heap s !! x); [|naive_solver]. destruct (_ <? _); [|done].
  destruct (lock _ _) as [p|]; [|injection H as <-; right; by eexists]. destruct (walk_down fuel s p target) eqn:E; [done|].
  injection H as ->. by eapply IH.
Qed.

Lemma walk_both_error fuel s x y e : walk_both fuel s x y = Err e → walk_error e.
Proof.
  unfold walk_error. revert x y. induction fuel as [|fuel IH]; intros x y H; cbn [walk_both] in H; [naive_solver|].
  destruct (heap s !! x) as [xi|], (heap s !! y) as [yi|]; try naive_solver. destruct (bool_decide _); [done|].
  destruct (lock s (item_prev xi)) as [p|], (lock s (item_prev yi)) as [q|];
    try (injection H as <-; right; by eexists).
  destruct (walk_both fuel s p q) eqn:E; [done|]. injection H as ->. by eapply IH.
Qed.

Lemma fetch_branch_error f g s e : fetch_branch_from f g s = Err e → walk_error e.
Proof.
  unfold fetch_branch_from. intros H.
  assert (∀ A (o : option A) x e, res_of_option o x = Err e → walk_error x → walk_error e) as Ho.
  { intros A [y|] x e' He Hx; [done|]. by injection He as <-. }
  repeat match type of H with
  | rbind ?m _ = Err _ =>
      let E := fresh "E" in destruct m eqn:E; cbn [rbind] in H;
        [|injection H as ->;
          first [ by eapply walk_down_error | by eapply walk_both_error
                | eapply Ho; [exact E|]; unfold walk_error; by eauto ] ]
  end. done.
Qed.
End swap.

(** ** The comparison *)

Section compare.
Context {CE : ChainEnv}.

(** What [fc::safe] throws is caught. *)
Hypothesis (safe_add_throws : ∀ a b e, safe_add a b = Err e → is_exception e = true).
Hypothesis (safe_div_throws : ∀ a b e, safe_div a b = Err e → is_exception e = true).

Lemma bonus_throws w e : bonus w = Err e → is_exception e = true.
Proof.
  unfold bonus. destruct (safe_div w 10) as [x|x] eqn:E; cbn; [apply safe_add_throws|].
  intros [= <-]. by eapply safe_div_throws.
Qed.

Lemma compare_weights_swap emergency na nb a b :
  compare_weights emergency nb na b a =
    match compare_weights emergency na nb a b with Ok x => Ok (- x) | Err e => Err e end.
Proof.
  unfold compare_weights. destruct a as [wa ea], b as [wb eb]. cbn.
  assert (∀ x y, (if y <? x then 1 else if x <? y then -1 else 0) =
    - (if x <? y then 1 else if y <? x then -1 else 0)) as Hs by (intros; repeat case_match; lia).
  destruct emergency, ea, eb; cbn; try done;
    destruct (Z.ltb_spec nb na), (Z.ltb_spec na nb); try lia; cbn;
    try (destruct (bonus _); cbn; [|done]); by rewrite Hs.
Qed.

Lemma compare_weights_range emergency na nb a b x : compare_weights emergency na nb a b = Ok x → -1 ≤ x ≤ 1.
Proof.
  unfold compare_weights. destruct (_ && _); [intros [= <-]; lia|]. destruct (_ && _); [intros [= <-]; lia|].
  destruct (if nb <? na then bonus a.1 else Ok a.1) as [wa|]; [|done]. cbn.
  destruct (if na <? nb then bonus b.1 else Ok b.1) as [wb|]; [|done]. cbn. intros [= <-]. repeat case_match; lia.
Qed.

Lemma compare_weights_throws emergency na nb a b e :
  compare_weights emergency na nb a b = Err e → is_exception e = true.
Proof.
  unfold compare_weights. destruct (_ && _); [done|]. destruct (_ && _); [done|].
  destruct (if nb <? na then bonus a.1 else Ok a.1) as [wa|x] eqn:E1; cbn.
  - destruct (if na <? nb then bonus b.1 else Ok b.1) as [wb|x] eqn:E2; cbn; [done|]. intros [= <-].
    destruct (na <? nb); [by eapply bonus_throws|done].
  - intros [= <-]. destruct (nb <? na); [by eapply bonus_throws|done].
Qed.

(** The branches from either side: both are found, with their roles exchanged, or
    neither is, which is caught. *)
Lemma fetch_branch_sides f g d :
  fdb_wf d →
  (∃ l1 l2, fetch_branch_from f g d = Ok (l1, l2) ∧ fetch_branch_from g f d = Ok (l2, l1)) ∨
  (∃ e e', fetch_branch_from f g d = Err e ∧ fetch_branch_from g f d = Err e' ∧
     is_exception e = true ∧ is_exception e' = true).
Proof.
  intros Hwf. assert (∀ f g e, fetch_branch_from f g d = Err e → is_exception e = true) as Ht.
  { intros f' g' e H. pose proof (fetch_branch_spec d f' g' Hwf) as Hs. rewrite H in Hs.
    by apply fetch_branch_error in H as [->|[msg ->]]. }
  destruct (fetch_branch_from f g d) as [[l1 l2]|e] eqn:E.
  - left. exists l1, l2. split; [done|]. by apply fetch_branch_swap.
  - right. destruct (fetch_branch_from g f d) as [[l1 l2]|e'] eqn:E'.
    + apply fetch_branch_swap in E'; [|done]. congruence.
    + exists e, e'. split_and!; [done..|by eapply Ht|by eapply Ht].
Qed.

Lemma fetch_branch_known f g d l :
  fetch_branch_from f g d = Ok l → ForkDb.is_known_block f d = true ∧ ForkDb.is_known_block g d = true.
Proof.
  unfold fetch_branch_from, ForkDb.is_known_block. destruct (_index d !! f); [|done].
  by destruct (_index d !! g).
Qed.

(** The comparison of two branches that are found. *)
Lemma compare_found s a b l1 l2 :
  fetch_branch_from a b (fork_db s) = Ok (l1, l2) →
  compare_fork_branches a b s =
    match compare_weights (emergency_consensus_active (dgpo s)) (num_from_id a) (num_from_id b)
            (branch_info s (blocks_of s l1)) (branch_info s (blocks_of s l2)) with
    | Ok x => Ok x
    | Err _ => Ok 0
    end.
Proof.
  intros H. pose proof (fetch_branch_known _ _ _ _ H) as [Ka Kb]. unfold compare_fork_branches.
  rewrite Ka, Kb, H. cbn [negb orb rbind fst snd]. destruct (compare_weights _ _ _ _ _) as [x|e] eqn:E; [done|].
  by rewrite (compare_weights_throws _ _ _ _ _ _ E).
Qed.

Lemma compare_missing s a b e :
  fetch_branch_from a b (fork_db s) = Err e → is_exception e = true → compare_fork_branches a b s = Ok 0.
Proof. intros H He. unfold compare_fork_branches. destruct (_ || _); [done|]. rewrite H. cbn. by rewrite He. Qed.

Lemma compare_weights_emergency na nb a b :
  a.2 = true → b.2 = false → compare_weights true na nb a b = Ok 1.
Proof. unfold compare_weights. by intros -> ->. Qed.

Lemma compare_weights_equal emergency n a b :
  emergency = false ∨ a.2 = b.2 → b.1 < a.1 → compare_weights emergency n n a b = Ok 1.
Proof.
  unfold compare_weights. intros He Hw. assert (emergency && a.2 && negb b.2 = false) as ->.
  { destruct He as [->| ->]; [done|]. by destruct emergency, b.2. }
  assert (emergency && negb a.2 && b.2 = false) as ->.
  { destruct He as [->| ->]; [done|]. by destruct emergency, b.2. }
  rewrite Z.ltb_irrefl. cbn. by destruct (Z.ltb_spec b.1 a.1); [|lia].
Qed.

(** C17 (functional).  The comparison of two branches always has a result, and
    exchanging the branches negates it: it does not depend on which of two
    branches a node saw first.  In an emergency the branch with a block of the
    emergency validator wins over one without; otherwise, of two branches of
    equal length the one whose validators have more votes wins. *)
Theorem fork_choice_antisymmetric s a b :
  fdb_wf (fork_db s) →
  ∃ x, compare_fork_branches a b s = Ok x ∧ compare_fork_branches b a s = Ok (- x) ∧ -1 ≤ x ≤ 1 ∧
    ∀ l1 l2, fetch_branch_from a b (fork_db s) = Ok (l1, l2) →
      let i1 := branch_info s (blocks_of s l1) in
      let i2 := branch_info s (blocks_of s l2) in
      let emergency := emergency_consensus_active (dgpo s) in
      (emergency = true → i1.2 = true → i2.2 = false → x = 1) ∧
      (emergency = false ∨ i1.2 = i2.2 → num_from_id a = num_from_id b → i2.1 < i1.1 → x = 1).
Proof.
  intros Hwf. destruct (fetch_branch_sides a b (fork_db s) Hwf) as [(l1 & l2 & H & H')|(e & e' & H & H' & He & He')].
  2:{ exists 0. rewrite (compare_missing _ _ _ _ H He), (compare_missing _ _ _ _ H' He').
      split_and!; [done..|lia|lia|]. intros l1 l2. by rewrite H. }
  rewrite (compare_found _ _ _ _ _ H), (compare_found _ _ _ _ _ H').
  rewrite (compare_weights_swap _ (num_from_id a) (num_from_id b)).
  match goal with |- context [compare_weights ?e (num_from_id a) (num_from_id b) ?i ?j] =>
    set (r := compare_weights e (num_from_id a) (num_from_id b) i j) end.
  exists (match r with Ok x => x | Err _ => 0 end).
  split_and!; [by destruct r|by destruct r|..];
    try (destruct r as [x|] eqn:Er; [apply compare_weights_range in Er|]; lia).
  intros m1 m2 Hm. rewrite H in Hm. injection Hm as <- <-. split.
  - intros Hem H1 H2. subst r. rewrite Hem. by rewrite compare_weights_emergency.
  - intros Hem Hn Hw. subst r. rewrite Hn. by rewrite compare_weights_equal.
Qed.
End compare.

#[local] Existing Instance test_env.

Lemma pushed_wf l d :
  Forall (λ b, 0 < block_num b) l → fdb_wf d → fdb_wf (foldl (λ d b, (ForkDb.push_block b d).1) d l).
Proof.
  intros Hl. revert d. induction Hl as [|b l Hb _ IH]; intros d Hd; [done|]. cbn [foldl]. apply IH.
  eapply wf_step; [exact Hd|by apply step_push_block].
Qed.

Lemma three_branches_wf : fdb_wf (fork_db three_branches).
Proof.
  apply (pushed_wf (long ++ medium ++ short)).
  - apply (bool_decide_unpack _). vm_compute. exact I.
  - by apply wf_start_block; [apply wf_empty|].
Qed.

Lemma test_add_throws a b e : safe_add a b = Err e → is_exception e = true.
Proof. cbn. unfold check_i64. destruct (fits_i64b _); [done|]. by intros [= <-]. Qed.

Lemma test_div_throws a b e : safe_div a b = Err e → is_exception e = true.
Proof.
  cbn. unfold check_i64. destruct (bool_decide _); [by intros [= <-]|].
  destruct (fits_i64b _); [done|]. by intros [= <-].
Qed.

Lemma fork_choice_antisymmetric_witness :
  compare_fork_branches (tip_id long) (tip_id medium) three_branches = Ok 1 ∧
  compare_fork_branches (tip_id medium) (tip_id long) three_branches = Ok (-1).
Proof.
  destruct (fork_choice_antisymmetric test_add_throws test_div_throws three_branches (tip_id long) (tip_id medium)
    three_branches_wf) as (x & H & H' & _).
  assert (compare_fork_branches (tip_id long) (tip_id medium) three_branches = Ok 1) as E by (vm_compute; reflexivity).
  rewrite E in H. injection H as <-. split; [exact E|exact H'].
Defined.
