(* ===== verification/GenerateBlock.v ===== *)
(** * Producing a block (libraries/chain/database.cpp, lines 2380-2602)

    A validator whose slot it is takes the pending transactions that still
    apply, puts them into a block on top of the head, signs and pushes it. *)

From stdpp Require Import gmap strings list sorting.
From Stdlib Require Import ZArith Lia.
From S2P Require Import Prelude BlockLog Fc Text Asset Authority SignState Operations ChainOperations.
From S2P Require Import Block ForkDb Objects Database Supply Frame Scenario EvalTransfer EvalAccount.
From S2P Require Import EvalGovern EvalAward EvalInvite Evaluators Duties Slots BlockData Irreversible.
From S2P Require Import PostValidation Schedule Transactions Proposals ProposalsTrap ApplyBlock BlockScenario.
From S2P Require Import PushBlock PushBlockProofs PushBlockFailures.

Definition with_signature (b : signed_block) (sg : Z) : signed_block :=
  mk_block (previous b) (timestamp b) (validator b) (transaction_merkle_root b) sg (Block.transactions b)
    (extensions b).

(** Keys and signatures, and the size of an empty header; the signature is not
    part of what is signed. *)
Class BlockSigning `{BlockEnv} := {
  public_key : Z → Z;                         (* fc::ecc::private_key::get_public_key *)
  sign_header : Z → signed_block → Z;         (* signed_block_header::sign *)
  empty_header_size : Z;                      (* fc::raw::pack_size(signed_block_header()) *)
  sign_header_ok key b : signee (with_signature b (sign_header key b)) = Ok (public_key key)
}.

Definition CHAIN_BLOCK_GENERATION_POSTPONED_TX_LIMIT : Z := 5.
Definition CHAIN_HARDFORK_VERSION : Z := to_hardfork_version CHAIN_VERSION.

Section generate.
Context {CE : ChainEnv} {CI : CustomInterpreters} {TE : TransactionEnv} {FA : FreshArrays} {BE : BlockEnv}.
Context {US : UndoSessions} {BS : BlockSigning}.

(** The pending transactions that go into the block: not expired at its time,
    within its size, and applicable after those before them. *)
Fixpoint collect (fuel : nat) (when skip max_size total postponed : Z) (l : list signed_transaction)
    (s : database) : res (list signed_transaction) :=
  match l with
  | [] => Ok []
  | trx :: l =>
      if expiration (tx trx) <? when then collect fuel when skip max_size total postponed l s
      else
        let new_total := total + tx_pack_size trx in
        if max_size <=? new_total then
          if CHAIN_BLOCK_GENERATION_POSTPONED_TX_LIMIT <? postponed then Ok []
          else collect fuel when skip max_size total (postponed + 1) l s
        else
          match _apply_transaction (apply_chain_operation fuel 0 0) trx skip s with
          | Ok (_, s') =>
              let? txs := collect fuel when skip max_size new_total postponed l s' in Ok (trx :: txs)
          | Err e => if is_exception e then collect fuel when skip max_size total postponed l s else Err e
          end
  end.

(** The vote of the block for a hardfork: the next one that the node knows, or
    none that it does not know.  The emergency validator does not vote. *)
Definition hardfork_vote (s : database) (validator_owner : string) (w : validator_object) : res (option block_header_extension) :=
  let hfp := hardforks s in
  let is_emergency_committee :=
    (CHAIN_HARDFORK_12 <? processed_hardforks s) && emergency_consensus_active (dgpo s) &&
    bool_decide (validator_owner = CHAIN_EMERGENCY_VALIDATOR_ACCOUNT) in
  if is_emergency_committee then Ok None
  else if current_hardfork_version hfp <? CHAIN_HARDFORK_VERSION then
    let? v := res_of_option (hardfork_versions !! Z.to_nat (last_hardfork hfp + 1)) E_undefined in
    let? t := res_of_option (hardfork_times !! Z.to_nat (last_hardfork hfp + 1)) E_undefined in
    Ok (if negb (hardfork_version_vote w =? v) || negb (hardfork_time_vote w =? t)
        then Some (ext_hardfork_version_vote v t) else None)
  else if (current_hardfork_version hfp =? CHAIN_HARDFORK_VERSION) &&
          (CHAIN_HARDFORK_VERSION <? hardfork_version_vote w) then
    let? v := res_of_option (hardfork_versions !! Z.to_nat (last_hardfork hfp)) E_undefined in
    let? t := res_of_option (hardfork_times !! Z.to_nat (last_hardfork hfp)) E_undefined in
    Ok (Some (ext_hardfork_version_vote v t))
  else Ok None.

Definition block_extensions (s : database) (validator_owner : string) (w : validator_object) :
    res (list block_header_extension) :=
  let? vote := hardfork_vote s validator_owner w in
  Ok ((if negb (running_version w =? CHAIN_VERSION) then [ext_version CHAIN_VERSION] else []) ++
      match vote with Some e => [e] | None => [] end).

(** Whether it is the validator's slot, and the key is his. *)
Definition check_producer (when : Z) (validator_owner : string) (key skip : Z) : DB unit :=
  let* slot_num := sgets (λ s, get_slot_at_time s when) in
  do* sassert (0 <? slot_num) "slot_num > 0" in
  let* scheduled_validator := get_scheduled_validator slot_num in
  do* sassert (bool_decide (scheduled_validator = validator_owner)) "scheduled_validator == validator_owner" in
  let* w := get_validator validator_owner in
  do* swhen (negb (skips skip skip_validator_signature)) (sassert (signing_key w =? public_key key) "signing_key") in
  let* a := find_account validator_owner in
  sassert (bool_decide (a ≠ None)) "shared_memory_corruption_exception".

Definition signed (key skip : Z) (b : signed_block) : signed_block :=
  if skips skip skip_validator_signature then b else with_signature b (sign_header key b).

(** The block on top of the state [s], without the pending transactions. *)
Definition make_block (fuel : nat) (when : Z) (validator_owner : string) (key skip : Z)
    (pending : list signed_transaction) (s : database) : res signed_block :=
  let? txs := collect fuel when skip (dgp_maximum_block_size (dgpo s)) (empty_header_size + 4) 0 pending s in
  let? root := calculate_merkle_root (mk_block 0 0 "" 0 0 txs []) in
  match validators s !! validator_owner with
  | None => Err (E_not_found "validator")
  | Some w =>
      let? ext := block_extensions s validator_owner w in
      let b := signed key skip (mk_block (head_block_id (dgpo s)) when validator_owner root 0 txs ext) in
      do? (if skips skip skip_block_size_check then Ok tt
           else rassert (pack_size b <=? CHAIN_BLOCK_SIZE) (E_assert "pack_size")) in
      Ok b
  end.

(** [_generate_block]; the pending transactions stay, and are restored by the
    push of the block. *)
Definition _generate_block (fuel tries : nat) (when : Z) (validator_owner : string) (key skip : Z) :
    NM signed_block :=
  let+ s := nget db in
  do+ nlift (match check_producer when validator_owner key skip s with Ok _ => Ok tt | Err e => Err e end) in
  do+ reset_pending_session in
  let+ n := nget id in
  let+ b := nlift (make_block fuel when validator_owner key skip (_pending_tx n) (db n)) in
  let+ r := push_block fuel tries b skip in
  nret b.

(** ** The block passes the checks of its header *)

(** The extensions tell the version that runs. *)
Lemma extensions_run s n w ext :
  block_extensions s n w = Ok ext →
  ∃ vote, ext = (if negb (running_version w =? CHAIN_VERSION) then [ext_version CHAIN_VERSION] else []) ++ vote ∧
    (vote = [] ∨ ∃ v t, vote = [ext_hardfork_version_vote v t]).
Proof.
  unfold block_extensions. destruct (hardfork_vote s n w) as [o|] eqn:E; [|done]. cbn. intros [= <-].
  eexists. split; [done|]. destruct o as [e|]; [right|by left].
  assert (∃ v t, e = ext_hardfork_version_vote v t) as (v & t & ->); [|by eauto].
  unfold hardfork_vote in E. destruct (_ && _); [done|]. destruct (_ <? _).
  - destruct (hardfork_versions !! _); [|done]. cbn in E. destruct (hardfork_times !! _); [|done]. cbn in E.
    destruct (_ || _); [|done]. injection E as <-. eauto.
  - destruct (_ && _); [|done]. destruct (hardfork_versions !! _); [|done]. cbn in E.
    destruct (hardfork_times !! _); [|done]. injection E as <-. eauto.
Qed.

Lemma modify_validator_run n f w w' s :
  validators s !! n = Some w → f w = Ok w' →
  modify_validator n f s = Ok (tt, s <| validators ::= <[n := w']> |>).
Proof. intros Hw Hf. apply modify_in_Ok. by exists w, w'. Qed.

Lemma get_validator_run n w s : validators s !! n = Some w → get_validator n s = Ok (w, s).
Proof. intros Hw. apply get_in_Ok. by exists w. Qed.

Lemma process_extension_run b e w s :
  validators s !! validator b = Some w →
  ∃ s' w', process_extension b e s = Ok (tt, s') ∧ validators s' !! validator b = Some w' ∧
    hardforks s' = hardforks s ∧
    running_version w' = match e with ext_version v => v | _ => running_version w end.
Proof.
  intros Hw. destruct e as [|v|v t]; cbn [process_extension]; [by exists s, w|..];
    unfold sbind at 1; rewrite (get_validator_run _ _ _ Hw).
  - destruct (Z.eqb_spec v (running_version w)) as [->|]; cbn [negb swhen]; [by exists s, w|].
    erewrite modify_validator_run by done. do 2 eexists. split; [done|]. cbn. by rewrite lookup_insert_eq.
  - destruct (_ || _); cbn [swhen]; [|by exists s, w].
    erewrite modify_validator_run by done. do 2 eexists. split; [done|]. cbn. by rewrite lookup_insert_eq.
Qed.

Lemma process_extensions_run b s w ext :
  validators s !! validator b = Some w → extensions b = ext →
  (∃ s0 n, block_extensions s0 n w = Ok ext) →
  ∃ s' w', process_header_extensions b s = Ok (tt, s') ∧ validators s' !! validator b = Some w' ∧
    hardforks s' = hardforks s ∧ running_version w' = CHAIN_VERSION.
Proof.
  intros Hw He (s0 & n & Hext). unfold process_header_extensions. rewrite He.
  destruct (extensions_run s0 n w ext Hext) as (vote & -> & Hvote).
  assert (∀ s w, validators s !! validator b = Some w → running_version w = CHAIN_VERSION →
    ∃ s' w', sfor vote (process_extension b) s = Ok (tt, s') ∧ validators s' !! validator b = Some w' ∧
      hardforks s' = hardforks s ∧ running_version w' = CHAIN_VERSION) as Hlast.
  { clear -Hvote. intros s w Hw Hr. destruct Hvote as [->|(v & t & ->)]; cbn [sfor]; [by exists s, w|].
    destruct (process_extension_run b (ext_hardfork_version_vote v t) w s Hw) as (s' & w' & H & ? & ? & ?).
    unfold sbind. rewrite H. exists s', w'. split_and!; [done..|congruence]. }
  destruct (Z.eqb_spec (running_version w) CHAIN_VERSION) as [Hr|Hr]; cbn [negb app]; [by eapply Hlast|].
  destruct (process_extension_run b (ext_version CHAIN_VERSION) w s Hw) as (s1 & w1 & H1 & Hw1 & Hh & Hr1).
  destruct (Hlast s1 w1 Hw1 Hr1) as (s' & w' & H & ? & ? & ?). cbn [sfor]. unfold sbind at 1. rewrite H1.
  exists s', w'. split_and!; [done..|congruence|done].
Qed.

(** What the checks of the producer establish. *)
Lemma check_producer_Ok when n key skip s r :
  check_producer when n key skip s = Ok r →
  0 < get_slot_at_time s when ∧ get_scheduled_validator (get_slot_at_time s when) s = Ok (n, s) ∧
  ∃ w, validators s !! n = Some w ∧
    (skips skip skip_validator_signature = false → signing_key w = public_key key).
Proof.
  unfold check_producer. intros H.
  apply sbind_Ok in H as (slot & s1 & Hs & H). apply sgets_Ok in Hs. injection Hs as -> ->.
  apply sbind_Ok in H as (? & s1 & Hp & H). apply sassert_Ok in Hp as [Hp%Z.ltb_lt [= _ ->]].
  apply sbind_Ok in H as (sv & s1 & Hsv & H).
  apply sbind_Ok in H as (? & s2 & Hn & H). apply sassert_Ok in Hn as [Hn%bool_decide_eq_true [= _ ->]]. subst sv.
  assert (s1 = s) as ->.
  { unfold get_scheduled_validator in Hsv. destruct (_ =? 0); [done|]. destruct (_ !! _); [|done]. by injection Hsv. }
  apply sbind_Ok in H as (w & s1 & Hw & H). apply get_in_Ok in Hw as (w' & Hw & E). injection E as <- ->.
  apply sbind_Ok in H as (? & s2 & Hk & _). split_and!; [done..|].
  exists w. split; [done|]. intros Hskip. rewrite Hskip in Hk. cbn in Hk.
  by apply sassert_Ok in Hk as [Hk%Z.eqb_eq _].
Qed.

(** What [make_block] puts into the block. *)
Lemma make_block_Ok fuel when n key skip pending s b :
  make_block fuel when n key skip pending s = Ok b →
  ∃ root txs w ext,
    b = signed key skip (mk_block (head_block_id (dgpo s)) when n root 0 txs ext) ∧
    calculate_merkle_root (mk_block 0 0 "" 0 0 txs []) = Ok root ∧
    validators s !! n = Some w ∧ block_extensions s n w = Ok ext.
Proof.
  unfold make_block. intros H. apply rbind_Ok in H as (txs & _ & H). apply rbind_Ok in H as (root & Hr & H).
  destruct (validators s !! n) as [w|] eqn:Hw; [|done]. apply rbind_Ok in H as (ext & He & H).
  cbv zeta in H. apply rbind_Ok in H as (? & _ & H). injection H as <-. by exists root, txs, w, ext.
Qed.

(** Signing changes the signature only. *)
Lemma signed_fields key skip b :
  previous (signed key skip b) = previous b ∧ timestamp (signed key skip b) = timestamp b ∧
  validator (signed key skip b) = validator b ∧
  transaction_merkle_root (signed key skip b) = transaction_merkle_root b ∧
  Block.transactions (signed key skip b) = Block.transactions b ∧ extensions (signed key skip b) = extensions b.
Proof. unfold signed. by destruct (skips _ _). Qed.

Lemma merkle_checked b root :
  calculate_merkle_root (mk_block 0 0 "" 0 0 (Block.transactions b) []) = Ok root →
  transaction_merkle_root b = root → check_merkle b = Ok tt.
Proof.
  unfold check_merkle. intros H Hr. change (calculate_merkle_root b = Ok root) in H.
  rewrite H. cbn [rbind]. by rewrite Hr, Z.eqb_refl.
Qed.

Lemma swhen_ret {S} c (m : SM S unit) s : (c = true → m s = Ok (tt, s)) → swhen c m s = Ok (tt, s).
Proof. destruct c; cbn; auto. Qed.

Lemma sassert_run {S} (c : bool) msg (s : S) : c = true → sassert c msg s = Ok (tt, s).
Proof. by intros ->. Qed.

Lemma block_validates b skip s :
  check_merkle b = Ok tt → pack_size b ≤ dgp_maximum_block_size (dgpo s) →
  _validate_block b skip s = Ok (tt, s).
Proof.
  intros Hm Hsz. unfold _validate_block, sbind. rewrite swhen_ret by (intros _; unfold slift; by rewrite Hm).
  cbn. apply swhen_ret. intros _. by apply sassert_run, Z.leb_le.
Qed.

Lemma signee_checks b s w :
  validators s !! validator b = Some w → signing_key w ≠ 0 → signee b = Ok (signing_key w) →
  check_signee b s = Ok (tt, s).
Proof.
  intros Hw Hk Hs. unfold check_signee, sbind. rewrite (get_validator_run _ _ _ Hw).
  rewrite sassert_run by (by destruct (Z.eqb_spec (signing_key w) 0)). unfold slift. rewrite Hs.
  by apply sassert_run, Z.eqb_eq.
Qed.

Lemma turn_checks b s :
  0 < get_slot_at_time s (timestamp b) →
  get_scheduled_validator (get_slot_at_time s (timestamp b)) s = Ok (validator b, s) →
  check_turn b s = Ok (tt, s).
Proof.
  intros Hslot Hsched. unfold check_turn, sbind. cbn [sgets].
  rewrite sassert_run by (by apply Z.ltb_lt). rewrite Hsched. cbn [sgets].
  apply swhen_ret. by rewrite bool_decide_eq_true_2.
Qed.

(** A block whose header passes the checks, and whose extensions tell the
    version that runs, is opened. *)
Lemma header_opens b skip s w n :
  _validate_block b skip s = Ok (tt, s) →
  head_block_id (dgpo s) = previous b → time (dgpo s) < timestamp b →
  validators s !! validator b = Some w →
  (skips skip skip_validator_signature = false → check_signee b s = Ok (tt, s)) →
  check_turn b s = Ok (tt, s) →
  block_extensions s n w = Ok (extensions b) →
  current_hardfork_version (hardforks s) ≤ CHAIN_VERSION →
  ∃ s', open_block b skip s = Ok (tt, s').
Proof.
  intros Hval Hprev Ht Hw Hsig Hturn Hext Hv. unfold open_block, sbind. rewrite Hval.
  assert (validate_block_header skip b s = Ok (validator b, s)) as ->.
  { unfold validate_block_header, sbind. cbn [get_dgpo sgets].
    rewrite (sassert_run (_ =? _)) by (by apply Z.eqb_eq). rewrite sassert_run by (by apply Z.ltb_lt).
    rewrite (get_validator_run _ _ _ Hw), swhen_ret by (intros E; apply Hsig; by destruct (skips _ _)).
    by rewrite swhen_ret by done. }
  cbn [sret modify_dgpo].
  match goal with |- context [swhen (block_num b =? 1) _ ?s1] =>
    assert (∃ s2, swhen (block_num b =? 1) (set_genesis_time b) s1 = Ok (tt, s2) ∧
      validators s2 = validators s ∧ current_hardfork_version (hardforks s2) = current_hardfork_version (hardforks s))
      as (s2 & -> & Ev & Eh) end.
  { destruct (_ =? _); cbn [swhen]; [|by eexists]. by eexists. }
  destruct (process_extensions_run b s2 w (extensions b)) as (s3 & w3 & -> & Hw3 & Eh3 & Hr).
  { by rewrite Ev. } { done. } { by eexists _, _. }
  rewrite (get_validator_run _ _ _ Hw3). cbn [sgets]. rewrite Eh3, Hr, sassert_run; [by eexists|].
  rewrite Eh. by apply Z.leb_le.
Qed.

(** C24 (liveness).  A validator that produces a block in its slot, with its key
    and with a clock that has not passed the end of time, produces one that a
    node in the same state opens: the block names the head, comes after it, has
    the Merkle root of its transactions, the signature and the turn of its
    validator, and tells the version that runs.  Only its size is left to the
    limits of the chain, as the producer counts an empty header. *)
Theorem produced_block_opens fuel when n key skip pending s b :
  check_producer when n key skip s = Ok (tt, s) →
  make_block fuel when n key skip pending s = Ok b →
  time (dgpo s) < when → public_key key ≠ 0 →
  current_hardfork_version (hardforks s) ≤ CHAIN_VERSION →
  pack_size b ≤ dgp_maximum_block_size (dgpo s) →
  validator b = n ∧ timestamp b = when ∧ ∃ s', open_block b skip s = Ok (tt, s').
Proof.
  intros Hp Hm Ht Hk0 Hv Hsz.
  destruct (check_producer_Ok _ _ _ _ _ _ Hp) as (Hslot & Hsched & w & Hw & Hkey).
  destruct (make_block_Ok _ _ _ _ _ _ _ _ Hm) as (root & txs & w' & ext & Eb & Hroot & Hw' & Hext).
  rewrite Hw in Hw'. injection Hw' as <-.
  set (b0 := mk_block (head_block_id (dgpo s)) when n root 0 txs ext) in Eb.
  destruct (signed_fields key skip b0) as (Epr & Ets & Eva & Ero & Etx & Eex). rewrite <- Eb in *.
  split_and!; [done..|].
  apply (header_opens b skip s w n); rewrite ?Epr, ?Ets, ?Eva, ?Eex; [|done..| | |done|done].
  - apply block_validates; [|done]. apply (merkle_checked b root); [by rewrite Etx|by rewrite Ero].
  - intros Hskip. specialize (Hkey Hskip).
    apply (signee_checks b s w); [by rewrite Eva|by rewrite Hkey|].
    rewrite Hkey, Eb. unfold signed. rewrite Hskip. apply sign_header_ok.
  - by apply turn_checks; rewrite Ets, ?Eva.
Qed.
End generate.

#[local] Existing Instance test_env.
#[local] Existing Instance no_interpreters.
#[local] Existing Instance test_tx_env.
#[local] Existing Instance clear_arrays.
#[local] Existing Instance test_block_env.

Definition one_key : BlockSigning := {|
  public_key _ := 5; sign_header _ _ := 0; empty_header_size := 100; sign_header_ok _ _ := eq_refl
|}.
#[local] Existing Instance one_key.

(** Alice produces the third block of the small chain, with her payment; the
    last hardfork is in force. *)
Definition current_db : database :=
  chain_db <| hardforks ::= λ h, h <| current_hardfork_version := CHAIN_HARDFORK_VERSION |> |>.
Definition produced : res signed_block :=
  make_block 3 1000002 "alice" 7 skip_nothing [signed_tx 1 (pay "alice" "bob")] current_db.
Definition produced_block : signed_block := match produced with Ok b => b | Err _ => block_a end.

Lemma produced_block_opens_witness :
  length (Block.transactions produced_block) = 1%nat ∧
  ∃ s', open_block produced_block skip_nothing current_db = Ok (tt, s').
Proof.
  split; [vm_compute; reflexivity|].
  apply (produced_block_opens 3 1000002 "alice" 7 skip_nothing [signed_tx 1 (pay "alice" "bob")] current_db produced_block);
    vm_compute; first [reflexivity|discriminate].
Defined.
