(* ===== verification/ValidatorPlugin.v ===== *)
(** * The validator plugin (plugins/validator/validator.cpp)

    The loop that decides, four times a second, whether this node produces a
    block: it waits while the node is behind, looks for signs of a minority
    fork, confirms blocks, checks whose slot it is, and resolves collisions with
    a block that another validator has produced at the same height.  The plugin
    has its own state beside the node; what other plugins and the clocks tell it
    during one tick is an argument, what it asks of them is recorded as calls.
    Logging and the locks are left out. *)

From stdpp Require Import gmap strings list.
From Stdlib Require Import ZArith Lia.
From S2P Require Import Prelude Fc Text Asset Authority SignState Operations ChainOperations.
From S2P Require Import Block ForkDb Objects Database Evaluators Slots BlockData BlockDataProofs Irreversible.
From S2P Require Import EvalAccount EvalGovern EvalAward EvalInvite PostValidation Schedule Transactions Proposals ApplyBlock.
From S2P Require Import PushBlock GenerateBlock.

(** ** State *)

(** [block_validation_condition_enum], in the order of the numbers. *)
Inductive block_validation_condition :=
| produced | not_synced | not_my_turn | not_time_yet | no_private_key | low_participation | lag
| consecutive | exception_validating_block | fork_collision | minority_fork.

#[export] Instance condition_eq_dec : EqDecision block_validation_condition.
Proof. solve_decision. Defined.

Definition condition_number (c : block_validation_condition) : Z :=
  match c with
  | produced => 0 | not_synced => 1 | not_my_turn => 2 | not_time_yet => 3 | no_private_key => 4
  | low_participation => 5 | lag => 6 | consecutive => 7 | exception_validating_block => 8
  | fork_collision => 9 | minority_fork => 10
  end.

(** [validator_plugin::impl]; [_validators] is a [std::set], so sorted.  Points
    in time are microseconds, [last_block_post_validation_time] and
    [_last_lag_slot_time] are seconds; [_last_watchdog_log] is the static
    variable of the watchdog. *)
Record plugin := mk_plugin {
  _validators : list string;
  _private_keys : gmap Z Z;
  _required_validator_participation : Z;
  _production_skip_flags : Z;
  _fork_collision_timeout_blocks : Z;
  last_block_post_validation_time : Z;
  fork_collision_defer_count_ : Z;
  _minority_fork_recovering : bool;
  _minority_fork_recovery_start : Z;
  _slot_zero_streak : Z;
  _slot_zero_streak_start : Z;
  _not_my_turn_streak : Z;
  _not_my_turn_streak_start : Z;
  _last_scheduled_validator : string;
  _ever_produced : bool;
  _last_production_time : Z;
  _last_slot_result : Z;
  _last_lag_slot_time : Z;
  _watchdog_debug_enabled : bool;
  _last_watchdog_log : Z;
  _debug_block_production : bool;
  _debug_block_production_config : bool;
  _slot_hijack_count : Z;
  _slot_hijack_height : Z;
  _last_applied_block_num : Z
}.
Definition eta_plugin (p : plugin) : plugin :=
  {| _validators := _validators p; _private_keys := _private_keys p;
     _required_validator_participation := _required_validator_participation p;
     _production_skip_flags := _production_skip_flags p;
     _fork_collision_timeout_blocks := _fork_collision_timeout_blocks p;
     last_block_post_validation_time := last_block_post_validation_time p;
     fork_collision_defer_count_ := fork_collision_defer_count_ p;
     _minority_fork_recovering := _minority_fork_recovering p;
     _minority_fork_recovery_start := _minority_fork_recovery_start p;
     _slot_zero_streak := _slot_zero_streak p; _slot_zero_streak_start := _slot_zero_streak_start p;
     _not_my_turn_streak := _not_my_turn_streak p; _not_my_turn_streak_start := _not_my_turn_streak_start p;
     _last_scheduled_validator := _last_scheduled_validator p; _ever_produced := _ever_produced p;
     _last_production_time := _last_production_time p; _last_slot_result := _last_slot_result p;
     _last_lag_slot_time := _last_lag_slot_time p; _watchdog_debug_enabled := _watchdog_debug_enabled p;
     _last_watchdog_log := _last_watchdog_log p; _debug_block_production := _debug_block_production p;
     _debug_block_production_config := _debug_block_production_config p;
     _slot_hijack_count := _slot_hijack_count p; _slot_hijack_height := _slot_hijack_height p;
     _last_applied_block_num := _last_applied_block_num p |}.
#[export] Instance set_skip_flags : Setter _production_skip_flags :=
  ltac:(derive_setter eta_plugin _production_skip_flags).
#[export] Instance set_validation_time : Setter last_block_post_validation_time :=
  ltac:(derive_setter eta_plugin last_block_post_validation_time).
#[export] Instance set_defer_count : Setter fork_collision_defer_count_ :=
  ltac:(derive_setter eta_plugin fork_collision_defer_count_).
#[export] Instance set_recovering : Setter _minority_fork_recovering :=
  ltac:(derive_setter eta_plugin _minority_fork_recovering).
#[export] Instance set_recovery_start : Setter _minority_fork_recovery_start :=
  ltac:(derive_setter eta_plugin _minority_fork_recovery_start).
#[export] Instance set_slot_zero : Setter _slot_zero_streak := ltac:(derive_setter eta_plugin _slot_zero_streak).
#[export] Instance set_slot_zero_start : Setter _slot_zero_streak_start :=
  ltac:(derive_setter eta_plugin _slot_zero_streak_start).
#[export] Instance set_not_my_turn : Setter _not_my_turn_streak :=
  ltac:(derive_setter eta_plugin _not_my_turn_streak).
#[export] Instance set_not_my_turn_start : Setter _not_my_turn_streak_start :=
  ltac:(derive_setter eta_plugin _not_my_turn_streak_start).
#[export] Instance set_last_scheduled : Setter _last_scheduled_validator :=
  ltac:(derive_setter eta_plugin _last_scheduled_validator).
#[export] Instance set_ever_produced : Setter _ever_produced := ltac:(derive_setter eta_plugin _ever_produced).
#[export] Instance set_production_time : Setter _last_production_time :=
  ltac:(derive_setter eta_plugin _last_production_time).
#[export] Instance set_slot_result : Setter _last_slot_result := ltac:(derive_setter eta_plugin _last_slot_result).
#[export] Instance set_lag_slot : Setter _last_lag_slot_time := ltac:(derive_setter eta_plugin _last_lag_slot_time).
#[export] Instance set_watchdog_debug : Setter _watchdog_debug_enabled :=
  ltac:(derive_setter eta_plugin _watchdog_debug_enabled).
#[export] Instance set_watchdog_log : Setter _last_watchdog_log := ltac:(derive_setter eta_plugin _last_watchdog_log).
#[export] Instance set_debug : Setter _debug_block_production :=
  ltac:(derive_setter eta_plugin _debug_block_production).
#[export] Instance set_hijacks : Setter _slot_hijack_count := ltac:(derive_setter eta_plugin _slot_hijack_count).
#[export] Instance set_hijack_height : Setter _slot_hijack_height :=
  ltac:(derive_setter eta_plugin _slot_hijack_height).
#[export] Instance set_last_applied : Setter _last_applied_block_num :=
  ltac:(derive_setter eta_plugin _last_applied_block_num).

(** What the plugin asks of the p2p and chain plugins, of the time service and of
    its timer (in microseconds). *)
Inductive call :=
| set_block_production (on : bool)
| post_broadcast_block_post_validation (block : Z) (validator : string) (signature : Z)
| broadcast_block (b : signed_block)
| resync_from_lib (force_emergency : bool)
| reconnect_seeds
| attempt_auto_recovery
| update_ntp_time
| clear_catchup_flag
| clear_syncing
| wake_after (us : Z).

(** What a tick is told.  Times are in microseconds, [now] of the time service
    and [wall] of the system; a question that is asked again later in the tick
    has an answer of its own. *)
Record outside := mk_outside {
  dlt_mode : bool;
  is_syncing : bool;
  is_snapshot_in_progress : bool;
  is_catching_up : bool;
  now_fine : Z;                      (* at the start *)
  now_guarded : Z;                   (* with the operation guard *)
  snapshot_started : bool;           (* before producing *)
  catching_up_started : bool;
  get_connections_count : Z;
  is_isolated_peers : bool;
  wall : Z;
  now_after : Z;                     (* after the result *)
  catching_up_watched : bool;        (* what the watchdog is told ... *)
  syncing_watched : bool;
  connections_watched : Z;
  catching_up_again : bool;          (* ... and what it is told before it clears *)
  syncing_again : bool;
  now_scheduling : Z
}.

(** The plugin, its node, the calls in their order, and [capture]'s time of the
    slot that is reported with [lag]. *)
Record producer := mk_producer {
  pl : plugin;
  nd : node;
  calls : list call;
  captured_time : Z
}.
Definition eta_producer (x : producer) : producer :=
  {| pl := pl x; nd := nd x; calls := calls x; captured_time := captured_time x |}.
#[export] Instance set_pl : Setter pl := ltac:(derive_setter eta_producer pl).
#[export] Instance set_nd : Setter nd := ltac:(derive_setter eta_producer nd).
#[export] Instance set_calls : Setter calls := ltac:(derive_setter eta_producer calls).
#[export] Instance set_captured : Setter captured_time := ltac:(derive_setter eta_producer captured_time).

Definition PM (A : Type) : Type := producer → producer * (fc_error + A).
Definition pret {A} (a : A) : PM A := λ x, (x, inr a).
Definition pbind {A B} (m : PM A) (k : A → PM B) : PM B :=
  λ x, match m x with (x', inr a) => k a x' | (x', inl e) => (x', inl e) end.
Definition pget {A} (f : producer → A) : PM A := λ x, (x, inr (f x)).
Definition pupd (f : producer → producer) : PM unit := λ x, (f x, inr tt).
Definition plift {A} (r : res A) : PM A := λ x, match r with Ok a => (x, inr a) | Err e => (x, inl e) end.
Definition pwhen (b : bool) (m : PM unit) : PM unit := if b then m else pret tt.
Definition on_node {A} (m : NM A) : PM A := λ x, match m (nd x) with (n, r) => (x <| nd := n |>, r) end.
Notation "'let>' x := m 'in' k" := (pbind m (λ x, k))
  (at level 10, x name, m at level 100, k at level 200).
Notation "'do>' m 'in' k" := (pbind m (λ _, k)) (at level 10, m at level 100, k at level 200).

Definition set_plugin (f : plugin → plugin) : PM unit := pupd (λ x, x <| pl ::= f |>).
Definition ask (c : call) : PM unit := pupd (λ x, x <| calls ::= λ l, l ++ [c] |>).

(** A guard returns a condition, which ends the tick, or lets it go on. *)
Definition go_on : PM (option block_validation_condition) := pret None.
Definition stop (c : block_validation_condition) : PM (option block_validation_condition) := pret (Some c).
Definition guarded (g : PM (option block_validation_condition)) (k : PM block_validation_condition) :
    PM block_validation_condition :=
  let> r := g in match r with Some c => pret c | None => k end.
Notation "'pass' g 'in' k" := (guarded g k) (at level 10, g at level 100, k at level 200).

(** [fc::time_point_sec] of a point in time, and back. *)
Definition sec_of (t : Z) : Z := u32 (Z.quot t 1000000).
Definition us_of (t : Z) : Z := t * 1000000.

(** The message that confirms a block: the chain and the id of the block, signed. *)
Class ConfirmationSigning := {
  sign_confirmation : Z → Z → Z              (* private key, block id *)
}.

Definition hf12 (s : database) : bool := CHAIN_HARDFORK_12 <? processed_hardforks s.
Definition emergency_active (s : database) : bool := emergency_consensus_active (dgpo s).
Definition ours (p : plugin) (n : string) : bool := bool_decide (n ∈ _validators p).
Definition holds_emergency_key (p : plugin) : bool := ours p CHAIN_EMERGENCY_VALIDATOR_ACCOUNT.
Definition stale_production (p : plugin) : bool := skips (_production_skip_flags p) skip_undo_history_check.

(** [database::validator_participation_rate]. *)
Definition validator_participation_rate (s : database) : Z :=
  CHAIN_100_PERCENT * popcount 128 (recent_slots_filled (dgpo s)) / 128.

(** ** Guards *)

Section plugin.
Context {CE : ChainEnv} {CI : CustomInterpreters} {TE : TransactionEnv} {FA : FreshArrays} {BE : BlockEnv}.
Context {US : UndoSessions} {BS : BlockSigning} {CS : ConfirmationSigning}.

Definition sync_guard (o : outside) (emergency : bool) : PM (option block_validation_condition) :=
  let> p := pget pl in
  if dlt_mode o && is_syncing o && negb (emergency && holds_emergency_key p) then stop not_synced
  else if is_snapshot_in_progress o then stop not_synced
  else if is_catching_up o then stop not_synced
  else go_on.

(** A third of the slots is filled: the override of the operator is dropped;
    otherwise it is honoured, outside an emergency. *)
Definition participation_guard (emergency : bool) : PM (option block_validation_condition) :=
  let> p := pget pl in
  let> s := pget (λ x, db (nd x)) in
  if hf12 s then
    if emergency then go_on
    else
      let prate := validator_participation_rate s in
      if 33 * CHAIN_1_PERCENT <=? prate then
        do> set_plugin (λ p, p <| _production_skip_flags ::= λ f, Z.ldiff f skip_undo_history_check |>) in go_on
      else if (prate <? _required_validator_participation p) && negb (stale_production p)
      then stop low_participation
      else go_on
  else go_on.

(** The confirmations of one validator of this node. *)
Definition confirm_for (n : string) : PM unit :=
  let> p := pget pl in
  let> s := pget (λ x, db (nd x)) in
  match validators s !! n with
  | None => pret tt
  | Some w =>
      if signing_key w =? 0 then pret tt
      else
        match _private_keys p !! signing_key w with
        | None => pret tt
        | Some key =>
            foldr (λ c k,
              do> match c with
                  | Some v =>
                      pwhen (negb (vc_block_num v =? 0) && negb (vc_block_id v =? 0))
                        (ask (post_broadcast_block_post_validation (vc_block_id v) n
                                (sign_confirmation key (vc_block_id v))))
                  | None => pret tt
                  end in k) (pret tt) (get_validator_confirmations n s)
        end
  end.

Definition confirm_blocks (now_fine now : Z) : PM unit :=
  let> p := pget pl in
  let> s := pget (λ x, db (nd x)) in
  pwhen (us_of (last_block_post_validation_time p) <? now_fine)
    (do> set_plugin (λ p, p <| last_block_post_validation_time := now |>) in
     let scheduled_validators_set := filter (λ n, n ≠ "") (scheduled s) in
     foldr (λ n k, do> pwhen (bool_decide (n ∈ scheduled_validators_set)) (confirm_for n) in k)
       (pret tt) (_validators p)).

(** The last [n] blocks of the branch are all of this node's validators. *)
Fixpoint all_ours (n : nat) (p : plugin) (d : fork_database) (current : option nat) : res bool :=
  match n with
  | O => Ok true
  | S n =>
      match current with
      | None => Ok false
      | Some a =>
          match heap d !! a with
          | None => Err E_undefined
          | Some i => if ours p (validator (item_data i)) then all_ours n p d (lock d (item_prev i)) else Ok false
          end
      end
  end.

Definition enter_recovery (o : outside) (force_emergency : bool) : PM unit :=
  do> ask (resync_from_lib force_emergency) in
  set_plugin (λ p, p <| _minority_fork_recovering := true |> <| _minority_fork_recovery_start := wall o |>).

(** The committee is in the schedule, and this node has its key. *)
Definition is_master (p : plugin) (s : database) : bool :=
  holds_emergency_key p && bool_decide (CHAIN_EMERGENCY_VALIDATOR_ACCOUNT ∈ scheduled s).

Definition alone (p : plugin) (s : database) : res bool :=
  all_ours (Z.to_nat CHAIN_MAX_VALIDATORS) p (fork_db s) (_head (fork_db s)).

Definition minority_guard (o : outside) (emergency : bool) : PM (option block_validation_condition) :=
  let> p := pget pl in
  let> s := pget (λ x, db (nd x)) in
  if negb emergency then
    let> isolated := plift (alone p s) in
    if isolated && negb (stale_production p) then do> enter_recovery o false in stop minority_fork else go_on
  else if dlt_mode o && negb (is_master p s) then
    let> isolated := plift (alone p s) in
    if isolated then do> enter_recovery o true in stop minority_fork else go_on
  else go_on.

(** ** The slot *)

(** Whether this node may produce in the slot of [now]: the validator and the key
    with which it signs, or why not. *)
Definition slot_of_ours (now : Z) : PM (block_validation_condition + string * Z * Z) :=
  let> p := pget pl in
  let> s := pget (λ x, db (nd x)) in
  let slot := get_slot_at_time s now in
  if slot =? 0 then pret (inl not_time_yet)
  else
    let> r := plift (get_scheduled_validator slot s) in
    let scheduled_validator := r.1 in
    if negb (ours p scheduled_validator) then
      do> set_plugin (λ p, p <| _last_scheduled_validator := scheduled_validator |>) in pret (inl not_my_turn)
    else
      let scheduled_time := get_slot_time s slot in
      let> w := plift (res_of_option (validators s !! scheduled_validator) E_undefined) in
      if scheduled_time <=? time (dgpo s) then pret (inl not_time_yet)
      else if signing_key w =? 0 then pret (inl not_my_turn)
      else
        match _private_keys p !! signing_key w with
        | None => pret (inl no_private_key)
        | Some key =>
            if negb (hf12 s) && (validator_participation_rate s <? _required_validator_participation p) &&
               negb (stale_production p)
            then pret (inl low_participation)
            else if 500000 <? Z.abs (us_of (scheduled_time - now)) then
              do> pupd (λ x, x <| captured_time := scheduled_time |>) in pret (inl lag)
            else pret (inr (scheduled_validator, scheduled_time, key))
        end.

(** ** Collisions *)

(** The block that competes for the height: in an emergency any; otherwise one
    of another validator on another parent.  Which of several comes first is
    left to the index. *)
Definition competing_block (emergency : bool) (scheduled_validator : string) (s : database) : option Z :=
  let existing_blocks := ForkDb.fetch_block_by_number (u32 (head_block_number (dgpo s) + 1)) (fork_db s) in
  fst <$> pick (filter (λ e,
    emergency || item_test (fork_db s) (λ i,
      negb (bool_decide (validator (item_data i) = scheduled_validator)) &&
      negb (previous (item_data i) =? head_block_id (dgpo s))) e.2 = true) existing_blocks).

Definition timed_out (p : plugin) : bool :=
  _fork_collision_timeout_blocks p <? u32 (fork_collision_defer_count_ p + 1).

Definition collision_guard (emergency : bool) (scheduled_validator : string) :
    PM (option block_validation_condition) :=
  let> s := pget (λ x, db (nd x)) in
  match competing_block emergency scheduled_validator s with
  | None => go_on
  | Some id =>
      do> set_plugin (λ p, p <| fork_collision_defer_count_ ::= λ n, u32 (n + 1) |>) in
      let> p := pget pl in
      if _fork_collision_timeout_blocks p <? fork_collision_defer_count_ p then
        do> on_node (on_forks (remove_blocks_by_number (u32 (head_block_number (dgpo s) + 1)))) in
        do> set_plugin (λ p, p <| fork_collision_defer_count_ := 0 |>) in go_on
      else if hf12 s then
        let> weight_cmp := plift (compare_fork_branches id (head_block_id (dgpo s)) s) in
        if weight_cmp <? 0 then
          do> on_node (on_forks (ForkDb.remove id)) in
          do> set_plugin (λ p, p <| fork_collision_defer_count_ := 0 |>) in go_on
        else stop fork_collision
      else stop fork_collision
  end.

(** ** Producing *)

Definition is_corruption (e : fc_error) : bool := bool_decide (e = E_assert "shared_memory_corruption_exception").

(** A snapshot that has started since. *)
Definition pause_guard (o : outside) : PM (option block_validation_condition) :=
  if snapshot_started o || catching_up_started o then stop not_time_yet else go_on.

Definition send_block (o : outside) (b : signed_block) : PM unit :=
  do> ask (broadcast_block b) in
  pwhen ((get_connections_count o <? 2) && negb (is_isolated_peers o)) (ask reconnect_seeds).

(** The block is made at most twice; the pending transactions are dropped before
    the second attempt. *)
Fixpoint attempts (n : nat) (fuel tries : nat) (o : outside) (emergency : bool) (who : string) (when key : Z) :
    PM block_validation_condition :=
  match n with
  | O => pret exception_validating_block
  | S n => λ x,
      match _generate_block fuel tries when who key (_production_skip_flags (pl x)) (nd x) with
      | (n', inr b) => (do> send_block o b in pret produced) (x <| nd := n' |>)
      | (n', inl e) =>
          let x' := x <| nd := n' |> in
          if is_corruption e then (do> ask attempt_auto_recovery in pret exception_validating_block) x'
          else if is_unlinkable e then (do> enter_recovery o emergency in pret minority_fork) x'
          else if is_exception e then
            (do> on_node clear_pending in attempts n fuel tries o emergency who when key) x'
          else (x', inl e)
      end
  end.

Definition maybe_validate_block (fuel tries : nat) (o : outside) : PM block_validation_condition :=
  let> emergency := pget (λ x, emergency_active (db (nd x))) in
  pass sync_guard o emergency in
  pass participation_guard emergency in
  do> confirm_blocks (now_fine o) (sec_of (now_fine o + 250000)) in
  pass minority_guard o emergency in
  let> slot := slot_of_ours (sec_of (now_guarded o + 250000)) in
  match slot with
  | inl c => pret c
  | inr (scheduled_validator, scheduled_time, key) =>
      pass collision_guard emergency scheduled_validator in
      pass pause_guard o in
      attempts 2 fuel tries o emergency scheduled_validator scheduled_time key
  end.

(** ** The loop *)

Definition reset_streaks (p : plugin) : plugin := p <| _slot_zero_streak := 0 |> <| _not_my_turn_streak := 0 |>.

(** What the loop does with the result of a tick. *)
Definition after_result (o : outside) (r : block_validation_condition) : PM unit :=
  match r with
  | produced => set_plugin (λ p,
      let p := if _watchdog_debug_enabled p
               then p <| _watchdog_debug_enabled := false |>
                      <| _debug_block_production := _debug_block_production_config p |>
               else p in
      reset_streaks p <| fork_collision_defer_count_ := 0 |> <| _slot_hijack_count := 0 |>
        <| _ever_produced := true |> <| _last_production_time := wall o |> <| _minority_fork_recovering := false |>)
  | not_synced => set_plugin (λ p, reset_streaks p <| fork_collision_defer_count_ := 0 |>)
  | not_my_turn => set_plugin (λ p,
      let streak := u32 (_not_my_turn_streak p + 1) in
      let p := p <| fork_collision_defer_count_ := 0 |> <| _slot_zero_streak := 0 |>
                 <| _not_my_turn_streak := streak |> in
      if streak =? 1 then p <| _not_my_turn_streak_start := wall o |> else p)
  | not_time_yet =>
      let> head_time := pget (λ x, us_of (time (dgpo (db (nd x))))) in
      do> set_plugin (λ p,
        let streak := if now_after o <=? head_time then u32 (_slot_zero_streak p + 1) else 0 in
        let p := p <| _slot_zero_streak := streak |> in
        if streak =? 1 then p <| _slot_zero_streak_start := wall o |> else p) in
      let> streak := pget (λ x, _slot_zero_streak (pl x)) in
      pwhen (streak =? 10) (ask update_ntp_time)
  | lag =>
      do> ask update_ntp_time in
      pupd (λ x, x <| pl ::= λ p, p <| _last_lag_slot_time := captured_time x |> |>)
  | fork_collision => ask update_ntp_time
  | no_private_key | low_participation | consecutive | exception_validating_block | minority_fork => pret tt
  end.

(** After a lag the rest of the missed slot is skipped. *)
Definition skip_lagged (o : outside) : PM bool :=
  let> missed := pget (λ x, _last_lag_slot_time (pl x)) in
  if missed =? 0 then pret false
  else
    let time_since_lag_ms := Z.quot (wall o - us_of missed) 1000 in
    let skip_ms := CHAIN_BLOCK_INTERVAL * 1000 - time_since_lag_ms in
    do> set_plugin (λ p, p <| _last_lag_slot_time := 0 |>) in
    if (time_since_lag_ms <? CHAIN_BLOCK_INTERVAL * 1000) && (0 <? skip_ms)
    then do> ask (wake_after (skip_ms * 1000)) in pret true
    else pret false.

(** ** The watchdog *)

Definition should_be_producing (p : plugin) (s : database) : bool :=
  negb (_minority_fork_recovering p) && negb (bool_decide (_validators p = [])) &&
  (if emergency_active s then holds_emergency_key p
   else 33 * CHAIN_1_PERCENT <=? validator_participation_rate s).

Definition key_blank (s : database) (n : string) : bool :=
  match validators s !! n with Some w => signing_key w =? 0 | None => false end.

(** The names are joined with commas, and the lengths of the texts compared. *)
Definition has_active_keys (p : plugin) (s : database) : bool :=
  let our_slots := u32 (Z.of_nat (length (filter (λ n, ours p n = true) (scheduled s)))) in
  let blanked_keys := String.concat "," (filter (λ n, key_blank s n = true) (_validators p)) in
  let validator_names := String.concat "," (_validators p) in
  (0 <? our_slots) && (String.length blanked_keys <? String.length validator_names)%nat.

Definition force_restore (o : outside) : PM unit :=
  do> set_plugin (λ p, p <| _minority_fork_recovering := false |>) in
  do> pwhen (catching_up_again o) (ask clear_catchup_flag) in
  do> pwhen (syncing_again o) (ask clear_syncing) in
  set_plugin reset_streaks.

Definition watchdog (o : outside) : PM unit :=
  let> p := pget pl in
  let> s := pget (λ x, db (nd x)) in
  pwhen (_ever_produced p && should_be_producing p s)
    (let is_emrg_master := emergency_active s && holds_emergency_key p in
     let threshold_us := if is_emrg_master then 60000000 else 180000000 in
     pwhen (threshold_us <? wall o - _last_production_time p)
       (do> set_plugin (λ p,
          if _watchdog_debug_enabled p then p
          else p <| _watchdog_debug_enabled := true |> <| _debug_block_production := true |>) in
        pwhen (30000000 <? wall o - _last_watchdog_log p)
          (do> set_plugin (λ p, p <| _last_watchdog_log := wall o |>) in
           let head_age_s := Z.quot (wall o - us_of (time (dgpo s))) 1000000 in
           pwhen ((0 <=? head_age_s) && (head_age_s <? 30) && negb (syncing_watched o) &&
                  negb (catching_up_watched o) && (0 <? connections_watched o) && has_active_keys p s)
             (force_restore o)))).

(** The next multiple of a quarter of a second that is not too near. *)
Definition next_tick (now : Z) : Z :=
  let next_microseconds := 250000 - Z.rem now 250000 in
  if next_microseconds <? 50000 then next_microseconds + 250000 else next_microseconds.

Definition schedule_production_loop (o : outside) : PM unit := ask (wake_after (next_tick (now_scheduling o))).

(** Only an unknown hardfork, of the exceptions, leaves the loop, which then is
    not armed again. *)
Definition try_validate (fuel tries : nat) (o : outside) : PM block_validation_condition := λ x,
  match maybe_validate_block fuel tries o x with
  | (x', inl e) =>
      if bool_decide (e = E_unknown_hardfork) then (x', inl e)
      else if is_exception e then (x', inr exception_validating_block)
      else (x', inl e)
  | r => r
  end.

Definition finish_tick (o : outside) (result : block_validation_condition) : PM unit :=
  do> pwhen (negb (bool_decide (result = not_time_yet)))
        (set_plugin (λ p, p <| _last_slot_result := condition_number result |>)) in
  do> after_result o result in
  let> skipped := skip_lagged o in
  if skipped then pret tt else do> watchdog o in schedule_production_loop o.

Definition block_validation_loop (fuel tries : nat) (o : outside) : PM block_validation_condition :=
  let> result := try_validate fuel tries o in do> finish_tick o result in pret result.

(** ** Applied blocks *)

(** [on_block_applied], without the report on missed slots, which changes
    nothing: what is left of it is whether there is something to report. *)
Definition count_hijacks (dlt : bool) (b : signed_block) (prev_num : Z) (s : database) (p : plugin) : plugin :=
  let nsw := num_scheduled_validators (schedule s) in
  if dlt && negb (bool_decide (_validators p = [])) && (0 <? prev_num) && (block_num b =? prev_num + 1) &&
     emergency_active s && (0 <? nsw)
  then
    match current_shuffled_validators (schedule s) !! Z.to_nat (current_aslot (dgpo s) mod nsw) with
    | Some expected_validator =>
        if ours p expected_validator then
          if negb (ours p (validator b)) && negb (bool_decide (validator b = expected_validator))
          then p <| _slot_hijack_count ::= λ n, u32 (n + 1) |> <| _slot_hijack_height := u32 (block_num b) |>
          else p <| _slot_hijack_count := 0 |>
        else p
    | None => p
    end
  else p.

Definition missed_slots (b : signed_block) (prev_num : Z) (s : database) : list string :=
  if (prev_num =? 0) || (block_num b <=? prev_num + 1) then []
  else
    let missed_count := u32 (block_num b - prev_num - 1) in
    let num_validators := num_scheduled_validators (schedule s) in
    if num_validators =? 0 then []
    else
      omap (λ i, current_shuffled_validators (schedule s) !!
                 Z.to_nat (u64 (current_aslot (dgpo s) - missed_count + Z.of_nat i) mod num_validators))
        (seq 0 (Z.to_nat (Z.min missed_count 100))).

(** The plugin after the block, and whether it reports a missed slot of ours. *)
Definition on_block_applied (dlt : bool) (b : signed_block) (s : database) (p : plugin) : plugin * bool :=
  let prev_num := _last_applied_block_num p in
  (count_hijacks dlt b prev_num s (p <| _last_applied_block_num := block_num b |>),
   existsb (ours p) (missed_slots b prev_num s)).

(** ** Questions of other plugins *)

(** The first of five slots that is ours, by the name and the key. *)
Definition soon_ours (p : plugin) (s : database) (slot : Z) : res bool :=
  let? r := get_scheduled_validator slot s in
  Ok (ours p r.1 &&
      match validators s !! r.1 with
      | Some w => negb (signing_key w =? 0) && bool_decide (is_Some (_private_keys p !! signing_key w))
      | None => false
      end).

Fixpoint first_slot (n : nat) (p : plugin) (s : database) (slot : Z) : res (option Z) :=
  match n with
  | O => Ok None
  | S n => let? b := soon_ours p s slot in if b then Ok (Some slot) else first_slot n p s (u32 (slot + 1))
  end.

(** Exceptions are caught and mean no. *)
Definition next_own_slot (p : plugin) (s : database) (now_fine : Z) : res (option Z) :=
  if bool_decide (_validators p = []) || bool_decide (_private_keys p = ∅) then Ok None
  else
    let slot := get_slot_at_time s (sec_of (now_fine + 250000)) in
    match first_slot 5 p s (if slot =? 0 then 1 else slot) with
    | Err e => if is_exception e then Ok None else Err e
    | r => r
    end.

Definition is_validator_scheduled_soon (p : plugin) (s : database) (now_fine : Z) : res bool :=
  let? slot := next_own_slot p s now_fine in Ok (bool_decide (is_Some slot)).

Definition get_next_validator_slot_time (p : plugin) (s : database) (now_fine : Z) : res Z :=
  let? slot := next_own_slot p s now_fine in
  Ok (match slot with Some n => get_slot_time s n | None => 0 end).

Definition is_emergency_master (p : plugin) (s : database) : bool :=
  negb (bool_decide (_validators p = [])) && is_master p s.

Definition is_emergency_key_configured (p : plugin) : bool :=
  negb (bool_decide (_validators p = [])) && holds_emergency_key p.

(** [plugin_startup]. *)
Definition plugin_startup (o : outside) : PM unit :=
  do> ask update_ntp_time in
  let> p := pget pl in
  pwhen (negb (bool_decide (_validators p = [])))
    (do> ask (set_block_production true) in
     do> pupd (λ x, x <| pl ::= λ p, p <| _last_applied_block_num := head_num (nd x) |> |>) in
     schedule_production_loop o).

End plugin.
