(* ===== verification/ValidatorPluginProofs.v ===== *)
(** * Properties of the validator plugin

    A tick produces only in the first second of a slot of this node's own, on a
    chain that is not being synchronised; the loop always arms its timer again;
    and what the counters of collisions and the watchdog can do. *)

From stdpp Require Import gmap strings list.
From Stdlib Require Import ZArith Lia.
From S2P Require Import Prelude Fc Text Asset Authority SignState Operations ChainOperations.
From S2P Require Import Block ForkDb Objects Database Evaluators Slots BlockData BlockDataProofs Irreversible.
From S2P Require Import EvalAccount EvalGovern EvalAward EvalInvite PostValidation Schedule Transactions Proposals ApplyBlock.
From S2P Require Import PushBlock GenerateBlock ValidatorPlugin.

(** ** Computations of the plugin *)

Lemma pbind_inr {A B} (m : PM A) (k : A → PM B) x x' b :
  pbind m k x = (x', inr b) → ∃ a x1, m x = (x1, inr a) ∧ k a x1 = (x', inr b).
Proof. unfold pbind. destruct (m x) as [x1 [e|a]]; [done|eauto]. Qed.

Lemma guarded_inr g k x x' c :
  guarded g k x = (x', inr c) →
  g x = (x', inr (Some c)) ∨ ∃ x1, g x = (x1, inr None) ∧ k x1 = (x', inr c).
Proof.
  intros H. apply pbind_inr in H as ([c'|] & x1 & H1 & H2); [left|right; eauto].
  injection H2 as -> ->. done.
Qed.

(** [m] moves from state to state within [R], also when it throws. *)
Definition keeps {A} (R : relation producer) (m : PM A) : Prop := ∀ x, R x (m x).1.

Section keeps.
Context (R : relation producer) `{!PreOrder R}.

Lemma keeps_pret {A} (a : A) : keeps R (pret a).
Proof. intros x. cbn. done. Qed.
Lemma keeps_pget {A} (f : producer → A) : keeps R (pget f).
Proof. intros x. cbn. done. Qed.
Lemma keeps_plift {A} (r : res A) : keeps R (plift r).
Proof. intros x. unfold plift. by destruct r. Qed.
Lemma keeps_pbind {A B} (m : PM A) (k : A → PM B) : keeps R m → (∀ a, keeps R (k a)) → keeps R (pbind m k).
Proof.
  intros Hm Hk x. unfold pbind. specialize (Hm x). destruct (m x) as [x1 [e|a]]; [done|].
  cbn in Hm. etrans; [done|]. apply Hk.
Qed.
Lemma keeps_pwhen b (m : PM unit) : keeps R m → keeps R (pwhen b m).
Proof. destruct b; [done|]. intros _. apply keeps_pret. Qed.
Lemma keeps_guarded g k : keeps R g → keeps R k → keeps R (guarded g k).
Proof. intros Hg Hk. apply keeps_pbind; [done|]. intros [c|]; [apply keeps_pret|done]. Qed.
Lemma keeps_foldr {A} (l : list A) (f : A → PM unit) :
  (∀ a, keeps R (f a)) → keeps R (foldr (λ a k, pbind (f a) (λ _, k)) (pret tt) l).
Proof. intros Hf. induction l; cbn; [apply keeps_pret|]. by apply keeps_pbind. Qed.
End keeps.

Create HintDb plugin_keeps.
#[export] Hint Resolve keeps_pret keeps_pget keeps_plift keeps_pbind keeps_pwhen keeps_guarded keeps_foldr :
  plugin_keeps.

Ltac keeps_tac :=
  repeat first
    [ progress intros
    | apply keeps_pbind; [apply _| |]
    | apply keeps_guarded; [apply _| |]
    | apply keeps_foldr; [apply _|]
    | apply keeps_pwhen; [apply _|]
    | apply keeps_pret; apply _ | apply keeps_pget; apply _ | apply keeps_plift; apply _
    | case_match
    | solve [eauto with plugin_keeps] ].

(** What no part of a tick changes. *)
Definition settings (p : plugin) : list string * gmap Z Z * Z * Z * Z :=
  (_validators p, _private_keys p, _required_validator_participation p, _fork_collision_timeout_blocks p,
   _last_lag_slot_time p).

(** The blocks that are sent by some calls. *)
Definition block_sent (c : call) : option signed_block := match c with broadcast_block b => Some b | _ => None end.
Definition sent_blocks (l : list call) : list signed_block := omap block_sent l.
Definition silent (l : list call) : Prop := sent_blocks l = [].

(** The settings stay, and no block is sent. *)
Definition steady (x x' : producer) : Prop :=
  settings (pl x') = settings (pl x) ∧ ∃ l, calls x' = calls x ++ l ∧ silent l.
(** Nor is the node touched, a collision counted, or production on a stale chain
    allowed. *)
Definition no_laxer (p p' : plugin) : Prop :=
  fork_collision_defer_count_ p' = fork_collision_defer_count_ p ∧
  (stale_production p' = true → stale_production p = true).
Definition still (x x' : producer) : Prop :=
  steady x x' ∧ nd x' = nd x ∧ no_laxer (pl x) (pl x').

#[export] Instance steady_preorder : PreOrder steady.
Proof.
  split.
  - intros x. split; [done|]. exists []. rewrite app_nil_r. done.
  - intros x y z [E1 (l1 & C1 & S1)] [E2 (l2 & C2 & S2)]. split; [congruence|].
    exists (l1 ++ l2). rewrite C2, C1, app_assoc. split; [done|]. unfold silent, sent_blocks in *. by rewrite omap_app, S1, S2.
Qed.
#[export] Instance still_preorder : PreOrder still.
Proof.
  split; [intros x; by split_and!|].
  intros x y z (? & ? & ? & ?) (? & ? & ? & ?). split_and!; [by etrans|congruence|]. split; [congruence|auto].
Qed.

Lemma still_steady {A} (m : PM A) : keeps still m → keeps steady m.
Proof. intros H x. by destruct (H x). Qed.

(** An update of the plugin that leaves the settings. *)
Lemma set_plugin_still f :
  (∀ p, settings (f p) = settings p ∧ no_laxer p (f p)) →
  keeps still (set_plugin f).
Proof.
  intros H x. destruct (H (pl x)). split_and!; [split; [done|]|done..].
  exists []. cbn. rewrite app_nil_r. done.
Qed.
Lemma set_plugin_steady f : (∀ p, settings (f p) = settings p) → keeps steady (set_plugin f).
Proof. intros H x. split; [apply H|]. exists []. cbn. rewrite app_nil_r. done. Qed.
Lemma ask_still c : block_sent c = None → keeps still (ask c).
Proof.
  intros H x. split_and!; [split; [done|]|done..]. exists [c]. split; [done|]. unfold silent, sent_blocks. cbn. by rewrite H.
Qed.
Lemma on_node_steady {A} (m : NM A) : keeps steady (on_node m).
Proof.
  intros x. unfold on_node. destruct (m (nd x)) as [n r]. split; [done|].
  exists []. cbn. rewrite app_nil_r. done.
Qed.
#[export] Hint Resolve on_node_steady : plugin_keeps.
#[export] Hint Extern 1 (keeps still (ask _)) => apply ask_still; reflexivity : plugin_keeps.
#[export] Hint Extern 1 (keeps still (set_plugin _)) =>
  apply set_plugin_still; intros; repeat (split || intro || assumption) : plugin_keeps.
#[export] Hint Extern 2 (keeps steady (ask _)) => apply still_steady, ask_still; reflexivity : plugin_keeps.
#[export] Hint Extern 2 (keeps steady (set_plugin _)) => apply set_plugin_steady; intros; reflexivity : plugin_keeps.

(** All failures of [m] are such as no handler catches. *)
Definition fatal {A} (m : PM A) : Prop := ∀ x x' e, m x = (x', inl e) → is_exception e = false.

Lemma fatal_pret {A} (a : A) : fatal (pret a).
Proof. by intros x x' e [=]. Qed.
Lemma fatal_pget {A} (f : producer → A) : fatal (pget f).
Proof. by intros x x' e [=]. Qed.
Lemma fatal_pupd f : fatal (pupd f).
Proof. by intros x x' e [=]. Qed.
Lemma fatal_plift {A} (r : res A) : (∀ e, r = Err e → is_exception e = false) → fatal (plift r).
Proof. intros H x x' e. unfold plift. destruct r; [done|]. intros [= _ <-]. by apply H. Qed.
Lemma fatal_pbind {A B} (m : PM A) (k : A → PM B) : fatal m → (∀ a, fatal (k a)) → fatal (pbind m k).
Proof.
  intros Hm Hk x x' e. unfold pbind. destruct (m x) as [x1 [e1|a]] eqn:E; [|by apply Hk].
  intros [= _ <-]. by eapply Hm.
Qed.
Lemma fatal_guarded g k : fatal g → fatal k → fatal (guarded g k).
Proof. intros Hg Hk. apply fatal_pbind; [done|]. intros [c|]; [apply fatal_pret|done]. Qed.
Lemma fatal_pwhen b (m : PM unit) : fatal m → fatal (pwhen b m).
Proof. destruct b; [done|]. intros _. apply fatal_pret. Qed.
Lemma fatal_foldr {A} (l : list A) (f : A → PM unit) :
  (∀ a, fatal (f a)) → fatal (foldr (λ a k, pbind (f a) (λ _, k)) (pret tt) l).
Proof. intros Hf. induction l; cbn; [apply fatal_pret|]. by apply fatal_pbind. Qed.
Lemma fatal_on_node {A} (m : NM A) : (∀ n n' e, m n = (n', inl e) → is_exception e = false) → fatal (on_node m).
Proof. intros H x x' e. unfold on_node. destruct (m (nd x)) as [n r] eqn:E. intros [= _ ->]. by eapply H. Qed.

Create HintDb plugin_fatal.
#[export] Hint Resolve fatal_pret fatal_pget fatal_pupd fatal_pbind fatal_guarded fatal_pwhen fatal_foldr : plugin_fatal.

Ltac fatal_tac :=
  repeat first
    [ progress intros
    | apply fatal_pbind | apply fatal_guarded | apply fatal_foldr | apply fatal_pwhen
    | apply fatal_pret | apply fatal_pget | apply fatal_pupd
    | case_match
    | solve [eauto with plugin_fatal] ].

(** ** The guards *)

Section guards.
Context {CE : ChainEnv} {CI : CustomInterpreters} {TE : TransactionEnv} {FA : FreshArrays} {BE : BlockEnv}.
Context {US : UndoSessions} {BS : BlockSigning} {CS : ConfirmationSigning}.

Lemma drop_override p :
  stale_production (p <| _production_skip_flags ::= λ f, Z.ldiff f skip_undo_history_check |>) = false.
Proof.
  unfold stale_production, skips. cbn. replace (Z.land _ _) with 0; [done|]. symmetry.
  apply Z.bits_inj'. intros i Hi. rewrite Z.land_spec, Z.ldiff_spec, Z.bits_0.
  by destruct (Z.testbit (_production_skip_flags p) i), (Z.testbit skip_undo_history_check i).
Qed.

Lemma sync_guard_still o em : keeps still (sync_guard o em).
Proof. unfold sync_guard, stop, go_on. keeps_tac. Qed.
Lemma participation_guard_still em : keeps still (participation_guard em).
Proof.
  unfold participation_guard, stop, go_on. keeps_tac.
  apply set_plugin_still. intros p. split; [done|]. split; [done|]. by rewrite drop_override.
Qed.
Lemma confirm_blocks_still t now : keeps still (confirm_blocks t now).
Proof. unfold confirm_blocks, confirm_for. keeps_tac. Qed.
Lemma enter_recovery_still o b : keeps still (enter_recovery o b).
Proof. unfold enter_recovery. keeps_tac. Qed.
#[local] Hint Resolve enter_recovery_still : plugin_keeps.
Lemma minority_guard_still o em : keeps still (minority_guard o em).
Proof. unfold minority_guard, stop, go_on. keeps_tac. Qed.
Lemma slot_of_ours_still now : keeps still (slot_of_ours now).
Proof.
  unfold slot_of_ours. keeps_tac.
  intros x. split_and!; [split; [done|]|done..]. exists []. cbn. by rewrite app_nil_r.
Qed.
Lemma collision_guard_steady em who : keeps steady (collision_guard em who).
Proof. unfold collision_guard, stop, go_on. keeps_tac. Qed.
Lemma pause_guard_still o : keeps still (pause_guard o).
Proof. unfold pause_guard, stop, go_on. keeps_tac. Qed.

Lemma all_ours_fatal n p d cur e : all_ours n p d cur = Err e → is_exception e = false.
Proof.
  revert cur. induction n as [|n IH]; intros cur; cbn; [done|]. destruct cur as [a|]; [|done].
  destruct (heap d !! a) as [i|]; [|by intros [= <-]]. destruct (ours _ _); [apply IH|done].
Qed.
Lemma scheduled_fatal slot s e : get_scheduled_validator slot s = Err e → is_exception e = false.
Proof.
  unfold get_scheduled_validator. destruct (_ =? 0); [by intros [= <-]|].
  destruct (_ !! _); [done|]. by intros [= <-].
Qed.
Lemma compare_fatal a b s e : compare_fork_branches a b s = Err e → is_exception e = false.
Proof.
  unfold compare_fork_branches. destruct (_ || _); [done|].
  match goal with |- match ?m with _ => _ end = _ → _ => destruct m as [|e'] end; [done|].
  destruct (is_exception e') eqn:E; [done|]. by intros [= <-].
Qed.
Lemma remove_blocks_fatal n d d' e : remove_blocks_by_number n d = (d', inl e) → is_exception e = false.
Proof.
  unfold remove_blocks_by_number, fbind, fgets. generalize (ForkDb.fetch_block_by_number n d). intros l.
  revert d. induction l as [|b l IH]; intros d; cbn; [done|]. apply IH.
Qed.

Lemma sync_guard_fatal o em : fatal (sync_guard o em).
Proof. unfold sync_guard, stop, go_on. fatal_tac. Qed.
Lemma participation_guard_fatal em : fatal (participation_guard em).
Proof. unfold participation_guard, set_plugin, stop, go_on. fatal_tac. Qed.
Lemma confirm_blocks_fatal t now : fatal (confirm_blocks t now).
Proof. unfold confirm_blocks, confirm_for, set_plugin, ask. fatal_tac. Qed.
Lemma enter_recovery_fatal o b : fatal (enter_recovery o b).
Proof. unfold enter_recovery, set_plugin, ask. fatal_tac. Qed.
#[local] Hint Resolve enter_recovery_fatal : plugin_fatal.
Lemma minority_guard_fatal o em : fatal (minority_guard o em).
Proof. unfold minority_guard, stop, go_on. fatal_tac; eapply fatal_plift; intros; by eapply all_ours_fatal. Qed.
Lemma slot_of_ours_fatal now : fatal (slot_of_ours now).
Proof.
  unfold slot_of_ours, set_plugin. fatal_tac; apply fatal_plift; intros e He.
  - by eapply scheduled_fatal.
  - destruct (validators _ !! _); [done|]. by injection He as <-.
Qed.
Lemma on_forks_fatal {A} (m : FM A) :
  (∀ d d' e, m d = (d', inl e) → is_exception e = false) → fatal (on_node (on_forks m)).
Proof.
  intros H. apply fatal_on_node. intros n n' e. unfold on_forks.
  destruct (m (fork_db (db n))) as [d r] eqn:E. intros [= _ ->]. by eapply H.
Qed.
Lemma collision_guard_fatal em who : fatal (collision_guard em who).
Proof.
  unfold collision_guard, set_plugin, stop, go_on. fatal_tac.
  - apply on_forks_fatal, remove_blocks_fatal.
  - apply fatal_plift, compare_fatal.
Qed.
Lemma pause_guard_fatal o : fatal (pause_guard o).
Proof. unfold pause_guard, stop, go_on. fatal_tac. Qed.

Lemma send_block_fatal o b : fatal (send_block o b).
Proof. unfold send_block, ask. fatal_tac. Qed.
Lemma clear_pending_fatal : fatal (on_node clear_pending).
Proof.
  apply fatal_on_node. intros n n' e. unfold clear_pending, reset_pending_session, nbind, nupd. done.
Qed.
Lemma attempts_fatal n fuel tries o em who when key : fatal (attempts n fuel tries o em who when key).
Proof.
  induction n as [|n IH]; cbn [attempts]; [apply fatal_pret|].
  intros x x' e. destruct (_generate_block _ _ _ _ _ _ _) as [n' [e1|b]].
  - destruct (is_corruption e1); [|destruct (is_unlinkable e1); [|destruct (is_exception e1) eqn:E]].
    + apply fatal_pbind; unfold ask; fatal_tac.
    + apply fatal_pbind; fatal_tac.
    + apply fatal_pbind; [apply clear_pending_fatal|done].
    + by intros [= _ <-].
  - apply fatal_pbind; [apply send_block_fatal|]. fatal_tac.
Qed.

Lemma maybe_validate_fatal fuel tries o : fatal (maybe_validate_block fuel tries o).
Proof.
  unfold maybe_validate_block.
  apply fatal_pbind; [apply fatal_pget|intros em].
  apply fatal_guarded; [apply sync_guard_fatal|]. apply fatal_guarded; [apply participation_guard_fatal|].
  apply fatal_pbind; [apply confirm_blocks_fatal|intros []].
  apply fatal_guarded; [apply minority_guard_fatal|].
  apply fatal_pbind; [apply slot_of_ours_fatal|]. intros [c|[[who when] key]]; [apply fatal_pret|].
  apply fatal_guarded; [apply collision_guard_fatal|]. apply fatal_guarded; [apply pause_guard_fatal|].
  apply attempts_fatal.
Qed.
End guards.

(** ** One tick *)

Section tick.
Context {CE : ChainEnv} {CI : CustomInterpreters} {TE : TransactionEnv} {FA : FreshArrays} {BE : BlockEnv}.
Context {US : UndoSessions} {BS : BlockSigning} {CS : ConfirmationSigning}.

Lemma send_block_run o b x :
  ∃ l, send_block o b x = (x <| calls ::= λ c, c ++ l |>, inr tt) ∧ sent_blocks l = [b].
Proof.
  unfold send_block, ask, pbind, pupd. destruct (_ && _); cbn; [|by exists [broadcast_block b]].
  exists [broadcast_block b; reconnect_seeds]. split; [|done].
  destruct x. unfold set_field; cbn. unfold set_calls. cbn. by rewrite <- app_assoc.
Qed.

(** What the attempts at making a block send: the block that was made, if any. *)
Definition outcome (fuel tries : nat) (who : string) (when key : Z) (x' : producer) (l : list call)
    (r : fc_error + block_validation_condition) : Prop :=
  match r with
  | inr produced => ∃ flags n b, _generate_block fuel tries when who key flags n = (nd x', inr b) ∧ sent_blocks l = [b]
  | _ => silent l
  end.

Lemma attempts_outcome n fuel tries o em who when key x x' r :
  attempts n fuel tries o em who when key x = (x', r) →
  settings (pl x') = settings (pl x) ∧ fork_collision_defer_count_ (pl x') = fork_collision_defer_count_ (pl x) ∧
  ∃ l, calls x' = calls x ++ l ∧ outcome fuel tries who when key x' l r.
Proof.
  revert x. induction n as [|n IH]; intros x; cbn [attempts].
  { intros [= <- <-]. split_and!; [done..|]. exists []. by rewrite app_nil_r. }
  destruct (_generate_block _ _ _ _ _ _ _) as [n' [e|b]] eqn:Eg.
  - destruct (is_corruption e); [|destruct (is_unlinkable e); [|destruct (is_exception e)]].
    + intros [= <- <-]. split_and!; [done..|]. by exists [attempt_auto_recovery].
    + intros [= <- <-]. split_and!; [done..|]. by exists [resync_from_lib em].
    + unfold pbind at 1. cbn [on_node]. intros H. apply IH in H as (? & ? & l & ? & ?). split_and!; [done..|].
      by exists l.
    + intros [= <- <-]. split_and!; [done..|]. exists []. by rewrite app_nil_r.
  - unfold pbind. destruct (send_block_run o b (x <| nd := n' |>)) as (l & -> & Hl).
    intros [= <- <-]. split_and!; [done..|]. exists l. split; [done|]. by eexists _, _, _.
Qed.

(** What must hold for this node to produce: [p] and [s] are the plugin and the
    chain at the start of the tick. *)
Record ready (o : outside) (p : plugin) (s : database) (who : string) (when key : Z) : Prop := {
  ready_time : when = sec_of (now_guarded o + 250000) ∧ time (dgpo s) < when;
  ready_turn : get_scheduled_validator (get_slot_at_time s when) s = Ok (who, s) ∧
    get_slot_time s (get_slot_at_time s when) = when;
  ready_ours : who ∈ _validators p ∧
    ∃ w, validators s !! who = Some w ∧ signing_key w ≠ 0 ∧ _private_keys p !! signing_key w = Some key;
  ready_synced : dlt_mode o && is_syncing o = true → emergency_active s && holds_emergency_key p = true;
  ready_unpaused : is_snapshot_in_progress o = false ∧ is_catching_up o = false ∧
    snapshot_started o = false ∧ catching_up_started o = false;
  ready_attended : emergency_active s = true ∨ 33 * CHAIN_1_PERCENT ≤ validator_participation_rate s ∨
    _required_validator_participation p ≤ validator_participation_rate s ∨ stale_production p = true;
  ready_connected : if emergency_active s then dlt_mode o = true → is_master p s = true ∨ alone p s = Ok false
    else alone p s = Ok false ∨ stale_production p = true;
  ready_uncontested : competing_block (emergency_active s) who s = None ∨ timed_out p = true ∨
    ∃ id cmp, competing_block (emergency_active s) who s = Some id ∧
      compare_fork_branches id (head_block_id (dgpo s)) s = Ok cmp ∧ cmp < 0
}.

Lemma keeps_run {A} R (m : PM A) x x' r : keeps R m → m x = (x', r) → R x x'.
Proof. intros H E. specialize (H x). by rewrite E in H. Qed.

(** No guard ends the tick with a block. *)
Definition never_produces (g : PM (option block_validation_condition)) : Prop :=
  ∀ x x', g x ≠ (x', inr (Some produced)).

Lemma sync_guard_pass o em x x' r :
  sync_guard o em x = (x', inr r) → x' = x ∧ r ≠ Some produced ∧
  (r = None → (dlt_mode o && is_syncing o = true → em && holds_emergency_key (pl x) = true) ∧
    is_snapshot_in_progress o = false ∧ is_catching_up o = false).
Proof.
  unfold sync_guard, pbind, pget, stop, go_on.
  destruct (dlt_mode o && is_syncing o), (em && _), (is_snapshot_in_progress o), (is_catching_up o); cbn;
    by intros [= <- <-].
Qed.

Ltac passed := split; [done|intros; try done; auto].

Lemma participation_guard_pass em x x' r :
  participation_guard em x = (x', inr r) → r ≠ Some produced ∧
  (r = None → hf12 (db (nd x)) = true → em = true ∨ 33 * CHAIN_1_PERCENT ≤ validator_participation_rate (db (nd x)) ∨
    _required_validator_participation (pl x) ≤ validator_participation_rate (db (nd x)) ∨
    stale_production (pl x) = true).
Proof.
  unfold participation_guard, pbind, pget, stop, go_on.
  destruct (hf12 _); [|intros [= _ <-]; by passed]. destruct em; [intros [= _ <-]; by passed|].
  destruct (Z.leb_spec (33 * CHAIN_1_PERCENT) (validator_participation_rate (db (nd x)))).
  { cbn. intros [= _ <-]. by passed. }
  destruct (Z.ltb_spec (validator_participation_rate (db (nd x))) (_required_validator_participation (pl x)));
    [destruct (stale_production (pl x))|]; cbn; intros [= _ <-]; by passed.
Qed.

Lemma minority_guard_pass o em x x' r :
  minority_guard o em x = (x', inr r) → r ≠ Some produced ∧
  (r = None → if em then dlt_mode o = true → is_master (pl x) (db (nd x)) = true ∨ alone (pl x) (db (nd x)) = Ok false
    else alone (pl x) (db (nd x)) = Ok false ∨ stale_production (pl x) = true).
Proof.
  unfold minority_guard, pbind, pget, plift, stop, go_on. destruct em; cbn [negb].
  - destruct (dlt_mode o); cbn [andb]; [|intros [= _ <-]; by passed].
    destruct (is_master _ _); cbn [negb]; [intros [= _ <-]; by passed|].
    destruct (alone _ _) as [[]|]; cbn; [..|done]; intros [= _ <-]; by passed.
  - destruct (alone _ _) as [[]|]; [..|done]; destruct (stale_production _); cbn; intros [= _ <-]; by passed.
Qed.

Lemma slot_of_ours_pass now x x' who when key :
  slot_of_ours now x = (x', inr (inr (who, when, key))) →
  let s := db (nd x) in
  x' = x ∧ when = now ∧ time (dgpo s) < when ∧ get_slot_time s (get_slot_at_time s now) = when ∧
  get_scheduled_validator (get_slot_at_time s now) s = Ok (who, s) ∧ who ∈ _validators (pl x) ∧
  (∃ w, validators s !! who = Some w ∧ signing_key w ≠ 0 ∧ _private_keys (pl x) !! signing_key w = Some key) ∧
  (hf12 s = false → _required_validator_participation (pl x) ≤ validator_participation_rate s ∨
    stale_production (pl x) = true).
Proof.
  unfold slot_of_ours, pget, plift, pret, set_plugin, pupd, us_of. unfold pbind at 1 2. cbv zeta.
  set (s := db (nd x)). destruct (get_slot_at_time s now =? 0); [done|]. unfold pbind.
  destruct (get_scheduled_validator _ s) as [[n s1]|] eqn:Es; cbn; [|done].
  destruct (ours (pl x) n) eqn:Eo; cbn; [|done].
  destruct (validators s !! n) as [w|] eqn:Ew; cbn; [|done].
  destruct (Z.leb_spec (get_slot_time s (get_slot_at_time s now)) (time (dgpo s))); [done|].
  destruct (Z.eqb_spec (signing_key w) 0); [done|].
  destruct (_private_keys (pl x) !! signing_key w) as [k|] eqn:Ek; [|done].
  destruct (negb (hf12 s) && _ && _) eqn:Ep; [done|].
  destruct (Z.ltb_spec 500000 (Z.abs ((get_slot_time s (get_slot_at_time s now) - now) * 1000000))); [done|].
  intros [= <- <- <- <-]. apply bool_decide_eq_true in Eo.
  assert (s1 = s) as ->.
  { unfold get_scheduled_validator in Es. destruct (_ =? 0); [done|]. destruct (_ !! _); [|done]. by injection Es. }
  split_and!; try done; [lia|by eexists|]. intros Hh. rewrite Hh in Ep. cbn in Ep.
  destruct (Z.ltb_spec (validator_participation_rate s) (_required_validator_participation (pl x))); [|by left].
  right. by destruct (stale_production _).
Qed.

Lemma slot_of_ours_stop now x x' c : slot_of_ours now x = (x', inr (inl c)) → c ≠ produced.
Proof.
  unfold slot_of_ours. intros H. apply pbind_inr in H as (p & x1 & _ & H). apply pbind_inr in H as (s & x2 & _ & H).
  cbv zeta in H. destruct (_ =? 0); [by injection H as _ <-|]. apply pbind_inr in H as (n & x3 & _ & H).
  destruct (negb _); [apply pbind_inr in H as (? & x4 & _ & H); by injection H as _ <-|].
  apply pbind_inr in H as (w & x4 & _ & H). destruct (_ <=? _); [by injection H as _ <-|].
  destruct (_ =? 0); [by injection H as _ <-|]. destruct (_private_keys p !! _); [|by injection H as _ <-].
  destruct (_ && _ && _); [by injection H as _ <-|]. destruct (_ <? _); [|done].
  apply pbind_inr in H as (? & x5 & _ & H). by injection H as _ <-.
Qed.

Lemma collision_guard_pass em who x x' r :
  collision_guard em who x = (x', inr r) → r ≠ Some produced ∧
  (r = None → let s := db (nd x) in
    competing_block em who s = None ∨ timed_out (pl x) = true ∨
    ∃ id cmp, competing_block em who s = Some id ∧ compare_fork_branches id (head_block_id (dgpo s)) s = Ok cmp ∧ cmp < 0).
Proof.
  intros H. split.
  - intros ->. unfold collision_guard, pbind, pget, set_plugin, pupd, plift, stop, go_on, on_node in H.
    repeat case_match; simplify_eq.
  - intros -> s. destruct (competing_block em who s) as [id|] eqn:Ec; [right|by left].
    unfold collision_guard in H. unfold pbind at 1, pget at 1 in H. fold s in H. rewrite Ec in H.
    unfold pbind at 1 2, set_plugin, pupd, pget at 1 in H. cbn in H. unfold timed_out.
    destruct (Z.ltb_spec (_fork_collision_timeout_blocks (pl x)) (u32 (fork_collision_defer_count_ (pl x) + 1)));
      [by left|right].
    destruct (hf12 s); [|done]. apply pbind_inr in H as (cmp & x1 & Hc & H).
    unfold plift in Hc. destruct (compare_fork_branches _ _ _) as [c|] eqn:E; [|done]. injection Hc as <- <-.
    destruct (Z.ltb_spec c 0); [|done]. by exists id, c.
Qed.

(** The seconds of a time that is in range. *)
Lemma sec_of_window t : 0 ≤ t < us_of (2 ^ 32) → us_of (sec_of t) ≤ t < us_of (sec_of t + 1).
Proof.
  unfold us_of, sec_of, u32. intros H. rewrite Z.quot_div_nonneg by lia.
  assert (0 ≤ t / 1000000 < 2 ^ 32) by (split; [apply Z.div_pos|apply Z.div_lt_upper_bound]; lia).
  rewrite Z.mod_small by done. pose proof (Z.div_mod t 1000000). pose proof (Z.mod_pos_bound t 1000000). lia.
Qed.

Lemma still_parts x x' :
  still x x' → nd x' = nd x ∧ _validators (pl x') = _validators (pl x) ∧ _private_keys (pl x') = _private_keys (pl x) ∧
  _required_validator_participation (pl x') = _required_validator_participation (pl x) ∧
  timed_out (pl x') = timed_out (pl x) ∧ (stale_production (pl x') = true → stale_production (pl x) = true).
Proof.
  intros ((E & _) & En & Ec & Es). unfold settings in E. injection E as ? ? ? Ht ?.
  split_and!; [done..| |done]. unfold timed_out. by rewrite Ht, Ec.
Qed.

Lemma same_validators p p' s :
  _validators p' = _validators p → holds_emergency_key p' = holds_emergency_key p ∧
  is_master p' s = is_master p s ∧ alone p' s = alone p s.
Proof.
  intros E. assert (∀ n, ours p' n = ours p n) as Ho by (intros n; unfold ours; by rewrite E).
  unfold is_master, holds_emergency_key. rewrite Ho. split_and!; [done..|]. unfold alone.
  generalize (Z.to_nat CHAIN_MAX_VALIDATORS), (_head (fork_db s)). intros k. induction k as [|k IH]; intros cur; [done|].
  cbn [all_ours]. destruct cur as [a|]; [|done]. destruct (heap _ !! a); [|done]. rewrite Ho. by rewrite IH.
Qed.

(** The checks before the attempts. *)
Lemma tick_ready fuel tries o x x' :
  maybe_validate_block fuel tries o x = (x', inr produced) →
  ∃ x1 who when key, ready o (pl x) (db (nd x)) who when key ∧ steady x x1 ∧
    attempts 2 fuel tries o (emergency_active (db (nd x))) who when key x1 = (x', inr produced).
Proof.
  unfold maybe_validate_block. unfold pbind at 1, pget at 1. set (s := db (nd x)). set (em := emergency_active s).
  intros H. apply guarded_inr in H as [H|(x1 & G1 & H)]; [by apply sync_guard_pass in H as (_ & ? & _)|].
  pose proof (sync_guard_pass _ _ _ _ _ G1) as (-> & _ & P1). specialize (P1 eq_refl) as (P1 & U1 & U2).
  apply guarded_inr in H as [H|(x2 & G2 & H)]; [by apply participation_guard_pass in H as (? & _)|].
  pose proof (participation_guard_pass _ _ _ _ G2) as (_ & P2). specialize (P2 eq_refl).
  pose proof (keeps_run still _ _ _ _ (participation_guard_still em) G2) as S2.
  apply pbind_inr in H as ([] & x3 & G3 & H).
  pose proof (keeps_run still _ _ _ _ (confirm_blocks_still _ _) G3) as S3.
  apply guarded_inr in H as [H|(x4 & G4 & H)]; [by apply minority_guard_pass in H as (? & _)|].
  pose proof (minority_guard_pass _ _ _ _ _ G4) as (_ & P4). specialize (P4 eq_refl).
  pose proof (keeps_run still _ _ _ _ (minority_guard_still o em) G4) as S4.
  apply pbind_inr in H as ([c|[[who when] key]] & x5 & G5 & H).
  { injection H as -> ->. by apply slot_of_ours_stop in G5. }
  pose proof (slot_of_ours_pass _ _ _ _ _ _ G5) as (-> & Ew & Hnew & Hs1 & Hs2 & Ho & Hk & Hp).
  apply guarded_inr in H as [H|(x6 & G6 & H)]; [by apply collision_guard_pass in H as (? & _)|].
  pose proof (collision_guard_pass _ _ _ _ _ G6) as (_ & P6). specialize (P6 eq_refl).
  pose proof (keeps_run steady _ _ _ _ (collision_guard_steady em who) G6) as S6.
  assert (still x x3) as S13 by (by etrans). assert (still x x4) as S14 by (by etrans).
  destruct (still_parts _ _ S13) as (N3 & V3 & _ & _ & _ & St3).
  destruct (still_parts _ _ S14) as (N4 & V4 & K4 & R4 & T4 & St4).
  destruct (same_validators (pl x) (pl x3) s V3) as (_ & M3 & A3).
  rewrite N4, V4, K4, R4 in *. rewrite N3 in P4. rewrite T4 in P6. fold s in P2, P4, Hnew, Hs1, Hs2, Hk, Hp, P6.
  rewrite M3, A3 in P4.
  apply guarded_inr in H as [H|(x7 & G7 & H)].
  { exfalso. revert H. unfold pause_guard, stop, go_on. by destruct (_ || _). }
  pose proof (keeps_run still _ _ _ _ (pause_guard_still o) G7) as [S7 _].
  exists x7, who, when, key. split; [|split; [|done]].
  - subst when. constructor.
    + split; [reflexivity|exact Hnew].
    + split; [exact Hs2|exact Hs1].
    + split; [exact Ho|exact Hk].
    + exact P1.
    + split_and!; [exact U1|exact U2|..]; revert G7; unfold pause_guard, stop, go_on;
        by destruct (snapshot_started o), (catching_up_started o).
    + destruct (hf12 s) eqn:Eh; [by destruct (P2 eq_refl) as [?|[?|[?|?]]]; auto|].
      destruct (Hp eq_refl); auto.
    + fold em. destruct em; [exact P4|]. destruct P4 as [?|?]; [by left|right; auto].
    + exact P6.
  - destruct S14 as [S14 _]. do 2 (etrans; [done|]). done.
Qed.

(** The blocks are sent by the attempts only. *)
Definition quietly (m : PM block_validation_condition) : Prop := ∀ x x' r,
  m x = (x', r) → ∃ l, calls x' = calls x ++ l ∧ (r ≠ inr produced → silent l).

Lemma quietly_pret c : quietly (pret c).
Proof. intros x x' r [= <- <-]. exists []. by rewrite app_nil_r. Qed.
Lemma quietly_pbind {A} (m : PM A) k : keeps steady m → (∀ a, quietly (k a)) → quietly (pbind m k).
Proof.
  intros Hm Hk x x' r. unfold pbind. destruct (m x) as [x1 [e|a]] eqn:E.
  - intros [= <- <-]. destruct (keeps_run _ _ _ _ _ Hm E) as [_ (l & ? & ?)]. by exists l.
  - intros H. destruct (keeps_run _ _ _ _ _ Hm E) as [_ (l1 & C1 & Q1)].
    apply Hk in H as (l & C & Q). exists (l1 ++ l). split; [by rewrite C, C1, app_assoc|].
    intros Hr. unfold silent, sent_blocks in *. by rewrite omap_app, Q1, Q.
Qed.
Lemma quietly_guarded g k : keeps steady g → quietly k → quietly (guarded g k).
Proof. intros Hg Hk. apply quietly_pbind; [done|]. intros [c|]; [apply quietly_pret|done]. Qed.
Lemma maybe_quietly fuel tries o : quietly (maybe_validate_block fuel tries o).
Proof.
  unfold maybe_validate_block.
  apply quietly_pbind; [apply keeps_pget, _|intros em].
  apply quietly_guarded; [apply still_steady, sync_guard_still|].
  apply quietly_guarded; [apply still_steady, participation_guard_still|].
  apply quietly_pbind; [apply still_steady, confirm_blocks_still|intros []].
  apply quietly_guarded; [apply still_steady, minority_guard_still|].
  apply quietly_pbind; [apply still_steady, slot_of_ours_still|].
  intros [c|[[who when] key]]; [apply quietly_pret|].
  apply quietly_guarded; [apply collision_guard_steady|].
  apply quietly_guarded; [apply still_steady, pause_guard_still|].
  intros x x' r H. apply attempts_outcome in H as (_ & _ & l & C & Ho). exists l. split; [done|].
  intros Hr. unfold outcome in Ho. destruct r as [|[]]; done.
Qed.

(** C25 (safety).  A tick sends a block exactly when it reports that it has
    produced one, and then it is the one block that it has made; it is made in
    the slot of one of this node's validators, with the key that the chain has
    for him, a quarter of a second before the slot or in its first three, later
    than the head, on a chain that is not being synchronised or paused, that is
    not this node's alone, on which enough validators take part, and without a
    competing block of more weight, each with the exceptions that the plugin
    makes. *)
Theorem tick_outcome fuel tries o x x' r :
  0 ≤ now_guarded o + 250000 < us_of (2 ^ 32) →
  maybe_validate_block fuel tries o x = (x', inr r) →
  ∃ l, calls x' = calls x ++ l ∧
    match r with
    | produced => ∃ who when key flags n b,
        ready o (pl x) (db (nd x)) who when key ∧ us_of when - 250000 ≤ now_guarded o < us_of when + 750000 ∧
        _generate_block fuel tries when who key flags n = (nd x', inr b) ∧ sent_blocks l = [b]
    | _ => sent_blocks l = []
    end.
Proof.
  intros Ht H. destruct (decide (r = produced)) as [->|Hr].
  - apply tick_ready in H as (x1 & who & when & key & Hr & [_ (l1 & C1 & Q1)] & H).
    apply attempts_outcome in H as (_ & _ & l & C & flags & n & b & Hg & Hl).
    exists (l1 ++ l). split; [by rewrite C, C1, app_assoc|]. exists who, when, key, flags, n, b.
    split_and!; [done| | |done|].
    1,2: destruct (ready_time _ _ _ _ _ _ Hr) as [-> _];
      pose proof (sec_of_window _ Ht) as Hw; unfold us_of in *; lia.
    unfold silent, sent_blocks in *. by rewrite omap_app, Q1, Hl.
  - apply maybe_quietly in H as (l & C & Q). exists l. split; [done|].
    specialize (Q ltac:(by intros [=])). by destruct r.
Qed.
End tick.
