(* ===== verification/ValidatorLoop.v ===== *)
(** * The production loop over many ticks

    The timer is always armed again; a lag skips the rest of its slot; the
    timeout of collisions needs an unbroken streak of deferrals; the recovery of
    the watchdog clears nothing, and no gap between blocks is ever seen. *)

From stdpp Require Import gmap strings list.
From Stdlib Require Import ZArith Lia.
From S2P Require Import Prelude Fc Text Asset Authority SignState Operations ChainOperations.
From S2P Require Import Block ForkDb Objects Database Evaluators Slots BlockData BlockDataProofs Irreversible.
From S2P Require Import EvalAccount EvalGovern EvalAward EvalInvite PostValidation Schedule Transactions Proposals ApplyBlock.
From S2P Require Import Supply Scenario ProposalsTrap BlockScenario PushBlock PushBlockFailures GenerateBlock.
From S2P Require Import ValidatorPlugin ValidatorPluginProofs.

Section loop.
Context {CE : ChainEnv} {CI : CustomInterpreters} {TE : TransactionEnv} {FA : FreshArrays} {BE : BlockEnv}.
Context {US : UndoSessions} {BS : BlockSigning} {CS : ConfirmationSigning}.

(** ** What a tick leaves *)

Definition defers (x : producer) : Z := fork_collision_defer_count_ (pl x).
Definition same_settings (x x' : producer) : Prop := settings (pl x') = settings (pl x).

#[local] Instance same_settings_preorder : PreOrder same_settings.
Proof. split; [by intros x|]. unfold same_settings. intros x y z. congruence. Qed.

Lemma steady_settings {A} (m : PM A) : keeps steady m → keeps same_settings m.
Proof. intros H x. by destruct (H x). Qed.

Lemma maybe_settings fuel tries o : keeps same_settings (maybe_validate_block fuel tries o).
Proof.
  unfold maybe_validate_block.
  apply keeps_pbind; [apply _|apply keeps_pget, _|intros em].
  apply keeps_guarded; [apply _|apply steady_settings, still_steady, sync_guard_still|].
  apply keeps_guarded; [apply _|apply steady_settings, still_steady, participation_guard_still|].
  apply keeps_pbind; [apply _|apply steady_settings, still_steady, confirm_blocks_still|intros []].
  apply keeps_guarded; [apply _|apply steady_settings, still_steady, minority_guard_still|].
  apply keeps_pbind; [apply _|apply steady_settings, still_steady, slot_of_ours_still|].
  intros [c|[[who when] key]]; [apply keeps_pret, _|].
  apply keeps_guarded; [apply _|apply steady_settings, collision_guard_steady|].
  apply keeps_guarded; [apply _|apply steady_settings, still_steady, pause_guard_still|].
  intros x. destruct (attempts _ _ _ _ _ _ _ _ x) as [x' r] eqn:E. by apply attempts_outcome in E as (? & _).
Qed.

(** The loop catches nothing, as nothing that it could catch reaches it. *)
Lemma try_validate_eq fuel tries o x : try_validate fuel tries o x = maybe_validate_block fuel tries o x.
Proof.
  unfold try_validate. destruct (maybe_validate_block fuel tries o x) as [x' [e|r]] eqn:E; [|done].
  apply maybe_validate_fatal in E. rewrite E. by rewrite bool_decide_eq_false_2 by (intros ->; done).
Qed.

(** A tick counts at most one collision, and only when it is deferred. *)
Definition counted (m : PM block_validation_condition) : Prop := ∀ x x' r,
  0 ≤ defers x → m x = (x', inr r) → 0 ≤ defers x' ≤ defers x + (if decide (r = fork_collision) then 1 else 0).

Lemma counted_pret c : counted (pret c).
Proof. intros x x' r ? [= <- <-]. case_decide; lia. Qed.
Lemma counted_pbind {A} (m : PM A) k : keeps still m → (∀ a, counted (k a)) → counted (pbind m k).
Proof.
  intros Hm Hk x x' r Hx H. apply pbind_inr in H as (a & x1 & H1 & H).
  apply (keeps_run still _ _ _ _ Hm) in H1 as (_ & _ & E & _). unfold defers in *. rewrite <- E in *.
  by apply (Hk a x1).
Qed.
Lemma counted_guarded g k : keeps still g → counted k → counted (guarded g k).
Proof. intros Hg Hk. apply counted_pbind; [done|]. intros [c|]; [apply counted_pret|done]. Qed.

Lemma collision_count em who x x' r :
  0 ≤ defers x → collision_guard em who x = (x', inr r) →
  match r with
  | Some c => c = fork_collision ∧ 0 ≤ defers x' ≤ defers x + 1
  | None => 0 ≤ defers x' ≤ defers x
  end.
Proof.
  intros Hx H. unfold defers in *. pose proof (u32_le (fork_collision_defer_count_ (pl x) + 1) ltac:(lia)) as Hu.
  unfold collision_guard, pbind, pget, set_plugin, pupd, plift, stop, go_on, pret, on_node, on_forks in H.
  repeat case_match; simplify_eq; cbn; lia || (split; [done|lia]).
Qed.

Lemma maybe_counted fuel tries o : counted (maybe_validate_block fuel tries o).
Proof.
  unfold maybe_validate_block.
  apply counted_pbind; [apply keeps_pget, _|intros em].
  apply counted_guarded; [apply sync_guard_still|]. apply counted_guarded; [apply participation_guard_still|].
  apply counted_pbind; [apply confirm_blocks_still|intros []].
  apply counted_guarded; [apply minority_guard_still|].
  apply counted_pbind; [apply slot_of_ours_still|]. intros [c|[[who when] key]]; [apply counted_pret|].
  intros x x' r Hx H. apply guarded_inr in H as [H|(x1 & H1 & H)].
  - apply collision_count in H as [-> H]; [|done]. by rewrite decide_True.
  - apply collision_count in H1; [|done].
    apply guarded_inr in H as [H|(x2 & H2 & H)].
    + pose proof (keeps_run still _ _ _ _ (pause_guard_still o) H) as (_ & _ & E & _).
      unfold defers in *. rewrite E. case_decide; lia.
    + pose proof (keeps_run still _ _ _ _ (pause_guard_still o) H2) as (_ & _ & E & _).
      apply attempts_outcome in H as (_ & E2 & _). unfold defers in *. rewrite E2, E. case_decide; lia.
Qed.

(** ** The end of a tick *)

(** What the watchdog and the skipping of a slot leave as it is. *)
Definition same_course (x x' : producer) : Prop :=
  nd x' = nd x ∧ defers x' = defers x ∧
  _fork_collision_timeout_blocks (pl x') = _fork_collision_timeout_blocks (pl x) ∧
  captured_time x' = captured_time x.

Lemma force_restore_run o x :
  ∃ x', force_restore o x = (x', inr tt) ∧ same_course x x' ∧ _last_lag_slot_time (pl x') = _last_lag_slot_time (pl x).
Proof.
  unfold force_restore, pbind, pwhen, set_plugin, ask, pupd, pret.
  destruct (catching_up_again o), (syncing_again o); eexists; by split.
Qed.

Lemma watchdog_run o x :
  ∃ x', watchdog o x = (x', inr tt) ∧ same_course x x' ∧ _last_lag_slot_time (pl x') = _last_lag_slot_time (pl x).
Proof.
  unfold watchdog, pwhen. unfold pbind at 1 2, pget.
  destruct (_ && should_be_producing _ _); [|by eexists]. destruct (_ <? _); [|by eexists].
  unfold pbind at 1, set_plugin at 1, pupd. cbn. set (x1 := x <| pl ::= _ |>).
  assert (same_course x x1 ∧ _last_lag_slot_time (pl x1) = _last_lag_slot_time (pl x)) as (C1 & L1).
  { unfold x1. cbn. unfold same_course, defers. by destruct (_watchdog_debug_enabled (pl x)) eqn:E; cbn; rewrite E. }
  destruct (_ <? _); [|by eexists]. unfold pbind, set_plugin, pupd. set (x2 := x1 <| pl ::= _ |>).
  assert (same_course x x2 ∧ _last_lag_slot_time (pl x2) = _last_lag_slot_time (pl x)) as (C2 & L2) by done.
  destruct (_ && _); [|by eexists].
  destruct (force_restore_run o x2) as (x3 & H & (? & ? & ? & ?) & L3). exists x3. destruct C2 as (? & ? & ? & ?).
  split_and!; try congruence. unfold same_course. split_and!; congruence.
Qed.

Lemma skip_lagged_run o x :
  ∃ x', skip_lagged o x = (x', inr (negb (_last_lag_slot_time (pl x) =? 0) &&
      (Z.quot (wall o - us_of (_last_lag_slot_time (pl x))) 1000 <? CHAIN_BLOCK_INTERVAL * 1000))) ∧
    same_course x x' ∧ _last_lag_slot_time (pl x') = 0 ∧
    calls x' = calls x ++ (if negb (_last_lag_slot_time (pl x) =? 0) &&
      (Z.quot (wall o - us_of (_last_lag_slot_time (pl x))) 1000 <? CHAIN_BLOCK_INTERVAL * 1000)
      then [wake_after ((CHAIN_BLOCK_INTERVAL * 1000 - Z.quot (wall o - us_of (_last_lag_slot_time (pl x))) 1000) * 1000)]
      else []).
Proof.
  unfold skip_lagged, pbind, pget, set_plugin, ask, pupd, pret.
  destruct (Z.eqb_spec (_last_lag_slot_time (pl x)) 0) as [E|E]; cbn [negb andb].
  { eexists. rewrite app_nil_r. by split_and!. }
  set (t := Z.quot _ _).
  destruct (Z.ltb_spec t (CHAIN_BLOCK_INTERVAL * 1000)); cbn [andb].
  - destruct (Z.ltb_spec 0 (CHAIN_BLOCK_INTERVAL * 1000 - t)); [|lia]. eexists. by split_and!.
  - eexists. rewrite app_nil_r. by split_and!.
Qed.

(** The deferrals that a result leaves. *)
Definition after_defers (r : block_validation_condition) (n : Z) : Z :=
  match r with produced | not_synced | not_my_turn => 0 | _ => n end.

Lemma after_result_run o r x :
  ∃ x', after_result o r x = (x', inr tt) ∧ nd x' = nd x ∧ defers x' = after_defers r (defers x) ∧
    _fork_collision_timeout_blocks (pl x') = _fork_collision_timeout_blocks (pl x) ∧
    captured_time x' = captured_time x ∧
    _last_lag_slot_time (pl x') = (if decide (r = lag) then captured_time x else _last_lag_slot_time (pl x)).
Proof.
  unfold after_result, pbind, pget, set_plugin, ask, pupd, pret, pwhen, defers, reset_streaks.
  destruct r; try solve [eexists; by split_and!].
  - eexists. split; [done|]. cbn. by destruct (_watchdog_debug_enabled (pl x)).
  - eexists. split; [done|]. cbn. by destruct (_ =? 1).
  - match goal with |- context [if _ =? 10 then _ else _] => destruct (_ =? 10) end;
      (eexists; split; [done|]); cbn; by destruct (_ =? 1).
Qed.

(** The ordinary wait ends at a quarter of a second, at least a twentieth of a
    second away. *)
Lemma next_tick_bounds now :
  0 ≤ now → 50000 ≤ next_tick now < 300000 ∧ (now + next_tick now) mod 250000 = 0.
Proof.
  intros H. unfold next_tick. rewrite Z.rem_mod_nonneg by lia.
  pose proof (Z.mod_pos_bound now 250000 ltac:(lia)) as Hb. pose proof (Z.div_mod now 250000 ltac:(lia)) as Hd.
  destruct (Z.ltb_spec (250000 - now mod 250000) 50000); (split; [lia|]).
  - replace (now + _) with ((now / 250000 + 2) * 250000) by lia. by apply Z.mod_mul.
  - replace (now + _) with ((now / 250000 + 1) * 250000) by lia. by apply Z.mod_mul.
Qed.

(** How long the timer waits: to the next quarter of a second, or to the end of
    the slot that was missed. *)
Definition waits (o : outside) (r : block_validation_condition) (missed d : Z) : Prop :=
  (50000 ≤ d < 300000 ∧ (now_scheduling o + d) mod 250000 = 0) ∨
  (r = lag ∧ 0 < d ∧ Z.abs (wall o + d - us_of (missed + CHAIN_BLOCK_INTERVAL)) < 1000).

Lemma finish_tick_run o r x :
  _last_lag_slot_time (pl x) = 0 → 0 ≤ now_scheduling o →
  ∃ x' d, finish_tick o r x = (x', inr tt) ∧ nd x' = nd x ∧ defers x' = after_defers r (defers x) ∧
    _fork_collision_timeout_blocks (pl x') = _fork_collision_timeout_blocks (pl x) ∧
    _last_lag_slot_time (pl x') = 0 ∧ last (calls x') = Some (wake_after d) ∧ waits o r (captured_time x) d.
Proof.
  intros Hlag Ho. unfold finish_tick. unfold pbind at 1.
  set (m := pwhen _ _). assert (∃ x0, m x = (x0, inr tt) ∧ same_course x x0 ∧ _last_lag_slot_time (pl x0) = 0)
    as (x0 & -> & (N0 & D0 & T0 & K0) & L0).
  { unfold m, pwhen. destruct (negb _); by eexists. }
  unfold pbind at 1. destruct (after_result_run o r x0) as (x1 & -> & N1 & D1 & T1 & K1 & L1).
  unfold pbind at 1. destruct (skip_lagged_run o x1) as (x2 & -> & (N2 & D2 & T2 & K2) & L2 & C2).
  destruct (negb (_last_lag_slot_time (pl x1) =? 0) && _) eqn:Eb.
  - apply andb_true_iff in Eb as [Em%negb_true_iff%Z.eqb_neq Ew%Z.ltb_lt].
    eexists x2, _. split; [done|]. split_and!; try congruence.
    { rewrite C2, last_snoc. done. }
    right. rewrite L1 in *. destruct (decide (r = lag)); [|by rewrite L0 in Em].
    split; [done|]. rewrite K0 in *. unfold us_of, CHAIN_BLOCK_INTERVAL in *.
    set (t := wall o - captured_time x * 1000000) in *. pose proof (Z.quot_rem' t 1000) as Eq.
    pose proof (Z.rem_bound_abs t 1000 ltac:(lia)). lia.
  - unfold pbind. destruct (watchdog_run o x2) as (x3 & -> & (N3 & D3 & T3 & K3) & L3).
    eexists _, _. split; [reflexivity|]. cbn. split_and!; try congruence.
    { unfold defers in *. cbn. congruence. }
    { by rewrite last_snoc. }
    left. by apply next_tick_bounds.
Qed.

(** C26 (liveness).  Every tick of the loop arms the timer again as its last
    act, for the next quarter of a second, or, when the slot was missed, for the
    start of the slot after it; no exception leaves the loop, not even that of an
    unknown hardfork. *)
Theorem loop_rearms fuel tries o x :
  _last_lag_slot_time (pl x) = 0 → 0 ≤ now_scheduling o →
  match block_validation_loop fuel tries o x with
  | (x', inr r) => _last_lag_slot_time (pl x') = 0 ∧
      ∃ d x1, maybe_validate_block fuel tries o x = (x1, inr r) ∧
        last (calls x') = Some (wake_after d) ∧ waits o r (captured_time x1) d
  | (_, inl e) => is_exception e = false
  end.
Proof.
  intros Hlag Ho. unfold block_validation_loop, pbind. rewrite try_validate_eq.
  destruct (maybe_validate_block fuel tries o x) as [x1 [e|r]] eqn:E; [by eapply maybe_validate_fatal|].
  assert (_last_lag_slot_time (pl x1) = 0) as L1.
  { pose proof (keeps_run same_settings _ _ _ _ (maybe_settings fuel tries o) E) as S. unfold same_settings, settings in S.
    injection S as _ _ _ _ ->. done. }
  destruct (finish_tick_run o r x1 L1 Ho) as (x2 & d & -> & _ & _ & _ & L2 & C2 & W2). cbn. eauto 6.
Qed.

(** ** Deferred collisions *)

(** The ticks of the loop, and their results. *)
Fixpoint ticks (fuel tries : nat) (os : list outside) (x : producer) :
    option (producer * list block_validation_condition) :=
  match os with
  | [] => Some (x, [])
  | o :: os =>
      match block_validation_loop fuel tries o x with
      | (x', inr r) => prod_map id (cons r) <$> ticks fuel tries os x'
      | (_, inl _) => None
      end
  end.

(** Deferrals since the last result that ends the streak. *)
Definition deferrals (n : Z) (rs : list block_validation_condition) : Z :=
  foldl (λ n r, after_defers r n + (if decide (r = fork_collision) then 1 else 0)) n rs.

Definition ends_streak (r : block_validation_condition) : Prop := r = produced ∨ r = not_synced ∨ r = not_my_turn.

Lemma deferrals_mono rs n n' : n ≤ n' → deferrals n rs ≤ deferrals n' rs.
Proof.
  revert n n'. induction rs as [|r rs IH]; intros n n' H; [done|]. cbn. apply IH. unfold after_defers. destruct r; lia.
Qed.

(** A count of deferrals belongs to a stretch of results without an end of the
    streak. *)
Lemma deferrals_streak rs :
  ∃ l1 l2, rs = l1 ++ l2 ∧ Forall (λ r, ¬ ends_streak r) l2 ∧
    deferrals 0 rs = Z.of_nat (length (filter (λ r, r = fork_collision) l2)).
Proof.
  induction rs as [|r rs (l1 & l2 & -> & Hf & Hd)] using rev_ind; [by exists [], []|].
  unfold deferrals. rewrite foldl_app. cbn. fold (deferrals 0 (l1 ++ l2)). rewrite Hd.
  destruct (decide (ends_streak r)) as [He|He].
  - exists ((l1 ++ l2) ++ [r]), []. rewrite app_nil_r. split_and!; [done|constructor|].
    by destruct He as [->|[->| ->]].
  - exists l1, (l2 ++ [r]). rewrite app_assoc. split_and!; [done|by apply Forall_app; repeat constructor|].
    rewrite filter_app, length_app, filter_cons, filter_nil. unfold ends_streak in He.
    case_decide; destruct r; cbn [after_defers length]; try (exfalso; tauto); lia.
Qed.

Lemma tick_defers fuel tries o x x' r :
  _last_lag_slot_time (pl x) = 0 → 0 ≤ now_scheduling o → 0 ≤ defers x →
  block_validation_loop fuel tries o x = (x', inr r) →
  _last_lag_slot_time (pl x') = 0 ∧ 0 ≤ defers x' ≤ after_defers r (defers x) + (if decide (r = fork_collision) then 1 else 0) ∧
  _fork_collision_timeout_blocks (pl x') = _fork_collision_timeout_blocks (pl x).
Proof.
  intros Hlag Ho Hd H. unfold block_validation_loop in H. apply pbind_inr in H as (r1 & x1 & H1 & H).
  apply pbind_inr in H as ([] & x2 & H2 & H). injection H as <- <-. rewrite try_validate_eq in H1.
  pose proof (keeps_run same_settings _ _ _ _ (maybe_settings fuel tries o) H1) as S.
  unfold same_settings, settings in S. injection S as _ _ _ T1 L1.
  apply maybe_counted in H1; [|done]. rewrite Hlag in L1.
  destruct (finish_tick_run o r1 x1 L1 Ho) as (x3 & d & E & _ & D & T & L & _). rewrite E in H2. injection H2 as ->.
  split_and!; [done| | |congruence]; rewrite D; destruct r1; cbn in *; repeat case_decide; lia.
Qed.

Lemma ticks_defers fuel tries os x x' rs :
  _last_lag_slot_time (pl x) = 0 → Forall (λ o, 0 ≤ now_scheduling o) os → 0 ≤ defers x →
  ticks fuel tries os x = Some (x', rs) →
  0 ≤ defers x' ≤ deferrals (defers x) rs ∧
  _fork_collision_timeout_blocks (pl x') = _fork_collision_timeout_blocks (pl x).
Proof.
  intros Hlag Hos. revert x rs Hlag. induction Hos as [|o os Ho Hos IH]; intros x rs Hlag Hd; cbn [ticks].
  { intros [= <- <-]. cbn. split; [lia|done]. }
  destruct (block_validation_loop fuel tries o x) as [x1 [e|r]] eqn:E; [done|].
  destruct (ticks fuel tries os x1) as [[x2 rs']|] eqn:E2; [|done]. intros [= <- <-].
  destruct (tick_defers _ _ _ _ _ _ Hlag Ho Hd E) as (L & D & T).
  destruct (IH x1 rs' L ltac:(lia) E2) as (D2 & T2). split; [|congruence].
  cbn. split; [lia|]. etrans; [apply D2|]. apply deferrals_mono. lia.
Qed.

(** The node gives up deferring to a competing block only after as
    many deferrals as the timeout says, with no tick between them in which it was
    not its turn: slots of other validators, of which there is one at least in
    every round with more than one producer, start the count again. *)
Theorem collision_timeout_needs_streak fuel tries os x x' rs :
  _last_lag_slot_time (pl x) = 0 → Forall (λ o, 0 ≤ now_scheduling o) os → defers x = 0 →
  ticks fuel tries os x = Some (x', rs) → timed_out (pl x') = true →
  ∃ l1 l2, rs = l1 ++ l2 ∧ Forall (λ r, ¬ ends_streak r) l2 ∧
    _fork_collision_timeout_blocks (pl x) ≤ Z.of_nat (length (filter (λ r, r = fork_collision) l2)).
Proof.
  intros Hlag Hos Hd H Ht. destruct (ticks_defers _ _ _ _ _ _ Hlag Hos ltac:(lia) H) as ([H0 Hn] & T).
  destruct (deferrals_streak rs) as (l1 & l2 & E & Hf & Hs). exists l1, l2. split_and!; [done..|].
  unfold timed_out in Ht. apply Z.ltb_lt in Ht. rewrite T in Ht. fold (defers x') in Ht.
  pose proof (u32_le (defers x' + 1) ltac:(lia)). rewrite Hd, Hs in Hn. lia.
Qed.

(** Until then it defers to every block that is not lighter than its own branch. *)
Lemma collision_defers em who id x cmp :
  competing_block em who (db (nd x)) = Some id → timed_out (pl x) = false → hf12 (db (nd x)) = true →
  compare_fork_branches id (head_block_id (dgpo (db (nd x)))) (db (nd x)) = Ok cmp → 0 ≤ cmp →
  ∃ x', collision_guard em who x = (x', inr (Some fork_collision)).
Proof.
  intros Hc Ht Hh Hw Hcmp. unfold collision_guard, pbind, pget, set_plugin, pupd, plift, stop. rewrite Hc.
  cbn. unfold timed_out in Ht. rewrite Ht, Hh, Hw. destruct (Z.ltb_spec cmp 0); [lia|]. by eexists.
Qed.

(** ** The watchdog and the gaps *)

(** The recovery runs only when there is nothing to recover: it asks for what it
    then clears, and the flag of a minority fork keeps it from running at all. *)
Lemma watchdog_restores_nothing o x x' :
  catching_up_again o = catching_up_watched o → syncing_again o = syncing_watched o →
  watchdog o x = (x', inr tt) →
  calls x' = calls x ∧ _minority_fork_recovering (pl x') = _minority_fork_recovering (pl x).
Proof.
  intros Hc Hs. unfold watchdog, force_restore, pwhen, pbind, pget, set_plugin, ask, pupd, pret. rewrite Hc, Hs.
  destruct (_ && should_be_producing (pl x) (db (nd x))) eqn:Ep; [|by intros [= <-]].
  apply andb_true_iff in Ep as [_ Ep]. unfold should_be_producing in Ep.
  destruct (_minority_fork_recovering (pl x)) eqn:Er; [done|]. clear Ep.
  destruct (_ <? _); [|by intros [= <-]].
  assert (∀ p, _minority_fork_recovering p = false → _minority_fork_recovering
    (if _watchdog_debug_enabled p then p else p <| _watchdog_debug_enabled := true |> <| _debug_block_production := true |>)
    = false) as Hf by (intros p ?; by destruct (_watchdog_debug_enabled p)).
  destruct (_ <? _); [|intros [= <-]; split; [done|by apply Hf]].
  match goal with |- (if ?c then _ else _) _ = _ → _ => destruct c eqn:Ec end; [|intros [= <-]; split; [done|by apply Hf]].
  rewrite !andb_true_iff, !negb_true_iff in Ec. destruct Ec as (((([_ _] & Es) & Eu) & _) & _). rewrite Es, Eu.
  by intros [= <-].
Qed.

(** Blocks are numbered without gaps, whatever slots have been missed. *)
Lemma gap_never_seen dlt b s p :
  num_from_id (previous b) = _last_applied_block_num p → 0 ≤ _last_applied_block_num p →
  (on_block_applied dlt b s p).2 = false.
Proof.
  intros Hp H0. unfold on_block_applied, missed_slots. cbn.
  assert (block_num b ≤ _last_applied_block_num p + 1) as Hb.
  { unfold block_num. rewrite Hp. apply u32_le. lia. }
  destruct (Z.leb_spec (block_num b) (_last_applied_block_num p + 1)); [|lia]. by rewrite orb_true_r.
Qed.
End loop.

(** ** Ticks on the small chain *)

#[local] Existing Instance test_env.
#[local] Existing Instance no_interpreters.
#[local] Existing Instance test_tx_env.
#[local] Existing Instance clear_arrays.
#[local] Existing Instance test_block_env.
#[local] Existing Instance reversible_states.
#[local] Existing Instance one_key.

Definition test_confirmations : ConfirmationSigning := {| sign_confirmation key id := key |}.
#[local] Existing Instance test_confirmations.

(** Alice's node, on the chain of two blocks; the next slot is hers. *)
Definition alice_plugin : plugin :=
  mk_plugin ["alice"] {[5 := 7]} 0 0 1 0 0 false 0 0 0 0 0 "" false 0 (-1) 0 false 0 false false 0 0 2.
Definition alice_node : producer := mk_producer alice_plugin (mk_node current_db [] None [] [] []) [] 0.
Definition at_time (t : Z) : outside := mk_outside false false false false t t false false 5 false t t false false 5 false false t.

(** Alice takes her slot as soon as it comes. *)
Definition in_slot : outside := at_time (1000002 * 1000000 - 250000).

Lemma tick_outcome_witness :
  (maybe_validate_block 3 3 in_slot alice_node).2 = inr produced ∧
  ∃ b, sent_blocks (calls (maybe_validate_block 3 3 in_slot alice_node).1) = [b].
Proof.
  assert ((maybe_validate_block 3 3 in_slot alice_node).2 = inr produced) as Hp by (vm_compute; reflexivity).
  split; [exact Hp|].
  destruct (tick_outcome 3 3 in_slot alice_node (maybe_validate_block 3 3 in_slot alice_node).1 produced)
    as (l & -> & ? & ? & ? & ? & ? & b & _ & _ & _ & Hl).
  - vm_compute. split; [discriminate|reflexivity].
  - rewrite <- Hp. apply surjective_pairing.
  - by exists b.
Defined.

(** A second late, she skips the rest of the slot. *)
Definition late : outside := at_time (1000003 * 1000000 - 250000).

Lemma loop_rearms_witness :
  (block_validation_loop 3 3 late alice_node).2 = inr lag ∧
  match block_validation_loop 3 3 late alice_node with
  | (x', inr r) => _last_lag_slot_time (pl x') = 0 ∧
      ∃ d x1, maybe_validate_block 3 3 late alice_node = (x1, inr r) ∧
        last (calls x') = Some (wake_after d) ∧ waits late r (captured_time x1) d
  | (_, inl e) => is_exception e = false
  end.
Proof.
  split; [vm_compute; reflexivity|].
  apply (loop_rearms 3 3 late alice_node); [reflexivity|vm_compute; discriminate].
Defined.

(** A block of Bob's on another second block competes with hers. *)
Definition other_2 : signed_block := plain "bob" (block_id block_1) 1000000 0 21.
Definition bob_3 : signed_block := plain "bob" (block_id other_2) 1000002 0 22.
Definition contested_forks : fork_database :=
  foldl (λ d b, (ForkDb.push_block b d).1) (start_block block_1 empty_fork_database).1 [block_2; other_2; bob_3].
Definition contested_node : producer :=
  alice_node <| nd ::= λ n, n <| db ::= λ s, s <| fork_db := contested_forks |> |> |>.
Definition deferred : option (producer * list block_validation_condition) :=
  ticks 3 3 [in_slot] contested_node.
Definition deferred_node : producer := match deferred with Some (x, _) => x | None => contested_node end.

Lemma collision_timeout_needs_streak_witness :
  ticks 3 3 [in_slot] contested_node = Some (deferred_node, [fork_collision]) ∧ timed_out (pl deferred_node) = true ∧
  ∃ l1 l2, [fork_collision] = l1 ++ l2 ∧ Forall (λ r, ¬ ends_streak r) l2 ∧
    1 ≤ Z.of_nat (length (filter (λ r, r = fork_collision) l2)).
Proof.
  assert (ticks 3 3 [in_slot] contested_node = Some (deferred_node, [fork_collision])) as H by (vm_compute; reflexivity).
  assert (timed_out (pl deferred_node) = true) as Ht by (vm_compute; reflexivity).
  split; [exact H|]. split; [exact Ht|].
  apply (collision_timeout_needs_streak 3 3 [in_slot] contested_node deferred_node [fork_collision]);
    [reflexivity| |reflexivity|exact H|exact Ht].
  repeat constructor. vm_compute. discriminate.
Defined.
