(* ===== verification/DltMempool.v ===== *)
(** * The transactions a node relays (libraries/network/dlt_p2p_node.cpp, lines
      2692-2713, 3003-3180; dlt_p2p_peer_state.hpp)

    The node keeps the transactions it has seen until they expire or are in a
    block: a map by the identifier, an index by the expiration and the sum of
    their sizes.  [enroll] is [add_to_mempool] without what it sends. *)

From stdpp Require Import gmap strings list sorting.
From Stdlib Require Import ZArith Lia.
From S2P Require Import Prelude SignState Operations ChainOperations Block Objects Database EvalAccount Transactions.

Record mempool_entry := mk_entry {
  entry_trx : signed_transaction;
  received_time : Z;
  is_provisional : bool;
  expected_head : Z
}.

(** [_mempool_by_expiry] is in the order of the expirations, equal ones in the
    order of their insertion; the limits are those of the configuration. *)
Record mempool := mk_mempool {
  _mempool_by_id : gmap Z mempool_entry;
  _mempool_by_expiry : list (Z * Z);
  _mempool_total_bytes : Z;
  _mempool_max_tx : Z;
  _mempool_max_bytes : Z;
  _mempool_max_tx_size : Z;
  _mempool_max_expiration_hours : Z
}.
Definition eta_mempool (r : mempool) : mempool :=
  {| _mempool_by_id := _mempool_by_id r; _mempool_by_expiry := _mempool_by_expiry r;
     _mempool_total_bytes := _mempool_total_bytes r; _mempool_max_tx := _mempool_max_tx r;
     _mempool_max_bytes := _mempool_max_bytes r; _mempool_max_tx_size := _mempool_max_tx_size r;
     _mempool_max_expiration_hours := _mempool_max_expiration_hours r |}.
#[export] Instance set__mempool_by_id : Setter _mempool_by_id := ltac:(derive_setter eta_mempool _mempool_by_id).
#[export] Instance set__mempool_by_expiry : Setter _mempool_by_expiry :=
  ltac:(derive_setter eta_mempool _mempool_by_expiry).
#[export] Instance set__mempool_total_bytes : Setter _mempool_total_bytes :=
  ltac:(derive_setter eta_mempool _mempool_total_bytes).

(** [set_mempool_limits] on the empty pool, and the defaults. *)
Definition empty_mempool (max_tx max_bytes max_tx_size max_hours : Z) : mempool :=
  mk_mempool ∅ [] 0 max_tx max_bytes max_tx_size max_hours.
Definition default_mempool : mempool := empty_mempool 10000 (100 * 1024 * 1024) (64 * 1024) 24.

(** [multimap::insert]: after the entries of the same expiration. *)
Fixpoint insert_expiry (p : Z * Z) (l : list (Z * Z)) : list (Z * Z) :=
  match l with
  | [] => [p]
  | q :: l' => if p.1 <? q.1 then p :: l else q :: insert_expiry p l'
  end.

(** The first of the entries with this expiration and identifier is erased. *)
Fixpoint erase_expiry (p : Z * Z) (l : list (Z * Z)) : list (Z * Z) :=
  match l with
  | [] => []
  | q :: l' => if decide (q = p) then l' else q :: erase_expiry p l'
  end.

Section mempool.
Context {TE : TransactionEnv}.

Definition trx_expiration (t : signed_transaction) : Z := expiration (tx t).
Definition trx_id (t : signed_transaction) : Z := tx_id (tx t).
(** [estimated_size]. *)
Definition estimated_size (e : mempool_entry) : Z := u32 (tx_pack_size (entry_trx e)).

Definition is_mempool_full (m : mempool) : bool :=
  (_mempool_max_tx m <=? Z.of_nat (size (_mempool_by_id m))) || (_mempool_max_bytes m <=? _mempool_total_bytes m).

Definition erase_entry (id : Z) (m : mempool) : mempool :=
  match _mempool_by_id m !! id with
  | Some e =>
      m <| _mempool_total_bytes := u32 (_mempool_total_bytes m - estimated_size e) |>
        <| _mempool_by_expiry ::= erase_expiry (trx_expiration (entry_trx e), id) |>
        <| _mempool_by_id ::= delete id |>
  | None => m
  end.

(** The entry that expires first is dropped. *)
Definition pop_expiry (m : mempool) : mempool :=
  match _mempool_by_expiry m with
  | [] => m
  | (_, id) :: rest =>
      match _mempool_by_id m !! id with
      | Some e =>
          m <| _mempool_total_bytes := u32 (_mempool_total_bytes m - estimated_size e) |>
            <| _mempool_by_id ::= delete id |>
      | None => m
      end <| _mempool_by_expiry := rest |>
  end.

Fixpoint evict_oldest_expiry_mempool_entries (count : nat) (m : mempool) : mempool :=
  match count with
  | O => m
  | S count =>
      match _mempool_by_expiry m with
      | [] => m
      | _ => evict_oldest_expiry_mempool_entries count (pop_expiry m)
      end
  end.

(** What becomes of a transaction: known, refused with a strike against its
    sender or without one, or kept. *)
Inductive verdict := Known | Strike | Refused | Added.

Section enroll.
Variable is_tapos_valid : signed_transaction → bool.

(** [add_to_mempool]; [now] is in microseconds, [sync] whether the node is in the
    SYNC mode. *)
Definition enroll (now : Z) (sync : bool) (head : Z) (trx : signed_transaction) (m : mempool) : verdict * mempool :=
  let sec := now / 1000000 in
  if bool_decide (is_Some (_mempool_by_id m !! trx_id trx)) then (Known, m)
  else if trx_expiration trx <? sec then (Strike, m)
  else if sec + _mempool_max_expiration_hours m * 3600 <? trx_expiration trx then (Strike, m)
  else
    let tx_size := u32 (tx_pack_size trx) in
    if _mempool_max_tx_size m <? tx_size then (Strike, m)
    else if negb (is_tapos_valid trx) then (Refused, m)
    else
      let m := if is_mempool_full m then evict_oldest_expiry_mempool_entries 1 m else m in
      if is_mempool_full m then (Refused, m)
      else
        (Added, m <| _mempool_by_id ::= <[trx_id trx := mk_entry trx now sync head]> |>
                  <| _mempool_by_expiry ::= insert_expiry (trx_expiration trx, trx_id trx) |>
                  <| _mempool_total_bytes ::= λ x, u32 (x + tx_size) |>).

Definition remove_transactions_in_block (txs : list signed_transaction) (m : mempool) : mempool :=
  foldl (λ m t, erase_entry (trx_id t) m) m txs.

Definition prune_mempool_on_fork_switch (m : mempool) : mempool :=
  foldl (λ m p, if is_tapos_valid (entry_trx p.2) then m else erase_entry p.1 m) m (map_to_list (_mempool_by_id m)).

(** The end of [transition_to_forward]: what came during the synchronisation is
    checked again. *)
Definition revalidate_provisional (m : mempool) : mempool :=
  foldl (λ m p,
    if is_provisional p.2
    then if negb (is_tapos_valid (entry_trx p.2)) then erase_entry p.1 m
         else m <| _mempool_by_id ::= alter (λ e, mk_entry (entry_trx e) (received_time e) false (expected_head e)) p.1 |>
    else m) m (map_to_list (_mempool_by_id m)).

(** The [while] loop of the cleanup, with at most [n] rounds. *)
Fixpoint prune_expired (n : nat) (sec : Z) (m : mempool) : mempool :=
  match n with
  | O => m
  | S n =>
      match _mempool_by_expiry m with
      | [] => m
      | (t, _) :: _ => if sec <=? t then m else prune_expired n sec (pop_expiry m)
      end
  end.

Definition periodic_mempool_cleanup (now : Z) (forward : bool) (m : mempool) : mempool :=
  let m := prune_expired (length (_mempool_by_expiry m)) (now / 1000000) m in
  if forward then prune_mempool_on_fork_switch m else m.
End enroll.
End mempool.
