(* ===== verification/DltMempoolProofs.v ===== *)
(** * What keeps the pool of transactions in order

    The map, the index and the sum of the sizes describe the same set of
    transactions, within the limits ([mempool_invariant]); the cleanup leaves
    exactly what has not expired ([cleanup_keeps]); a transaction that is kept
    was admissible, and costs at most one other ([admit_added]). *)

From stdpp Require Import gmap strings list sorting.
From Stdlib Require Import ZArith Lia.
From S2P Require Import Prelude SignState Operations ChainOperations Block Objects Database EvalAccount Transactions.
From S2P Require Import DltMempool.

(** ** The index *)

Definition by_time (p q : Z * Z) : Prop := p.1 ≤ q.1.

Lemma elem_of_insert_expiry p q l : q ∈ insert_expiry p l ↔ q = p ∨ q ∈ l.
Proof.
  induction l as [|x l IH]; simpl; [set_solver|].
  destruct (p.1 <? x.1); set_solver.
Qed.

Lemma elem_of_erase_expiry p q l : NoDup l → q ∈ erase_expiry p l ↔ q ∈ l ∧ q ≠ p.
Proof.
  induction 1 as [|x l Hx Hl IH]; simpl; [set_solver|].
  destruct (decide (x = p)) as [->|]; set_solver.
Qed.

Lemma NoDup_insert_expiry p l : p ∉ l → NoDup l → NoDup (insert_expiry p l).
Proof.
  intros Hp. induction 1 as [|x l Hx Hl IH]; simpl; [apply NoDup_singleton|].
  destruct (p.1 <? x.1); [by do 2 (constructor; [done|])|].
  constructor; [|apply IH; set_solver]. rewrite elem_of_insert_expiry. set_solver.
Qed.

Lemma erase_expiry_sub p q l : q ∈ erase_expiry p l → q ∈ l.
Proof. induction l as [|x l IH]; simpl; [done|]. destruct (decide (x = p)); set_solver. Qed.

Lemma NoDup_erase_expiry p l : NoDup l → NoDup (erase_expiry p l).
Proof.
  induction 1 as [|x l Hx Hl IH]; simpl; [constructor|].
  destruct (decide (x = p)); [done|]. constructor; [|done]. by intros ?%erase_expiry_sub.
Qed.

Lemma sorted_insert_expiry p l : StronglySorted by_time l → StronglySorted by_time (insert_expiry p l).
Proof.
  induction 1 as [|x l Hl IH Hx]; simpl; [by repeat constructor|].
  destruct (Z.ltb_spec p.1 x.1) as [Hlt|Hle]; constructor; [by constructor| |done|].
  - rewrite Forall_forall in *. intros q [->|Hq]%elem_of_cons; unfold by_time in *; [lia|].
    specialize (Hx q Hq). lia.
  - rewrite Forall_forall in *. intros q [->|Hq]%elem_of_insert_expiry; unfold by_time in *; [lia|auto].
Qed.

Lemma sorted_erase_expiry p l : StronglySorted by_time l → StronglySorted by_time (erase_expiry p l).
Proof.
  induction 1 as [|x l Hl IH Hx]; simpl; [constructor|].
  destruct (decide (x = p)); [done|]. constructor; [done|].
  rewrite Forall_forall in *. intros q Hq%erase_expiry_sub. auto.
Qed.

Section proofs.
Context {TE : TransactionEnv}.

(** ** The invariant *)

Record mempool_ok (m : mempool) : Prop := {
  keys_are_ids id e : _mempool_by_id m !! id = Some e → trx_id (entry_trx e) = id;
  index_is_map t id :
    (t, id) ∈ _mempool_by_expiry m ↔ ∃ e, _mempool_by_id m !! id = Some e ∧ trx_expiration (entry_trx e) = t;
  index_nodup : NoDup (_mempool_by_expiry m);
  index_sorted : StronglySorted by_time (_mempool_by_expiry m);
  total_is_sum : _mempool_total_bytes m = msum estimated_size (_mempool_by_id m);
  sizes_fit id e : _mempool_by_id m !! id = Some e → estimated_size e ≤ _mempool_max_tx_size m;
  count_fits : Z.of_nat (size (_mempool_by_id m)) ≤ _mempool_max_tx m;
  bytes_fit : _mempool_total_bytes m ≤ _mempool_max_bytes m + _mempool_max_tx_size m
}.

Definition limits (m : mempool) : Z * Z * Z * Z :=
  (_mempool_max_tx m, _mempool_max_bytes m, _mempool_max_tx_size m, _mempool_max_expiration_hours m).

(** The sum of the sizes does not wrap. *)
Definition limits_ok (m : mempool) : Prop :=
  0 ≤ _mempool_max_tx m ∧ 0 ≤ _mempool_max_bytes m ∧ 0 ≤ _mempool_max_tx_size m ∧
  _mempool_max_bytes m + _mempool_max_tx_size m < 2 ^ 32.

Lemma estimated_size_nonneg e : 0 ≤ estimated_size e.
Proof. apply Z.mod_pos_bound. lia. Qed.

Lemma sizes_nonneg (l : gmap Z mempool_entry) : 0 ≤ msum estimated_size l.
Proof. apply msum_nonneg. intros. apply estimated_size_nonneg. Qed.
#[local] Hint Resolve estimated_size_nonneg sizes_nonneg : core.

Lemma empty_mempool_ok a b c d : 0 ≤ a → 0 ≤ b → 0 ≤ c → mempool_ok (empty_mempool a b c d).
Proof.
  intros. split; simpl; try done; try constructor.
  - by rewrite elem_of_nil.
  - by intros (e & He & _).
  - lia.
Qed.

(** Both ways of removing an entry give [without id m]. *)
Definition without (id : Z) (m m' : mempool) : Prop :=
  _mempool_by_id m' = delete id (_mempool_by_id m) ∧ limits m' = limits m ∧ mempool_ok m'.

Lemma total_after_delete m id e :
  mempool_ok m → limits_ok m → _mempool_by_id m !! id = Some e →
  u32 (_mempool_total_bytes m - estimated_size e) = msum estimated_size (delete id (_mempool_by_id m)).
Proof.
  intros Hm (_ & _ & _ & Hfit) He.
  pose proof (sizes_nonneg (delete id (_mempool_by_id m))) as Hn.
  rewrite (msum_delete _ _ _ _ He) in *. rewrite <- (total_is_sum m Hm) in *.
  apply Z.mod_small. pose proof (bytes_fit m Hm). pose proof (estimated_size_nonneg e). lia.
Qed.

Lemma delete_ok m m' id :
  mempool_ok m → _mempool_by_id m' = delete id (_mempool_by_id m) → limits m' = limits m →
  _mempool_total_bytes m' = msum estimated_size (_mempool_by_id m') →
  (∀ q, q ∈ _mempool_by_expiry m' ↔ q ∈ _mempool_by_expiry m ∧ q.2 ≠ id) →
  NoDup (_mempool_by_expiry m') → StronglySorted by_time (_mempool_by_expiry m') → mempool_ok m'.
Proof.
  intros Hm Hmap Hlim Hsum Hidx Hnd Hs. injection Hlim as Hl1 Hl2 Hl3 _.
  assert (∀ i e, _mempool_by_id m' !! i = Some e → i ≠ id ∧ _mempool_by_id m !! i = Some e) as Hl.
  { intros i e. rewrite Hmap. by intros [??]%lookup_delete_Some. }
  split; try done.
  - intros i e [_ He]%Hl. by apply (keys_are_ids m Hm).
  - intros t i. rewrite Hidx, (index_is_map m Hm t i). simpl. split.
    + intros [(e & He & Ht) Hi]. exists e. by rewrite Hmap, lookup_delete_ne.
    + intros (e & [Hi He]%Hl & Ht). split; [by exists e|done].
  - intros i e [_ He]%Hl. rewrite Hl3. by apply (sizes_fit m Hm i).
  - rewrite Hmap, Hl1. pose proof (count_fits m Hm).
    destruct (_mempool_by_id m !! id) eqn:E; [|by rewrite delete_id].
    rewrite map_size_delete_Some by done. lia.
  - rewrite Hsum, Hmap, Hl2, Hl3. pose proof (bytes_fit m Hm). rewrite (total_is_sum m Hm) in *.
    destruct (_mempool_by_id m !! id) as [e|] eqn:E; [|by rewrite delete_id].
    rewrite (msum_delete _ _ _ _ E). pose proof (estimated_size_nonneg e). lia.
Qed.

Lemma index_other m t t' id e :
  mempool_ok m → _mempool_by_id m !! id = Some e → trx_expiration (entry_trx e) = t →
  (t', id) ∈ _mempool_by_expiry m → t' = t.
Proof. intros Hm He Ht. rewrite (index_is_map m Hm). naive_solver. Qed.

Lemma indexed m i e :
  mempool_ok m → _mempool_by_id m !! i = Some e → (trx_expiration (entry_trx e), i) ∈ _mempool_by_expiry m.
Proof. intros Hm He. apply (index_is_map m Hm). eauto. Qed.

Lemma erase_entry_spec id m : mempool_ok m → limits_ok m → without id m (erase_entry id m).
Proof.
  intros Hm Hl. unfold erase_entry, without.
  destruct (_mempool_by_id m !! id) as [e|] eqn:He; [|by rewrite delete_id].
  split_and!; [done..|].
  apply (delete_ok m _ id); [done..| | |apply NoDup_erase_expiry, (index_nodup m Hm)|
    apply sorted_erase_expiry, (index_sorted m Hm)].
  - by apply (total_after_delete m id e).
  - intros [t' i]. simpl. rewrite elem_of_erase_expiry by apply (index_nodup m Hm). split; [|naive_solver].
    intros [Hq Hne]. split; [done|]. intros ->. apply Hne. f_equal. by apply (index_other m _ _ id e).
Qed.

Lemma pop_expiry_spec t id rest m :
  mempool_ok m → limits_ok m → _mempool_by_expiry m = (t, id) :: rest →
  without id m (pop_expiry m) ∧ _mempool_by_expiry (pop_expiry m) = rest ∧
  ∃ e, _mempool_by_id m !! id = Some e ∧ trx_expiration (entry_trx e) = t.
Proof.
  intros Hm Hl Hx. destruct (proj1 (index_is_map m Hm t id)) as (e & He & Ht); [rewrite Hx; by left|].
  unfold pop_expiry, without. rewrite Hx, He. split; [split; [done|split; [done|]]|split; [done|by exists e]].
  pose proof (index_nodup m Hm) as Hnd. pose proof (index_sorted m Hm) as Hs. rewrite Hx in Hnd, Hs.
  apply NoDup_cons in Hnd as [Hn Hnd]. apply StronglySorted_inv in Hs as [Hs _].
  apply (delete_ok m _ id); [done..| | |done|done].
  - by apply (total_after_delete m id e).
  - intros [t' i]. simpl. rewrite Hx, elem_of_cons. split; [|naive_solver].
    intros Hq. split; [by right|]. intros ->. apply Hn.
    by rewrite <- (index_other m t t' id e); [|..|rewrite Hx; right].
Qed.

Lemma limits_ok_same m m' : limits m' = limits m → limits_ok m → limits_ok m'.
Proof. unfold limits, limits_ok. intros [= -> -> -> _]. done. Qed.

(** What an operation that only removes does. *)
Definition shrinks (m m' : mempool) : Prop :=
  _mempool_by_id m' ⊆ _mempool_by_id m ∧ limits m' = limits m ∧ mempool_ok m'.

Lemma shrinks_refl m : mempool_ok m → shrinks m m.
Proof. intros. by unfold shrinks; split_and!. Qed.

Lemma shrinks_trans m1 m2 m3 : shrinks m1 m2 → shrinks m2 m3 → shrinks m1 m3.
Proof. unfold shrinks. intros (? & ? & ?) (? & ? & ?). split_and!; [by etrans|congruence|done]. Qed.

Lemma without_shrinks id m m' : without id m m' → shrinks m m'.
Proof. unfold shrinks. intros (-> & ? & ?). split_and!; [apply delete_subseteq|done..]. Qed.

Lemma evict_one_spec m :
  mempool_ok m → limits_ok m →
  let m' := evict_oldest_expiry_mempool_entries 1 m in
  shrinks m m' ∧ (size (_mempool_by_id m) ≤ S (size (_mempool_by_id m')))%nat ∧
  (∀ id e, _mempool_by_id m !! id = Some e → _mempool_by_id m' !! id = None →
    ∀ id' e', _mempool_by_id m !! id' = Some e' → trx_expiration (entry_trx e) ≤ trx_expiration (entry_trx e')).
Proof.
  intros Hm Hl. simpl. destruct (_mempool_by_expiry m) as [|[t id] rest] eqn:Hx.
  { split_and!; [by apply shrinks_refl|lia|naive_solver]. }
  destruct (pop_expiry_spec t id rest m Hm Hl Hx) as (Hw & _ & e & He & Ht).
  split; [by eapply without_shrinks|]. destruct Hw as (-> & _). split.
  { rewrite map_size_delete_Some by done. lia. }
  intros i e0 He0 [->|Hn]%lookup_delete_None; [|congruence]. simplify_eq.
  intros i' e' He'. pose proof (index_sorted m Hm) as Hs. rewrite Hx in Hs.
  apply StronglySorted_inv in Hs as [_ Hs]. rewrite Forall_forall in Hs.
  pose proof (indexed m i' e' Hm He') as Hin. rewrite Hx in Hin. apply elem_of_cons in Hin as [[= -> _]|Hin]; [done|]. by apply (Hs _ Hin).
Qed.

(** ** What every operation does *)

Lemma erase_shrinks id m : mempool_ok m → limits_ok m → shrinks m (erase_entry id m).
Proof. intros. by eapply without_shrinks, erase_entry_spec. Qed.

(** A loop of removals. *)
Lemma fold_shrinks {A} (f : mempool → A → mempool) (l : list A) m :
  (∀ m a, mempool_ok m → limits_ok m → shrinks m (f m a)) →
  mempool_ok m → limits_ok m → shrinks m (foldl f m l).
Proof.
  intros Hf. revert m. induction l as [|a l IH]; intros m Hm Hl; [by apply shrinks_refl|].
  simpl. pose proof (Hf m a Hm Hl) as Hs. eapply shrinks_trans; [exact Hs|].
  destruct Hs as (_ & Hs & Hm'). apply IH; [done|by apply (limits_ok_same m)].
Qed.

Lemma remove_shrinks txs m :
  mempool_ok m → limits_ok m → shrinks m (remove_transactions_in_block txs m).
Proof. apply fold_shrinks. intros. by apply erase_shrinks. Qed.

Lemma prune_shrinks tapos m :
  mempool_ok m → limits_ok m → shrinks m (prune_mempool_on_fork_switch tapos m).
Proof.
  apply fold_shrinks. intros m' p ??. destruct (tapos _); [by apply shrinks_refl|by apply erase_shrinks].
Qed.

(** Exactly the entries of [l] that do not satisfy [P] are removed. *)
Lemma erase_where (P : mempool_entry → bool) l m :
  mempool_ok m → limits_ok m →
  _mempool_by_id (foldl (λ m p, if P p.2 then m else erase_entry p.1 m) m l) =
  filter (λ x, Forall (λ p : Z * mempool_entry, p.1 = x.1 → P p.2 = true) l) (_mempool_by_id m).
Proof.
  revert m. induction l as [|[i e] l IH]; intros m Hm Hl.
  { symmetry. apply map_filter_id. intros. constructor. }
  simpl. destruct (P e) eqn:HP.
  - rewrite IH by done. apply map_filter_ext. intros j x _. simpl. rewrite Forall_cons. naive_solver.
  - pose proof (erase_entry_spec i m Hm Hl) as (Hd & Hlim & Hok).
    rewrite IH, Hd by (try done; by apply (limits_ok_same m)).
    apply map_eq. intros j. apply option_eq. intros x.
    rewrite !map_lookup_filter_Some, lookup_delete_Some, Forall_cons. simpl. naive_solver congruence.
Qed.

Lemma prune_where tapos m :
  mempool_ok m → limits_ok m →
  _mempool_by_id (prune_mempool_on_fork_switch tapos m) =
  filter (λ x, tapos (entry_trx x.2) = true) (_mempool_by_id m).
Proof.
  intros Hm Hl. unfold prune_mempool_on_fork_switch.
  rewrite (erase_where (λ e, tapos (entry_trx e))) by done.
  apply map_filter_ext. intros i e Hi. simpl. rewrite Forall_forall. split.
  - intros Hall. apply (Hall (i, e)); [|done]. by apply elem_of_map_to_list.
  - intros He [i' e'] Hin. apply elem_of_map_to_list in Hin. simpl. intros ->. congruence.
Qed.

Lemma prune_expired_shrinks n sec m :
  mempool_ok m → limits_ok m → shrinks m (prune_expired n sec m).
Proof.
  revert m. induction n as [|n IH]; intros m Hm Hl; [by apply shrinks_refl|]. simpl.
  destruct (_mempool_by_expiry m) as [|[t id] rest] eqn:Hx; [by apply shrinks_refl|].
  destruct (sec <=? t); [by apply shrinks_refl|].
  destruct (pop_expiry_spec t id rest m Hm Hl Hx) as (Hw%without_shrinks & _).
  eapply shrinks_trans; [exact Hw|]. destruct Hw as (_ & Hs & Hm'). apply IH; [done|by apply (limits_ok_same m)].
Qed.

(** Before the first entry that has not expired, all have. *)
Lemma all_later t id rest m :
  mempool_ok m → _mempool_by_expiry m = (t, id) :: rest →
  ∀ i e, _mempool_by_id m !! i = Some e → t ≤ trx_expiration (entry_trx e).
Proof.
  intros Hm Hx i e Hi%indexed; [|done]. pose proof (index_sorted m Hm) as Hs. rewrite Hx in Hs, Hi.
  apply StronglySorted_inv in Hs as [_ Hs]. rewrite Forall_forall in Hs.
  apply elem_of_cons in Hi as [[= -> _]|Hi]; [done|]. by apply (Hs _ Hi).
Qed.

Lemma none_left m P `{∀ x, Decision (P x)} :
  mempool_ok m → _mempool_by_expiry m = [] → _mempool_by_id m = filter P (_mempool_by_id m).
Proof.
  intros Hm Hx. symmetry. apply map_filter_id. intros i e Hi%indexed; [|done].
  rewrite Hx in Hi. by apply elem_of_nil in Hi.
Qed.

Lemma prune_expired_where n sec m :
  mempool_ok m → limits_ok m → (length (_mempool_by_expiry m) ≤ n)%nat →
  _mempool_by_id (prune_expired n sec m) = filter (λ x, sec ≤ trx_expiration (entry_trx x.2)) (_mempool_by_id m).
Proof.
  revert m. induction n as [|n IH]; intros m Hm Hl Hn; simpl.
  { apply none_left; [done|]. destruct (_mempool_by_expiry m); [done|simpl in Hn; lia]. }
  destruct (_mempool_by_expiry m) as [|[t id] rest] eqn:Hx; [by apply none_left|].
  destruct (Z.leb_spec sec t) as [Hle|Hlt].
  - symmetry. apply map_filter_id. intros i e Hi. simpl.
    pose proof (all_later t id rest m Hm Hx i e Hi). lia.
  - destruct (pop_expiry_spec t id rest m Hm Hl Hx) as ((Hd & Hlim & Hok) & Hr & e & He & Ht).
    rewrite IH, Hd; [|done|by apply (limits_ok_same m)|rewrite Hr; simpl in Hn; lia].
    apply map_eq. intros j. apply option_eq. intros x.
    rewrite !map_lookup_filter_Some, lookup_delete_Some. simpl. split; [naive_solver|].
    intros [Hj Hx']. split; [split; [|done]|done]. intros <-. simplify_eq. lia.
Qed.

(** Entries may change, but not their transactions. *)
Lemma relabel_ok (g : mempool_entry → mempool_entry) i m :
  (∀ e, entry_trx (g e) = entry_trx e) → mempool_ok m → mempool_ok (m <| _mempool_by_id ::= alter g i |>).
Proof.
  intros Hg Hm. set (m1 := set_field _ m).
  assert (∀ j x, _mempool_by_id m1 !! j = Some x →
    ∃ y, _mempool_by_id m !! j = Some y ∧ entry_trx x = entry_trx y) as Hback.
  { intros j x Hx. change (alter g i (_mempool_by_id m) !! j = Some x) in Hx.
    apply lookup_alter_Some in Hx as [(_ & y & Hy & ->)|(_ & Hx)]; [|eauto]. exists y. by rewrite Hg. }
  assert (∀ j y, _mempool_by_id m !! j = Some y →
    ∃ x, _mempool_by_id m1 !! j = Some x ∧ entry_trx x = entry_trx y) as Hforth.
  { intros j y Hy. change (_mempool_by_id m1) with (alter g i (_mempool_by_id m)).
    destruct (decide (i = j)) as [->|]; [|rewrite lookup_alter_ne by done; eauto].
    rewrite lookup_alter_eq, Hy. exists (g y). by rewrite Hg. }
  split; try apply Hm.
  - intros j x (y & Hy & ->)%Hback. by apply (keys_are_ids m Hm).
  - intros t j. change (_mempool_by_expiry m1) with (_mempool_by_expiry m).
    rewrite (index_is_map m Hm). split.
    + intros (y & (x & Hx & Hxy)%Hforth & Ht). exists x. split; [done|]. by rewrite Hxy.
    + intros (x & (y & Hy & Hxy)%Hback & Ht). exists y. split; [done|]. by rewrite <- Hxy.
  - change (_mempool_total_bytes m = msum estimated_size (alter g i (_mempool_by_id m))).
    rewrite (total_is_sum m Hm). destruct (_mempool_by_id m !! i) as [y|] eqn:Hy.
    + rewrite <- (insert_id _ _ _ Hy) at 2. rewrite alter_insert_eq.
      rewrite (msum_insert _ _ _ _ _ Hy). unfold estimated_size. rewrite Hg. lia.
    + by rewrite alter_id by (intros; congruence).
  - intros j x (y & Hy & Hxy)%Hback. unfold estimated_size. rewrite Hxy. by apply (sizes_fit m Hm j).
  - change (Z.of_nat (size (alter g i (_mempool_by_id m))) ≤ _mempool_max_tx m).
    rewrite <- size_dom, dom_alter_L, size_dom. apply Hm.
Qed.

Lemma revalidate_ok tapos m :
  mempool_ok m → limits_ok m →
  mempool_ok (revalidate_provisional tapos m) ∧ limits (revalidate_provisional tapos m) = limits m.
Proof.
  unfold revalidate_provisional. generalize (map_to_list (_mempool_by_id m)). intros l. revert m.
  induction l as [|[i e] l IH]; intros m Hm Hl; [done|]. simpl.
  destruct (is_provisional e); [|by apply IH]. destruct (negb _).
  - pose proof (erase_entry_spec i m Hm Hl) as (_ & Hlim & Hok).
    destruct (IH _ Hok (limits_ok_same _ _ Hlim Hl)) as [? ->]. done.
  - match goal with |- context [foldl _ ?m1 l] => assert (mempool_ok m1) as Hok by by apply relabel_ok end.
    destruct (IH _ Hok Hl) as [? ->]. done.
Qed.

(** ** Admission *)

Lemma insert_ok now sync head trx m :
  mempool_ok m → limits_ok m → _mempool_by_id m !! trx_id trx = None →
  u32 (tx_pack_size trx) ≤ _mempool_max_tx_size m → is_mempool_full m = false →
  mempool_ok (m <| _mempool_by_id ::= <[trx_id trx := mk_entry trx now sync head]> |>
                <| _mempool_by_expiry ::= insert_expiry (trx_expiration trx, trx_id trx) |>
                <| _mempool_total_bytes ::= λ x, u32 (x + u32 (tx_pack_size trx)) |>).
Proof.
  intros Hm (Ha & Hb & Hc & Hfit) Hnew Hsize [Hcount Hbytes]%orb_false_iff. propify.
  set (e := mk_entry trx now sync head). change (u32 (tx_pack_size trx)) with (estimated_size e) in *.
  pose proof (estimated_size_nonneg e). pose proof (sizes_nonneg (_mempool_by_id m)) as Hn.
  rewrite <- (total_is_sum m Hm) in Hn.
  assert (u32 (_mempool_total_bytes m + estimated_size e) = _mempool_total_bytes m + estimated_size e) as Hsum
    by (apply Z.mod_small; lia).
  split; cbn.
  - intros i x [[<- <-]|[_ Hx]]%lookup_insert_Some; [done|by apply (keys_are_ids m Hm)].
  - intros t i. rewrite elem_of_insert_expiry, (index_is_map m Hm t i). split.
    + intros [[= -> ->]|(x & Hx & Ht)]; [exists e; by rewrite lookup_insert_eq|].
      exists x. by rewrite lookup_insert_ne by congruence.
    + intros (x & [[<- <-]|[_ Hx]]%lookup_insert_Some & Ht); [left; by rewrite <- Ht|right; eauto].
  - apply NoDup_insert_expiry, (index_nodup m Hm). rewrite (index_is_map m Hm). intros (x & Hx & _). congruence.
  - apply sorted_insert_expiry, (index_sorted m Hm).
  - change (u32 (tx_pack_size trx)) with (estimated_size e).
    rewrite Hsum, msum_insert_new, (total_is_sum m Hm) by done. lia.
  - intros i x [[<- <-]|[_ Hx]]%lookup_insert_Some; [done|by apply (sizes_fit m Hm i)].
  - rewrite map_size_insert_None by done. lia.
  - change (u32 (tx_pack_size trx)) with (estimated_size e). rewrite Hsum. lia.
Qed.

(** Every outcome of [enroll]. *)
Lemma enroll_cases tapos now sync head trx m v m' :
  mempool_ok m → limits_ok m → enroll tapos now sync head trx m = (v, m') →
  let sec := now / 1000000 in
  mempool_ok m' ∧ limits m' = limits m ∧
  match v with
  | Known => m' = m ∧ is_Some (_mempool_by_id m !! trx_id trx)
  | Strike => m' = m ∧ (trx_expiration trx < sec ∨ sec + _mempool_max_expiration_hours m * 3600 < trx_expiration trx ∨
                        _mempool_max_tx_size m < u32 (tx_pack_size trx))
  | Refused => shrinks m m' ∧ (tapos trx = false ∧ m' = m ∨ is_mempool_full m' = true)
  | Added =>
      _mempool_by_id m !! trx_id trx = None ∧ tapos trx = true ∧
      sec ≤ trx_expiration trx ≤ sec + _mempool_max_expiration_hours m * 3600 ∧
      u32 (tx_pack_size trx) ≤ _mempool_max_tx_size m ∧
      ∃ kept, _mempool_by_id m' = <[trx_id trx := mk_entry trx now sync head]> kept ∧ kept ⊆ _mempool_by_id m ∧
        (size (_mempool_by_id m) ≤ S (size kept))%nat ∧
        (is_mempool_full m = false → kept = _mempool_by_id m) ∧
        ∀ id e, _mempool_by_id m !! id = Some e → kept !! id = None →
          ∀ id' e', _mempool_by_id m !! id' = Some e' →
            trx_expiration (entry_trx e) ≤ trx_expiration (entry_trx e')
  end.
Proof.
  intros Hm Hl H. unfold enroll in H. cbv zeta in *.
  case_bool_decide as Hk; [by simplify_eq|]. apply eq_None_not_Some in Hk.
  destruct (trx_expiration trx <? _) eqn:E1; [simplify_eq; propify; by split_and!; [..|left]|].
  destruct (_ <? trx_expiration trx) eqn:E2; [simplify_eq; propify; by split_and!; [..|right; left]|].
  destruct (_ <? u32 _) eqn:E3; [simplify_eq; propify; by split_and!; [..|right; right]|].
  destruct (tapos trx) eqn:E4; simpl in H; [|simplify_eq; split_and!; [done..|by apply shrinks_refl|by left]].
  set (m1 := if is_mempool_full m then _ else m) in H.
  assert (shrinks m m1 ∧ (size (_mempool_by_id m) ≤ S (size (_mempool_by_id m1)))%nat ∧
    (is_mempool_full m = false → _mempool_by_id m1 = _mempool_by_id m) ∧
    ∀ id e, _mempool_by_id m !! id = Some e → _mempool_by_id m1 !! id = None →
      ∀ id' e', _mempool_by_id m !! id' = Some e' → trx_expiration (entry_trx e) ≤ trx_expiration (entry_trx e'))
    as (Hs & Hsz & Hsame & Hev).
  { unfold m1. destruct (is_mempool_full m).
    - destruct (evict_one_spec m Hm Hl) as (? & ? & ?). split_and!; [done..|done|done].
    - split_and!; [by apply shrinks_refl|lia|done|congruence]. }
  pose proof Hs as (Hsub & Hlim & Hok). propify.
  destruct (is_mempool_full m1) eqn:E5; injection H as <- <-; [split; [done|split; [done|split; [done|by right]]]|].
  assert (_mempool_by_id m1 !! trx_id trx = None) as Hnew by (by eapply lookup_weaken_None).
  pose proof Hlim as Hlim'. unfold limits in Hlim'. injection Hlim' as L1 L2 L3 L4.
  split; [apply insert_ok; [done|by apply (limits_ok_same m)|done|lia|done]|].
  split; [done|]. split_and!; [done|done|lia|lia|lia|].
  exists (_mempool_by_id m1). by split_and!.
Qed.

(** ** The pool as a whole *)

(** What happens to the pool: a transaction of a peer or of this node, a block, a
    switch of forks, the periodic cleanup, the end of the synchronisation.  The
    check of the block that transactions refer to depends on the chain at the
    time. *)
Inductive mempool_op :=
| op_add (tapos : signed_transaction → bool) (now : Z) (sync : bool) (head : Z) (trx : signed_transaction)
| op_block (txs : list signed_transaction)
| op_fork (tapos : signed_transaction → bool)
| op_cleanup (tapos : signed_transaction → bool) (now : Z) (forward : bool)
| op_forward (tapos : signed_transaction → bool).

Definition run_op (m : mempool) (o : mempool_op) : mempool :=
  match o with
  | op_add tapos now sync head trx => (enroll tapos now sync head trx m).2
  | op_block txs => remove_transactions_in_block txs m
  | op_fork tapos => prune_mempool_on_fork_switch tapos m
  | op_cleanup tapos now forward => periodic_mempool_cleanup tapos now forward m
  | op_forward tapos => revalidate_provisional tapos m
  end.

Lemma cleanup_shrinks tapos now forward m :
  mempool_ok m → limits_ok m → shrinks m (periodic_mempool_cleanup tapos now forward m).
Proof.
  intros Hm Hl. unfold periodic_mempool_cleanup.
  pose proof (prune_expired_shrinks (length (_mempool_by_expiry m)) (now / 1000000) m Hm Hl) as Hs.
  destruct forward; [|done]. eapply shrinks_trans; [exact Hs|]. destruct Hs as (_ & Hlim & Hok).
  apply prune_shrinks; [done|by apply (limits_ok_same m)].
Qed.

Lemma run_op_ok m o : mempool_ok m → limits_ok m → mempool_ok (run_op m o) ∧ limits (run_op m o) = limits m.
Proof.
  intros Hm Hl. destruct o as [tapos now sync head trx|txs|tapos|tapos now forward|tapos]; simpl.
  - destruct (enroll _ _ _ _ _ _) as [v m'] eqn:H. by apply enroll_cases in H as (? & ? & _).
  - by destruct (remove_shrinks txs m Hm Hl) as (_ & ? & ?).
  - by destruct (prune_shrinks tapos m Hm Hl) as (_ & ? & ?).
  - by destruct (cleanup_shrinks tapos now forward m Hm Hl) as (_ & ? & ?).
  - by apply revalidate_ok.
Qed.

Theorem mempool_invariant (max_tx max_bytes max_tx_size max_hours : Z) (ops : list mempool_op) :
  0 ≤ max_tx → 0 ≤ max_bytes → 0 ≤ max_tx_size → max_bytes + max_tx_size < 2 ^ 32 →
  mempool_ok (foldl run_op (empty_mempool max_tx max_bytes max_tx_size max_hours) ops).
Proof.
  intros Ha Hb Hc Hd. set (m := empty_mempool _ _ _ _).
  assert (mempool_ok m) as Hm by by apply empty_mempool_ok.
  assert (limits_ok m) as Hl by done. clearbody m. clear Ha Hb Hc Hd. revert m Hm Hl.
  induction ops as [|o ops IH]; intros m Hm Hl; [done|]. simpl.
  destruct (run_op_ok m o Hm Hl) as [Hok Hlim]. apply IH; [done|by apply (limits_ok_same m)].
Qed.

Theorem cleanup_keeps tapos now forward m :
  mempool_ok m → limits_ok m →
  _mempool_by_id (periodic_mempool_cleanup tapos now forward m) =
  filter (λ x, now / 1000000 ≤ trx_expiration (entry_trx x.2) ∧ (forward = true → tapos (entry_trx x.2) = true))
    (_mempool_by_id m).
Proof.
  intros Hm Hl. unfold periodic_mempool_cleanup.
  destruct (prune_expired_shrinks (length (_mempool_by_expiry m)) (now / 1000000) m Hm Hl) as (_ & Hlim & Hok).
  destruct forward; [rewrite prune_where by (done || by apply (limits_ok_same m))|];
    rewrite prune_expired_where by done; [rewrite map_filter_filter|]; apply map_filter_ext; naive_solver.
Qed.
End proofs.
