(* ===== verification/Dlt.v ===== *)
(** * The nodes of the network (libraries/network)

    What a node knows of its peers ([peer_state], dlt_p2p_peer_state.hpp), what it
    keeps itself ([p2p], the fields of [dlt_p2p_node]), the messages
    (dlt_p2p_messages.hpp) and what it asks of the chain ([Delegate],
    [dlt_p2p_delegate]).  Points in time are microseconds, 0 is the default one.
    Writing to and reading from sockets, fibers and logs are left out: a message
    to a connected peer is recorded in [_sent]. *)

From stdpp Require Import gmap strings list sorting.
From Stdlib Require Import ZArith Lia.
From S2P Require Import Prelude Authority SignState Operations ChainOperations Block DltMempool.

(** An address and a port. *)
Definition endpoint_t : Type := Z * Z.

(** Enumerations that go over the wire as bytes. *)
Definition DLT_NODE_STATUS_SYNC : Z := 0.
Definition DLT_NODE_STATUS_FORWARD : Z := 1.
Definition DLT_FORK_STATUS_NORMAL : Z := 0.
Definition DLT_FORK_STATUS_LOOKING_RESOLUTION : Z := 1.
Definition DLT_FORK_STATUS_MINORITY : Z := 2.

Inductive lifecycle := CONNECTING | HANDSHAKING | SYNCING | ACTIVE | DISCONNECTED | BANNED.

#[export] Instance lifecycle_eq_dec : EqDecision lifecycle.
Proof. solve_decision. Defined.

Definition INITIAL_RECONNECT_BACKOFF_SEC : Z := 30.
Definition MAX_RECONNECT_BACKOFF_SEC : Z := 3600.
Definition PEER_EXCHANGE_MAX_REQUESTS : Z := 3.
Definition PEER_EXCHANGE_WINDOW_SEC : Z := 300.
Definition PENDING_BATCH_TIMEOUT_SEC : Z := 30.
Definition FORK_ONLY_BATCH_LIMIT : Z := 5.
Definition KNOWN_BLOCKS_WINDOW : Z := 20.
Definition SPAM_STRIKE_THRESHOLD : Z := 10.
Definition BAN_DURATION_SEC : Z := 3600.
Definition BLOCKED_IP_DURATION_SEC : Z := 3600.
Definition CONFIRMATION_BLOCKS : Z := 6.
Definition FORK_RESOLUTION_BLOCK_THRESHOLD : Z := 42.
Definition GAP_FILL_MAX_BLOCKS : Z := 100.
Definition GAP_FILL_COOLDOWN_SEC : Z := 5.
Definition GAP_FILL_TIMEOUT_SEC : Z := 15.
Definition GAP_REJECT_MAX_RETRIES : Z := 3.
Definition GAP_REJECT_BLACKLIST_SEC : Z := 120.
Definition SYNC_STAGNATION_SEC : Z := 30.
Definition SYNC_STAGNATION_MAX_RETRIES : Z := 3.
Definition FORWARD_FALLBEHIND_THRESHOLD : Z := 2.
Definition FORWARD_BEHIND_GRACE_SEC : Z := 15.
Definition FORWARD_STAGNATION_SEC : Z := 30.
Definition ISOLATION_RESET_SEC : Z := 60.
Definition DLT_PRUNE_BATCH_SIZE : Z := 10000.
Definition PAUSED_QUEUE_MAX : Z := 1000.
Definition MAX_PEER_STATES : Z := 200.
Definition INVALID_PEER_ID : Z := 0.

(** Seconds as microseconds. *)
Definition seconds (n : Z) : Z := n * 1000000.

(** ** Messages *)

(** What a peer says of itself; the version of the protocol is only logged. *)
Record hello_message := mk_hello {
  hello_head_id : Z; hello_head_num : Z; hello_lib_id : Z; hello_lib_num : Z; hello_earliest : Z; hello_latest : Z;
  hello_emergency_active : bool; hello_has_emergency_key : bool; hello_fork_status : Z;
  hello_node_status : Z; hello_node_id : Z
}.
Record hello_reply_message := mk_hello_reply {
  reply_exchange_enabled : bool; reply_fork_alignment : bool; initiator_head_seen : Z; initiator_lib_seen : Z;
  our_dlt_earliest : Z; our_dlt_latest : Z; our_fork_status : Z; our_node_status : Z
}.
Record fork_status_message := mk_fork_status {
  fs_fork_status : Z; fs_head_id : Z; fs_head_num : Z; fs_lib_id : Z; fs_lib_num : Z; fs_earliest : Z;
  fs_latest : Z; fs_node_status : Z
}.

Definition dlt_hello_message_type : Z := 5100.
Definition dlt_hello_reply_message_type : Z := 5101.
Definition dlt_block_range_reply_message_type : Z := 5105.
Definition dlt_block_reply_message_type : Z := 5107.
Definition dlt_fork_status_message_type : Z := 5109.
Definition dlt_gap_fill_reply_type : Z := 5116.

(** [dlt_unknown] has a type that is not one of these, and [dlt_malformed] one of
    these with a content that cannot be read. *)
Inductive message :=
| dlt_hello (h : hello_message)
| dlt_hello_reply (r : hello_reply_message)
| dlt_range_request (block_num block_id : Z)
| dlt_range_reply (range_start range_end : Z) (has_blocks : bool)
| dlt_get_block_range (start_block_num end_block_num prev_block_id : Z)
| dlt_block_range_reply (blocks : list signed_block) (last_block_next_available : Z) (is_last : bool)
| dlt_get_block (block_num prev_block_id : Z)
| dlt_block_reply (block : signed_block) (next_available : Z) (is_last : bool)
| dlt_not_available (block_num : Z)
| dlt_fork_status (m : fork_status_message)
| dlt_peer_exchange_request
| dlt_peer_exchange_reply (peers : list (endpoint_t * Z))
| dlt_peer_exchange_rate_limited (wait_seconds : Z)
| dlt_transaction (trx : signed_transaction)
| dlt_soft_ban (duration_sec : Z) (reason : string)
| dlt_gap_fill_request (block_nums : list Z)
| dlt_gap_fill_reply (blocks : list signed_block)
| dlt_unknown (msg_type : Z)
| dlt_malformed (msg_type : Z).

(** ** The state of a peer *)

(** [dlt_peer_state], without the queue of its socket. *)
Record peer_state := mk_peer {
  endpoint : endpoint_t;
  node_id : Z;
  lifecycle_state : lifecycle;
  state_entered_time : Z;
  connected_since : Z;
  peer_head_id : Z;
  peer_head_num : Z;
  peer_lib_id : Z;
  peer_lib_num : Z;
  peer_dlt_earliest : Z;
  peer_dlt_latest : Z;
  peer_emergency_active : bool;
  peer_has_emergency_key : bool;
  peer_fork_status : Z;
  peer_node_status : Z;
  exchange_enabled : bool;
  fork_alignment : bool;
  recognized_head : Z;
  recognized_lib : Z;
  is_incoming : bool;
  spam_strikes : Z;
  last_good_packet_time : Z;
  ban_reason : string;
  ban_duration_sec : Z;
  peer_exchange_request_count : Z;
  peer_exchange_window_start : Z;
  expected_next_block : Z;
  pending_block_batch_time : Z;
  disconnected_since : Z;
  next_reconnect_attempt : Z;
  reconnect_backoff_sec : Z;
  last_connection_duration : Z;
  pending_sync_start : Z;
  pending_sync_end : Z;
  range_fallback_mode : bool;
  fork_only_batch_count : Z;
  known_blocks : list Z
}.
Definition eta_peer_state (r : peer_state) : peer_state :=
  {| endpoint := endpoint r; node_id := node_id r; lifecycle_state := lifecycle_state r;
     state_entered_time := state_entered_time r; connected_since := connected_since r;
     peer_head_id := peer_head_id r; peer_head_num := peer_head_num r; peer_lib_id := peer_lib_id r;
     peer_lib_num := peer_lib_num r; peer_dlt_earliest := peer_dlt_earliest r;
     peer_dlt_latest := peer_dlt_latest r; peer_emergency_active := peer_emergency_active r;
     peer_has_emergency_key := peer_has_emergency_key r; peer_fork_status := peer_fork_status r;
     peer_node_status := peer_node_status r; exchange_enabled := exchange_enabled r;
     fork_alignment := fork_alignment r; recognized_head := recognized_head r;
     recognized_lib := recognized_lib r; is_incoming := is_incoming r; spam_strikes := spam_strikes r;
     last_good_packet_time := last_good_packet_time r; ban_reason := ban_reason r;
     ban_duration_sec := ban_duration_sec r; peer_exchange_request_count := peer_exchange_request_count r;
     peer_exchange_window_start := peer_exchange_window_start r; expected_next_block := expected_next_block r;
     pending_block_batch_time := pending_block_batch_time r; disconnected_since := disconnected_since r;
     next_reconnect_attempt := next_reconnect_attempt r; reconnect_backoff_sec := reconnect_backoff_sec r;
     last_connection_duration := last_connection_duration r; pending_sync_start := pending_sync_start r;
     pending_sync_end := pending_sync_end r; range_fallback_mode := range_fallback_mode r;
     fork_only_batch_count := fork_only_batch_count r; known_blocks := known_blocks r |}.
#[export] Instance set_endpoint : Setter endpoint := ltac:(derive_setter eta_peer_state endpoint).
#[export] Instance set_node_id : Setter node_id := ltac:(derive_setter eta_peer_state node_id).
#[export] Instance set_lifecycle_state : Setter lifecycle_state :=
  ltac:(derive_setter eta_peer_state lifecycle_state).
#[export] Instance set_state_entered_time : Setter state_entered_time :=
  ltac:(derive_setter eta_peer_state state_entered_time).
#[export] Instance set_connected_since : Setter connected_since :=
  ltac:(derive_setter eta_peer_state connected_since).
#[export] Instance set_peer_head_id : Setter peer_head_id := ltac:(derive_setter eta_peer_state peer_head_id).
#[export] Instance set_peer_head_num : Setter peer_head_num := ltac:(derive_setter eta_peer_state peer_head_num).
#[export] Instance set_peer_lib_id : Setter peer_lib_id := ltac:(derive_setter eta_peer_state peer_lib_id).
#[export] Instance set_peer_lib_num : Setter peer_lib_num := ltac:(derive_setter eta_peer_state peer_lib_num).
#[export] Instance set_peer_dlt_earliest : Setter peer_dlt_earliest :=
  ltac:(derive_setter eta_peer_state peer_dlt_earliest).
#[export] Instance set_peer_dlt_latest : Setter peer_dlt_latest :=
  ltac:(derive_setter eta_peer_state peer_dlt_latest).
#[export] Instance set_peer_emergency_active : Setter peer_emergency_active :=
  ltac:(derive_setter eta_peer_state peer_emergency_active).
#[export] Instance set_peer_has_emergency_key : Setter peer_has_emergency_key :=
  ltac:(derive_setter eta_peer_state peer_has_emergency_key).
#[export] Instance set_peer_fork_status : Setter peer_fork_status :=
  ltac:(derive_setter eta_peer_state peer_fork_status).
#[export] Instance set_peer_node_status : Setter peer_node_status :=
  ltac:(derive_setter eta_peer_state peer_node_status).
#[export] Instance set_exchange_enabled : Setter exchange_enabled :=
  ltac:(derive_setter eta_peer_state exchange_enabled).
#[export] Instance set_fork_alignment : Setter fork_alignment := ltac:(derive_setter eta_peer_state fork_alignment).
#[export] Instance set_recognized_head : Setter recognized_head :=
  ltac:(derive_setter eta_peer_state recognized_head).
#[export] Instance set_recognized_lib : Setter recognized_lib := ltac:(derive_setter eta_peer_state recognized_lib).
#[export] Instance set_is_incoming : Setter is_incoming := ltac:(derive_setter eta_peer_state is_incoming).
#[export] Instance set_spam_strikes : Setter spam_strikes := ltac:(derive_setter eta_peer_state spam_strikes).
#[export] Instance set_last_good_packet_time : Setter last_good_packet_time :=
  ltac:(derive_setter eta_peer_state last_good_packet_time).
#[export] Instance set_ban_reason : Setter ban_reason := ltac:(derive_setter eta_peer_state ban_reason).
#[export] Instance set_ban_duration_sec : Setter ban_duration_sec :=
  ltac:(derive_setter eta_peer_state ban_duration_sec).
#[export] Instance set_peer_exchange_request_count : Setter peer_exchange_request_count :=
  ltac:(derive_setter eta_peer_state peer_exchange_request_count).
#[export] Instance set_peer_exchange_window_start : Setter peer_exchange_window_start :=
  ltac:(derive_setter eta_peer_state peer_exchange_window_start).
#[export] Instance set_expected_next_block : Setter expected_next_block :=
  ltac:(derive_setter eta_peer_state expected_next_block).
#[export] Instance set_pending_block_batch_time : Setter pending_block_batch_time :=
  ltac:(derive_setter eta_peer_state pending_block_batch_time).
#[export] Instance set_disconnected_since : Setter disconnected_since :=
  ltac:(derive_setter eta_peer_state disconnected_since).
#[export] Instance set_next_reconnect_attempt : Setter next_reconnect_attempt :=
  ltac:(derive_setter eta_peer_state next_reconnect_attempt).
#[export] Instance set_reconnect_backoff_sec : Setter reconnect_backoff_sec :=
  ltac:(derive_setter eta_peer_state reconnect_backoff_sec).
#[export] Instance set_last_connection_duration : Setter last_connection_duration :=
  ltac:(derive_setter eta_peer_state last_connection_duration).
#[export] Instance set_pending_sync_start : Setter pending_sync_start :=
  ltac:(derive_setter eta_peer_state pending_sync_start).
#[export] Instance set_pending_sync_end : Setter pending_sync_end :=
  ltac:(derive_setter eta_peer_state pending_sync_end).
#[export] Instance set_range_fallback_mode : Setter range_fallback_mode :=
  ltac:(derive_setter eta_peer_state range_fallback_mode).
#[export] Instance set_fork_only_batch_count : Setter fork_only_batch_count :=
  ltac:(derive_setter eta_peer_state fork_only_batch_count).
#[export] Instance set_known_blocks : Setter known_blocks := ltac:(derive_setter eta_peer_state known_blocks).

(** [dlt_peer_state ()]. *)
Definition new_peer : peer_state :=
  mk_peer (0, 0) 0 DISCONNECTED 0 0 0 0 0 0 0 0 false false DLT_FORK_STATUS_NORMAL DLT_NODE_STATUS_SYNC
    false false 0 0 false 0 0 "" 0 0 0 0 0 0 0 INITIAL_RECONNECT_BACKOFF_SEC 0 0 0 false 0 [].

(** ** The node *)

(** The fields of [dlt_p2p_node]; [_peer_states] is in the order of the ids, which
    grow. *)
Record p2p := mk_p2p {
  _peer_states : list (Z * peer_state);
  _next_peer_id : Z;
  _known_peers : list (endpoint_t * Z);
  _seed_nodes : list endpoint_t;
  _connections : gset Z;
  _max_connections : Z;
  _my_node_id : Z;
  _isolated_peers : bool;
  _blocked_ips : gmap Z Z;
  _sent : list (Z * message);
  _node_status : Z;
  _fork_status : Z;
  _last_network_block_time : Z;
  _last_block_received_time : Z;
  _fork_detected : bool;
  _fork_detection_block_num : Z;
  current_winner_tip : Z;
  consecutive_blocks_as_winner : Z;
  _sync_stagnation_retries : Z;
  _forward_entered_time : Z;
  _last_forward_head_num : Z;
  _last_forward_progress_time : Z;
  _isolation_detected_time : Z;
  _mempool : mempool;
  _peer_max_disconnect_hours : Z;
  _peer_exchange_max_per_reply : Z;
  _peer_exchange_max_per_subnet : Z;
  _peer_exchange_min_uptime_sec : Z;
  _last_peer_exchange_time : Z;
  _gap_fill_in_progress : bool;
  _last_gap_fill_time : Z;
  _gap_fill_start_time : Z;
  _highest_seen_block_num : Z;
  _gap_fill_fork_override_start : Z;
  _gap_rejected_block_num : Z;
  _gap_rejected_count : Z;
  _gap_rejected_blacklist_until : Z;
  _block_processing_paused : bool;
  _paused_block_queue : list signed_block;
  _catchup_after_pause : bool;
  _dlt_block_log_max_blocks : Z;
  _last_prune_block_num : Z
}.
Definition eta_p2p (r : p2p) : p2p :=
  {| _peer_states := _peer_states r; _next_peer_id := _next_peer_id r; _known_peers := _known_peers r;
     _seed_nodes := _seed_nodes r; _connections := _connections r; _max_connections := _max_connections r;
     _my_node_id := _my_node_id r; _isolated_peers := _isolated_peers r; _blocked_ips := _blocked_ips r;
     _sent := _sent r; _node_status := _node_status r; _fork_status := _fork_status r;
     _last_network_block_time := _last_network_block_time r;
     _last_block_received_time := _last_block_received_time r; _fork_detected := _fork_detected r;
     _fork_detection_block_num := _fork_detection_block_num r; current_winner_tip := current_winner_tip r;
     consecutive_blocks_as_winner := consecutive_blocks_as_winner r;
     _sync_stagnation_retries := _sync_stagnation_retries r; _forward_entered_time := _forward_entered_time r;
     _last_forward_head_num := _last_forward_head_num r;
     _last_forward_progress_time := _last_forward_progress_time r;
     _isolation_detected_time := _isolation_detected_time r; _mempool := _mempool r;
     _peer_max_disconnect_hours := _peer_max_disconnect_hours r;
     _peer_exchange_max_per_reply := _peer_exchange_max_per_reply r;
     _peer_exchange_max_per_subnet := _peer_exchange_max_per_subnet r;
     _peer_exchange_min_uptime_sec := _peer_exchange_min_uptime_sec r;
     _last_peer_exchange_time := _last_peer_exchange_time r; _gap_fill_in_progress := _gap_fill_in_progress r;
     _last_gap_fill_time := _last_gap_fill_time r; _gap_fill_start_time := _gap_fill_start_time r;
     _highest_seen_block_num := _highest_seen_block_num r;
     _gap_fill_fork_override_start := _gap_fill_fork_override_start r;
     _gap_rejected_block_num := _gap_rejected_block_num r; _gap_rejected_count := _gap_rejected_count r;
     _gap_rejected_blacklist_until := _gap_rejected_blacklist_until r;
     _block_processing_paused := _block_processing_paused r; _paused_block_queue := _paused_block_queue r;
     _catchup_after_pause := _catchup_after_pause r; _dlt_block_log_max_blocks := _dlt_block_log_max_blocks r;
     _last_prune_block_num := _last_prune_block_num r |}.
#[export] Instance set__peer_states : Setter _peer_states := ltac:(derive_setter eta_p2p _peer_states).
#[export] Instance set__next_peer_id : Setter _next_peer_id := ltac:(derive_setter eta_p2p _next_peer_id).
#[export] Instance set__known_peers : Setter _known_peers := ltac:(derive_setter eta_p2p _known_peers).
#[export] Instance set__seed_nodes : Setter _seed_nodes := ltac:(derive_setter eta_p2p _seed_nodes).
#[export] Instance set__connections : Setter _connections := ltac:(derive_setter eta_p2p _connections).
#[export] Instance set__max_connections : Setter _max_connections := ltac:(derive_setter eta_p2p _max_connections).
#[export] Instance set__my_node_id : Setter _my_node_id := ltac:(derive_setter eta_p2p _my_node_id).
#[export] Instance set__isolated_peers : Setter _isolated_peers := ltac:(derive_setter eta_p2p _isolated_peers).
#[export] Instance set__blocked_ips : Setter _blocked_ips := ltac:(derive_setter eta_p2p _blocked_ips).
#[export] Instance set__sent : Setter _sent := ltac:(derive_setter eta_p2p _sent).
#[export] Instance set__node_status : Setter _node_status := ltac:(derive_setter eta_p2p _node_status).
#[export] Instance set__fork_status : Setter _fork_status := ltac:(derive_setter eta_p2p _fork_status).
#[export] Instance set__last_network_block_time : Setter _last_network_block_time :=
  ltac:(derive_setter eta_p2p _last_network_block_time).
#[export] Instance set__last_block_received_time : Setter _last_block_received_time :=
  ltac:(derive_setter eta_p2p _last_block_received_time).
#[export] Instance set__fork_detected : Setter _fork_detected := ltac:(derive_setter eta_p2p _fork_detected).
#[export] Instance set__fork_detection_block_num : Setter _fork_detection_block_num :=
  ltac:(derive_setter eta_p2p _fork_detection_block_num).
#[export] Instance set_current_winner_tip : Setter current_winner_tip :=
  ltac:(derive_setter eta_p2p current_winner_tip).
#[export] Instance set_consecutive_blocks_as_winner : Setter consecutive_blocks_as_winner :=
  ltac:(derive_setter eta_p2p consecutive_blocks_as_winner).
#[export] Instance set__sync_stagnation_retries : Setter _sync_stagnation_retries :=
  ltac:(derive_setter eta_p2p _sync_stagnation_retries).
#[export] Instance set__forward_entered_time : Setter _forward_entered_time :=
  ltac:(derive_setter eta_p2p _forward_entered_time).
#[export] Instance set__last_forward_head_num : Setter _last_forward_head_num :=
  ltac:(derive_setter eta_p2p _last_forward_head_num).
#[export] Instance set__last_forward_progress_time : Setter _last_forward_progress_time :=
  ltac:(derive_setter eta_p2p _last_forward_progress_time).
#[export] Instance set__isolation_detected_time : Setter _isolation_detected_time :=
  ltac:(derive_setter eta_p2p _isolation_detected_time).
#[export] Instance set__mempool : Setter _mempool := ltac:(derive_setter eta_p2p _mempool).
#[export] Instance set__peer_max_disconnect_hours : Setter _peer_max_disconnect_hours :=
  ltac:(derive_setter eta_p2p _peer_max_disconnect_hours).
#[export] Instance set__peer_exchange_max_per_reply : Setter _peer_exchange_max_per_reply :=
  ltac:(derive_setter eta_p2p _peer_exchange_max_per_reply).
#[export] Instance set__peer_exchange_max_per_subnet : Setter _peer_exchange_max_per_subnet :=
  ltac:(derive_setter eta_p2p _peer_exchange_max_per_subnet).
#[export] Instance set__peer_exchange_min_uptime_sec : Setter _peer_exchange_min_uptime_sec :=
  ltac:(derive_setter eta_p2p _peer_exchange_min_uptime_sec).
#[export] Instance set__last_peer_exchange_time : Setter _last_peer_exchange_time :=
  ltac:(derive_setter eta_p2p _last_peer_exchange_time).
#[export] Instance set__gap_fill_in_progress : Setter _gap_fill_in_progress :=
  ltac:(derive_setter eta_p2p _gap_fill_in_progress).
#[export] Instance set__last_gap_fill_time : Setter _last_gap_fill_time :=
  ltac:(derive_setter eta_p2p _last_gap_fill_time).
#[export] Instance set__gap_fill_start_time : Setter _gap_fill_start_time :=
  ltac:(derive_setter eta_p2p _gap_fill_start_time).
#[export] Instance set__highest_seen_block_num : Setter _highest_seen_block_num :=
  ltac:(derive_setter eta_p2p _highest_seen_block_num).
#[export] Instance set__gap_fill_fork_override_start : Setter _gap_fill_fork_override_start :=
  ltac:(derive_setter eta_p2p _gap_fill_fork_override_start).
#[export] Instance set__gap_rejected_block_num : Setter _gap_rejected_block_num :=
  ltac:(derive_setter eta_p2p _gap_rejected_block_num).
#[export] Instance set__gap_rejected_count : Setter _gap_rejected_count :=
  ltac:(derive_setter eta_p2p _gap_rejected_count).
#[export] Instance set__gap_rejected_blacklist_until : Setter _gap_rejected_blacklist_until :=
  ltac:(derive_setter eta_p2p _gap_rejected_blacklist_until).
#[export] Instance set__block_processing_paused : Setter _block_processing_paused :=
  ltac:(derive_setter eta_p2p _block_processing_paused).
#[export] Instance set__paused_block_queue : Setter _paused_block_queue :=
  ltac:(derive_setter eta_p2p _paused_block_queue).
#[export] Instance set__catchup_after_pause : Setter _catchup_after_pause :=
  ltac:(derive_setter eta_p2p _catchup_after_pause).
#[export] Instance set__dlt_block_log_max_blocks : Setter _dlt_block_log_max_blocks :=
  ltac:(derive_setter eta_p2p _dlt_block_log_max_blocks).
#[export] Instance set__last_prune_block_num : Setter _last_prune_block_num :=
  ltac:(derive_setter eta_p2p _last_prune_block_num).

(** ** The chain, as the node sees it *)

Inductive accept_result := ACCEPTED | FORK_DB_ONLY | ALREADY_KNOWN | DEAD_FORK | REJECTED.

#[export] Instance accept_result_eq_dec : EqDecision accept_result.
Proof. solve_decision. Defined.

(** [accept_block] returns a result, or throws the exception of a deferred resize
    or another one. *)
Inductive accept_outcome := took (r : accept_result) | out_of_memory | threw.

(** [dlt_p2p_delegate]. *)
Class Delegate (C : Type) := {
  get_head_block_id : C → Z;
  get_head_block_num : C → Z;
  get_lib_block_id : C → Z;
  get_lib_block_num : C → Z;
  get_dlt_earliest_block : C → Z;
  get_dlt_latest_block : C → Z;
  is_emergency_consensus_active : C → bool;
  has_emergency_private_key : C → bool;
  delegate_read_block : Z → C → option signed_block;
  block_exists_in_log_or_fork_db : Z → C → bool;
  delegate_block_known : Z → C → bool;
  accept_block : signed_block → bool → C → C * accept_outcome;
  accept_transaction : signed_transaction → C → C;
  compare_branches : Z → Z → C → Z;
  get_fork_branch_tips : C → list Z;
  switch_to_fork : Z → C → C;
  is_head_on_branch : Z → C → bool;
  check_tapos_block_summary : Z → Z → C → bool;
  delegate_clear_syncing : C → C
}.

(** The node and its chain. *)
Record world (C : Type) := mk_world { net : p2p; chain : C }.
Arguments mk_world {C} net chain.
Arguments net {C} w.
Arguments chain {C} w.

Definition on_net {C} (f : p2p → p2p) (w : world C) : world C := mk_world (f (net w)) (chain w).
Definition on_chain {C} (f : C → C) (w : world C) : world C := mk_world (net w) (f (chain w)).
