(* ===== verification/DltPeers.v ===== *)
(** * Peers: connecting, banning, exchanging addresses
      (libraries/network/dlt_p2p_node.cpp, dlt_p2p_peer_state.hpp)

    Every function takes the time [now] of the call, in microseconds, and the
    random numbers it draws.  A connection is opened in a fiber: [connect_to_peer]
    is its start, [connect_done] and [connect_failed] its end. *)

From stdpp Require Import gmap strings list sorting.
From Stdlib Require Import ZArith Lia.
From S2P Require Import Prelude SignState Operations ChainOperations Block DltMempool Dlt.

(** ** The table of peers *)

Definition peer_of (id : Z) (n : p2p) : option peer_state := snd <$> find (λ p, p.1 =? id) (_peer_states n).

Definition upd_peer (id : Z) (f : peer_state → peer_state) (n : p2p) : p2p :=
  n <| _peer_states ::= fmap (λ p, if p.1 =? id then (p.1, f p.2) else p) |>.

Definition upd_peers (f : peer_state → peer_state) (n : p2p) : p2p :=
  n <| _peer_states ::= fmap (λ p, (p.1, f p.2)) |>.

Definition erase_peer (id : Z) (n : p2p) : p2p :=
  n <| _peer_states ::= filter (λ p, p.1 ≠ id) |>.

(** A new identifier, and a state for it. *)
Definition add_peer (s : peer_state) (n : p2p) : p2p :=
  n <| _peer_states ::= λ l, l ++ [(_next_peer_id n, s)] |> <| _next_peer_id ::= λ i, i + 1 |>.

Definition is_one_of (l : list lifecycle) (s : peer_state) : bool := bool_decide (lifecycle_state s ∈ l).
Definition is_active (s : peer_state) : bool := is_one_of [ACTIVE] s.
(** The connection is past the handshake. *)
Definition is_talking (s : peer_state) : bool := is_one_of [ACTIVE; SYNCING] s.
(** [peer_latest]: the highest block the peer is known to have. *)
Definition latest_of (s : peer_state) : Z := Z.max (peer_dlt_latest s) (peer_head_num s).

Definition enter (l : lifecycle) (now : Z) (s : peer_state) : peer_state :=
  s <| lifecycle_state := l |> <| state_entered_time := now |>.

(** ** Helpers of [dlt_peer_state] *)

Definition has_block (id : Z) (s : peer_state) : bool := bool_decide (id ∈ known_blocks s).

Definition record_known_block (id : Z) (s : peer_state) : peer_state :=
  s <| known_blocks ::= λ l, (if KNOWN_BLOCKS_WINDOW <=? Z.of_nat (length l) then drop 1 l else l) ++ [id] |>.

Definition has_lifecycle_timeout (now : Z) (s : peer_state) : bool :=
  match lifecycle_state s with
  | CONNECTING => 5000000 <? now - state_entered_time s
  | HANDSHAKING => 10000000 <? now - state_entered_time s
  | _ => false
  end.

Definition is_peer_exchange_rate_limited (now : Z) (s : peer_state) : bool :=
  if peer_exchange_window_start s =? 0 then false
  else if seconds PEER_EXCHANGE_WINDOW_SEC <=? now - peer_exchange_window_start s then false
  else PEER_EXCHANGE_MAX_REQUESTS <=? peer_exchange_request_count s.

Definition record_peer_exchange_request (now : Z) (s : peer_state) : peer_state :=
  if (peer_exchange_window_start s =? 0) || (seconds PEER_EXCHANGE_WINDOW_SEC <=? now - peer_exchange_window_start s)
  then s <| peer_exchange_request_count := 1 |> <| peer_exchange_window_start := now |>
  else s <| peer_exchange_request_count ::= λ x, u32 (x + 1) |>.

Definition peer_exchange_wait_seconds (now : Z) (s : peer_state) : Z :=
  if peer_exchange_window_start s =? 0 then 0
  else
    let elapsed := u32 (Z.quot (now - peer_exchange_window_start s) 1000000) in
    if elapsed <? PEER_EXCHANGE_WINDOW_SEC then PEER_EXCHANGE_WINDOW_SEC - elapsed else 0.

Definition has_pending_batch_timeout (now : Z) (s : peer_state) : bool :=
  if pending_block_batch_time s =? 0 then false
  else seconds PENDING_BATCH_TIMEOUT_SEC <? now - pending_block_batch_time s.

(** ** Addresses *)

Definition ip_of (s : peer_state) : Z := (endpoint s).1.

Definition block_incoming_ip (now ip : Z) (n : p2p) : p2p :=
  let peers_with_ip := length (filter (λ p,
    ip_of p.2 = ip ∧ is_one_of [CONNECTING; HANDSHAKING; SYNCING; ACTIVE] p.2 = true) (_peer_states n)) in
  if (1 <? peers_with_ip)%nat then n
  else n <| _blocked_ips ::= <[ip := now + seconds BLOCKED_IP_DURATION_SEC]> |>.

Definition is_ip_blocked (now ip : Z) (n : p2p) : bool * p2p :=
  match _blocked_ips n !! ip with
  | None => (false, n)
  | Some until => if until <=? now then (false, n <| _blocked_ips ::= delete ip |>) else (true, n)
  end.

Definition is_same_subnet (a b : Z) : bool := Z.shiftr a 8 =? Z.shiftr b 8.
Definition count_peers_in_subnet (addr : Z) (n : p2p) : Z :=
  Z.of_nat (length (filter (λ p, is_same_subnet (ip_of p.2) addr = true) (_peer_states n))).

Definition find_active_peer_by_node_id (nid : Z) (n : p2p) : Z :=
  if nid =? 0 then INVALID_PEER_ID
  else
    match find (λ p, (node_id p.2 =? nid) && is_one_of [CONNECTING; HANDSHAKING; SYNCING; ACTIVE] p.2)
            (_peer_states n) with
    | Some p => p.1
    | None => INVALID_PEER_ID
    end.

(** ** Sending *)

(** A connection takes what is sent at once, so that no queue builds up. *)
Definition send_message (id : Z) (m : message) (n : p2p) : p2p :=
  if decide (id ∈ _connections n) then n <| _sent ::= λ l, l ++ [(id, m)] |> else n.

Definition is_transaction (m : message) : bool := match m with dlt_transaction _ => true | _ => false end.

(** Those a message goes to: one of the peers of every node, or of every address
    when the node's key is not known. *)
Fixpoint fork_targets (tx : bool) (exclude block_id : Z) (ids : gset Z) (eps : gset endpoint_t)
    (l : list (Z * peer_state)) : list Z :=
  match l with
  | [] => []
  | (id, s) :: l =>
      let rest := fork_targets tx exclude block_id in
      if id =? exclude then rest ids eps l
      else if negb (is_active s) then rest ids eps l
      else if negb (exchange_enabled s) then rest ids eps l
      else if tx && (peer_node_status s =? DLT_NODE_STATUS_SYNC) then rest ids eps l
      else if negb (block_id =? 0) && has_block block_id s then rest ids eps l
      else if negb (node_id s =? 0)
      then if decide (node_id s ∈ ids) then rest ids eps l
           else id :: rest ({[node_id s]} ∪ ids) eps l
      else if decide (endpoint s ∈ eps) then rest ids eps l
           else id :: rest ids ({[endpoint s]} ∪ eps) l
  end.

Definition send_to_all_our_fork_peers (m : message) (exclude block_id : Z) (n : p2p) : p2p :=
  foldl (λ n id,
    let n := send_message id m n in
    if negb (block_id =? 0) then upd_peer id (record_known_block block_id) n else n)
    n (fork_targets (is_transaction m) exclude block_id ∅ ∅ (_peer_states n)).

(** ** Strikes and bans *)

Definition disconnect (id : Z) (n : p2p) : p2p := n <| _connections ::= λ c, c ∖ {[id]} |>.

Definition banned (now duration : Z) (reason : string) (s : peer_state) : peer_state :=
  enter BANNED now s <| ban_reason := reason |> <| ban_duration_sec := duration |>
    <| reconnect_backoff_sec := duration |> <| next_reconnect_attempt := now + seconds duration |>.

Definition soft_ban_peer (now id : Z) (reason : string) (n : p2p) : p2p :=
  match peer_of id n with
  | None => n
  | Some _ =>
      let n := send_message id (dlt_soft_ban BAN_DURATION_SEC reason) n in
      disconnect id (upd_peer id (banned now BAN_DURATION_SEC reason) n)
  end.

Definition record_packet_result (now id : Z) (is_good : bool) (n : p2p) : p2p :=
  match peer_of id n with
  | None => n
  | Some _ =>
      if is_good
      then upd_peer id (λ s, s <| spam_strikes := 0 |> <| last_good_packet_time := now |>) n
      else
        let n := upd_peer id (λ s, s <| spam_strikes ::= λ x, u32 (x + 1) |>) n in
        match peer_of id n with
        | Some s =>
            if SPAM_STRIKE_THRESHOLD <=? spam_strikes s
            then soft_ban_peer now id "spam strike threshold exceeded" n else n
        | None => n
        end
  end.

(** The peer says that it bans us, and for how long. *)
Definition on_dlt_soft_ban (now id duration : Z) (reason : string) (n : p2p) : p2p :=
  match peer_of id n with
  | None => n
  | Some _ => disconnect id (upd_peer id (banned now duration (String.append "remote: " reason)) n)
  end.

(** The end of [periodic_task]: the product is one of 32-bit integers. *)
Definition unban (now : Z) (s : peer_state) : peer_state :=
  if is_one_of [BANNED] s then
    let ban_dur := if 0 <? ban_duration_sec s then ban_duration_sec s else BAN_DURATION_SEC in
    if u32 (ban_dur * 1000000) <? now - state_entered_time s
    then s <| lifecycle_state := DISCONNECTED |> <| disconnected_since := now |>
           <| next_reconnect_attempt := now + seconds 30 |>
    else s
  else s.
Definition unban_check (now : Z) : p2p → p2p := upd_peers (unban now).

Definition reset_peer (now : Z) (s : peer_state) : peer_state :=
  let s :=
    if is_one_of [BANNED] s
    then s <| ban_reason := ""%string |> <| ban_duration_sec := 0 |> <| spam_strikes := 0 |>
           <| lifecycle_state := DISCONNECTED |> <| disconnected_since := now |>
    else s in
  if is_one_of [DISCONNECTED] s
  then s <| reconnect_backoff_sec := INITIAL_RECONNECT_BACKOFF_SEC |> <| next_reconnect_attempt := now |>
         <| spam_strikes := 0 |>
  else s.
Definition emergency_peer_reset (now : Z) (n : p2p) : p2p :=
  upd_peers (reset_peer now) n <| _sync_stagnation_retries := 0 |> <| _isolation_detected_time := 0 |>.

(** A peer that does not finish what it sent is struck. *)
Definition block_validation_timeout (now : Z) (n : p2p) : p2p :=
  foldl (λ n p,
    match peer_of p.1 n with
    | Some s =>
        if has_pending_batch_timeout now s
        then upd_peer p.1 (λ s, s <| pending_block_batch_time := 0 |>) (record_packet_result now p.1 false n)
        else n
    | None => n
    end) n (_peer_states n).

(** ** Connecting *)

(** What is kept of an earlier session: how long to wait, and the node's key. *)
Definition fresh_session (ep : endpoint_t) (now : Z) (s : peer_state) : peer_state :=
  enter CONNECTING now new_peer <| endpoint := ep |> <| reconnect_backoff_sec := reconnect_backoff_sec s |>
    <| last_connection_duration := last_connection_duration s |> <| node_id := node_id s |>.

Definition connect_to_peer (now : Z) (ep : endpoint_t) (n : p2p) : p2p :=
  if _max_connections n <=? Z.of_nat (size (_connections n)) then n
  else
    match find (λ p, bool_decide (endpoint p.2 = ep)) (_peer_states n) with
    | Some (id, s) =>
        if is_one_of [DISCONNECTED; BANNED] s then upd_peer id (fresh_session ep now) n else n
    | None => add_peer (fresh_session ep now new_peer) n
    end.

(** The socket is open: the peer is greeted with [hello]. *)
Definition connect_done (now id : Z) (hello : hello_message) (n : p2p) : p2p :=
  match peer_of id n with
  | None => n
  | Some _ =>
      let n := n <| _connections ::= λ c, {[id]} ∪ c |> in
      send_message id (dlt_hello hello) (upd_peer id (λ s, enter HANDSHAKING now s <| connected_since := now |>) n)
  end.
Definition connect_failed (now id : Z) (n : p2p) : p2p :=
  upd_peer id (λ s, s <| lifecycle_state := DISCONNECTED |> <| disconnected_since := now |>
                      <| next_reconnect_attempt := now + seconds 30 |>) n.

(** A peer connects to us; [seed] says that its address is one of a seed. *)
Definition accept_connection (now : Z) (ep : endpoint_t) (hello : hello_message) (n : p2p) : p2p :=
  if _max_connections n <=? Z.of_nat (size (_connections n)) then n
  else
    let id := _next_peer_id n in
    let n1 := add_peer (new_peer <| endpoint := ep |>) n <| _connections ::= λ c, {[id]} ∪ c |> in
    let '(blocked, n1) := is_ip_blocked now ep.1 n1 in
    let is_seed := bool_decide (ep.1 ∈ (_seed_nodes n1).*1) in
    if blocked || (_isolated_peers n1 && negb is_seed)
    then disconnect id (erase_peer id n1)
    else
      send_message id (dlt_hello hello)
        (upd_peer id (λ s, enter HANDSHAKING now s <| connected_since := now |> <| is_incoming := true |>) n1).

(** [r] is the random number; the sum is one of 32-bit integers. *)
Definition back_off (now : Z) (skip_backoff_increase : bool) (r : Z) (s : peer_state) : peer_state :=
  let s := s <| lifecycle_state := DISCONNECTED |> <| disconnected_since := now |> <| expected_next_block := 0 |> in
  let s :=
    if skip_backoff_increase then s
    else s <| reconnect_backoff_sec ::= λ b, Z.min (u32 (b * 2)) MAX_RECONNECT_BACKOFF_SEC |> in
  let b := reconnect_backoff_sec s in
  let jitter_range := b / 2 in
  let jitter := if 0 <? jitter_range then u32 (r mod jitter_range - jitter_range / 2) else 0 in
  s <| next_reconnect_attempt := now + seconds (u32 (b + jitter)) |>.

(** A stable connection makes the delay short again. *)
Definition session_over (now : Z) (s : peer_state) : peer_state :=
  if connected_since s =? 0 then s
  else
    let s := s <| last_connection_duration := now - connected_since s |> in
    if 300000000 <? last_connection_duration s
    then s <| reconnect_backoff_sec := INITIAL_RECONNECT_BACKOFF_SEC |> else s.

Definition handle_disconnect (now id : Z) (skip_backoff_increase : bool) (r : Z) (n : p2p) : p2p :=
  match peer_of id n with
  | None => n
  | Some s =>
      let n := disconnect id (upd_peer id (session_over now) n) in
      if is_incoming s then erase_peer id n
      else upd_peer id (back_off now skip_backoff_increase r) n
  end.

(** ** Periodic checks *)

(** [_known_peers] is a set ordered by the address, the port and the key. *)
Definition known_before (a b : endpoint_t * Z) : bool :=
  (a.1.1 <? b.1.1) || (a.1.1 =? b.1.1) && ((a.1.2 <? b.1.2) || (a.1.2 =? b.1.2) && (a.2 <? b.2)).
Fixpoint known_insert (k : endpoint_t * Z) (l : list (endpoint_t * Z)) : list (endpoint_t * Z) :=
  match l with
  | [] => [k]
  | x :: l' =>
      if decide (x = k) then l else if known_before k x then k :: l else x :: known_insert k l'
  end.

Definition reconnect_known (now : Z) (k : endpoint_t * Z) (n : p2p) : p2p :=
  match find (λ p, bool_decide (endpoint p.2 = k.1)) (_peer_states n) with
  | Some (id, s) =>
      if is_one_of [DISCONNECTED] s then
        if disconnected_since s <? now - seconds (_peer_max_disconnect_hours n * 3600)
        then erase_peer id n <| _known_peers ::= filter (λ x, x ≠ k) |>
        else if (next_reconnect_attempt s <=? now) && (Z.of_nat (size (_connections n)) <? _max_connections n)
        then connect_to_peer now k.1 n
        else n
      else n
  | None => n
  end.

Definition forget_stale (now : Z) (p : Z * peer_state) (n : p2p) : p2p :=
  if is_one_of [DISCONNECTED] p.2 && (disconnected_since p.2 <? now - seconds (_peer_max_disconnect_hours n * 3600))
  then erase_peer p.1 n <| _known_peers ::= filter (λ x, x ≠ (endpoint p.2, node_id p.2)) |>
  else n.

(** Pairs of the time of the disconnection and the identifier, in order. *)
Definition pair_le (a b : Z * Z) : Prop := a.1 < b.1 ∨ a.1 = b.1 ∧ a.2 ≤ b.2.
#[export] Instance pair_le_dec a b : Decision (pair_le a b).
Proof. unfold pair_le. apply _. Defined.

Definition evict_excess (n : p2p) : p2p :=
  let count := length (_peer_states n) in
  let excess := (count - Z.to_nat MAX_PEER_STATES)%nat in
  let disc_peers := merge_sort pair_le
    (omap (λ p, if is_one_of [DISCONNECTED] p.2 then Some (disconnected_since p.2, p.1) else None) (_peer_states n)) in
  foldl (λ n d, erase_peer d.2 n) n (take excess disc_peers).

Definition periodic_reconnect_check (now : Z) (n : p2p) : p2p :=
  let n := foldl (λ n k, reconnect_known now k n) n (_known_peers n) in
  let n := foldl (λ n p, forget_stale now p n) n (_peer_states n) in
  evict_excess n.

(** [rs] are the random numbers of the disconnections. *)
Definition periodic_lifecycle_timeout_check (now : Z) (rs : nat → Z) (n : p2p) : p2p :=
  let timed_out := filter (λ p, has_lifecycle_timeout now p.2 = true) (_peer_states n) in
  foldl (λ n p, handle_disconnect now p.2.1 false (rs p.1) n) n (imap (λ i p, (i, p)) timed_out).

Definition reconnect_seeds (now : Z) (n : p2p) : p2p :=
  foldl (λ n ep,
    let n :=
      match find (λ p, bool_decide (endpoint p.2 = ep)) (_peer_states n) with
      | Some (id, _) =>
          upd_peer id (λ s, s <| reconnect_backoff_sec := INITIAL_RECONNECT_BACKOFF_SEC |>
                              <| next_reconnect_attempt := 0 |>) n
      | None => n
      end in
    connect_to_peer now ep n) n (_seed_nodes n).

(** [start]: the seeds are known, and to be connected at the first check. *)
Definition start_seeds (now : Z) (n : p2p) : p2p :=
  foldl (λ n ep,
    add_peer (new_peer <| endpoint := ep |> <| disconnected_since := now |> <| next_reconnect_attempt := now |>)
      (n <| _known_peers ::= known_insert (ep, 0) |>)) n (_seed_nodes n).

(** ** The exchange of addresses *)

(** The peers that are told, at most [_peer_exchange_max_per_reply]; the check
    of the number comes after one is added. *)
Fixpoint exchangeable (now peer : Z) (n : p2p) (k : Z) (l : list (Z * peer_state)) : list (endpoint_t * Z) :=
  match l with
  | [] => []
  | (id, s) :: l =>
      if (id =? peer) || negb (exchange_enabled s) || negb (is_active s) || is_incoming s ||
         (connected_since s =? 0) ||
         (Z.quot (now - connected_since s) 1000000 <? _peer_exchange_min_uptime_sec n) ||
         (_peer_exchange_max_per_subnet n <? count_peers_in_subnet (ip_of s) n)
      then exchangeable now peer n k l
      else (endpoint s, node_id s) ::
           (if _peer_exchange_max_per_reply n <=? k + 1 then [] else exchangeable now peer n (k + 1) l)
  end.

Definition on_dlt_peer_exchange_request (now id : Z) (n : p2p) : p2p :=
  match peer_of id n with
  | None => n
  | Some s =>
      if _isolated_peers n then send_message id (dlt_peer_exchange_reply []) n
      else if is_peer_exchange_rate_limited now s
      then send_message id (dlt_peer_exchange_rate_limited (peer_exchange_wait_seconds now s)) n
      else
        let n := upd_peer id (record_peer_exchange_request now) n in
        let n := send_message id (dlt_peer_exchange_reply (exchangeable now id n 0 (_peer_states n))) n in
        record_packet_result now id true n
  end.

Definition learn_peer (now : Z) (info : endpoint_t * Z) (n : p2p) : p2p :=
  if info.2 =? _my_node_id n then n
  else if decide (info ∈ _known_peers n) then n
  else if _peer_exchange_max_per_subnet n <=? count_peers_in_subnet info.1.1 n then n
  else
    let n := n <| _known_peers ::= known_insert info |> in
    if Z.of_nat (size (_connections n)) <? _max_connections n then connect_to_peer now info.1 n else n.

Definition on_dlt_peer_exchange_reply (now id : Z) (peers : list (endpoint_t * Z)) (n : p2p) : p2p :=
  if _isolated_peers n then n
  else record_packet_result now id true (foldl (λ n i, learn_peer now i n) n peers).

Definition on_dlt_peer_exchange_rate_limited (now id : Z) (n : p2p) : p2p :=
  record_packet_result now id true
    (upd_peer id (λ s, s <| peer_exchange_request_count := PEER_EXCHANGE_MAX_REQUESTS |>
                         <| peer_exchange_window_start := now |>) n).

(** One of the candidates is asked, not more often than the limit allows. *)
Definition periodic_peer_exchange (now r : Z) (n : p2p) : p2p :=
  if _isolated_peers n then n
  else if negb (_node_status n =? DLT_NODE_STATUS_FORWARD) then n
  else
    let candidates := omap (λ p,
      if is_active p.2 && exchange_enabled p.2 && negb (is_peer_exchange_rate_limited now p.2)
      then Some p.1 else None) (_peer_states n) in
    match candidates with
    | [] => n
    | _ =>
        let count := Z.of_nat (length candidates) in
        let min_interval := if 20 <=? count then 0 else 100000000 / count in
        let pick := λ n,
          match candidates !! Z.to_nat (r mod count) with
          | Some id => send_message id dlt_peer_exchange_request n
          | None => n
          end in
        if 0 <? min_interval then
          if now - _last_peer_exchange_time n <? min_interval then n
          else pick (n <| _last_peer_exchange_time := now |>)
        else pick n
    end.
