(* ===== verification/DltSync.v ===== *)
(** * Following the chain of the network (libraries/network/dlt_p2p_node.cpp,
      lines 1211-1330, 1850-1898, 2189-2390, 2419-2910, 3182-3279)

    A node is in the SYNC mode while it fetches ranges of blocks and in the
    FORWARD mode while it takes blocks as they are produced.  Here are the changes
    of the mode, the requests, and what happens when a block has been applied; the
    messages are in the next file.  A [world] is the node and its chain, which is
    only used through [Delegate]. *)

From stdpp Require Import gmap strings list sorting.
From Stdlib Require Import ZArith Lia.
From S2P Require Import Prelude SignState Operations ChainOperations Block Objects Database EvalAccount Transactions.
From S2P Require Import DltMempool Dlt DltPeers.

Section sync.
Context {C : Type} {D : Delegate C} {TE : TransactionEnv} {BH : BlockHash}.
Implicit Type w : world C.

(** ** The pool of transactions and the chain *)

Definition is_tapos_valid (c : C) (trx : signed_transaction) : bool :=
  (ref_block_num (tx trx) =? 0) || check_tapos_block_summary (ref_block_num (tx trx)) (ref_block_prefix (tx trx)) c.

Definition on_mempool (f : mempool → mempool) (n : p2p) : p2p := n <| _mempool ::= f |>.

Definition is_sync w : bool := _node_status (net w) =? DLT_NODE_STATUS_SYNC.
Definition is_forward w : bool := _node_status (net w) =? DLT_NODE_STATUS_FORWARD.

(** The result is whether the transaction was kept. *)
Definition add_to_mempool (now : Z) (trx : signed_transaction) (from_peer : bool) (sender : Z) w : bool * world C :=
  let '(v, m) := enroll (is_tapos_valid (chain w)) now (is_sync w) (get_head_block_id (chain w)) trx (_mempool (net w)) in
  let w := on_net (on_mempool (λ _, m)) w in
  let from := from_peer && negb (sender =? INVALID_PEER_ID) in
  match v with
  | Known | Refused => (false, w)
  | Strike => (false, if from then on_net (record_packet_result now sender false) w else w)
  | Added => (true, if from then on_net (send_to_all_our_fork_peers (dlt_transaction trx) sender 0) w else w)
  end.

Definition prune_mempool w : world C :=
  on_net (on_mempool (prune_mempool_on_fork_switch (is_tapos_valid (chain w)))) w.

(** ** Messages about ourselves *)

Definition build_hello_message w : hello_message :=
  let c := chain w in
  mk_hello (get_head_block_id c) (get_head_block_num c) (get_lib_block_id c) (get_lib_block_num c)
    (get_dlt_earliest_block c) (get_dlt_latest_block c) (is_emergency_consensus_active c) (has_emergency_private_key c)
    (_fork_status (net w)) (_node_status (net w)) (_my_node_id (net w)).

Definition our_fork_status_message (status : Z) w : fork_status_message :=
  let c := chain w in
  mk_fork_status (_fork_status (net w)) (get_head_block_id c) (get_head_block_num c) (get_lib_block_id c)
    (get_lib_block_num c) (get_dlt_earliest_block c) (get_dlt_latest_block c) status.

(** A message to every peer that is past the handshake. *)
Definition send_to_talking (m : message) (n : p2p) : p2p :=
  foldl (λ n p, if is_talking p.2 then send_message p.1 m n else n) n (_peer_states n).

(** ** Changes of the mode *)

(** A peer whose head we now know is on our chain. *)
Definition recognize (c : C) (s : peer_state) : peer_state :=
  if negb (exchange_enabled s) && is_active s && (0 <? peer_head_num s) && delegate_block_known (peer_head_id s) c
  then s <| exchange_enabled := true |> <| fork_alignment := true |> else s.

Definition transition_to_forward (now : Z) w : world C :=
  let w := on_net (λ n, n <| _catchup_after_pause := false |>) w in
  let w := on_chain delegate_clear_syncing w in
  if is_forward w then w
  else
    let w := on_net (λ n, n <| _node_status := DLT_NODE_STATUS_FORWARD |> <| _sync_stagnation_retries := 0 |>
               <| _last_forward_head_num := 0 |> <| _last_forward_progress_time := 0 |>
               <| _forward_entered_time := now |>) w in
    let w := on_net (upd_peers (λ s, if is_one_of [SYNCING] s then enter ACTIVE now s else s)) w in
    let w := on_net (upd_peers (recognize (chain w))) w in
    let m := dlt_fork_status (our_fork_status_message DLT_NODE_STATUS_FORWARD w) in
    let w := on_net (send_to_talking m) w in
    on_net (on_mempool (revalidate_provisional (is_tapos_valid (chain w)))) w.

Definition transition_to_sync (now : Z) w : world C :=
  if is_sync w then w
  else on_net (λ n, n <| _node_status := DLT_NODE_STATUS_SYNC |> <| _sync_stagnation_retries := 0 |>
                      <| _last_block_received_time := now |>) w.

(** ** Requesting a range of blocks *)

(** Whether the peer has blocks that we need, from [start] on. *)
Definition can_bridge (peer start our_head : Z) (p : Z * peer_state) : bool :=
  negb (p.1 =? peer) && is_talking p.2 && (0 <? peer_dlt_earliest p.2) && (peer_dlt_earliest p.2 <=? start) &&
  (our_head <? latest_of p.2).

(** Where the request starts: at our head, to see the peer's block there, or at
    the last irreversible block when the peer is far ahead. *)
Definition sync_start (c : C) (peer_latest : Z) : Z :=
  let our_head := get_head_block_num c in
  let our_lib := get_lib_block_num c in
  if (FORWARD_FALLBEHIND_THRESHOLD <? peer_latest - our_head) && (0 <? our_lib) && (our_lib <? our_head)
  then our_lib else our_head.

Definition send_range_request (now peer start peer_latest : Z) w : world C :=
  if peer_latest <? start then w
  else
    let stop := Z.min (u32 (start + 200 - 1)) peer_latest in
    let w := on_net (upd_peer peer (λ s,
      enter SYNCING now (s <| pending_sync_start := start |> <| pending_sync_end := stop |>)
        <| expected_next_block := 0 |>)) w in
    on_net (send_message peer (dlt_get_block_range start stop (get_head_block_id (chain w)))) w.

Definition nobody_ahead (our_head : Z) (n : p2p) : bool :=
  forallb (λ p, negb (is_talking p.2 && (our_head <? latest_of p.2))) (_peer_states n).

(** A request that another peer can serve better goes there; [fuel] bounds how
    often it is passed on. *)
Fixpoint request_blocks (fuel : nat) (now peer : Z) w : world C :=
  match fuel, peer_of peer (net w) with
  | S fuel, Some s =>
      let our_head := get_head_block_num (chain w) in
      let peer_latest := latest_of s in
      if peer_latest <=? our_head then
        if is_sync w && nobody_ahead our_head (net w) then transition_to_forward now w else w
      else
        let start := sync_start (chain w) peer_latest in
        if (start <? peer_dlt_earliest s) && (0 <? peer_dlt_earliest s) then
          match find (can_bridge peer start our_head) (_peer_states (net w)) with
          | Some (bridging_peer, _) => request_blocks fuel now bridging_peer w
          | None => send_range_request now peer (peer_dlt_earliest s) peer_latest w
          end
        else send_range_request now peer start peer_latest w
  | _, _ => w
  end.

(** A request is passed on at most twice. *)
Definition request_blocks_from_peer : Z → Z → world C → world C := request_blocks 3.

(** Requests to all the peers that satisfy [P] at their turn. *)
Definition request_from_all (P : peer_state → bool) (now : Z) w : world C :=
  foldl (λ w p,
    match peer_of p.1 (net w) with
    | Some s => if P s then request_blocks_from_peer now p.1 w else w
    | None => w
    end) w (_peer_states (net w)).

(** ** Filling gaps *)

(** The peer with the highest head among those that exchange blocks, and the
    first of the others that is ahead. *)
Fixpoint gap_peers (our_head : Z) (l : list (Z * peer_state)) (best max_head any : Z) : Z * Z * Z :=
  match l with
  | [] => (best, max_head, any)
  | (id, s) :: l =>
      if negb (is_talking s) then gap_peers our_head l best max_head any
      else
        let can_serve := (peer_dlt_earliest s =? 0) || (peer_dlt_earliest s <=? u32 (our_head + 1)) in
        let any := if can_serve && (any =? INVALID_PEER_ID) && (our_head <? peer_head_num s) then id else any in
        if negb (exchange_enabled s) then gap_peers our_head l best max_head any
        else if can_serve && (max_head <? peer_head_num s)
        then gap_peers our_head l id (peer_head_num s) any
        else gap_peers our_head l best max_head any
  end.

(** What must be over before the next request: the previous one, the pause after
    it, and the time for which a refused block is left alone. *)
Definition gap_fill_ready (now : Z) (n : p2p) : option p2p :=
  let wait := _gap_fill_in_progress n &&
    ((_gap_fill_start_time n =? 0) || (now - _gap_fill_start_time n <=? seconds GAP_FILL_TIMEOUT_SEC)) in
  if wait then None
  else
    let n := n <| _gap_fill_in_progress := false |> in
    if negb (_last_gap_fill_time n =? 0) && (now - _last_gap_fill_time n <? seconds GAP_FILL_COOLDOWN_SEC)
    then None
    else if negb (_gap_rejected_blacklist_until n =? 0) && (now <? _gap_rejected_blacklist_until n)
    then None
    else Some (n <| _gap_rejected_blacklist_until := 0 |>).

(** The numbers from [a] to [b]. *)
Definition numbers (a b : Z) : list Z := seqZ a (b - a + 1).

Definition request_gap_fill (now : Z) w : world C :=
  let timed_out := _gap_fill_in_progress (net w) && negb (_gap_fill_start_time (net w) =? 0) &&
                   (seconds GAP_FILL_TIMEOUT_SEC <? now - _gap_fill_start_time (net w)) in
  match gap_fill_ready now (net w) with
  | None => if timed_out then on_net (λ n, n <| _gap_fill_in_progress := false |>) w else w
  | Some n =>
      let w := mk_world n (chain w) in
      let our_head := get_head_block_num (chain w) in
      if our_head =? 0 then w
      else
        let over := _gap_fill_fork_override_start n in
        let our_head := if (0 <? over) && (over <? our_head) then over else our_head in
        let w := on_net (λ n, n <| _gap_fill_fork_override_start := 0 |>) w in
        let '(best_peer, max_peer_head, any_active_peer) :=
          gap_peers our_head (_peer_states n) INVALID_PEER_ID our_head INVALID_PEER_ID in
        let gap_ceiling := Z.max max_peer_head (_highest_seen_block_num n) in
        if gap_ceiling <=? our_head then w
        else
          let request_ceiling := Z.min gap_ceiling (u32 (our_head + GAP_FILL_MAX_BLOCKS - 1)) in
          let req := dlt_gap_fill_request (numbers our_head request_ceiling) in
          let w := on_net (λ n, n <| _gap_fill_in_progress := true |> <| _gap_fill_start_time := now |>
                                  <| _last_gap_fill_time := now |>) w in
          if negb (best_peer =? INVALID_PEER_ID) then on_net (send_message best_peer req) w
          else if negb (any_active_peer =? INVALID_PEER_ID) then on_net (send_message any_active_peer req) w
          else on_net (λ n, n <| _gap_fill_in_progress := false |> <| _gap_fill_start_time := 0 |>) w
  end.

(** ** Periodic checks of the progress *)

Definition sync_stagnation_check (now : Z) w : world C :=
  let n := net w in
  if negb (is_sync w) then w
  else if _last_block_received_time n =? 0 then w
  else if now - _last_block_received_time n <? seconds SYNC_STAGNATION_SEC then w
  else
    let w := on_net (λ n, n <| _sync_stagnation_retries ::= λ x, u32 (x + 1) |>) w in
    if SYNC_STAGNATION_MAX_RETRIES <=? _sync_stagnation_retries (net w) then transition_to_forward now w
    else on_net (λ n, n <| _last_block_received_time := now |>) (request_from_all is_talking now w).

(** The loop over the peers, until one is ahead: how many there are, how many
    told their head, and whether one is ahead. *)
Fixpoint survey (our_head : Z) (l : list (Z * peer_state)) (active known : Z) : Z * Z * bool :=
  match l with
  | [] => (active, known, false)
  | (_, s) :: l =>
      if negb (is_talking s) then survey our_head l active known
      else if peer_head_num s =? 0 then survey our_head l (active + 1) known
      else if our_head <? peer_head_num s then (active + 1, known + 1, true)
      else survey our_head l (active + 1) (known + 1)
  end.

(** Without peers: the time is noted, and after a minute all are tried again. *)
Definition isolated (now : Z) (sync_first : bool) w : world C :=
  let n := net w in
  if _isolation_detected_time n =? 0 then on_net (λ n, n <| _isolation_detected_time := now |>) w
  else if seconds ISOLATION_RESET_SEC <? now - _isolation_detected_time n
  then on_net (emergency_peer_reset now) (if sync_first then transition_to_sync now w else w)
  else w.

Definition check_sync_catchup (now : Z) w : world C :=
  if negb (is_sync w) then w
  else
    let our_head := get_head_block_num (chain w) in
    if our_head =? 0 then w
    else
      let '(active, known, ahead) := survey our_head (_peer_states (net w)) 0 0 in
      if active =? 0 then isolated now false w
      else
        let w := on_net (λ n, n <| _isolation_detected_time := 0 |>) w in
        if (0 <? known) && negb ahead then
          if u32 (our_head + FORWARD_FALLBEHIND_THRESHOLD) <? _highest_seen_block_num (net w) then w
          else transition_to_forward now w
        else w.

(** An active peer that exchanges blocks and is ahead. *)
Definition exchanging_ahead (our_head : Z) (s : peer_state) : bool :=
  is_active s && exchange_enabled s && (our_head <? peer_head_num s).

Definition check_forward_behind (now : Z) w : world C :=
  let n := net w in
  if negb (is_forward w) then w
  else if negb (_forward_entered_time n =? 0) && (now - _forward_entered_time n <? seconds FORWARD_BEHIND_GRACE_SEC)
  then w
  else
    let our_head := get_head_block_num (chain w) in
    if existsb (λ p, is_active p.2 && negb (peer_head_num p.2 =? 0) &&
                     (u32 (our_head + FORWARD_FALLBEHIND_THRESHOLD) <? peer_head_num p.2)) (_peer_states n)
    then request_from_all (exchanging_ahead our_head) now (transition_to_sync now w)
    else w.

Definition check_forward_stagnation (now : Z) w : world C :=
  let n := net w in
  if negb (is_forward w) then w
  else
    let our_head := get_head_block_num (chain w) in
    let progress := on_net (λ n, n <| _last_forward_head_num := our_head |> <| _last_forward_progress_time := now |>) in
    if (_last_forward_head_num n =? 0) || (_last_forward_progress_time n =? 0) then progress w
    else if _last_forward_head_num n <? our_head then progress w
    else if now - _last_forward_progress_time n <=? seconds FORWARD_STAGNATION_SEC then w
    else if negb (existsb (λ p, is_talking p.2) (_peer_states n)) then isolated now true w
    else
      let w := on_net (λ n, n <| _isolation_detected_time := 0 |>) w in
      if negb (existsb (λ p, is_talking p.2 && (our_head <? peer_head_num p.2)) (_peer_states n)) then progress w
      else request_from_all (exchanging_ahead our_head) now (transition_to_sync now w).

Definition resync_from_lib (now : Z) w : world C :=
  let w := on_net (λ n, n <| _fork_detected := false |> <| _fork_detection_block_num := 0 |>
             <| current_winner_tip := 0 |> <| consecutive_blocks_as_winner := 0 |>
             <| _fork_status := DLT_FORK_STATUS_NORMAL |>) w in
  let w := transition_to_sync now w in
  let hello := dlt_hello (build_hello_message w) in
  foldl (λ w p, if is_talking p.2 then request_blocks_from_peer now p.1 (on_net (send_message p.1 hello) w) else w)
    w (_peer_states (net w)).

Definition trigger_resync w : world C :=
  let hello := dlt_hello (build_hello_message w) in
  on_net (λ n, foldl (λ n p, if is_active p.2 then send_message p.1 hello n else n) n (_peer_states n)) w.

(** ** Forks *)

(** The tip that no other beats, each compared with the best so far. *)
Definition heaviest_tip (c : C) (first : Z) (tips : list Z) : Z :=
  foldl (λ winner t, if 0 <? compare_branches t winner c then t else winner) first tips.

Definition resolve_fork w : world C :=
  match get_fork_branch_tips (chain w) with
  | first :: ((_ :: _) as rest) =>
      let winner := heaviest_tip (chain w) first rest in
      let w := on_net (λ n,
        if winner =? current_winner_tip n
        then n <| consecutive_blocks_as_winner ::= λ x, u32 (x + 1) |>
        else n <| current_winner_tip := winner |> <| consecutive_blocks_as_winner := 1 |>) w in
      if consecutive_blocks_as_winner (net w) <? CONFIRMATION_BLOCKS then w
      else
        let w :=
          if is_head_on_branch winner (chain w)
          then on_net (λ n, n <| _fork_status := DLT_FORK_STATUS_NORMAL |>) w
          else
            prune_mempool (on_chain (switch_to_fork winner)
              (on_net (λ n, n <| _fork_status := DLT_FORK_STATUS_MINORITY |>) w)) in
        on_net (λ n, n <| current_winner_tip := 0 |> <| consecutive_blocks_as_winner := 0 |>
                       <| _fork_detected := false |>) w
  | _ => on_net (λ n, n <| _fork_status := DLT_FORK_STATUS_NORMAL |> <| _fork_detected := false |>) w
  end.

Definition track_fork_state (b : signed_block) w : world C :=
  let tips := get_fork_branch_tips (chain w) in
  let w :=
    if (1 <? length tips)%nat && negb (_fork_detected (net w))
    then on_net (λ n, n <| _fork_detected := true |> <| _fork_detection_block_num := block_num b |>
                        <| _fork_status := DLT_FORK_STATUS_LOOKING_RESOLUTION |>) w
    else w in
  if _fork_detected (net w) &&
     (FORK_RESOLUTION_BLOCK_THRESHOLD <=? u32 (block_num b - _fork_detection_block_num (net w)))
  then resolve_fork w else w.

(** Nothing is pruned: only the number of the last check is kept. *)
Definition periodic_dlt_prune_check w : world C :=
  let earliest := get_dlt_earliest_block (chain w) in
  let latest := get_dlt_latest_block (chain w) in
  if (latest =? 0) || (earliest =? 0) then w
  else if u32 (latest - earliest + 1) <=? _dlt_block_log_max_blocks (net w) then w
  else if u32 (latest - _last_prune_block_num (net w)) <? DLT_PRUNE_BATCH_SIZE then w
  else on_net (λ n, n <| _last_prune_block_num := latest |>) w.

Definition advance_expected (next : Z) (s : peer_state) : peer_state :=
  if negb (expected_next_block s =? 0) && (expected_next_block s <? next)
  then s <| expected_next_block := next |> else s.

Definition on_block_applied (b : signed_block) (caused_fork_switch : bool) w : world C :=
  let w := on_net (on_mempool (remove_transactions_in_block (Block.transactions b))) w in
  let w := track_fork_state b w in
  let w := if caused_fork_switch then prune_mempool w else w in
  let w := periodic_dlt_prune_check w in
  on_net (upd_peers (advance_expected (u32 (block_num b + 1)))) w.

(** ** Broadcasting *)

Definition broadcast_block (b : signed_block) w : world C :=
  on_block_applied b false
    (on_net (send_to_all_our_fork_peers (dlt_block_reply b 0 true) INVALID_PEER_ID (block_id b)) w).

(** The account and the signature are dropped: the block is sent as our head. *)
Definition broadcast_block_post_validation (id : Z) (witness_account : string) (validator_signature : Z) w : world C :=
  let c := chain w in
  let m := mk_fork_status (_fork_status (net w)) id (num_from_id id) (get_lib_block_id c) (get_lib_block_num c)
             (get_dlt_earliest_block c) (get_dlt_latest_block c) (_node_status (net w)) in
  on_net (send_to_all_our_fork_peers (dlt_fork_status m) INVALID_PEER_ID 0) w.

Definition broadcast_transaction (now : Z) (trx : signed_transaction) w : world C :=
  on_net (send_to_all_our_fork_peers (dlt_transaction trx) INVALID_PEER_ID 0)
    (add_to_mempool now trx false INVALID_PEER_ID w).2.

Definition broadcast_chain_status w : world C :=
  on_net (send_to_all_our_fork_peers (dlt_fork_status (our_fork_status_message (_node_status (net w)) w)) INVALID_PEER_ID 0) w.

Definition get_connection_count w : Z := Z.of_nat (length (filter (λ p, is_talking p.2 = true) (_peer_states (net w)))).
Definition is_on_majority_fork w : bool := negb (_fork_status (net w) =? DLT_FORK_STATUS_MINORITY).
Definition is_catching_up_after_pause w : bool := _block_processing_paused (net w) || _catchup_after_pause (net w).
End sync.
