(* ===== verification/DltHandlers.v ===== *)
(** * The messages of the network (libraries/network/dlt_p2p_node.cpp, lines
      799-960, 988-1210, 1331-1850, 1911-2188, 2462-2560, 3560-3740)

    What a node does with each message, what it does while the processing of
    blocks is paused (a snapshot is being made), and its periodic task.  A
    message is handled as a whole before the next one: where the handlers of the
    code wait (for the lock of the chain, for a socket), others may run.  The
    numbers in the reasons of bans are left out. *)

From stdpp Require Import gmap strings list sorting.
From Stdlib Require Import ZArith Lia.
From S2P Require Import Prelude SignState Operations ChainOperations Block Objects Database EvalAccount Transactions.
From S2P Require Import DltMempool Dlt DltPeers DltSync.

Definition MAX_MESSAGE_SIZE : Z := 1024 * 1024 * 2.
Definition REPLY_SIZE_HEADROOM : Z := 64 * 1024.

(** [fc::raw::pack_size] of a block, and of a reply with these blocks. *)
Class MessageSizes := {
  block_pack_size : signed_block → Z;
  reply_pack_size : list signed_block → Z
}.

Section handlers.
Context {C : Type} {D : Delegate C} {TE : TransactionEnv} {BH : BlockHash} {MS : MessageSizes}.
Implicit Type w : world C.

Definition good (now peer : Z) : world C → world C := on_net (record_packet_result now peer true).
Definition bad (now peer : Z) : world C → world C := on_net (record_packet_result now peer false).
Definition send (peer : Z) (m : message) : world C → world C := on_net (send_message peer m).
Definition ban (now peer : Z) (reason : string) : world C → world C := on_net (soft_ban_peer now peer reason).
Definition peer_do (peer : Z) (f : peer_state → peer_state) : world C → world C := on_net (upd_peer peer f).

(** ** Greetings *)

(** Which of the peer's blocks we recognize: its head, when it is in our range or
    just before it, and its last irreversible block. *)
Definition check_fork_alignment (h : hello_message) (c : C) : bool * Z * Z :=
  if hello_head_num h =? 0 then (true, 0, 0)
  else
    let our_earliest := get_dlt_earliest_block c in
    let our_latest := get_dlt_latest_block c in
    let in_range := (our_earliest <=? hello_head_num h) && (hello_head_num h <=? our_latest) &&
                    delegate_block_known (hello_head_id h) c in
    let at_boundary := (u32 (hello_head_num h + 1) =? our_earliest) && (0 <? our_earliest) &&
      match delegate_read_block our_earliest c with Some b => previous b =? hello_head_id h | None => false end in
    let head := if in_range || at_boundary then hello_head_id h else 0 in
    let lib := if delegate_block_known (hello_lib_id h) c then hello_lib_id h else 0 in
    (negb (head =? 0) || negb (lib =? 0), head, lib).

Definition build_hello_reply (h : hello_message) w : hello_reply_message :=
  let '(aligned, head, lib) := check_fork_alignment h (chain w) in
  mk_hello_reply aligned aligned head lib (get_dlt_earliest_block (chain w)) (get_dlt_latest_block (chain w))
    (_fork_status (net w)) (_node_status (net w)).

Definition store_hello (h : hello_message) (s : peer_state) : peer_state :=
  s <| peer_head_id := hello_head_id h |> <| peer_head_num := hello_head_num h |>
    <| peer_lib_id := hello_lib_id h |> <| peer_lib_num := hello_lib_num h |>
    <| peer_dlt_earliest := hello_earliest h |> <| peer_dlt_latest := hello_latest h |>
    <| peer_emergency_active := hello_emergency_active h |> <| peer_has_emergency_key := hello_has_emergency_key h |>
    <| peer_fork_status := hello_fork_status h |> <| peer_node_status := hello_node_status h |>.

Definition store_alignment (r : hello_reply_message) (s : peer_state) : peer_state :=
  s <| exchange_enabled := reply_exchange_enabled r |> <| fork_alignment := reply_fork_alignment r |>
    <| recognized_head := initiator_head_seen r |> <| recognized_lib := initiator_lib_seen r |>.

(** [r] is the random number of the disconnection of a duplicate. *)
Definition on_dlt_hello (now r peer : Z) (h : hello_message) w : world C :=
  match peer_of peer (net w) with
  | None => w
  | Some _ =>
      let w := peer_do peer (λ s, s <| node_id := hello_node_id h |>) w in
      let dup := find_active_peer_by_node_id (hello_node_id h) (net w) in
      if negb (hello_node_id h =? 0) && negb (dup =? INVALID_PEER_ID) && negb (dup =? peer)
      then on_net (handle_disconnect now peer false r) w
      else
        let w := peer_do peer (store_hello h) w in
        let reply := build_hello_reply h w in
        let w := send peer (dlt_hello_reply reply) (peer_do peer (store_alignment reply) w) in
        let aligned := reply_exchange_enabled reply in
        let w := peer_do peer (λ s,
          if is_one_of [HANDSHAKING] s && (aligned || is_sync w || (hello_node_status h =? DLT_NODE_STATUS_SYNC))
          then enter ACTIVE now s else s) w in
        let w := good now peer w in
        if is_sync w && aligned then request_blocks_from_peer now peer w else w
  end.

(** Either side may recognize the other. *)
Definition on_dlt_hello_reply (now peer : Z) (r : hello_reply_message) w : world C :=
  match peer_of peer (net w) with
  | None => w
  | Some _ =>
      let w := peer_do peer (λ s,
        let s := s <| exchange_enabled ::= λ x, x || reply_exchange_enabled r |>
                   <| fork_alignment ::= λ x, x || reply_fork_alignment r |>
                   <| recognized_head := initiator_head_seen r |> <| recognized_lib := initiator_lib_seen r |> in
        if is_one_of [HANDSHAKING; SYNCING] s then enter ACTIVE now s else s) w in
      let w := good now peer w in
      match peer_of peer (net w) with
      | Some s =>
          if exchange_enabled s then
            if is_sync w then request_blocks_from_peer now peer w
            else if is_forward w &&
                    (u32 (get_head_block_num (chain w) + FORWARD_FALLBEHIND_THRESHOLD) <? peer_head_num s)
            then request_blocks_from_peer now peer (transition_to_sync now w)
            else w
          else w
      | None => w
      end
  end.

(** ** Serving blocks *)

Definition on_dlt_range_request (now peer num : Z) w : world C :=
  let c := chain w in
  let reply :=
    if block_exists_in_log_or_fork_db num c
    then dlt_range_reply (get_dlt_earliest_block c) (get_dlt_latest_block c) true
    else dlt_range_reply 0 0 false in
  good now peer (send peer reply w).

Definition on_dlt_range_reply (now peer range_start range_end : Z) (has_blocks : bool) w : world C :=
  match peer_of peer (net w) with
  | None => w
  | Some _ =>
      if has_blocks then
        request_blocks_from_peer now peer
          (peer_do peer (λ s, s <| peer_dlt_earliest := range_start |> <| peer_dlt_latest := range_end |>) w)
      else good now peer w
  end.

(** The blocks from [n] on that we have and that fit in a message, [k] of them at
    most, and the number of the first that does not fit. *)
Fixpoint collect_range (k : nat) (n : Z) (c : C) (blocks : list signed_block) : list signed_block * option Z :=
  match k with
  | O => (blocks, None)
  | S k =>
      match delegate_read_block n c with
      | Some b =>
          if (MAX_MESSAGE_SIZE - REPLY_SIZE_HEADROOM <? u32 (u32 (reply_pack_size blocks) + u32 (block_pack_size b))) &&
             negb (bool_decide (blocks = []))
          then (blocks, Some n)
          else collect_range k (n + 1) c (blocks ++ [b])
      | None => collect_range k (n + 1) c blocks
      end
  end.

Definition on_dlt_get_block_range (now peer first stop : Z) w : world C :=
  let our_latest := get_dlt_latest_block (chain w) in
  let '(blocks, cut) := collect_range (Z.to_nat (Z.min stop our_latest - first + 1)) first (chain w) [] in
  let reply :=
    match cut, last blocks with
    | Some n, _ => dlt_block_range_reply blocks n false
    | None, Some b =>
        dlt_block_range_reply blocks (if block_num b <? our_latest then block_num b + 1 else 0)
          (our_latest <=? block_num b)
    | None, None => dlt_block_range_reply [] 0 false
    end in
  good now peer (send peer reply w).

(** The number is read after the block has been moved into the reply; a moved
    block keeps its header. *)
Definition on_dlt_get_block (now peer num : Z) w : world C :=
  let our_latest := get_dlt_latest_block (chain w) in
  let reply :=
    match delegate_read_block num (chain w) with
    | Some b => dlt_block_reply b (if block_num b <? our_latest then block_num b + 1 else 0) (our_latest <=? block_num b)
    | None => dlt_not_available num
    end in
  good now peer (send peer reply w).

Definition on_dlt_gap_fill_request (now peer : Z) (nums : list Z) w : world C :=
  match peer_of peer (net w) with
  | None => w
  | Some _ =>
      if bool_decide (nums = []) || (GAP_FILL_MAX_BLOCKS <? Z.of_nat (length nums)) then bad now peer w
      else
        let c := chain w in
        let blocks := omap (λ num,
          if (num <? get_dlt_earliest_block c) || (u32 (get_head_block_num c + GAP_FILL_MAX_BLOCKS) <? num)
          then None else delegate_read_block num c) nums in
        good now peer (send peer (dlt_gap_fill_reply blocks) w)
  end.

(** ** Taking blocks *)

(** One block at a time. *)
Definition call_accept_block (b : signed_block) (sync_mode : bool) w : world C * accept_outcome :=
  let '(c, r) := accept_block b sync_mode (chain w) in (mk_world (net w) c, r).

Definition block_received (now : Z) : world C → world C :=
  on_net (λ n, n <| _last_block_received_time := now |> <| _last_network_block_time := now |>).

(** A block of the peer is on our chain: so is the peer. *)
Definition enable_exchange (s : peer_state) : peer_state :=
  if exchange_enabled s then s else s <| exchange_enabled := true |> <| fork_alignment := true |>.

Definition expect_after (b : signed_block) (s : peer_state) : peer_state :=
  s <| expected_next_block ::= λ e, Z.max e (u32 (block_num b + 1)) |>.

(** The peer has the block. *)
Definition see_block (peer num : Z) w : world C :=
  on_net (λ n, n <| _highest_seen_block_num ::= λ h, Z.max h num |>)
    (peer_do peer (λ s, s <| peer_head_num ::= λ h, Z.max h num |>) w).

(** A block that was to come later and that we have already. *)
Definition is_duplicate (b : signed_block) (s : peer_state) (c : C) : bool :=
  negb (expected_next_block s =? 0) && (block_num b <? expected_next_block s) && delegate_block_known (block_id b) c.

(** The blocks of a range, in order: the world, whether an exception escaped,
    whether a block was applied, and whether one was stored in the fork
    database. *)
Fixpoint accept_range (now peer : Z) (blocks : list signed_block) (applied fork_only : bool) w :
    world C * bool * bool * bool :=
  match blocks, peer_of peer (net w) with
  | b :: blocks, Some s =>
      if _block_processing_paused (net w) then (w, false, applied, fork_only)
      else if is_duplicate b s (chain w) then accept_range now peer blocks applied fork_only w
      else
        let '(w, r) := call_accept_block b (is_sync w) w in
        match r with
        | threw => (w, true, applied, fork_only)
        | out_of_memory => (good now peer w, false, applied, fork_only)
        | took ACCEPTED =>
            let w := on_block_applied b false (block_received now w) in
            accept_range now peer blocks true fork_only (peer_do peer (λ s, expect_after b (enable_exchange s)) w)
        | took ALREADY_KNOWN => accept_range now peer blocks applied fork_only (peer_do peer (expect_after b) w)
        | took FORK_DB_ONLY => accept_range now peer blocks applied true (peer_do peer (expect_after b) w)
        | took DEAD_FORK => (ban now peer "dead-fork block" w, false, applied, fork_only)
        | took REJECTED => accept_range now peer blocks applied fork_only w
        end
  | _, _ => (w, false, applied, fork_only)
  end.

(** The result is whether no exception escaped. *)
Definition on_dlt_block_range_reply (now peer : Z) (blocks : list signed_block) (next_available : Z) (is_last : bool) w :
    bool * world C :=
  match peer_of peer (net w), blocks with
  | None, _ => (true, w)
  | Some _, [] => (true, good now peer w)
  | Some _, first :: rest =>
      let w := see_block peer (block_num (List.last rest first)) w in
      let head_at_start := get_head_block_num (chain w) in
      let w := peer_do peer (λ s,
        let s := s <| pending_block_batch_time := now |> in
        if negb (expected_next_block s =? 0) && (block_num first =? u32 (head_at_start + 1)) &&
           negb (block_num first =? expected_next_block s)
        then s <| expected_next_block := 0 |> else s) w in
      let '(w, failed, applied, fork_only) := accept_range now peer blocks false false w in
      if failed then (false, w)
      else (true,
      let w := peer_do peer (λ s, s <| pending_block_batch_time := 0 |>) w in
      match peer_of peer (net w) with
      | None => w
      | Some s =>
          if is_one_of [BANNED] s then w
          else
            let w := on_net (record_packet_result now peer (applied || fork_only)) w in
            if negb (is_sync w) then w
            else if applied then
              let w := peer_do peer (λ s, s <| fork_only_batch_count := 0 |>) w in
              if is_last then transition_to_forward now w
              else if 0 <? next_available then request_blocks_from_peer now peer w else w
            else if fork_only && (0 <? next_available) then
              let w := peer_do peer (λ s, s <| fork_only_batch_count ::= λ x, u32 (x + 1) |>) w in
              match peer_of peer (net w) with
              | Some s =>
                  if FORK_ONLY_BATCH_LIMIT <=? fork_only_batch_count s then ban now peer "fork-only spam" w
                  else request_blocks_from_peer now peer w
              | None => w
              end
            else w
      end)
  end.

(** A block that is refused three times is left alone for two minutes. *)
Definition count_rejection (now num : Z) (n : p2p) : p2p :=
  let n :=
    if num =? _gap_rejected_block_num n then n <| _gap_rejected_count ::= λ x, u32 (x + 1) |>
    else n <| _gap_rejected_block_num := num |> <| _gap_rejected_count := 1 |> in
  if GAP_REJECT_MAX_RETRIES <=? _gap_rejected_count n
  then n <| _gap_rejected_blacklist_until := now + seconds GAP_REJECT_BLACKLIST_SEC |>
         <| _gap_rejected_count := 0 |> <| _gap_rejected_block_num := 0 |>
  else n.

(** The block is not the one expected: the blocks before it are asked for, and
    the peer's block at our height when the branches differ there. *)
Definition out_of_order (now peer : Z) (b : signed_block) w : world C :=
  let head c := get_head_block_num c in
  let w := if u32 (head (chain w) + 1) <? block_num b then request_gap_fill now w else w in
  let parent_num := num_from_id (previous b) in
  if (head (chain w) <? block_num b) && (parent_num =? head (chain w)) &&
     negb (previous b =? get_head_block_id (chain w)) && negb (previous b =? 0)
  then send peer (dlt_get_block parent_num 0) w else w.

(** The end of a reply with one block: in the single-block mode the next one is
    asked for. *)
Definition after_block_reply (now peer next_available : Z) (is_last : bool) (b : signed_block) w : world C :=
  let w := good now peer (peer_do peer (expect_after b) w) in
  match peer_of peer (net w) with
  | Some s =>
      if range_fallback_mode s && is_sync w then
        if 0 <? next_available then send peer (dlt_get_block next_available (get_head_block_id (chain w))) w
        else if is_last then check_sync_catchup now (peer_do peer (λ s, s <| range_fallback_mode := false |>) w)
        else w
      else w
  | None => w
  end.

Definition on_dlt_block_reply (now peer : Z) (b : signed_block) (next_available : Z) (is_last : bool) w : bool * world C :=
  match _block_processing_paused (net w), peer_of peer (net w) with
  | false, Some s =>
      let w := see_block peer (block_num b) w in
      let other := negb (expected_next_block s =? 0) && negb (block_num b =? expected_next_block s) in
      if other && is_duplicate b s (chain w) then (true, good now peer w)
      else
        let w := if other then out_of_order now peer b w else w in
        let '(w, r) := call_accept_block b false w in
        match r with
        | threw => (false, w)
        | out_of_memory => (true, good now peer w)
        | took REJECTED => (true, bad now peer (on_net (count_rejection now (block_num b)) w))
        | took DEAD_FORK => (true, ban now peer "dead-fork block" w)
        | took ACCEPTED =>
            let w := on_block_applied b false (block_received now w) in
            let w := peer_do peer (λ s, record_known_block (block_id b) (enable_exchange s)) w in
            let w := on_net (send_to_all_our_fork_peers (dlt_block_reply b next_available is_last) peer (block_id b)) w in
            (true, after_block_reply now peer next_available is_last b (check_sync_catchup now w))
        | took _ => (true, after_block_reply now peer next_available is_last b w)
        end
  | _, _ => (true, w)
  end.

(** A block of a dead fork: the peer's chain may be the better one. *)
Definition gap_dead_fork (now peer : Z) w : world C :=
  match peer_of peer (net w) with
  | Some s =>
      let our_head := get_head_block_num (chain w) in
      if our_head <? latest_of s then
        let our_lib := get_lib_block_num (chain w) in
        let w :=
          if (0 <? our_lib) && (our_lib <? our_head)
          then on_net (λ n, n <| _gap_fill_fork_override_start := our_lib |>) w else w in
        request_blocks_from_peer now peer (transition_to_sync now w)
      else ban now peer "dead-fork block in gap fill" w
  | None => w
  end.

Fixpoint accept_gap (now peer : Z) (blocks : list signed_block) w : bool * world C :=
  match blocks with
  | [] => (true, w)
  | b :: blocks =>
      if _block_processing_paused (net w) then (true, w)
      else
        let '(w, r) := call_accept_block b false w in
        match r with
        | threw => (false, w)
        | out_of_memory => (true, w)
        | took ACCEPTED =>
            accept_gap now peer blocks (peer_do peer enable_exchange (on_block_applied b false (block_received now w)))
        | took ALREADY_KNOWN | took FORK_DB_ONLY => accept_gap now peer blocks w
        | took DEAD_FORK => (true, gap_dead_fork now peer w)
        | took REJECTED => accept_gap now peer blocks (on_net (count_rejection now (block_num b)) w)
        end
  end.

Definition on_dlt_gap_fill_reply (now peer : Z) (blocks : list signed_block) w : bool * world C :=
  match _block_processing_paused (net w), peer_of peer (net w) with
  | false, Some _ =>
      let w := on_net (λ n, n <| _gap_fill_in_progress := false |> <| _gap_fill_start_time := 0 |>) w in
      let '(ok, w) := accept_gap now peer blocks w in
      (ok, if ok then good now peer w else w)
  | _, _ => (true, w)
  end.

(** ** Other messages *)

Definition store_fork_status (m : fork_status_message) (s : peer_state) : peer_state :=
  s <| peer_fork_status := fs_fork_status m |> <| peer_head_id := fs_head_id m |> <| peer_head_num := fs_head_num m |>
    <| peer_lib_id := fs_lib_id m |> <| peer_lib_num := fs_lib_num m |> <| peer_dlt_earliest := fs_earliest m |>
    <| peer_dlt_latest := fs_latest m |> <| peer_node_status := fs_node_status m |>.

Definition on_dlt_fork_status (now peer : Z) (m : fork_status_message) w : world C :=
  match peer_of peer (net w) with
  | None => w
  | Some before =>
      let w := peer_do peer (λ s,
        let s := store_fork_status m s in
        if negb (exchange_enabled s) && (fs_node_status m =? DLT_NODE_STATUS_FORWARD) &&
           (peer_node_status before =? DLT_NODE_STATUS_SYNC) && is_active s && (0 <? fs_head_num m) &&
           delegate_block_known (fs_head_id m) (chain w)
        then s <| exchange_enabled := true |> <| fork_alignment := true |> else s) w in
      let w := on_net (λ n, n <| _highest_seen_block_num ::= λ h, Z.max h (fs_head_num m) |>) w in
      good now peer w
  end.

Definition on_dlt_transaction (now peer : Z) (trx : signed_transaction) w : world C :=
  let '(accepted, w) := add_to_mempool now trx true peer w in
  if accepted then on_chain (accept_transaction trx) w else w.

(** ** Dispatch *)

(** Blocks that come while the processing is paused are kept, up to a limit. *)
Definition queue_blocks (blocks : list signed_block) (n : p2p) : p2p :=
  n <| _paused_block_queue ::= λ q, q ++ take (Z.to_nat PAUSED_QUEUE_MAX - length q) blocks |>.

(** A range that cannot be read or whose processing throws: its blocks are asked
    for one by one. *)
Definition range_fallback (peer : Z) w : world C :=
  match peer_of peer (net w) with
  | None => w
  | Some _ =>
      let w := peer_do peer (λ s, s <| range_fallback_mode := true |>) w in
      if is_sync w then
        let head := get_head_block_num (chain w) in
        let our_lib := get_lib_block_num (chain w) in
        let first := if (0 <? our_lib) && (our_lib <? head) then our_lib else head in
        send peer (dlt_get_block first (get_head_block_id (chain w))) w
      else w
  end.

Definition dispatch (now r peer : Z) (m : message) w : bool * world C :=
  match m with
  | dlt_hello h => (true, on_dlt_hello now r peer h w)
  | dlt_hello_reply h => (true, on_dlt_hello_reply now peer h w)
  | dlt_range_request num _ => (true, on_dlt_range_request now peer num w)
  | dlt_range_reply a b has => (true, on_dlt_range_reply now peer a b has w)
  | dlt_get_block_range a b _ => (true, on_dlt_get_block_range now peer a b w)
  | dlt_block_range_reply bs next is_last =>
      let '(ok, w) := on_dlt_block_range_reply now peer bs next is_last w in
      (true, if ok then w else range_fallback peer w)
  | dlt_get_block num _ => (true, on_dlt_get_block now peer num w)
  | dlt_block_reply b next is_last => on_dlt_block_reply now peer b next is_last w
  | dlt_not_available _ => (true, good now peer w)
  | dlt_fork_status s => (true, on_dlt_fork_status now peer s w)
  | dlt_peer_exchange_request => (true, on_net (on_dlt_peer_exchange_request now peer) w)
  | dlt_peer_exchange_reply ps => (true, on_net (on_dlt_peer_exchange_reply now peer ps) w)
  | dlt_peer_exchange_rate_limited _ => (true, on_net (on_dlt_peer_exchange_rate_limited now peer) w)
  | dlt_transaction t => (true, on_dlt_transaction now peer t w)
  | dlt_soft_ban d reason => (true, on_net (on_dlt_soft_ban now peer d reason) w)
  | dlt_gap_fill_request nums => (true, on_dlt_gap_fill_request now peer nums w)
  | dlt_gap_fill_reply bs => on_dlt_gap_fill_reply now peer bs w
  | dlt_unknown _ => (true, bad now peer w)
  | dlt_malformed t =>
      if t =? dlt_block_range_reply_message_type then (true, range_fallback peer w) else (false, w)
  end.

(** The result is whether the stream of the peer is read further: it is not after
    an exception. *)
Definition on_message (now r peer : Z) (m : message) w : bool * world C :=
  match peer_of peer (net w) with
  | None => (true, w)
  | Some _ =>
      if _block_processing_paused (net w) then
        match m with
        | dlt_hello _ | dlt_hello_reply _ | dlt_fork_status _ => dispatch now r peer m w
        | dlt_malformed t =>
            if bool_decide (t ∈ [dlt_hello_message_type; dlt_hello_reply_message_type; dlt_fork_status_message_type])
            then dispatch now r peer m w else (true, w)
        | dlt_block_reply b _ _ => (true, on_net (queue_blocks [b]) w)
        | dlt_block_range_reply bs _ _ | dlt_gap_fill_reply bs => (true, on_net (queue_blocks bs) w)
        | _ => (true, w)
        end
      else dispatch now r peer m w
  end.

(** One round of the read loop. *)
Definition read_message (now r peer : Z) (m : message) w : world C :=
  let '(ok, w) := on_message now r peer m w in
  if ok then w else on_net (handle_disconnect now peer false r) w.

(** A message that claims to be larger than the limit. *)
Definition read_oversized (now r peer : Z) w : world C :=
  let block n := match peer_of peer n with
                 | Some s => if negb (ip_of s =? 0) then block_incoming_ip now (ip_of s) n else n
                 | None => n
                 end in
  on_net (λ n, handle_disconnect now peer true r (block n)) w.

(** ** Pausing *)

Definition pause_block_processing : world C → world C := on_net (λ n, n <| _block_processing_paused := true |>).

Definition block_num_le (a b : signed_block) : Prop := block_num a ≤ block_num b.
#[export] Instance block_num_le_dec a b : Decision (block_num_le a b).
Proof. unfold block_num_le. apply _. Defined.

(** The loop of [drain_paused_block_queue]; an exception of the chain skips the
    block. *)
Fixpoint drain_blocks (now : Z) (blocks : list signed_block) w : world C :=
  match blocks with
  | [] => w
  | b :: blocks =>
      if _block_processing_paused (net w) then w
      else
        let '(w, r) := call_accept_block b false w in
        match r with
        | out_of_memory => w
        | took ACCEPTED => drain_blocks now blocks (on_block_applied b false (block_received now w))
        | _ => drain_blocks now blocks w
        end
  end.

(** [std::sort] leaves the order of blocks of the same number open; here it is
    that of their arrival. *)
Definition drain_paused_block_queue (now : Z) w : world C :=
  match _paused_block_queue (net w) with
  | [] => w
  | q => on_net (λ n, n <| _paused_block_queue := [] |>) (drain_blocks now (merge_sort block_num_le q) w)
  end.

(** The flag is kept while a peer is ahead. *)
Definition check_catchup (w : world C) : world C :=
  let our_head := get_head_block_num (chain w) in
  if existsb (λ p, is_talking p.2 && (our_head <? peer_head_num p.2)) (_peer_states (net w)) then w
  else on_net (λ n, n <| _catchup_after_pause := false |>) w.

Definition resume_block_processing (now : Z) w : world C :=
  let w := on_net (λ n, n <| _catchup_after_pause := true |> <| _block_processing_paused := false |>) w in
  match _paused_block_queue (net w) with
  | [] => on_net (send_to_talking (dlt_hello (build_hello_message w))) w
  | _ => check_catchup (drain_paused_block_queue now w)
  end.

(** ** The periodic task *)

Definition cleanup_mempool (now : Z) w : world C :=
  on_net (on_mempool (periodic_mempool_cleanup (is_tapos_valid (chain w)) now (is_forward w))) w.

(** [rs] are the random numbers of the disconnections, [r] the one of the
    exchange of addresses. *)
Definition periodic_task (now : Z) (rs : nat → Z) (r : Z) w : world C :=
  let w := on_net (periodic_reconnect_check now) w in
  let w := on_net (periodic_lifecycle_timeout_check now rs) w in
  let w := on_net (block_validation_timeout now) w in
  let w := cleanup_mempool now w in
  if _block_processing_paused (net w) then on_net (unban_check now) w
  else
    let w := sync_stagnation_check now w in
    let w := check_sync_catchup now w in
    let w := check_forward_behind now w in
    let w := check_forward_stagnation now w in
    let w := request_gap_fill now w in
    let w := on_net (periodic_peer_exchange now r) w in
    let w := if _catchup_after_pause (net w) then check_catchup (drain_paused_block_queue now w) else w in
    on_net (unban_check now) w.
End handlers.

(** ** What can happen to a node *)

(** The node before it starts, with the configuration's values for the limits. *)
Definition new_node (seeds : list endpoint_t) (max_connections my_node_id : Z) (isolated : bool) (pool : mempool)
    (max_per_reply max_per_subnet min_uptime max_disconnect_hours max_log : Z) : p2p :=
  mk_p2p [] 1 [] seeds ∅ max_connections my_node_id isolated ∅ [] DLT_NODE_STATUS_SYNC DLT_FORK_STATUS_NORMAL
    0 0 false 0 0 0 0 0 0 0 0 pool max_disconnect_hours max_per_reply max_per_subnet min_uptime 0
    false 0 0 0 0 0 0 0 false [] false max_log 0.

(** The peers connect, speak and disconnect; the periodic task runs; the rest of
    the program uses the node, and the chain. *)
Inductive net_event (C : Type) :=
| ev_connected (id : Z)
| ev_connect_failed (id : Z)
| ev_accept (ep : endpoint_t)
| ev_message (r id : Z) (m : message)
| ev_oversized (r id : Z)
| ev_disconnect (id r : Z)
| ev_task (rs : nat → Z) (r : Z)
| ev_start
| ev_pause
| ev_resume
| ev_block (b : signed_block)
| ev_confirmation (id : Z) (account : string) (sig : Z)
| ev_transaction (trx : signed_transaction)
| ev_chain_status
| ev_resync
| ev_trigger_resync
| ev_reconnect_seeds
| ev_reset_peers
| ev_chain (c : C).
Arguments ev_connected {C} id.
Arguments ev_connect_failed {C} id.
Arguments ev_accept {C} ep.
Arguments ev_message {C} r id m.
Arguments ev_oversized {C} r id.
Arguments ev_disconnect {C} id r.
Arguments ev_task {C} rs r.
Arguments ev_start {C}.
Arguments ev_pause {C}.
Arguments ev_resume {C}.
Arguments ev_block {C} b.
Arguments ev_confirmation {C} id account sig.
Arguments ev_transaction {C} trx.
Arguments ev_chain_status {C}.
Arguments ev_resync {C}.
Arguments ev_trigger_resync {C}.
Arguments ev_reconnect_seeds {C}.
Arguments ev_reset_peers {C}.
Arguments ev_chain {C} c.

Section node.
Context {C : Type} {D : Delegate C} {TE : TransactionEnv} {BH : BlockHash} {MS : MessageSizes}.

Definition step (now : Z) (e : net_event C) (w : world C) : world C :=
  let hello := build_hello_message w in
  match e with
  | ev_connected id => on_net (connect_done now id hello) w
  | ev_connect_failed id => on_net (connect_failed now id) w
  | ev_accept ep => on_net (accept_connection now ep hello) w
  | ev_message r id m => read_message now r id m w
  | ev_oversized r id => read_oversized now r id w
  | ev_disconnect id r => on_net (handle_disconnect now id false r) w
  | ev_task rs r => periodic_task now rs r w
  | ev_start => on_net (start_seeds now) w
  | ev_pause => pause_block_processing w
  | ev_resume => resume_block_processing now w
  | ev_block b => broadcast_block b w
  | ev_confirmation id account sig => broadcast_block_post_validation id account sig w
  | ev_transaction trx => broadcast_transaction now trx w
  | ev_chain_status => broadcast_chain_status w
  | ev_resync => resync_from_lib now w
  | ev_trigger_resync => trigger_resync w
  | ev_reconnect_seeds => on_net (reconnect_seeds now) w
  | ev_reset_peers => on_net (emergency_peer_reset now) w
  | ev_chain c => on_chain (λ _, c) w
  end.

(** The events at their times. *)
Definition run (es : list (Z * net_event C)) (w : world C) : world C := foldl (λ w e, step e.1 e.2 w) w es.
End node.
