(* ===== verification/DltInvariant.v ===== *)
(** * The invariant of the tables of a node of the network

    [net_ok], and that what a node does with its peers preserves it. *)

From stdpp Require Import gmap strings list sorting.
From Stdlib Require Import ZArith Lia.
From S2P Require Import Prelude SignState Operations ChainOperations Block Objects Database EvalAccount Transactions.
From S2P Require Import DltMempool DltMempoolProofs Dlt DltPeers DltSync DltHandlers.

(** ** The invariant *)

Definition peer_ids (n : p2p) : list Z := (_peer_states n).*1.

(** Identifiers are used once and in order, a banned peer is not connected, and
    what is kept for later is bounded. *)
Record net_ok `{TransactionEnv} (n : p2p) : Prop := {
  ids_sorted : StronglySorted Z.lt (peer_ids n);
  ids_used id : id ∈ peer_ids n → 0 < id < _next_peer_id n;
  next_positive : 0 < _next_peer_id n;
  connections_used id : id ∈ _connections n → 0 < id < _next_peer_id n;
  banned_disconnected id s :
    (id, s) ∈ _peer_states n → id ∈ _connections n → lifecycle_state s ≠ BANNED;
  known_blocks_bounded id s :
    (id, s) ∈ _peer_states n → (length (known_blocks s) ≤ Z.to_nat KNOWN_BLOCKS_WINDOW)%nat;
  pool_ok : mempool_ok (_mempool n);
  pool_limits : limits_ok (_mempool n);
  queue_bounded : (length (_paused_block_queue n) ≤ Z.to_nat PAUSED_QUEUE_MAX)%nat;
  mode_ok : _node_status n = DLT_NODE_STATUS_SYNC ∨ _node_status n = DLT_NODE_STATUS_FORWARD;
  forks_ok : _fork_status n ∈ [DLT_FORK_STATUS_NORMAL; DLT_FORK_STATUS_LOOKING_RESOLUTION; DLT_FORK_STATUS_MINORITY]
}.

(** An update of a peer that neither bans it nor remembers too many blocks. *)
Definition gentle (f : peer_state → peer_state) : Prop := ∀ s,
  ((length (known_blocks s) ≤ Z.to_nat KNOWN_BLOCKS_WINDOW)%nat →
   (length (known_blocks (f s)) ≤ Z.to_nat KNOWN_BLOCKS_WINDOW)%nat) ∧
  (lifecycle_state (f s) = BANNED → lifecycle_state s = BANNED).

Section invariant.
Context {TE : TransactionEnv}.
Implicit Type n : p2p.

(** The fields the invariant speaks of. *)
Definition tables n :=
  (_peer_states n, _next_peer_id n, _connections n, _mempool n, _paused_block_queue n, _node_status n, _fork_status n).
Definition same_tables (n n' : p2p) : Prop := tables n' = tables n.

Lemma ok_same n n' : same_tables n n' → net_ok n → net_ok n'.
Proof.
  intros [= H1 H2 H3 H4 H5 H6 H7] []. split; unfold peer_ids in *; rewrite ?H1, ?H2, ?H3, ?H4, ?H5, ?H6, ?H7; auto.
Qed.

Lemma peer_ids_upd_peer id f n : peer_ids (upd_peer id f n) = peer_ids n.
Proof.
  unfold peer_ids, upd_peer. cbn. rewrite <- list_fmap_compose.
  apply list_fmap_ext. intros i [x s] _. simpl. by destruct (x =? id).
Qed.

Lemma elem_of_upd_peer id f n i s :
  (i, s) ∈ _peer_states (upd_peer id f n) →
  ∃ s0, (i, s0) ∈ _peer_states n ∧ (s = s0 ∧ i ≠ id ∨ s = f s0 ∧ i = id).
Proof.
  unfold upd_peer. cbn. rewrite list_elem_of_fmap. intros ([j s0] & Heq & Hin). simpl in Heq.
  destruct (Z.eqb_spec j id); simplify_eq; eauto.
Qed.

Lemma peer_ids_upd_peers f n : peer_ids (upd_peers f n) = peer_ids n.
Proof.
  unfold peer_ids, upd_peers. cbn. rewrite <- list_fmap_compose. apply list_fmap_ext. by intros i [x s] _.
Qed.

Lemma sorted_sub (l k : list Z) : sublist k l → StronglySorted Z.lt l → StronglySorted Z.lt k.
Proof.
  induction 1 as [|x k l H IH|x k l H IH]; [done| |]; intros [Hl Hx]%StronglySorted_inv; [|auto].
  constructor; [auto|]. rewrite Forall_forall in *. intros y Hy. apply Hx. by eapply sublist_subseteq.
Qed.

(** The table of peers and the connections may change in this way. *)
Lemma ok_retable n n' :
  net_ok n → sublist (peer_ids n') (peer_ids n) → _next_peer_id n' = _next_peer_id n →
  (∀ i, i ∈ _connections n' → i ∈ _connections n) →
  (∀ i s, (i, s) ∈ _peer_states n' →
    (length (known_blocks s) ≤ Z.to_nat KNOWN_BLOCKS_WINDOW)%nat ∧ (i ∈ _connections n' → lifecycle_state s ≠ BANNED)) →
  _mempool n' = _mempool n → _paused_block_queue n' = _paused_block_queue n →
  _node_status n' = _node_status n → _fork_status n' = _fork_status n → net_ok n'.
Proof.
  intros Hn Hids Hnext Hconn Hin H1 H2 H3 H4. split; rewrite ?Hnext, ?H1, ?H2, ?H3, ?H4; try exact (next_positive n Hn); try apply Hn.
  - by apply (sorted_sub (peer_ids n)); [|apply Hn].
  - intros i Hi. apply (ids_used n Hn). by eapply sublist_subseteq.
  - intros i Hi%Hconn. by apply (connections_used n Hn).
  - intros i s Hs Hi. by apply (Hin i s).
  - intros i s Hs. by apply (Hin i s).
Qed.

Lemma ok_upd_peer id f n : gentle f → net_ok n → net_ok (upd_peer id f n).
Proof.
  intros Hf Hn. apply (ok_retable n); try done; [by rewrite peer_ids_upd_peer|..].
  - intros i s (s0 & H0 & Hs)%elem_of_upd_peer.
    pose proof (known_blocks_bounded n Hn i s0 H0). pose proof (banned_disconnected n Hn i s0 H0) as Hb.
    destruct Hs as [[-> _]|[-> _]]; [done|]. split; [by apply Hf|]. intros Hi ?%Hf. by apply Hb.
Qed.

Lemma ok_upd_peers f n : gentle f → net_ok n → net_ok (upd_peers f n).
Proof.
  intros Hf Hn. apply (ok_retable n); try done; [by rewrite peer_ids_upd_peers|..].
  - intros i s. unfold upd_peers. cbn. rewrite list_elem_of_fmap. intros ([j s0] & Heq & H0). simplify_eq.
    pose proof (known_blocks_bounded n Hn j s0 H0). pose proof (banned_disconnected n Hn j s0 H0) as Hb.
    split; [by apply Hf|]. intros Hi ?%Hf. by apply Hb.
Qed.

Lemma ok_send id m n : net_ok n → net_ok (send_message id m n).
Proof. intros Hn. unfold send_message. destruct (decide _); [|done]. by apply (ok_same n). Qed.

Lemma elem_of_disconnect i id n : i ∈ _connections (disconnect id n) ↔ i ∈ _connections n ∧ i ≠ id.
Proof. unfold disconnect. cbn. set_solver. Qed.

Lemma ok_disconnect id n : net_ok n → net_ok (disconnect id n).
Proof.
  intros Hn. apply (ok_retable n); try done.
  - by intros i [Hi _]%elem_of_disconnect.
  - intros i s Hs. split; [by apply (known_blocks_bounded n Hn i)|].
    intros [Hi _]%elem_of_disconnect. by apply (banned_disconnected n Hn i).
Qed.

(** A peer that is disconnected may be banned. *)
Lemma ok_ban id f n :
  (∀ s, known_blocks (f s) = known_blocks s) → net_ok n → net_ok (disconnect id (upd_peer id f n)).
Proof.
  intros Hf Hn. apply (ok_retable n); try done.
  - change (sublist (peer_ids (upd_peer id f n)) (peer_ids n)). by rewrite peer_ids_upd_peer.
  - by intros i [Hi _]%elem_of_disconnect.
  - intros i s (s0 & H0 & Hs)%elem_of_upd_peer.
    pose proof (known_blocks_bounded n Hn i s0 H0). pose proof (banned_disconnected n Hn i s0 H0).
    rewrite elem_of_disconnect. destruct Hs as [[-> ?]|[-> ->]]; [naive_solver|]. rewrite Hf. naive_solver.
Qed.

Lemma ok_erase id n : net_ok n → net_ok (erase_peer id n).
Proof.
  intros Hn. apply (ok_retable n); try done; [apply fmap_sublist, sublist_filter|].
  intros i s. unfold erase_peer. cbn. rewrite list_elem_of_filter. intros [_ Hs].
  split; [by apply (known_blocks_bounded n Hn i)|]. by apply (banned_disconnected n Hn i).
Qed.

Lemma ok_add_peer s n :
  (length (known_blocks s) ≤ Z.to_nat KNOWN_BLOCKS_WINDOW)%nat → net_ok n → net_ok (add_peer s n).
Proof.
  intros Hs Hn. assert (peer_ids (add_peer s n) = peer_ids n ++ [_next_peer_id n]) as Hids.
  { unfold peer_ids, add_peer. cbn. by rewrite fmap_app. }
  assert (_next_peer_id n ∉ _connections n) as Hnc.
  { intros H%(connections_used n Hn). lia. }
  pose proof (next_positive n Hn). assert (0 < _next_peer_id (add_peer s n)) by (unfold add_peer; cbn; lia).
  split; rewrite ?Hids; try done; try apply Hn.
  - pose proof (ids_sorted n Hn) as Hsort. pose proof (ids_used n Hn) as Hu. clear -Hsort Hu.
    induction Hsort as [|x l Hl IH Hx]; [by repeat constructor|]. simpl.
    constructor; [apply IH; intros; apply Hu; by right|].
    apply Forall_app. split; [done|]. constructor; [|done]. apply Hu. by left.
  - intros i [Hi|Hi%list_elem_of_singleton]%elem_of_app; unfold add_peer; cbn; [|lia].
    pose proof (ids_used n Hn i Hi). lia.
  - intros i Hi%(connections_used n Hn). unfold add_peer. cbn. lia.
  - intros i s' Hin Hc. unfold add_peer in Hin. cbn in Hin. change (i ∈ _connections n) in Hc.
    apply elem_of_app in Hin as [Hin|[= -> ->]%list_elem_of_singleton]; [by apply (banned_disconnected n Hn i)|done].
  - intros i s' Hin. unfold add_peer in Hin. cbn in Hin.
    apply elem_of_app in Hin as [Hin|[= -> ->]%list_elem_of_singleton]; [by apply (known_blocks_bounded n Hn i)|done].
Qed.

(** ** Operations on the peers *)

Lemma gentle_id : gentle id.
Proof. done. Qed.

Lemma gentle_compose f g : gentle f → gentle g → gentle (λ s, f (g s)).
Proof. intros Hf Hg s. destruct (Hg s), (Hf (g s)). auto. Qed.

Lemma gentle_if (b : peer_state → bool) f g : gentle f → gentle g → gentle (λ s, if b s then f s else g s).
Proof. intros Hf Hg s. destruct (b s); [apply Hf|apply Hg]. Qed.

Lemma gentle_enter l now : l ≠ BANNED → gentle (enter l now).
Proof. intros Hl s. by split. Qed.

Lemma gentle_record_known_block id : gentle (record_known_block id).
Proof.
  intros s. split; [|done]. unfold record_known_block. cbn. rewrite length_app. simpl.
  destruct (Z.leb_spec KNOWN_BLOCKS_WINDOW (Z.of_nat (length (known_blocks s)))); rewrite ?length_drop;
    unfold KNOWN_BLOCKS_WINDOW in *; lia.
Qed.

(** Updates that leave the blocks alone, case by case. *)
Ltac gentle := intros ?; cbv beta zeta; repeat case_match; (split; cbn; [done|congruence]).

Lemma ok_fold {A} (f : p2p → A → p2p) (l : list A) n :
  (∀ n a, net_ok n → net_ok (f n a)) → net_ok n → net_ok (foldl f n l).
Proof. intros Hf. revert n. induction l as [|a l IH]; intros n Hn; [done|]. apply IH, Hf, Hn. Qed.

#[local] Hint Resolve gentle_record_known_block ok_send ok_disconnect ok_erase : core.

Lemma ok_soft_ban now id reason n : net_ok n → net_ok (soft_ban_peer now id reason n).
Proof. intros Hn. unfold soft_ban_peer. destruct (peer_of id n); [|done]. apply ok_ban; [done|auto]. Qed.

Lemma ok_on_dlt_soft_ban now id d reason n : net_ok n → net_ok (on_dlt_soft_ban now id d reason n).
Proof. intros Hn. unfold on_dlt_soft_ban. destruct (peer_of id n); [|done]. by apply ok_ban. Qed.

Lemma ok_record_packet_result now id b n : net_ok n → net_ok (record_packet_result now id b n).
Proof.
  intros Hn. unfold record_packet_result. destruct (peer_of id n); [|done].
  destruct b; [apply ok_upd_peer; [gentle|done]|]. set (n1 := upd_peer _ _ _).
  assert (net_ok n1) by (apply ok_upd_peer; [gentle|done]).
  destruct (peer_of id n1); [|done]. destruct (_ <=? _); [by apply ok_soft_ban|done].
Qed.
#[local] Hint Resolve ok_record_packet_result : core.

Lemma ok_unban_check now n : net_ok n → net_ok (unban_check now n).
Proof. apply ok_upd_peers. unfold unban, is_one_of. gentle. Qed.

Lemma ok_emergency_peer_reset now n : net_ok n → net_ok (emergency_peer_reset now n).
Proof.
  intros Hn. unfold emergency_peer_reset. set (n1 := upd_peers _ _).
  apply (ok_same n1); [done|]. apply ok_upd_peers; [|by apply (ok_same n)].
  intros s. unfold reset_peer, is_one_of. cbv zeta. case_bool_decide; case_bool_decide; by split; cbn.
Qed.

Lemma ok_block_validation_timeout now n : net_ok n → net_ok (block_validation_timeout now n).
Proof.
  apply ok_fold. intros m p Hm. destruct (peer_of p.1 m); [|done]. destruct (has_pending_batch_timeout _ _); [|done].
  apply ok_upd_peer; [gentle|auto].
Qed.

Lemma ok_connect_to_peer now ep n : net_ok n → net_ok (connect_to_peer now ep n).
Proof.
  intros Hn. unfold connect_to_peer. destruct (_ <=? _); [done|].
  destruct (find _ _) as [[id s]|]; [|apply ok_add_peer; [simpl; lia|done]].
  destruct (is_one_of _ _); [|done]. apply ok_upd_peer; [|done]. intros s0. split; cbn; [lia|done].
Qed.
#[local] Hint Resolve ok_connect_to_peer : core.

(** A connection to a peer that is not banned. *)
Lemma ok_connect id n :
  net_ok n → 0 < id < _next_peer_id n →
  (∀ s, (id, s) ∈ _peer_states n → lifecycle_state s ≠ BANNED) →
  net_ok (n <| _connections ::= λ c, {[id]} ∪ c |>).
Proof.
  intros Hn Hid Hb. set (n1 := set_field _ n).
  assert (∀ i, i ∈ _connections n1 ↔ i = id ∨ i ∈ _connections n) as Hc by (intros i; unfold n1; cbn; set_solver).
  split; try exact (next_positive n Hn); try apply Hn.
  - intros i [->|Hi]%Hc; [done|]. by apply (connections_used n Hn).
  - intros i s Hs [->|Hi]%Hc; [by apply Hb|]. by apply (banned_disconnected n Hn i).
Qed.

Lemma peer_of_used id n s : net_ok n → peer_of id n = Some s → 0 < id < _next_peer_id n.
Proof.
  unfold peer_of. intros Hn ([i s'] & Hf & _)%fmap_Some.
  apply find_some in Hf as [Hin Hi%Z.eqb_eq]. simpl in Hi. subst i. apply (ids_used n Hn).
  apply list_elem_of_fmap. exists (id, s'). split; [done|]. by apply list_elem_of_In.
Qed.

Lemma ok_connect_done now id h n : net_ok n → net_ok (connect_done now id h n).
Proof.
  intros Hn. unfold connect_done. destruct (peer_of id n) as [s|] eqn:Hs; [|done]. apply ok_send.
  set (f := λ s, enter HANDSHAKING now s <| connected_since := now |>).
  change (net_ok ((upd_peer id f n) <| _connections ::= λ c, {[id]} ∪ c |>)). apply ok_connect.
  - apply ok_upd_peer; [gentle|done].
  - by apply (peer_of_used id n s).
  - by intros s' (s0 & _ & [[_ ?]|[-> _]])%elem_of_upd_peer.
Qed.

Lemma ok_connect_failed now id n : net_ok n → net_ok (connect_failed now id n).
Proof. apply ok_upd_peer. gentle. Qed.

Lemma ok_is_ip_blocked now ip n : net_ok n → net_ok (is_ip_blocked now ip n).2.
Proof.
  intros Hn. unfold is_ip_blocked. destruct (_ !! _); [|done]. destruct (_ <=? _); [by apply (ok_same n)|done].
Qed.

Lemma ok_accept_connection now ep h n : net_ok n → net_ok (accept_connection now ep h n).
Proof.
  intros Hn. unfold accept_connection. destruct (_ <=? _); [done|]. set (n1 := add_peer _ _).
  assert (net_ok n1) as H1.
  { pose proof (next_positive n Hn). set (s0 := set_field _ new_peer) in n1.
    change (net_ok ((add_peer s0 n) <| _connections ::= λ c, {[_next_peer_id n]} ∪ c |>)). apply ok_connect; [by apply ok_add_peer; [simpl; lia|]|unfold add_peer; cbn; lia|].
    intros s [Hs|[= ->]%list_elem_of_singleton]%elem_of_app; [|done].
    assert (_next_peer_id n ∈ peer_ids n) as Hx by (apply list_elem_of_fmap; by exists (_next_peer_id n, s)).
    apply (ids_used n Hn) in Hx. lia. }
  pose proof (ok_is_ip_blocked now ep.1 n1 H1) as H2. destruct (is_ip_blocked now ep.1 n1) as [blocked n2]. simpl in H2.
  destruct (_ || _); [auto|]. apply ok_send, ok_upd_peer; [gentle|done].
Qed.

Lemma ok_handle_disconnect now id b r n : net_ok n → net_ok (handle_disconnect now id b r n).
Proof.
  intros Hn. unfold handle_disconnect. destruct (peer_of id n); [|done].
  assert (net_ok (disconnect id (upd_peer id (session_over now) n))) as H1.
  { apply ok_disconnect, ok_upd_peer; [|done]. unfold session_over. gentle. }
  destruct (is_incoming _); [auto|]. apply ok_upd_peer; [|done].
  unfold back_off. intros s. cbv zeta. destruct b; by split.
Qed.
#[local] Hint Resolve ok_handle_disconnect : core.

Lemma ok_periodic_reconnect_check now n : net_ok n → net_ok (periodic_reconnect_check now n).
Proof.
  intros Hn. unfold periodic_reconnect_check, evict_excess.
  apply ok_fold; [auto|]. apply ok_fold; [|apply ok_fold; [|done]].
  - intros m p Hm. unfold forget_stale. destruct (_ && _); [|done].
    apply (ok_same (erase_peer p.1 m)); [done|auto].
  - intros m k Hm. unfold reconnect_known. destruct (find _ _) as [[id s]|]; [|done].
    destruct (is_one_of _ _); [|done]. destruct (_ <? _).
    + apply (ok_same (erase_peer id m)); [done|auto].
    + destruct (_ && _); auto.
Qed.

Lemma ok_periodic_lifecycle_timeout_check now rs n : net_ok n → net_ok (periodic_lifecycle_timeout_check now rs n).
Proof. apply ok_fold. auto. Qed.

Lemma ok_reconnect_seeds now n : net_ok n → net_ok (reconnect_seeds now n).
Proof.
  apply ok_fold. intros m ep Hm. apply ok_connect_to_peer.
  destruct (find _ _) as [[id s]|]; [|done]. apply ok_upd_peer; [gentle|done].
Qed.

Lemma ok_start_seeds now n : net_ok n → net_ok (start_seeds now n).
Proof. apply ok_fold. intros m ep Hm. apply ok_add_peer; [simpl; lia|]. by apply (ok_same m). Qed.

Lemma ok_peer_exchange_request now id n : net_ok n → net_ok (on_dlt_peer_exchange_request now id n).
Proof.
  intros Hn. unfold on_dlt_peer_exchange_request. destruct (peer_of id n); [|done].
  destruct (_isolated_peers n); [auto|]. destruct (is_peer_exchange_rate_limited _ _); [auto|].
  apply ok_record_packet_result, ok_send, ok_upd_peer; [|done]. unfold record_peer_exchange_request. gentle.
Qed.

Lemma ok_peer_exchange_reply now id ps n : net_ok n → net_ok (on_dlt_peer_exchange_reply now id ps n).
Proof.
  intros Hn. unfold on_dlt_peer_exchange_reply. destruct (_isolated_peers n); [done|].
  apply ok_record_packet_result, ok_fold; [|done]. intros m i Hm. unfold learn_peer.
  destruct (_ =? _); [done|]. destruct (decide _); [done|]. destruct (_ <=? _); [done|]. cbv zeta.
  set (m1 := set_field _ m). assert (net_ok m1) by (by apply (ok_same m)). destruct (_ <? _); auto.
Qed.

Lemma ok_peer_exchange_rate_limited now id n : net_ok n → net_ok (on_dlt_peer_exchange_rate_limited now id n).
Proof. intros Hn. apply ok_record_packet_result, ok_upd_peer; [gentle|done]. Qed.

Lemma ok_periodic_peer_exchange now r n : net_ok n → net_ok (periodic_peer_exchange now r n).
Proof.
  intros Hn. unfold periodic_peer_exchange. destruct (_isolated_peers n); [done|]. destruct (negb _); [done|].
  cbv zeta. destruct (omap _ _) as [|c cs]; [done|].
  destruct (0 <? _); [destruct (_ <? _); [done|]|]; (destruct (_ !! _); [apply ok_send|]); try done; by apply (ok_same n).
Qed.

Lemma ok_send_to_all m ex b n : net_ok n → net_ok (send_to_all_our_fork_peers m ex b n).
Proof.
  apply ok_fold. intros n' id Hn. cbv zeta. destruct (negb _); [|auto]. apply ok_upd_peer; auto.
Qed.

Lemma ok_block_incoming_ip now ip n : net_ok n → net_ok (block_incoming_ip now ip n).
Proof. intros Hn. unfold block_incoming_ip. cbv zeta. destruct (_ <? _)%nat; [done|]. by apply (ok_same n). Qed.

Lemma ok_set_mempool m n :
  mempool_ok m → limits m = limits (_mempool n) → net_ok n → net_ok (on_mempool (λ _, m) n).
Proof.
  intros Hm Hlim Hn. split; try exact (next_positive n Hn); try apply Hn; [done|].
  by apply (limits_ok_same (_mempool n)); [|apply Hn].
Qed.

Lemma ok_on_mempool f n :
  (∀ m, mempool_ok m → limits_ok m → mempool_ok (f m) ∧ limits (f m) = limits m) → net_ok n → net_ok (on_mempool f n).
Proof.
  intros Hf Hn. destruct (Hf (_mempool n) (pool_ok n Hn) (pool_limits n Hn)) as [Hok Hlim].
  by apply (ok_set_mempool (f (_mempool n))).
Qed.

Lemma ok_queue_blocks bs n : net_ok n → net_ok (queue_blocks bs n).
Proof.
  intros Hn. split; try exact (next_positive n Hn); try apply Hn. cbn. rewrite length_app, length_take.
  pose proof (queue_bounded n Hn). lia.
Qed.

Lemma ok_empty_queue n : net_ok n → net_ok (n <| _paused_block_queue := [] |>).
Proof. intros Hn. split; try exact (next_positive n Hn); try apply Hn. cbn. lia. Qed.
End invariant.
