(* ===== verification/DltNode.v ===== *)
(** * The node of the network as a state machine

    [net_event] is what can happen to a node: its peers come, speak and go, the
    periodic task runs, and the rest of the program calls it.  [net_invariant]:
    whatever happens, the tables of the node stay in order.  [paused_run]: while
    the processing of blocks is paused, nothing of it reaches the chain. *)

From stdpp Require Import gmap strings list sorting.
From Stdlib Require Import ZArith Lia.
From S2P Require Import Prelude SignState Operations ChainOperations Block Objects Database EvalAccount Transactions.
From S2P Require Import DltMempool DltMempoolProofs Dlt DltPeers DltSync DltHandlers DltInvariant.

(** ** Operations on the node and its chain *)

Section world.
Context {C : Type} {D : Delegate C} {TE : TransactionEnv} {BH : BlockHash} {MS : MessageSizes}.
Implicit Type w : world C.

Definition fine w : Prop := net_ok (net w).

Lemma fine_on_net f w : (∀ n, net_ok n → net_ok (f n)) → fine w → fine (on_net f w).
Proof. intros Hf. apply Hf. Qed.

Lemma fine_on_chain f w : fine w → fine (on_chain f w).
Proof. done. Qed.

(** Fields the invariant does not speak of. *)
Lemma fine_same f w : (∀ n, same_tables n (f n)) → fine w → fine (on_net f w).
Proof. intros Hf. apply ok_same, Hf. Qed.

Lemma fine_fold {A} (f : world C → A → world C) (l : list A) w :
  (∀ w a, fine w → fine (f w a)) → fine w → fine (foldl f w l).
Proof. intros Hf. revert w. induction l as [|a l IH]; intros w Hw; [done|]. apply IH, Hf, Hw. Qed.

Lemma fine_send peer m w : fine w → fine (send peer m w).
Proof. apply ok_send. Qed.
Lemma fine_good now peer w : fine w → fine (good now peer w).
Proof. apply ok_record_packet_result. Qed.
Lemma fine_bad now peer w : fine w → fine (bad now peer w).
Proof. apply ok_record_packet_result. Qed.
Lemma fine_ban now peer reason w : fine w → fine (ban now peer reason w).
Proof. apply ok_soft_ban. Qed.
Lemma fine_peer_do peer f w : gentle f → fine w → fine (peer_do peer f w).
Proof. apply ok_upd_peer. Qed.
Hint Resolve fine_send fine_good fine_bad fine_ban fine_on_chain ok_send ok_record_packet_result ok_send_to_all : core.

Ltac gentle := intros ?; cbv beta zeta; repeat case_match; (split; cbn; [done|congruence]).

Lemma fine_prune_mempool w : fine w → fine (prune_mempool w).
Proof.
  apply ok_on_mempool. intros m Hm Hl.
  by destruct (prune_shrinks (is_tapos_valid (chain w)) m Hm Hl) as (_ & ? & ?).
Qed.

Lemma fine_add_to_mempool now t b p w : fine w → fine (add_to_mempool now t b p w).2.
Proof.
  intros Hw. unfold add_to_mempool. destruct (enroll _ _ _ _ _ _) as [v m] eqn:H.
  apply enroll_cases in H as (Hm & Hlim & _); [|apply Hw..].
  set (w1 := on_net _ w). assert (fine w1) as H1 by by apply ok_set_mempool.
  destruct v; simpl; try done; destruct (_ && _); try done; [by apply ok_record_packet_result|by apply ok_send_to_all].
Qed.
Hint Resolve fine_prune_mempool fine_add_to_mempool : core.

Lemma fine_send_to_talking m w : fine w → fine (on_net (send_to_talking m) w).
Proof. apply ok_fold. intros n p Hn. destruct (is_talking _); auto. Qed.
Hint Resolve fine_send_to_talking : core.

Lemma fine_transition_to_forward now w : fine w → fine (transition_to_forward now w).
Proof.
  intros Hw. unfold transition_to_forward. cbv zeta. destruct (is_forward _); [by apply fine_on_chain, (fine_same (λ n, _))|].
  apply (ok_on_mempool _ (net _)).
  { intros m Hm Hl. by apply revalidate_ok. }
  apply fine_send_to_talking, ok_upd_peers; [unfold recognize; gentle|].
  apply ok_upd_peers; [unfold is_one_of, enter; gentle|].
  split; try exact (next_positive _ Hw); try apply Hw. by right.
Qed.
Hint Resolve fine_transition_to_forward : core.

Lemma fine_transition_to_sync now w : fine w → fine (transition_to_sync now w).
Proof.
  intros Hw. unfold transition_to_sync. destruct (is_sync w); [done|].
  split; try exact (next_positive _ Hw); try apply Hw. by left.
Qed.
Hint Resolve fine_transition_to_sync : core.

Lemma fine_send_range_request now peer a b w : fine w → fine (send_range_request now peer a b w).
Proof.
  intros Hw. unfold send_range_request. destruct (_ <? _); [done|]. apply ok_send, ok_upd_peer; [|done].
  unfold enter. gentle.
Qed.
Hint Resolve fine_send_range_request : core.

Lemma fine_request_blocks k now peer w : fine w → fine (request_blocks k now peer w).
Proof.
  revert peer w. induction k as [|k IH]; intros peer w Hw; [done|]. cbn [request_blocks].
  destruct (peer_of peer (net w)); [|done]. cbv zeta.
  destruct (_ <=? _); [destruct (_ && _); auto|]. destruct (_ && _); [|auto].
  destruct (find _ _) as [[id s]|]; auto.
Qed.

Lemma fine_request_blocks_from_peer now peer w : fine w → fine (request_blocks_from_peer now peer w).
Proof. apply fine_request_blocks. Qed.
Hint Resolve fine_request_blocks_from_peer : core.

Lemma fine_request_from_all P now w : fine w → fine (request_from_all P now w).
Proof. apply fine_fold. intros v p Hv. destruct (peer_of _ _); [|done]. destruct (P _); auto. Qed.
Hint Resolve fine_request_from_all : core.

Lemma gap_fill_ready_tables now n n' : gap_fill_ready now n = Some n' → same_tables n n'.
Proof.
  unfold gap_fill_ready. cbv zeta. destruct (_ && _); [done|]. destruct (_ && _); [done|]. destruct (_ && _); [done|].
  by intros [= <-].
Qed.

Lemma fine_request_gap_fill now w : fine w → fine (request_gap_fill now w).
Proof.
  intros Hw. unfold request_gap_fill. cbv zeta. destruct (gap_fill_ready now (net w)) as [n|] eqn:Hg.
  - apply gap_fill_ready_tables in Hg. assert (fine (mk_world n (chain w))) as H1 by by apply (ok_same (net w)).
    destruct (_ =? _); [done|]. destruct (gap_peers _ _ _ _ _) as [[best mx] any].
    destruct (_ <=? _); [by apply (fine_same (λ n, _))|].
    destruct (negb _); [apply ok_send; by apply (ok_same n)|].
    destruct (negb _); [apply ok_send; by apply (ok_same n)|]. by apply (ok_same n).
  - destruct (_ && _); [by apply (fine_same (λ n, _))|done].
Qed.
Hint Resolve fine_request_gap_fill : core.

Lemma fine_sync_stagnation_check now w : fine w → fine (sync_stagnation_check now w).
Proof.
  intros Hw. unfold sync_stagnation_check. cbv zeta.
  destruct (negb _); [done|]. destruct (_ =? _); [done|]. destruct (_ <? _); [done|].
  set (w1 := on_net _ w). assert (fine w1) as H1 by by apply (fine_same (λ n, _)).
  destruct (_ <=? _); [auto|]. apply (fine_same (λ n, _)); [done|auto].
Qed.

Lemma fine_isolated now b w : fine w → fine (isolated now b w).
Proof.
  intros Hw. unfold isolated. cbv zeta. destruct (_ =? _); [by apply (fine_same (λ n, _))|].
  destruct (_ <? _); [|done]. apply ok_emergency_peer_reset. destruct b; [by apply fine_transition_to_sync|done].
Qed.
Hint Resolve fine_isolated : core.

Lemma fine_check_sync_catchup now w : fine w → fine (check_sync_catchup now w).
Proof.
  intros Hw. unfold check_sync_catchup. cbv zeta. destruct (negb _); [done|]. destruct (_ =? _); [done|].
  destruct (survey _ _ _ _) as [[a k] h]. destruct (_ =? _); [auto|].
  set (w1 := on_net _ w). assert (fine w1) as H1 by by apply (fine_same (λ n, _)).
  destruct (_ && _); [|done]. destruct (_ <? _); auto.
Qed.
Hint Resolve fine_check_sync_catchup : core.

Lemma fine_check_forward_behind now w : fine w → fine (check_forward_behind now w).
Proof.
  intros Hw. unfold check_forward_behind. cbv zeta. destruct (negb _); [done|]. destruct (_ && _); [done|].
  destruct (existsb _ _); auto.
Qed.

Lemma fine_check_forward_stagnation now w : fine w → fine (check_forward_stagnation now w).
Proof.
  intros Hw. unfold check_forward_stagnation. cbv zeta. destruct (negb _); [done|].
  destruct (_ || _); [by apply (fine_same (λ n, _))|]. destruct (_ <? _); [by apply (fine_same (λ n, _))|].
  destruct (_ <=? _); [done|]. destruct (negb _); [auto|].
  set (w1 := on_net _ w). assert (fine w1) as H1 by by apply (fine_same (λ n, _)).
  destruct (negb _); [by apply (fine_same (λ n, _))|auto].
Qed.

Lemma fine_resolve_fork w : fine w → fine (resolve_fork w).
Proof.
  intros Hw. unfold resolve_fork.
  assert (∀ x (v : world C), x ∈ [DLT_FORK_STATUS_NORMAL; DLT_FORK_STATUS_LOOKING_RESOLUTION; DLT_FORK_STATUS_MINORITY] →
    fine v → fine (on_net (λ n, n <| _fork_status := x |>) v)) as Hst.
  { intros x v Hx Hv. split; try exact (next_positive _ Hv); try apply Hv. done. }
  destruct (get_fork_branch_tips _) as [|t [|t' ts]].
  1,2: split; try exact (next_positive _ Hw); try apply Hw; cbn; set_solver.
  cbv zeta. set (w1 := on_net _ w).
  assert (fine w1) as H1. { apply fine_same; [|done]. intros n. by destruct (_ =? _). }
  destruct (_ <? _); [done|]. apply (fine_same (λ n, _)); [done|].
  destruct (is_head_on_branch _ _); [apply Hst; [set_solver|done]|].
  apply fine_prune_mempool, fine_on_chain, Hst; [set_solver|done].
Qed.
Hint Resolve fine_resolve_fork : core.

Lemma fine_track_fork_state b w : fine w → fine (track_fork_state b w).
Proof.
  intros Hw. unfold track_fork_state. cbv zeta.
  destruct ((1 <? length (get_fork_branch_tips (chain w)))%nat && negb (_fork_detected (net w))).
  - match goal with |- fine (if _ then resolve_fork ?v else _) => assert (fine v) as H1 end.
    { split; try exact (next_positive _ Hw); try apply Hw; cbn; set_solver. }
    destruct (_ && _); auto.
  - destruct (_ && _); auto.
Qed.

Lemma fine_on_block_applied b f w : fine w → fine (on_block_applied b f w).
Proof.
  intros Hw. unfold on_block_applied. cbv zeta. apply ok_upd_peers; [unfold advance_expected; gentle|].
  assert (∀ v : world C, fine v → fine (periodic_dlt_prune_check v)) as Hp.
  { intros v Hv. unfold periodic_dlt_prune_check. cbv zeta. repeat case_match; try done. by apply (fine_same (λ n, _)). }
  apply Hp. set (w1 := track_fork_state b _). assert (fine w1) as H1.
  { apply fine_track_fork_state. apply ok_on_mempool; [|done]. intros m Hm Hl.
    by destruct (remove_shrinks (Block.transactions b) m Hm Hl) as (_ & ? & ?). }
  destruct f; auto.
Qed.
Hint Resolve fine_on_block_applied : core.

(** ** Messages *)

Lemma fine_call_accept_block b m w : fine w → fine (call_accept_block b m w).1.
Proof. unfold call_accept_block. by destruct (accept_block _ _ _). Qed.

Lemma fine_block_received now w : fine w → fine (block_received now w).
Proof. by apply (fine_same (λ n, _)). Qed.
Hint Resolve fine_block_received : core.

Lemma gentle_enable_exchange : gentle enable_exchange.
Proof. unfold enable_exchange. gentle. Qed.
Lemma gentle_expect_after b : gentle (expect_after b).
Proof. gentle. Qed.
Lemma gentle_expect_enable b : gentle (λ s, expect_after b (enable_exchange s)).
Proof. apply (gentle_compose (expect_after b) enable_exchange); [apply gentle_expect_after|apply gentle_enable_exchange]. Qed.
Hint Resolve gentle_enable_exchange gentle_expect_after gentle_expect_enable fine_peer_do : core.

Lemma fine_on_dlt_hello now r peer h w : fine w → fine (on_dlt_hello now r peer h w).
Proof.
  intros Hw. unfold on_dlt_hello. cbv zeta. destruct (peer_of _ _); [|done].
  set (w1 := peer_do peer _ w). assert (fine w1) as H1 by (apply fine_peer_do; [gentle|done]).
  destruct (_ && _); [by apply ok_handle_disconnect|].
  set (w2 := good now peer _). assert (fine w2).
  { apply fine_good, fine_peer_do.
    - intros s. destruct (_ && _); [by apply gentle_enter|done].
    - apply fine_send, fine_peer_do; [gentle|]. apply fine_peer_do; [gentle|done]. }
  destruct (_ && _); auto.
Qed.

Lemma fine_on_dlt_hello_reply now peer r w : fine w → fine (on_dlt_hello_reply now peer r w).
Proof.
  intros Hw. unfold on_dlt_hello_reply. cbv zeta. destruct (peer_of _ _); [|done].
  set (w2 := good now peer _). assert (fine w2).
  { apply fine_good, fine_peer_do; [|done]. intros s. destruct (is_one_of _ _); by split. }
  destruct (peer_of _ _); [|done]. destruct (exchange_enabled _); [|done].
  destruct (is_sync _); [auto|]. destruct (_ && _); auto.
Qed.

Lemma fine_on_dlt_range_reply now peer a b h w : fine w → fine (on_dlt_range_reply now peer a b h w).
Proof.
  intros Hw. unfold on_dlt_range_reply. destruct (peer_of _ _); [|done]. destruct h; [|auto].
  apply fine_request_blocks_from_peer, fine_peer_do; [gentle|done].
Qed.

Lemma fine_on_dlt_get_block_range now peer a b w : fine w → fine (on_dlt_get_block_range now peer a b w).
Proof. intros Hw. unfold on_dlt_get_block_range. cbv zeta. destruct (collect_range _ _ _ _). auto. Qed.

Lemma fine_on_dlt_gap_fill_request now peer nums w : fine w → fine (on_dlt_gap_fill_request now peer nums w).
Proof. intros Hw. unfold on_dlt_gap_fill_request. destruct (peer_of _ _); [|done]. destruct (_ || _); auto. Qed.

Lemma fine_see_block peer num w : fine w → fine (see_block peer num w).
Proof. intros Hw. apply (fine_same (λ n, _)); [done|]. apply fine_peer_do; [gentle|done]. Qed.
Hint Resolve fine_see_block : core.

Lemma fine_accept_range now peer bs a f w : fine w → fine (accept_range now peer bs a f w).1.1.1.
Proof.
  revert a f w. induction bs as [|b bs IH]; intros a f w Hw; [done|]. simpl.
  destruct (peer_of _ _); [|done]. destruct (_block_processing_paused _); [done|].
  destruct (is_duplicate _ _ _); [auto|].
  pose proof (fine_call_accept_block b (is_sync w) w Hw) as H1.
  destruct (call_accept_block b (is_sync w) w) as [w1 [[]| |]]; simpl in *; auto 6.
Qed.

Lemma fine_on_dlt_block_range_reply now peer bs next l w :
  fine w → fine (on_dlt_block_range_reply now peer bs next l w).2.
Proof.
  intros Hw. unfold on_dlt_block_range_reply. destruct (peer_of _ _); [|done]. destruct bs as [|b bs]; [by apply fine_good|].
  cbv zeta. match goal with |- context [accept_range now peer (b :: bs) false false ?v] => set (w1 := v) end.
  assert (fine w1) as H1 by (apply fine_peer_do; [gentle|auto]).
  pose proof (fine_accept_range now peer (b :: bs) false false w1 H1) as H2.
  destruct (accept_range _ _ _ _ _ _) as [[[w2 []] a] f]; cbn [fst snd] in *; [done|].
  set (w3 := peer_do peer _ w2). assert (fine w3) as H3 by (apply fine_peer_do; [gentle|done]).
  destruct (peer_of _ _); [|done]. destruct (is_one_of _ _); [done|].
  set (w4 := on_net _ w3). assert (fine w4) as H4 by by apply ok_record_packet_result.
  destruct (negb _); [done|]. destruct a.
  - set (w5 := peer_do peer _ w4). assert (fine w5) as H5 by (apply fine_peer_do; [gentle|done]).
    destruct l; [auto|]. destruct (_ <? _); auto.
  - destruct (_ && _); [|done].
    set (w5 := peer_do peer _ w4). assert (fine w5) as H5 by (apply fine_peer_do; [gentle|done]).
    destruct (peer_of _ _); [|done]. destruct (_ <=? _); auto.
Qed.

Lemma fine_count_rejection now num w : fine w → fine (on_net (count_rejection now num) w).
Proof. apply fine_same. intros n. unfold count_rejection. cbv zeta. by repeat case_match. Qed.
Hint Resolve fine_count_rejection : core.

Lemma fine_out_of_order now peer b w : fine w → fine (out_of_order now peer b w).
Proof.
  intros Hw. unfold out_of_order. cbv zeta.
  destruct (u32 (get_head_block_num (chain w) + 1) <? block_num b); destruct (_ && _); auto.
Qed.

Lemma fine_after_block_reply now peer next l b w : fine w → fine (after_block_reply now peer next l b w).
Proof.
  intros Hw. unfold after_block_reply. cbv zeta. set (w1 := good now peer _).
  assert (fine w1) as H1 by (apply fine_good, fine_peer_do; auto). destruct (peer_of _ _); [|done]. destruct (_ && _); [|done].
  destruct (_ <? _); [auto|]. destruct l; [|done]. apply fine_check_sync_catchup, fine_peer_do; [gentle|done].
Qed.
Hint Resolve fine_out_of_order fine_after_block_reply : core.

Lemma fine_on_dlt_block_reply now peer b next l w : fine w → fine (on_dlt_block_reply now peer b next l w).2.
Proof.
  intros Hw. unfold on_dlt_block_reply. destruct (_block_processing_paused _); [done|].
  destruct (peer_of _ _) as [s|]; [|done]. cbv zeta.
  destruct (_ && is_duplicate _ _ _); [by apply fine_good, fine_see_block|].
  match goal with |- context [call_accept_block b false ?v] => set (w1 := v) end.
  assert (fine w1) as H1 by (unfold w1; destruct (_ && _); auto).
  pose proof (fine_call_accept_block b false w1 H1) as H2.
  destruct (call_accept_block b false w1) as [w2 [[]| |]]; cbn [fst snd] in *; auto.
  apply fine_after_block_reply, fine_check_sync_catchup, ok_send_to_all, fine_peer_do; [|auto].
  apply (gentle_compose (record_known_block _) enable_exchange); [apply gentle_record_known_block|auto].
Qed.

Lemma fine_gap_dead_fork now peer w : fine w → fine (gap_dead_fork now peer w).
Proof.
  intros Hw. unfold gap_dead_fork. cbv zeta. destruct (peer_of _ _); [|done]. destruct (_ <? _); [|auto].
  apply fine_request_blocks_from_peer, fine_transition_to_sync. destruct (_ && _); [|done].
  by apply (fine_same (λ n, _)).
Qed.
Hint Resolve fine_gap_dead_fork : core.

Lemma fine_accept_gap now peer bs w : fine w → fine (accept_gap now peer bs w).2.
Proof.
  revert w. induction bs as [|b bs IH]; intros w Hw; [done|]. simpl. destruct (_block_processing_paused _); [done|].
  pose proof (fine_call_accept_block b false w Hw) as H1.
  destruct (call_accept_block b false w) as [w1 [[]| |]]; simpl in *; auto.
Qed.

Lemma fine_on_dlt_gap_fill_reply now peer bs w : fine w → fine (on_dlt_gap_fill_reply now peer bs w).2.
Proof.
  intros Hw. unfold on_dlt_gap_fill_reply. destruct (_block_processing_paused _); [done|].
  destruct (peer_of _ _); [|done]. cbv zeta. set (w1 := on_net _ w).
  assert (fine w1) as H1 by by apply (fine_same (λ n, _)). pose proof (fine_accept_gap now peer bs w1 H1).
  destruct (accept_gap _ _ _ _) as [[] w2]; simpl in *; auto.
Qed.

Lemma fine_on_dlt_fork_status now peer m w : fine w → fine (on_dlt_fork_status now peer m w).
Proof.
  intros Hw. unfold on_dlt_fork_status. destruct (peer_of _ _); [|done]. cbv zeta.
  apply fine_good, (fine_same (λ n, _)); [done|]. apply fine_peer_do; [gentle|done].
Qed.

Lemma fine_on_dlt_transaction now peer t w : fine w → fine (on_dlt_transaction now peer t w).
Proof.
  intros Hw. unfold on_dlt_transaction. pose proof (fine_add_to_mempool now t true peer w Hw) as H1.
  destruct (add_to_mempool _ _ _ _ _) as [[] w1]; auto.
Qed.

Lemma fine_range_fallback peer w : fine w → fine (range_fallback peer w).
Proof.
  intros Hw. unfold range_fallback. destruct (peer_of _ _); [|done]. cbv zeta.
  set (w1 := peer_do peer _ w). assert (fine w1) as H1 by (apply fine_peer_do; [gentle|done]).
  destruct (is_sync _); auto.
Qed.

Lemma fine_dispatch now r peer m w : fine w → fine (dispatch now r peer m w).2.
Proof.
  intros Hw. destruct m; simpl; auto using fine_on_dlt_hello, fine_on_dlt_hello_reply, fine_on_dlt_range_reply,
    fine_on_dlt_get_block_range, fine_on_dlt_block_range_reply, fine_on_dlt_block_reply, fine_on_dlt_fork_status,
    fine_on_dlt_transaction, fine_on_dlt_gap_fill_request, fine_on_dlt_gap_fill_reply.
  - unfold on_dlt_range_request. cbv zeta. auto.
  - pose proof (fine_on_dlt_block_range_reply now peer blocks last_block_next_available is_last w Hw) as H1.
    destruct (on_dlt_block_range_reply _ _ _ _ _ _) as [[] w1]; [done|by apply fine_range_fallback].
  - unfold on_dlt_get_block. cbv zeta. auto.
  - by apply ok_peer_exchange_request.
  - by apply ok_peer_exchange_reply.
  - by apply ok_peer_exchange_rate_limited.
  - by apply ok_on_dlt_soft_ban.
  - destruct (_ =? _); simpl; [by apply fine_range_fallback|done].
Qed.

Lemma fine_on_message now r peer m w : fine w → fine (on_message now r peer m w).2.
Proof.
  intros Hw. unfold on_message. destruct (peer_of _ _); [|done].
  destruct (_block_processing_paused _); [|by apply fine_dispatch].
  destruct m; simpl; try done; try (by apply ok_queue_blocks).
  - by apply fine_on_dlt_hello.
  - by apply fine_on_dlt_hello_reply.
  - by apply fine_on_dlt_fork_status.
  - destruct (bool_decide _); [|done]. destruct (_ =? _); simpl; [by apply fine_range_fallback|done].
Qed.

Lemma fine_read_message now r peer m w : fine w → fine (read_message now r peer m w).
Proof.
  intros Hw. unfold read_message. pose proof (fine_on_message now r peer m w Hw) as H1.
  destruct (on_message _ _ _ _ _) as [[] w1]; [done|by apply ok_handle_disconnect].
Qed.

Lemma fine_read_oversized now r peer w : fine w → fine (read_oversized now r peer w).
Proof.
  intros Hw. apply ok_handle_disconnect. destruct (peer_of _ _); [|done]. destruct (negb _); [|done].
  by apply ok_block_incoming_ip.
Qed.

(** ** Pausing and the periodic task *)

Lemma fine_drain_blocks now bs w : fine w → fine (drain_blocks now bs w).
Proof.
  revert w. induction bs as [|b bs IH]; intros w Hw; [done|]. simpl. destruct (_block_processing_paused _); [done|].
  pose proof (fine_call_accept_block b false w Hw) as H1.
  destruct (call_accept_block b false w) as [w1 [[]| |]]; simpl in *; auto.
Qed.

Lemma fine_drain_paused_block_queue now w : fine w → fine (drain_paused_block_queue now w).
Proof.
  intros Hw. unfold drain_paused_block_queue. destruct (_paused_block_queue _); [done|].
  apply ok_empty_queue. by apply fine_drain_blocks.
Qed.

Lemma fine_check_catchup w : fine w → fine (check_catchup w).
Proof.
  intros Hw. unfold check_catchup. cbv zeta. destruct (existsb _ _); [done|]. by apply (fine_same (λ n, _)).
Qed.
Hint Resolve fine_drain_paused_block_queue fine_check_catchup : core.

Lemma fine_resume now w : fine w → fine (resume_block_processing now w).
Proof.
  intros Hw. unfold resume_block_processing. cbv zeta. set (w1 := on_net _ w).
  assert (fine w1) as H1 by by apply (fine_same (λ n, _)). destruct (_paused_block_queue _); auto.
Qed.

Lemma fine_periodic_task now rs r w : fine w → fine (periodic_task now rs r w).
Proof.
  intros Hw. unfold periodic_task. cbv zeta. set (w1 := cleanup_mempool now _).
  assert (fine w1) as H1.
  { unfold w1, cleanup_mempool. apply ok_on_mempool.
    - intros m Hm Hl. by edestruct cleanup_shrinks as (_ & ? & ?).
    - by apply ok_block_validation_timeout, ok_periodic_lifecycle_timeout_check, ok_periodic_reconnect_check. }
  destruct (_block_processing_paused _); [by apply ok_unban_check|].
  set (w2 := on_net (periodic_peer_exchange _ _) _). assert (fine w2) as H2.
  { apply ok_periodic_peer_exchange, fine_request_gap_fill, fine_check_forward_stagnation,
      fine_check_forward_behind, fine_check_sync_catchup, fine_sync_stagnation_check. done. }
  apply ok_unban_check. destruct (_catchup_after_pause _); [|done].
  apply fine_check_catchup. by apply fine_drain_paused_block_queue.
Qed.

(** ** Every event *)

Lemma fine_resync now w : fine w → fine (resync_from_lib now w).
Proof.
  intros Hw. unfold resync_from_lib. cbv zeta. apply fine_fold.
  { intros v p Hv. destruct (is_talking _); [|done]. apply fine_request_blocks_from_peer. by apply ok_send. }
  apply fine_transition_to_sync. split; try exact (next_positive _ Hw); try apply Hw. cbn. set_solver.
Qed.

Lemma fine_trigger_resync w : fine w → fine (trigger_resync w).
Proof. apply ok_fold. intros n p Hn. destruct (is_active _); auto. Qed.

Lemma fine_step now e w : fine w → fine (step now e w).
Proof.
  intros Hw. destruct e; simpl.
  - by apply ok_connect_done.
  - by apply ok_connect_failed.
  - by apply ok_accept_connection.
  - by apply fine_read_message.
  - by apply fine_read_oversized.
  - by apply ok_handle_disconnect.
  - by apply fine_periodic_task.
  - by apply ok_start_seeds.
  - by apply (fine_same (λ n, _)).
  - by apply fine_resume.
  - apply fine_on_block_applied. by apply ok_send_to_all.
  - by apply ok_send_to_all.
  - apply ok_send_to_all. by apply fine_add_to_mempool.
  - by apply ok_send_to_all.
  - by apply fine_resync.
  - by apply fine_trigger_resync.
  - by apply ok_reconnect_seeds.
  - by apply ok_emergency_peer_reset.
  - done.
Qed.

Lemma fine_run es w : fine w → fine (run es w).
Proof. apply fine_fold. intros. by apply fine_step. Qed.

(** C5 (invariant).  Whatever happens to a node, in any order and at any times: the
    identifiers of its peers are distinct and never used again, a banned peer is not
    connected, no peer's list of known blocks, nor the queue of a pause, grows beyond
    its limit, the pool of transactions agrees with its index by expiration and the sum
    of its sizes and stays within its limits, and the mode and the fork status are among
    those there are. *)
Theorem net_invariant seeds max_connections my_node_id isolated max_tx max_bytes max_tx_size max_hours
    max_per_reply max_per_subnet min_uptime max_disconnect_hours max_log (c : C) (es : list (Z * net_event C)) :
  0 ≤ max_tx → 0 ≤ max_bytes → 0 ≤ max_tx_size → max_bytes + max_tx_size < 2 ^ 32 →
  net_ok (net (run es (mk_world
    (new_node seeds max_connections my_node_id isolated (empty_mempool max_tx max_bytes max_tx_size max_hours)
      max_per_reply max_per_subnet min_uptime max_disconnect_hours max_log) c))).
Proof.
  intros Ha Hb Hc Hd. apply fine_run. split; cbn; try lia; try set_solver; [constructor|by apply empty_mempool_ok|done].
Qed.

(** ** While the processing is paused *)

(** What the peers and the periodic task can do. *)
Definition from_outside (e : net_event C) : bool :=
  match e with
  | ev_connected _ | ev_connect_failed _ | ev_accept _ | ev_message _ _ _ | ev_oversized _ _ | ev_disconnect _ _
  | ev_task _ _ => true
  | _ => false
  end.

(** The blocks a message of a known peer brings. *)
Definition blocks_brought (e : net_event C) w : list signed_block :=
  match e with
  | ev_message _ id m =>
      match peer_of id (net w), m with
      | Some _, dlt_block_reply b _ _ => [b]
      | Some _, dlt_block_range_reply bs _ _ | Some _, dlt_gap_fill_reply bs => bs
      | _, _ => []
      end
  | _ => []
  end.

Fixpoint all_brought (es : list (Z * net_event C)) w : list signed_block :=
  match es with
  | [] => []
  | e :: es => blocks_brought e.2 w ++ all_brought es (step e.1 e.2 w)
  end.

Definition pause_state (n : p2p) : bool * list signed_block := (_block_processing_paused n, _paused_block_queue n).
Definition steady (f : p2p → p2p) : Prop := ∀ n, pause_state (f n) = pause_state n.

Lemma steady_fold {A} (f : p2p → A → p2p) l : (∀ a, steady (λ n, f n a)) → steady (λ n, foldl f n l).
Proof.
  intros Hf. induction l as [|a l IH]; intros n; [done|]. simpl. rewrite IH. apply Hf.
Qed.

Lemma steady_send id m : steady (send_message id m).
Proof. intros n. unfold send_message. by destruct (decide _). Qed.

Lemma steady_soft_ban now id reason : steady (soft_ban_peer now id reason).
Proof.
  intros n. unfold soft_ban_peer. destruct (peer_of id n); [|done]. apply (steady_send id _ n).
Qed.

Lemma steady_record now id b : steady (record_packet_result now id b).
Proof.
  intros n. unfold record_packet_result. destruct (peer_of id n); [|done]. destruct b; [done|]. cbv zeta.
  destruct (peer_of _ _); [|done]. destruct (_ <=? _); [|done]. by rewrite steady_soft_ban.
Qed.

Lemma steady_connect_to_peer now ep : steady (connect_to_peer now ep).
Proof.
  intros n. unfold connect_to_peer. destruct (_ <=? _); [done|].
  destruct (find _ _) as [[]|]; [|done]. by destruct (is_one_of _ _).
Qed.

Lemma steady_handle_disconnect now id b r : steady (handle_disconnect now id b r).
Proof. intros n. unfold handle_disconnect. destruct (peer_of id n); [|done]. cbv zeta. by destruct (is_incoming _). Qed.

Lemma steady_connect_done now id h : steady (connect_done now id h).
Proof. intros n. unfold connect_done. destruct (peer_of id n); [|done]. by rewrite steady_send. Qed.

Lemma steady_accept_connection now ep h : steady (accept_connection now ep h).
Proof.
  intros n. unfold accept_connection, is_ip_blocked. destruct (_ <=? _); [done|]. cbv zeta.
  destruct (_ !! _) as [t|]; [destruct (t <=? now)|]; (destruct (_ || _); [done|]); by rewrite steady_send.
Qed.

Lemma steady_periodic_reconnect_check now : steady (periodic_reconnect_check now).
Proof.
  intros n. unfold periodic_reconnect_check, evict_excess. cbv zeta.
  rewrite (steady_fold (λ n d, erase_peer d.2 n)) by done.
  rewrite (steady_fold (λ n p, forget_stale now p n)) by (intros p m; unfold forget_stale; by destruct (_ && _)).
  apply (steady_fold (λ n k, reconnect_known now k n)). intros k m. unfold reconnect_known.
  destruct (find _ _) as [[]|]; [|done]. destruct (is_one_of _ _); [|done]. destruct (_ <? _); [done|].
  destruct (_ && _); [apply steady_connect_to_peer|done].
Qed.

Lemma steady_block_validation_timeout now : steady (block_validation_timeout now).
Proof.
  intros n. apply (steady_fold (λ n p, _)). intros p m. destruct (peer_of _ _); [|done].
  destruct (has_pending_batch_timeout _ _); [|done].
  transitivity (pause_state (record_packet_result now p.1 false m)); [done|apply steady_record].
Qed.

Lemma steady_task now rs n :
  pause_state (block_validation_timeout now (periodic_lifecycle_timeout_check now rs (periodic_reconnect_check now n))) =
  pause_state n.
Proof.
  rewrite steady_block_validation_timeout. unfold periodic_lifecycle_timeout_check.
  rewrite (steady_fold (λ n p, handle_disconnect now p.2.1 false (rs p.1) n)) by (intros; apply steady_handle_disconnect).
  apply steady_periodic_reconnect_check.
Qed.

(** The chain may only be told that the synchronisation is over. *)
Definition quiet w w' : Prop :=
  pause_state (net w') = pause_state (net w) ∧ ∃ k, chain w' = Nat.iter k delegate_clear_syncing (chain w).

Lemma quiet_refl w : quiet w w.
Proof. split; [done|by exists 0%nat]. Qed.

Lemma quiet_trans w1 w2 w3 : quiet w1 w2 → quiet w2 w3 → quiet w1 w3.
Proof.
  intros (H1 & k1 & E1) (H2 & k2 & E2). split; [congruence|]. exists (k2 + k1)%nat. by rewrite E2, E1, Nat.iter_add.
Qed.

Lemma quiet_net f w : steady f → quiet w (on_net f w).
Proof. intros Hf. split; [apply Hf|by exists 0%nat]. Qed.

Lemma quiet_then f w w' : steady f → quiet w w' → quiet w (on_net f w').
Proof. intros Hf Hw. eapply quiet_trans; [exact Hw|by apply quiet_net]. Qed.

Lemma steady_upd_peer id f : steady (upd_peer id f).
Proof. done. Qed.
Lemma steady_upd_peers f : steady (upd_peers f).
Proof. done. Qed.
Lemma steady_on_mempool f : steady (on_mempool f).
Proof. done. Qed.
Lemma steady_send_to_talking m : steady (send_to_talking m).
Proof.
  intros n. apply (steady_fold (λ n p, if is_talking p.2 then send_message p.1 m n else n)).
  intros p n'. destruct (is_talking _); [apply steady_send|done].
Qed.
Hint Resolve quiet_refl steady_send steady_record steady_upd_peer steady_soft_ban steady_handle_disconnect : core.
Hint Resolve steady_upd_peers steady_on_mempool steady_send_to_talking : core.

Lemma quiet_clear w w' : quiet w w' → quiet w (on_chain delegate_clear_syncing w').
Proof. intros (H & k & E). split; [done|]. exists (S k). simpl. by rewrite <- E. Qed.

Lemma quiet_transition_to_forward now w : quiet w (transition_to_forward now w).
Proof.
  unfold transition_to_forward. set (w1 := on_net _ w).
  assert (quiet w (on_chain delegate_clear_syncing w1)) as H1 by by apply quiet_clear, quiet_net.
  cbv zeta. destruct (is_forward _); [done|].
  apply quiet_then; [done|]. apply quiet_then; [done|]. apply quiet_then; [done|]. apply quiet_then; [done|].
  by apply quiet_then.
Qed.

Lemma quiet_request_blocks k now peer w : quiet w (request_blocks k now peer w).
Proof.
  revert peer. induction k as [|k IH]; intros peer; [done|]. cbn [request_blocks].
  destruct (peer_of peer (net w)); [|done]. cbv zeta. unfold send_range_request.
  assert (∀ a b, quiet w (send_range_request now peer a b w)) as Hs.
  { intros a b. unfold send_range_request. destruct (_ <? _); [done|]. cbv zeta.
    apply quiet_then; [done|]. by apply quiet_net. }
  destruct (_ <=? _); [destruct (_ && _); [apply quiet_transition_to_forward|done]|].
  destruct (_ && _); [|apply Hs]. destruct (find _ _) as [[id s]|]; [apply IH|apply Hs].
Qed.

Lemma quiet_transition_to_sync now w : quiet w (transition_to_sync now w).
Proof. unfold transition_to_sync. destruct (is_sync w); [done|]. by apply quiet_net. Qed.

Lemma quiet_on_dlt_hello now r peer h w : quiet w (on_dlt_hello now r peer h w).
Proof.
  unfold on_dlt_hello. cbv zeta. destruct (peer_of _ _); [|done].
  destruct (_ && _); [by apply quiet_then; [|apply quiet_net]|].
  match goal with |- quiet w (if _ then request_blocks_from_peer _ _ ?v else _) => assert (quiet w v) as Hv end.
  { repeat (apply quiet_then; [first [solve [auto]|done]|]). done. }
  destruct (_ && _); [|done]. eapply quiet_trans; [exact Hv|apply quiet_request_blocks].
Qed.

Lemma quiet_on_dlt_hello_reply now peer r w : quiet w (on_dlt_hello_reply now peer r w).
Proof.
  unfold on_dlt_hello_reply. cbv zeta. destruct (peer_of _ _); [|done].
  set (v := good now peer _). assert (quiet w v) as Hv by (repeat (apply quiet_then; [first [solve [auto]|done]|]); done).
  destruct (peer_of _ _); [|done]. destruct (exchange_enabled _); [|done].
  destruct (is_sync _); [eapply quiet_trans; [exact Hv|apply quiet_request_blocks]|].
  destruct (_ && _); [|done].
  eapply quiet_trans; [exact Hv|]. eapply quiet_trans; [apply quiet_transition_to_sync|apply quiet_request_blocks].
Qed.

Lemma quiet_on_dlt_fork_status now peer m w : quiet w (on_dlt_fork_status now peer m w).
Proof.
  unfold on_dlt_fork_status. destruct (peer_of _ _); [|done]. cbv zeta.
  repeat (apply quiet_then; [first [solve [auto]|done]|]). done.
Qed.

Lemma quiet_range_fallback peer w : quiet w (range_fallback peer w).
Proof.
  unfold range_fallback. destruct (peer_of _ _); [|done]. cbv zeta.
  destruct (is_sync _); repeat (apply quiet_then; [first [solve [auto]|done]|]); done.
Qed.

(** What a message or the task does while the processing is paused. *)
Definition paused_step (bs : list signed_block) w w' : Prop :=
  _block_processing_paused (net w') = true ∧
  _paused_block_queue (net w') = take (Z.to_nat PAUSED_QUEUE_MAX) (_paused_block_queue (net w) ++ bs) ∧
  ∃ k, chain w' = Nat.iter k delegate_clear_syncing (chain w).

Lemma paused_quiet w w' :
  fine w → _block_processing_paused (net w) = true → quiet w w' → paused_step [] w w'.
Proof.
  intros Hw Hp ([= E1 E2] & Hk). split; [congruence|]. split; [|done].
  rewrite app_nil_r, E2, take_ge; [done|apply Hw].
Qed.

Lemma paused_queue bs w :
  fine w → _block_processing_paused (net w) = true → paused_step bs w (on_net (queue_blocks bs) w).
Proof.
  intros Hw Hp. split; [done|]. split; [|by exists 0%nat].
  pose proof (queue_bounded _ Hw) as Hq.
  transitivity (_paused_block_queue (net w) ++
    take (Z.to_nat PAUSED_QUEUE_MAX - length (_paused_block_queue (net w))) bs); [done|].
  by rewrite take_app, (take_ge (_paused_block_queue (net w))).
Qed.

Lemma paused_on_message now r id m w :
  fine w → _block_processing_paused (net w) = true →
  paused_step (blocks_brought (ev_message r id m : net_event C) w) w (on_message now r id m w).2.
Proof.
  intros Hw Hp. unfold on_message. simpl. destruct (peer_of _ _); [|by apply paused_quiet].
  rewrite Hp. destruct m; simpl; try (by apply paused_quiet); try (by apply paused_queue).
  - apply paused_quiet; [done..|apply quiet_on_dlt_hello].
  - apply paused_quiet; [done..|apply quiet_on_dlt_hello_reply].
  - apply paused_quiet; [done..|apply quiet_on_dlt_fork_status].
  - destruct (bool_decide _); [|by apply paused_quiet]. destruct (_ =? _); [|by apply paused_quiet].
    apply paused_quiet; [done..|apply quiet_range_fallback].
Qed.

Lemma paused_then bs w w' f : steady f → paused_step bs w w' → paused_step bs w (on_net f w').
Proof. intros Hf (H1 & H2 & H3). pose proof (Hf (net w')) as [= E1 E2]. split; [exact (eq_trans E1 H1)|]. split; [exact (eq_trans E2 H2)|done]. Qed.

Lemma paused_one now (e : net_event C) w :
  from_outside e = true → fine w → _block_processing_paused (net w) = true →
  paused_step (blocks_brought e w) w (step now e w).
Proof.
  intros He Hw Hp. assert (∀ f, steady f → paused_step [] w (on_net f w)) as Hq.
  { intros f Hf. apply paused_quiet; [done..|]. by apply quiet_net. }
  destruct e; simpl in He; try done; simpl step; simpl blocks_brought.
  - apply Hq. intros n. apply steady_connect_done.
  - by apply Hq.
  - apply Hq. intros n. apply steady_accept_connection.
  - unfold read_message. pose proof (paused_on_message now r id m w Hw Hp) as Hm. simpl in Hm.
    destruct (on_message _ _ _ _ _) as [[] w1]; [done|]. apply paused_then; [auto|done].
  - apply Hq. intros n. rewrite steady_handle_disconnect. destruct (peer_of _ _); [|done].
    destruct (negb _); [|done]. unfold block_incoming_ip. cbv zeta. by destruct (_ <? _)%nat.
  - apply Hq. auto.
  - unfold periodic_task. cbv zeta. set (w1 := cleanup_mempool now _).
    assert (pause_state (net w1) = pause_state (net w)) as H1.
    { transitivity (pause_state (block_validation_timeout now (periodic_lifecycle_timeout_check now rs
        (periodic_reconnect_check now (net w))))); [done|]. apply steady_task. }
    rewrite (f_equal fst H1 : _block_processing_paused (net w1) = _block_processing_paused (net w)), Hp.
    apply paused_quiet; [done..|]. apply quiet_then; [done|]. split; [done|by exists 0%nat].
Qed.

Lemma take_take_app {A} n (l r : list A) : take n (take n l ++ r) = take n (l ++ r).
Proof. rewrite !take_app, take_take, length_take, Nat.min_id. f_equal. f_equal. lia. Qed.

(** While the processing of blocks is paused, whatever the peers send and the periodic
    task does, the chain does not change but for being told that the synchronisation is
    over, and the queue has the first thousand of the blocks that came, in their
    order. *)
Theorem paused_run (es : list (Z * net_event C)) w :
  fine w → _block_processing_paused (net w) = true → forallb (λ e, from_outside e.2) es = true →
  paused_step (all_brought es w) w (run es w).
Proof.
  revert w. induction es as [|[t e] es IH]; intros w Hw Hp He.
  { by apply paused_quiet. }
  simpl in He. apply andb_true_iff in He as [He Hes].
  pose proof (paused_one t e w He Hw Hp) as (P1 & P2 & k1 & P3).
  destruct (IH (step t e w) (fine_step t e w Hw) P1 Hes) as (Q1 & Q2 & k2 & Q3).
  simpl. split; [done|]. split.
  - etransitivity; [exact Q2|]. rewrite P2, (assoc_L app). apply take_take_app.
  - exists (k2 + k1)%nat. change (chain (run es (step t e w)) = Nat.iter (k2 + k1) delegate_clear_syncing (chain w)).
    by rewrite Q3, P3, Nat.iter_add.
Qed.
End world.
