(* ===== verification/DltProofs.v ===== *)
(** * What the nodes of the network achieve

    Requests for blocks and their replies, the change to the FORWARD mode, bans,
    and the exchange of addresses. *)

From stdpp Require Import gmap strings list sorting.
From Stdlib Require Import ZArith Lia.
From S2P Require Import Prelude SignState Operations ChainOperations Block Objects Database EvalAccount Transactions.
From S2P Require Import DltMempool DltMempoolProofs Dlt DltPeers DltSync DltHandlers DltInvariant DltNode.

(** ** Finding a peer *)

Lemma find_some {A} (f : A → bool) l x : find f l = Some x → x ∈ l ∧ f x = true.
Proof. intros [H1 H2]%List.find_some. by rewrite list_elem_of_In. Qed.

Lemma find_none {A} (f : A → bool) l x : find f l = None → x ∈ l → f x = false.
Proof. intros H1 H2%list_elem_of_In. by eapply List.find_none. Qed.

Lemma ids_distinct (l : list Z) : StronglySorted Z.lt l → NoDup l.
Proof.
  induction 1 as [|x l Hl IH Hx]; constructor; [|done]. rewrite Forall_forall in Hx. intros ?%Hx. lia.
Qed.

Lemma peer_of_in id s n : NoDup (peer_ids n) → (id, s) ∈ _peer_states n → peer_of id n = Some s.
Proof.
  unfold peer_ids, peer_of. induction (_peer_states n) as [|[x t] l IH]; [by intros _ ?%elem_of_nil|].
  simpl. intros [Hx Hl]%NoDup_cons. rewrite elem_of_cons. intros [[= -> ->]|Hin]; [by rewrite Z.eqb_refl|].
  destruct (Z.eqb_spec x id) as [->|]; [|auto]. destruct Hx. apply list_elem_of_fmap. by exists (id, s).
Qed.

Lemma peer_of_elem id s n : peer_of id n = Some s → (id, s) ∈ _peer_states n.
Proof.
  unfold peer_of. destruct (find _ _) as [[x t]|] eqn:H; [|done]. intros [= ->].
  apply find_some in H as [H E]. simpl in E. by apply Z.eqb_eq in E as ->.
Qed.

Lemma peer_of_upd i id f n :
  peer_of i (upd_peer id f n) = (if i =? id then f <$> peer_of i n else peer_of i n).
Proof.
  unfold peer_of, upd_peer. cbn. induction (_peer_states n) as [|[x t] l IH]; simpl; [by destruct (_ =? _)|].
  destruct (Z.eqb_spec i id) as [->|Hi]; destruct (Z.eqb_spec x id) as [->|Hx]; simpl.
  - by rewrite Z.eqb_refl.
  - by rewrite (proj2 (Z.eqb_neq x id)).
  - by rewrite (proj2 (Z.eqb_neq id i)).
  - by destruct (x =? i).
Qed.

Lemma peer_of_disconnect i id n : peer_of i (disconnect id n) = peer_of i n.
Proof. done. Qed.
Lemma peer_of_send i id m n : peer_of i (send_message id m n) = peer_of i n.
Proof. unfold send_message. by case_decide. Qed.

Lemma peer_of_erase i id n : peer_of i (erase_peer id n) = if i =? id then None else peer_of i n.
Proof.
  unfold peer_of, erase_peer. cbn. induction (_peer_states n) as [|[x t] l IH]; [by destruct (_ =? _)|].
  rewrite filter_cons. simpl. case_decide as Hx; simpl.
  - destruct (Z.eqb_spec x i) as [->|]; [by rewrite (proj2 (Z.eqb_neq i id))|done].
  - subst x. rewrite IH. destruct (Z.eqb_spec i id) as [->|]; [done|].
    by rewrite (proj2 (Z.eqb_neq id i)).
Qed.

Section requests.
Context {C : Type} {D : Delegate C} {TE : TransactionEnv} {BH : BlockHash}.
Implicit Type w : world C.

(** ** Requesting ranges *)

Lemma sync_start_bounds (c : C) latest :
  sync_start c latest = get_head_block_num c ∨
  sync_start c latest = get_lib_block_num c ∧ 0 < get_lib_block_num c < get_head_block_num c.
Proof. unfold sync_start. cbv zeta. destruct (_ && _ && _) eqn:H; [right|by left]. split; [done|lia]. Qed.

(** What can come of asking for blocks. *)
Definition request_outcome (now : Z) w w' : Prop :=
  w' = w ∨
  w' = transition_to_forward now w ∧ is_sync w = true ∧ nobody_ahead (get_head_block_num (chain w)) (net w) = true ∨
  ∃ p s start,
    peer_of p (net w) = Some s ∧ get_head_block_num (chain w) < latest_of s ∧
    (start = sync_start (chain w) (latest_of s) ∨
     start = peer_dlt_earliest s ∧ sync_start (chain w) (latest_of s) < start) ∧
    w' = send_range_request now p start (latest_of s) w.

(** A peer another one passes a request to is ahead and has the block at our last
    irreversible one, or higher if that is where the request starts. *)
Lemma bridged peer start our_head w id s :
  fine w → find (can_bridge peer start our_head) (_peer_states (net w)) = Some (id, s) →
  peer_of id (net w) = Some s ∧ 0 < peer_dlt_earliest s ∧ peer_dlt_earliest s ≤ start ∧ our_head < latest_of s.
Proof.
  intros Hw [Hin Hb]%find_some. split; [by apply peer_of_in; [apply ids_distinct, Hw|]|].
  unfold can_bridge in Hb. simpl in Hb. lia.
Qed.

(** A request with [n] passes left: the last peer has the start, and the one
    before it our head. *)
Lemma request_fuel n k now peer w s :
  fine w → peer_of peer (net w) = Some s →
  (n = 0%nat → sync_start (chain w) (latest_of s) < peer_dlt_earliest s → False) →
  (n = 1%nat → sync_start (chain w) (latest_of s) < peer_dlt_earliest s →
     peer_dlt_earliest s ≤ get_head_block_num (chain w)) →
  (n ≤ 2)%nat → request_blocks (S n + k) now peer w = request_blocks (S n) now peer w.
Proof.
  intros Hw. revert peer s. induction n as [|n IH]; intros peer s Hp H0 H1 Hn; simpl; rewrite Hp; cbv zeta;
    (destruct (_ <=? _); [done|]); (destruct (_ && _) eqn:E; [|done]).
  { exfalso. apply H0; [done|lia]. }
  destruct (find _ _) as [[id t]|] eqn:F; [|done]. apply bridged in F as (Ht & Hpos & Hle & Hlt); [|done].
  change (request_blocks (S n + k) now id w = request_blocks (S n) now id w).
  destruct (sync_start_bounds (chain w) (latest_of t)) as [Et|[Et Bt]],
    (sync_start_bounds (chain w) (latest_of s)) as [Es|[Es Bs]];
    apply (IH id t); try done; try lia; intros ->; try lia.
Qed.

Lemma request_blocks_outcome k now peer w : request_outcome now w (request_blocks k now peer w).
Proof.
  revert peer. induction k as [|k IH]; intros peer; [by left|]. cbn [request_blocks].
  destruct (peer_of peer (net w)) as [s|] eqn:Hp; [|by left]. cbv zeta.
  destruct (Z.leb_spec (latest_of s) (get_head_block_num (chain w))).
  { destruct (_ && _) eqn:E; [|by left]. apply andb_true_iff in E as [??]. right. by left. }
  destruct (_ && _) eqn:E; [destruct (find _ _) as [[id t]|] eqn:F; [apply IH|]|]; right; right; eexists _, s, _;
    (split; [exact Hp|]); (split; [done|]); (split; [|done]); [right; lia|by left].
Qed.

Lemma send_range_request_sent now p a l w :
  _sent (net (send_range_request now p a l w)) =
  _sent (net w) ++
    (if decide (a ≤ l ∧ p ∈ _connections (net w))
     then [(p, dlt_get_block_range a (Z.min (u32 (a + 200 - 1)) l) (get_head_block_id (chain w)))] else []).
Proof.
  unfold send_range_request. destruct (Z.ltb_spec l a); [rewrite decide_False by lia; by rewrite app_nil_r|].
  cbv zeta. unfold on_net. cbn [net chain]. unfold send_message.
  set (n := upd_peer p _ (net w)). change (_connections n) with (_connections (net w)).
  destruct (decide (p ∈ _connections (net w))).
  - by rewrite decide_True.
  - rewrite decide_False by naive_solver. by rewrite app_nil_r.
Qed.


(** ** Going over to the FORWARD mode *)

Lemma send_same {A} (g : p2p → A) id m n : (∀ n s, g (n <| _sent := s |>) = g n) → g (send_message id m n) = g n.
Proof. intros Hg. unfold send_message. case_decide; [apply (Hg n)|done]. Qed.

Lemma send_to_talking_same {A} (g : p2p → A) m n :
  (∀ n s, g (n <| _sent := s |>) = g n) → g (send_to_talking m n) = g n.
Proof.
  intros Hg. unfold send_to_talking. generalize (_peer_states n) as l. intros l. revert n.
  induction l as [|p l IH]; intros n; [done|]. simpl. rewrite IH. destruct (is_talking _); [by apply send_same|done].
Qed.

Lemma field_on_net {A} (g : p2p → A) f w : (∀ n, g (f n) = g n) → g (net (on_net f w)) = g (net w).
Proof. intros Hf. apply Hf. Qed.

Lemma mode_on_net f w : (∀ n, _node_status (f n) = _node_status n) → is_forward (on_net f w) = is_forward w.
Proof. intros Hf. unfold is_forward. simpl. by rewrite Hf. Qed.

Lemma transition_to_forward_mode now w : is_forward (transition_to_forward now w) = true.
Proof.
  unfold transition_to_forward. cbv zeta. destruct (is_forward (on_chain _ _)) eqn:E; [done|].
  rewrite mode_on_net by done. rewrite mode_on_net by (intros; by apply (send_to_talking_same _node_status)).
  rewrite !mode_on_net by done. done.
Qed.

(** The loop counts the peers that tell their head, until one is ahead. *)
Lemma survey_spec our_head l a k :
  0 < our_head →
  let talking s := is_talking s = true in
  match survey our_head l a k with
  | (a', k', true) => ∃ p, p ∈ l ∧ talking p.2 ∧ our_head < peer_head_num p.2
  | (a', k', false) =>
      (∀ p, p ∈ l → talking p.2 → peer_head_num p.2 ≤ our_head) ∧
      (a ≤ a' ∧ (a' = a ↔ ∀ p, p ∈ l → ¬ talking p.2)) ∧
      (k ≤ k' ∧ (k' = k ↔ ∀ p, p ∈ l → talking p.2 → peer_head_num p.2 = 0))
  end.
Proof.
  intros H0. cbv zeta. revert a k. induction l as [|[id s] l IH]; intros a k; simpl.
  { split_and!; try lia; set_solver. }
  destruct (is_talking s) eqn:Et; simpl.
  - destruct (Z.eqb_spec (peer_head_num s) 0) as [E0|E0].
    + specialize (IH (a + 1) k). destruct (survey _ _ _ _) as [[a' k'] []].
      { destruct IH as (p & ? & ?). exists p. set_solver. }
      destruct IH as (IH1 & [IH2 IH2'] & [IH3 IH3']). split_and!; try lia.
      * intros p [->|?]%elem_of_cons; simpl; [lia|auto].
      * split; [lia|]. intros Hn. by destruct (Hn (id, s)); [left|].
      * rewrite IH3'. split; intros H p.
        -- intros [->|?]%elem_of_cons; [done|auto].
        -- intros Hp. apply H. by right.
    + destruct (Z.ltb_spec our_head (peer_head_num s)).
      { exists (id, s). split; [left|done]. }
      specialize (IH (a + 1) (k + 1)). destruct (survey _ _ _ _) as [[a' k'] []].
      { destruct IH as (p & ? & ?). exists p. set_solver. }
      destruct IH as (IH1 & [IH2 IH2'] & [IH3 IH3']). split_and!; try lia.
      * intros p [->|?]%elem_of_cons; simpl; [lia|auto].
      * split; [lia|]. intros Hn. by destruct (Hn (id, s)); [left|].
      * split; [lia|]. intros Hn. by specialize (Hn (id, s) ltac:(left) Et).
  - specialize (IH a k). destruct (survey _ _ _ _) as [[a' k'] []].
    { destruct IH as (p & ? & ?). exists p. set_solver. }
    destruct IH as (IH1 & [IH2 IH2'] & [IH3 IH3']). split_and!; try lia.
    + intros p [->|?]%elem_of_cons; simpl; [congruence|auto].
    + rewrite IH2'. split; intros H p; [intros [->|?]%elem_of_cons; simpl; [congruence|auto]|].
      intros Hp. apply H. by right.
    + rewrite IH3'. split; intros H p; [intros [->|?]%elem_of_cons; simpl; [congruence|auto]|].
      intros Hp. apply H. by right.
Qed.

(** What the change leaves for the checks of the FORWARD mode. *)
Lemma transition_to_forward_times now w :
  is_forward w = false →
  _forward_entered_time (net (transition_to_forward now w)) = now ∧
  _last_forward_head_num (net (transition_to_forward now w)) = 0.
Proof.
  intros Hw. unfold transition_to_forward. cbv zeta.
  change (is_forward (on_chain _ _)) with (is_forward w). rewrite Hw.
  split.
  - rewrite (field_on_net _forward_entered_time) by done.
    rewrite (field_on_net _forward_entered_time) by (intros; by apply (send_to_talking_same _forward_entered_time)).
    by rewrite !(field_on_net _forward_entered_time (upd_peers _)) by done.
  - rewrite (field_on_net _last_forward_head_num) by done.
    rewrite (field_on_net _last_forward_head_num) by (intros; by apply (send_to_talking_same _last_forward_head_num)).
    by rewrite !(field_on_net _last_forward_head_num (upd_peers _)) by done.
Qed.

Lemma isolated_mode now w : is_forward (isolated now false w) = is_forward w.
Proof. unfold isolated. destruct (_ =? _); [by apply mode_on_net|]. destruct (_ <? _); [by apply mode_on_net|done]. Qed.

Lemma sync_not_forward w : is_sync w = true → is_forward w = false.
Proof.
  unfold is_sync, is_forward. change DLT_NODE_STATUS_SYNC with 0. change DLT_NODE_STATUS_FORWARD with 1. lia.
Qed.

(** The part of [check_sync_catchup] that decides. *)
Lemma check_sync_catchup_cases now w :
  is_sync w = true → 0 < get_head_block_num (chain w) →
  let our_head := get_head_block_num (chain w) in
  let evidence :=
    (∃ p, p ∈ _peer_states (net w) ∧ is_talking p.2 = true ∧ peer_head_num p.2 ≠ 0) ∧
    (∀ p, p ∈ _peer_states (net w) → is_talking p.2 = true → peer_head_num p.2 ≤ our_head) ∧
    _highest_seen_block_num (net w) ≤ u32 (our_head + FORWARD_FALLBEHIND_THRESHOLD) in
  evidence ∧ check_sync_catchup now w = transition_to_forward now (on_net (λ n, n <| _isolation_detected_time := 0 |>) w) ∨
  ¬ evidence ∧ is_forward (check_sync_catchup now w) = false.
Proof.
  intros Hs H0. cbv zeta. unfold check_sync_catchup. rewrite Hs. cbv zeta. cbn [negb].
  rewrite (proj2 (Z.eqb_neq _ 0)) by lia. pose proof (survey_spec _ (_peer_states (net w)) 0 0 H0) as Hv. simpl in Hv.
  destruct (survey _ _ _ _) as [[a k] []]; simpl in Hv.
  - right. destruct Hv as (p & Hp & Ht & Hlt). split; [intros (_ & H & _); specialize (H p Hp Ht); lia|].
    destruct (_ =? _); [by rewrite isolated_mode; apply sync_not_forward|].
    rewrite andb_false_r. rewrite mode_on_net by done. by apply sync_not_forward.
  - destruct Hv as (Hall & [_ Ha] & [Hk Hk']).
    destruct (Z.eqb_spec a 0) as [->|Ha0].
    { right. split; [|by rewrite isolated_mode; apply sync_not_forward].
      intros ((p & Hp & Ht & _) & _). by apply (proj1 Ha eq_refl p Hp). }
    destruct (decide (Exists (λ p, is_talking p.2 = true ∧ peer_head_num p.2 ≠ 0) (_peer_states (net w)))) as [He|He].
    + apply Exists_exists in He as (p & Hp & Ht & Hn).
      assert (k ≠ 0) as Hk0 by (intros ->; by apply Hn, (proj1 Hk' eq_refl p)).
      rewrite (proj2 (Z.ltb_lt 0 k)) by lia. cbn [andb negb net on_net].
      change (_highest_seen_block_num ((net w) <| _isolation_detected_time := 0 |>)) with (_highest_seen_block_num (net w)).
      destruct (Z.ltb_spec (u32 (get_head_block_num (chain w) + FORWARD_FALLBEHIND_THRESHOLD))
        (_highest_seen_block_num (net w))).
      * right. split; [lia|]. rewrite mode_on_net by done. by apply sync_not_forward.
      * left. split; [|done]. split_and!; [by exists p|done|done].
    + right. split; [by intros ((p & Hp & H) & _); destruct He; apply Exists_exists; exists p|].
      assert (k = 0) as ->.
      { apply Hk'. intros p Hp Ht. destruct (decide (peer_head_num p.2 = 0)); [done|].
        destruct He. apply Exists_exists. by exists p. }
      change (0 <? 0) with false. cbn [andb]. rewrite mode_on_net by done. by apply sync_not_forward.
Qed.

(** C8 (functional).  A node in the SYNC mode changes to the FORWARD mode at the periodic check
    exactly when a peer past the handshake has told its head, no such peer has a
    higher head than the node, and the highest block ever heard of is at most two above
    the node's head (the sum taken in 32 bits).  The two checks of the FORWARD mode that
    the periodic task makes after it do not change the mode back. *)
Theorem catchup_forward now w :
  is_sync w = true → 0 < get_head_block_num (chain w) → 0 < now →
  (is_forward (check_sync_catchup now w) = true ↔
    (∃ p, p ∈ _peer_states (net w) ∧ is_talking p.2 = true ∧ peer_head_num p.2 ≠ 0) ∧
    (∀ p, p ∈ _peer_states (net w) → is_talking p.2 = true → peer_head_num p.2 ≤ get_head_block_num (chain w)) ∧
    _highest_seen_block_num (net w) ≤ u32 (get_head_block_num (chain w) + FORWARD_FALLBEHIND_THRESHOLD)) ∧
  is_forward (check_forward_stagnation now (check_forward_behind now (check_sync_catchup now w))) =
  is_forward (check_sync_catchup now w).
Proof.
  intros Hs H0 Hnow. destruct (check_sync_catchup_cases now w Hs H0) as [[He ->]|[He Hf]].
  - set (v := on_net _ w). pose proof (transition_to_forward_mode now v) as Hm.
    pose proof (transition_to_forward_times now v (sync_not_forward v Hs)) as [Ht Hh].
    split; [by split|].
    assert (check_forward_behind now (transition_to_forward now v) = transition_to_forward now v) as ->.
    { unfold check_forward_behind. rewrite Hm, Ht, (proj2 (Z.eqb_neq now 0)), Z.sub_diag by lia. done. }
    unfold check_forward_stagnation. rewrite Hm, Hh. cbv zeta. cbn [negb]. rewrite Z.eqb_refl. cbn [orb].
    by rewrite mode_on_net.
  - split; [split; [by rewrite Hf|done]|].
    unfold check_forward_behind. rewrite Hf. cbv zeta. cbn [negb].
    unfold check_forward_stagnation. by rewrite Hf.
Qed.
End requests.

Section serving.
Context {C : Type} {D : Delegate C} {TE : TransactionEnv} {BH : BlockHash} {MS : MessageSizes}.
Implicit Type w : world C.

(** ** Serving ranges *)

(** The blocks with these numbers that the chain can read. *)
Definition served_blocks (c : C) (l : list Z) : list signed_block := omap (λ n, delegate_read_block n c) l.

Lemma served_cons c n l :
  served_blocks c (n :: l) = (match delegate_read_block n c with Some b => [b] | None => [] end) ++ served_blocks c l.
Proof. unfold served_blocks. simpl. by destruct (delegate_read_block n c). Qed.

Lemma served_seq c n k :
  0 < k → served_blocks c (seqZ n k) =
    (match delegate_read_block n c with Some b => [b] | None => [] end) ++ served_blocks c (seqZ (n + 1) (k - 1)).
Proof.
  intros Hk. rewrite seqZ_cons by done. rewrite served_cons. by rewrite <- Z.add_1_r, <- Z.sub_1_r.
Qed.

Lemma collect_range_spec k n (c : C) acc :
  let '(blocks, cut) := collect_range k n c acc in
  match cut with
  | None => blocks = acc ++ served_blocks c (seqZ n (Z.of_nat k))
  | Some m =>
      n ≤ m < n + Z.of_nat k ∧ blocks = acc ++ served_blocks c (seqZ n (m - n)) ∧ blocks ≠ [] ∧
      ∃ b, delegate_read_block m c = Some b ∧
        MAX_MESSAGE_SIZE - REPLY_SIZE_HEADROOM < u32 (u32 (reply_pack_size blocks) + u32 (block_pack_size b))
  end.
Proof.
  revert n acc. induction k as [|k IH]; intros n acc; [by rewrite app_nil_r|]. cbn [collect_range].
  destruct (delegate_read_block n c) as [b|] eqn:Hb.
  - destruct (_ && _) eqn:E.
    { apply andb_true_iff in E as [E1 E2]. rewrite negb_true_iff, bool_decide_eq_false in E2.
      split; [lia|]. rewrite Z.sub_diag. split; [by rewrite app_nil_r|]. split; [done|]. exists b. split; [done|lia]. }
    specialize (IH (n + 1) (acc ++ [b])). destruct (collect_range _ _ _ _) as [blocks [m|]].
    + destruct IH as (Hm & Heq & Hrest). split; [lia|]. split; [|done].
      rewrite Heq, (served_seq c n), Hb, (assoc_L app) by lia. by replace (m - n - 1) with (m - (n + 1)) by lia.
    + rewrite IH, (served_seq c n), Hb, (assoc_L app) by lia. by replace (Z.of_nat (S k) - 1) with (Z.of_nat k) by lia.
  - specialize (IH (n + 1) acc). destruct (collect_range _ _ _ _) as [blocks [m|]].
    + destruct IH as (Hm & Heq & Hrest). split; [lia|]. split; [|done].
      rewrite Heq, (served_seq c n), Hb by lia. by replace (m - n - 1) with (m - (n + 1)) by lia.
    + rewrite IH, (served_seq c n), Hb by lia. by replace (Z.of_nat (S k) - 1) with (Z.of_nat k) by lia.
Qed.

(** A request for a range is answered with the blocks of these numbers that the
    chain can read, none left out and in order.  Either all of them are sent, or the
    reply is cut at a block that would make it too large, whose number it names for the
    next request; at least one block is sent then. *)
Theorem range_served now peer first stop w :
  let upto := Z.min stop (get_dlt_latest_block (chain w)) in
  ∃ blocks next is_last,
    on_dlt_get_block_range now peer first stop w =
      good now peer (send peer (dlt_block_range_reply blocks next is_last) w) ∧
    (blocks = served_blocks (chain w) (numbers first upto) ∧
       (is_last = true → ∃ b, last blocks = Some b ∧ get_dlt_latest_block (chain w) ≤ block_num b) ∧
       (∀ b, last blocks = Some b → block_num b < get_dlt_latest_block (chain w) → next = block_num b + 1) ∨
     first ≤ next ≤ upto ∧ blocks = served_blocks (chain w) (numbers first (next - 1)) ∧ blocks ≠ [] ∧ is_last = false ∧
       ∃ b, delegate_read_block next (chain w) = Some b ∧
         MAX_MESSAGE_SIZE - REPLY_SIZE_HEADROOM < u32 (u32 (reply_pack_size blocks) + u32 (block_pack_size b))).
Proof.
  cbv zeta. set (upto := Z.min _ _). unfold on_dlt_get_block_range. cbv zeta. fold upto.
  pose proof (collect_range_spec (Z.to_nat (upto - first + 1)) first (chain w) []) as H.
  destruct (collect_range _ _ _ _) as [blocks [m|]]; simpl in H.
  - destruct H as (Hm & Heq & Hne & b & Hb & Hsize). eexists blocks, m, false. split; [done|]. right.
    split; [lia|]. split_and!; [|done|done|by exists b].
    rewrite Heq. unfold numbers. do 2 f_equal. lia.
  - assert (blocks = served_blocks (chain w) (numbers first upto)) as Hb.
    { rewrite H. unfold numbers. destruct (decide (upto - first + 1 < 0)) as [Hlt|]; [|do 2 f_equal; lia].
      rewrite Z2Nat.nonpos by lia. by rewrite !seqZ_nil by lia. }
    destruct (last blocks) as [b|] eqn:Hl.
    + eexists blocks, _, _. split; [done|]. left. split; [done|].
      split; [intros ?; exists b; split; [done|lia]|]. intros b' Hb' Hlt. simplify_eq.
      by rewrite (proj2 (Z.ltb_lt _ _)).
    + apply last_None in Hl. eexists [], _, _. split; [done|]. left. split; [congruence|].
      split; [done|]. by intros b ?.
Qed.
End serving.

Section gaps.
Context {C : Type} {D : Delegate C} {TE : TransactionEnv} {BH : BlockHash} {MS : MessageSizes}.
Implicit Type w : world C.

(** ** Filling gaps *)

Lemma gap_peers_max our_head l best m any : m ≤ (gap_peers our_head l best m any).1.2.
Proof.
  revert best m any. induction l as [|[id s] l IH]; intros best m any; simpl; [lia|]. cbv zeta.
  destruct (negb (is_talking s)); [apply IH|]. destruct (negb (exchange_enabled s)); [apply IH|].
  destruct (_ && _) eqn:E; [|apply IH]. etransitivity; [|apply IH]. lia.
Qed.

Lemma gap_fill_ready_sent now n n' : gap_fill_ready now n = Some n' → _sent n' = _sent n.
Proof.
  unfold gap_fill_ready. cbv zeta. destruct (_ && _); [done|]. destruct (_ && _); [done|].
  destruct (_ && _); [done|]. by intros [= <-].
Qed.

Lemma numbers_length a b : length (numbers a b) = Z.to_nat (b - a + 1).
Proof. apply length_seqZ. Qed.

(** A request is under way. *)
Definition gap_fill_waits (now : Z) w : Prop :=
  _gap_fill_in_progress (net w) = true ∧
  (_gap_fill_start_time (net w) = 0 ∨ now - _gap_fill_start_time (net w) ≤ seconds GAP_FILL_TIMEOUT_SEC).

Lemma gap_fill_quiet now w : gap_fill_waits now w → request_gap_fill now w = w.
Proof.
  intros [H1 H2]. unfold request_gap_fill, gap_fill_ready. cbv zeta. rewrite H1. cbn [andb].
  replace ((_gap_fill_start_time (net w) =? 0) || _) with true by lia.
  by replace (negb (_gap_fill_start_time (net w) =? 0) && _) with false by lia.
Qed.

(** What asking for the blocks of a gap sends. *)
Definition gap_request_ok (now : Z) w w' : Prop :=
  _sent (net w') = _sent (net w) ∨
  ∃ p from upto,
    _sent (net w') = _sent (net w) ++ [(p, dlt_gap_fill_request (numbers from upto))] ∧
    from ≤ upto < from + GAP_FILL_MAX_BLOCKS ∧ from ≤ get_head_block_num (chain w) ∧
    _gap_fill_in_progress (net w') = true ∧ _gap_fill_start_time (net w') = now ∧ _last_gap_fill_time (net w') = now.

Lemma gap_send now w p from upto :
  from ≤ upto < from + GAP_FILL_MAX_BLOCKS → from ≤ get_head_block_num (chain w) →
  let v := on_net (λ n, n <| _gap_fill_in_progress := true |> <| _gap_fill_start_time := now |>
                          <| _last_gap_fill_time := now |>) w in
  gap_request_ok now w (on_net (send_message p (dlt_gap_fill_request (numbers from upto))) v).
Proof.
  intros H1 H2. cbv zeta. unfold on_net. cbn [net chain]. unfold send_message at 1. case_decide; [|by left].
  right. exists p, from, upto. split; [done|]. split; [lia|]. by split.
Qed.

Lemma request_gap_fill_ok now w :
  0 ≤ _gap_fill_fork_override_start (net w) → 0 ≤ get_head_block_num (chain w) →
  get_head_block_num (chain w) + GAP_FILL_MAX_BLOCKS < 2 ^ 32 → gap_request_ok now w (request_gap_fill now w).
Proof.
  intros Ho Hh Hmax. unfold request_gap_fill. destruct (gap_fill_ready _ _) as [n|] eqn:Hr; cbv zeta.
  2: { destruct (_ && _); by left. }
  assert (_sent n = _sent (net w) ∧ _gap_fill_fork_override_start n = _gap_fill_fork_override_start (net w)) as [Es Eo].
  { unfold gap_fill_ready in Hr. cbv zeta in Hr. destruct (_ && _); [done|]. destruct (_ && _); [done|].
    destruct (_ && _); [done|]. by injection Hr as <-. }
  cbn [chain]. destruct (_ =? 0); [by left|]. rewrite Eo. set (h := get_head_block_num (chain w)) in *.
  set (from := if _ && _ then _ else h).
  assert (0 ≤ from ≤ h) as Hf.
  { subst from. destruct (_ && _) eqn:E; lia. }
  pose proof (gap_peers_max from (_peer_states n) INVALID_PEER_ID from INVALID_PEER_ID) as Hm.
  destruct (gap_peers _ _ _ _ _) as [[best m] any]. cbn [fst snd] in Hm.
  destruct (_ <=? from) eqn:E; [by left|].
  assert (from ≤ Z.min (Z.max m (_highest_seen_block_num n)) (u32 (from + GAP_FILL_MAX_BLOCKS - 1)) <
          from + GAP_FILL_MAX_BLOCKS) as Hb.
  { change GAP_FILL_MAX_BLOCKS with 100 in *. rewrite u32_small by lia. lia. }
  assert (∀ p, gap_request_ok now w (on_net (send_message p (dlt_gap_fill_request
    (numbers from (Z.min (Z.max m (_highest_seen_block_num n)) (u32 (from + GAP_FILL_MAX_BLOCKS - 1))))))
    (on_net (λ n, n <| _gap_fill_in_progress := true |> <| _gap_fill_start_time := now |> <| _last_gap_fill_time := now |>)
      (on_net (λ n, n <| _gap_fill_fork_override_start := 0 |>) (mk_world n (chain w)))))) as Hsend.
  { intros p. pose proof (gap_send now (on_net (λ n, n <| _gap_fill_fork_override_start := 0 |>) (mk_world n (chain w)))
      p from _ Hb (proj2 Hf)) as Hs. unfold gap_request_ok in *.
    change (_sent (net (on_net (λ n, n <| _gap_fill_fork_override_start := 0 |>) (mk_world n (chain w))))) with (_sent n) in Hs.
    by rewrite Es in Hs. }
  destruct (negb _); [apply Hsend|]. destruct (negb _); [apply Hsend|]. by left.
Qed.

(** A request of this size is answered, and costs the sender nothing. *)
Lemma gap_request_length from upto :
  from ≤ upto < from + GAP_FILL_MAX_BLOCKS → (1 ≤ length (numbers from upto) ≤ 100)%nat.
Proof. change GAP_FILL_MAX_BLOCKS with 100. rewrite numbers_length. lia. Qed.

Lemma gap_request_answered t sender nums v :
  (1 ≤ length nums ≤ 100)%nat → is_Some (peer_of sender (net v)) → ∃ blocks,
    on_dlt_gap_fill_request t sender nums v = good t sender (send sender (dlt_gap_fill_reply blocks) v).
Proof.
  intros Hlen [s Hs]. unfold on_dlt_gap_fill_request. rewrite Hs.
  rewrite bool_decide_false by (intros ->; simpl in Hlen; lia).
  change GAP_FILL_MAX_BLOCKS with 100. replace (100 <? _) with false by lia. by eexists.
Qed.

(** It does not touch the chain, nor what is the highest block heard of. *)
Lemma request_gap_fill_keeps now w :
  chain (request_gap_fill now w) = chain w ∧
  _highest_seen_block_num (net (request_gap_fill now w)) = _highest_seen_block_num (net w).
Proof.
  unfold request_gap_fill. destruct (gap_fill_ready _ _) as [n|] eqn:Hr; cbv zeta; [|by destruct (_ && _)].
  assert (_highest_seen_block_num n = _highest_seen_block_num (net w)) as E.
  { unfold gap_fill_ready in Hr. cbv zeta in Hr. destruct (_ && _); [done|]. destruct (_ && _); [done|].
    destruct (_ && _); [done|]. by injection Hr as <-. }
  destruct (_ =? 0); [done|]. destruct (gap_peers _ _ _ _ _) as [[best m] any]. destruct (_ <=? _); [done|].
  assert (∀ p q m, _highest_seen_block_num (send_message p q m) = _highest_seen_block_num m) as Hs
    by (intros; by apply (send_same _highest_seen_block_num)).
  destruct (negb _); [|destruct (negb _)]; cbn [chain net on_net]; rewrite ?Hs; done.
Qed.
End gaps.

(** ** Bans *)

Lemma peer_of_soft_ban now id reason n s :
  peer_of id n = Some s →
  peer_of id (soft_ban_peer now id reason n) = Some (banned now BAN_DURATION_SEC reason s).
Proof.
  intros Hs. unfold soft_ban_peer. rewrite Hs, peer_of_disconnect, peer_of_upd, Z.eqb_refl, peer_of_send. by rewrite Hs.
Qed.

Lemma soft_ban_ips now id reason n : _blocked_ips (soft_ban_peer now id reason n) = _blocked_ips n.
Proof.
  unfold soft_ban_peer. destruct (peer_of id n); [|done].
  change (_blocked_ips (send_message id (dlt_soft_ban BAN_DURATION_SEC reason) n) = _blocked_ips n).
  by apply (send_same _blocked_ips).
Qed.

(** [u32] sums a number and what was subtracted before. *)
Lemma back_off_delay b r :
  0 < b < 2 ^ 30 → 0 ≤ r →
  b / 2 - b / 2 / 2 + b / 2 ≤ u32 (b + (if 0 <? b / 2 then u32 (r mod (b / 2) - b / 2 / 2) else 0)) ≤ b + (b / 2 - b / 2 / 2).
Proof.
  intros Hb Hr. pose proof (Z.div_mod b 2 ltac:(lia)). pose proof (Z.mod_pos_bound b 2 ltac:(lia)).
  pose proof (Z.div_mod (b / 2) 2 ltac:(lia)). pose proof (Z.mod_pos_bound (b / 2) 2 ltac:(lia)).
  unfold u32. destruct (Z.ltb_spec 0 (b / 2)) as [H3|H3].
  - rewrite Zplus_mod_idemp_r. pose proof (Z.mod_pos_bound r (b / 2) H3). rewrite Z.mod_small by lia. lia.
  - rewrite Z.mod_small by lia. lia.
Qed.

Definition next_delay (b r : Z) : Z :=
  u32 (b + (if 0 <? b / 2 then u32 (r mod (b / 2) - b / 2 / 2) else 0)).

Lemma back_off_next now r s :
  next_reconnect_attempt (back_off now false r s) =
  now + seconds (next_delay (Z.min (u32 (reconnect_backoff_sec s * 2)) MAX_RECONNECT_BACKOFF_SEC) r).
Proof. reflexivity. Qed.

Lemma back_off_lifecycle now b r s : lifecycle_state (back_off now b r s) = DISCONNECTED.
Proof. by destruct b. Qed.

Lemma session_over_stable now s :
  connected_since s ≠ 0 → seconds 300 < now - connected_since s →
  reconnect_backoff_sec (session_over now s) = INITIAL_RECONNECT_BACKOFF_SEC.
Proof.
  intros Hc Hd. change (seconds 300) with 300000000 in Hd. unfold session_over.
  rewrite (proj2 (Z.eqb_neq _ 0) Hc). cbv zeta.
  change (last_connection_duration (s <| last_connection_duration := ?x |>)) with x.
  by rewrite (proj2 (Z.ltb_lt _ _) Hd).
Qed.

(** C11 (error).  A ban does not outlive the connection that it closes.  A peer that connected to
    this node is forgotten with its ban, and its address is not blocked: it may connect
    again at once.  A peer that this node connected to more than five minutes ago is
    disconnected as any other, and is connected again after 45 to 75 seconds, not after
    the 3600 seconds of the ban. *)
Theorem ban_forgotten now later id reason r s n :
  peer_of id n = Some s → 0 ≤ r →
  let n' := handle_disconnect later id false r (soft_ban_peer now id reason n) in
  (is_incoming s = true → peer_of id n' = None ∧ _blocked_ips n' = _blocked_ips n) ∧
  (is_incoming s = false → connected_since s ≠ 0 → seconds 300 < later - connected_since s →
     ∃ s', peer_of id n' = Some s' ∧ lifecycle_state s' = DISCONNECTED ∧
       later + seconds 45 ≤ next_reconnect_attempt s' ≤ later + seconds 75).
Proof.
  intros Hs Hr. cbv zeta. unfold handle_disconnect. rewrite (peer_of_soft_ban now id reason n s Hs).
  change (is_incoming (banned _ _ _ s)) with (is_incoming s). split; intros Hi; rewrite Hi.
  - rewrite peer_of_erase, Z.eqb_refl. split; [done|]. apply soft_ban_ips.
  - intros Hc Hd. eexists. split.
    { rewrite peer_of_upd, Z.eqb_refl, peer_of_disconnect, peer_of_upd, Z.eqb_refl.
      by rewrite (peer_of_soft_ban now id reason n s Hs). }
    split; [apply back_off_lifecycle|]. rewrite back_off_next, session_over_stable by done.
    pose proof (back_off_delay 60 r ltac:(lia) Hr) as Hb. fold (next_delay 60 r) in Hb.
    change (Z.min (u32 (INITIAL_RECONNECT_BACKOFF_SEC * 2)) MAX_RECONNECT_BACKOFF_SEC) with 60.
    change (60 / 2) with 30 in Hb. change (30 / 2) with 15 in Hb. unfold seconds. lia.
Qed.

(** ** The exchange of addresses *)

(** Requests of a peer at these times, and how many of them are answered. *)
Fixpoint exchange_answers (times : list Z) (s : peer_state) : nat :=
  match times with
  | [] => 0
  | t :: times =>
      if is_peer_exchange_rate_limited t s then exchange_answers times s
      else S (exchange_answers times (record_peer_exchange_request t s))
  end.

Lemma exchange_in_window times s :
  peer_exchange_window_start s ≠ 0 → 0 ≤ peer_exchange_request_count s ≤ 3 →
  (∀ t, t ∈ times → t < peer_exchange_window_start s + seconds PEER_EXCHANGE_WINDOW_SEC) →
  exchange_answers times s = (length times `min` Z.to_nat (3 - peer_exchange_request_count s))%nat.
Proof.
  revert s. induction times as [|t times IH]; intros s Hs Hc Ht; [done|].
  cbn [exchange_answers length].
  assert (seconds PEER_EXCHANGE_WINDOW_SEC <=? t - peer_exchange_window_start s = false) as Hw
    by (specialize (Ht t ltac:(left)); lia).
  unfold is_peer_exchange_rate_limited. rewrite (proj2 (Z.eqb_neq _ 0) Hs), Hw.
  change PEER_EXCHANGE_MAX_REQUESTS with 3. destruct (Z.leb_spec 3 (peer_exchange_request_count s)).
  - rewrite IH by set_solver. lia.
  - assert (record_peer_exchange_request t s = s <| peer_exchange_request_count := peer_exchange_request_count s + 1 |>)
      as ->.
    { unfold record_peer_exchange_request. rewrite (proj2 (Z.eqb_neq _ 0) Hs), Hw. cbn [orb].
      by rewrite <- (u32_small (peer_exchange_request_count s + 1)) by lia. }
    set (s' := s <| peer_exchange_request_count := _ |>).
    assert (peer_exchange_request_count s' = peer_exchange_request_count s + 1) as Es by done.
    rewrite IH; [lia|done|lia|]. intros t' Ht'. apply Ht. by right.
Qed.

(** From the first request for addresses on, a peer gets three answers in five
    minutes, however often it asks. *)
Theorem exchange_answers_bounded first times s :
  first ≠ 0 →
  peer_exchange_window_start s = 0 ∨ seconds PEER_EXCHANGE_WINDOW_SEC ≤ first - peer_exchange_window_start s →
  (∀ t, t ∈ times → t < first + seconds PEER_EXCHANGE_WINDOW_SEC) →
  exchange_answers (first :: times) s = S (length times `min` 2).
Proof.
  intros H0 Hs Ht.
  assert (is_peer_exchange_rate_limited first s = false) as Hl.
  { unfold is_peer_exchange_rate_limited. destruct (Z.eqb_spec (peer_exchange_window_start s) 0); [done|].
    by rewrite (proj2 (Z.leb_le _ _)) by lia. }
  assert (record_peer_exchange_request first s =
    s <| peer_exchange_request_count := 1 |> <| peer_exchange_window_start := first |>) as Hr.
  { unfold record_peer_exchange_request. by replace (_ || _) with true by lia. }
  cbn [exchange_answers]. rewrite Hl, Hr. f_equal. by rewrite exchange_in_window.
Qed.

(** The window does not slide: five answers in two seconds. *)
Example exchange_burst :
  exchange_answers (seconds <$> [1; 300; 300; 300; 301; 301; 301; 301]) new_peer = 6%nat.
Proof. by vm_compute. Qed.
