(* ===== verification/DltSteps.v ===== *)
(** * What holds whatever happens to a node

    A property of the node and its chain holds after any sequence of events if the
    calls of [Delegate] that change the chain keep it, and it does not speak of the
    node's fields, or only of the highest block the node has heard of and of its
    requests for the blocks of a gap, and what changes those keeps it ([kept_run]).
    Two uses: the highest number only grows, whatever happens, so that a number a
    peer claims stays and holds back the change to the FORWARD mode; and after a
    request for a gap no other one follows for some time. *)

From stdpp Require Import gmap strings list sorting.
From Stdlib Require Import ZArith Lia.
From S2P Require Import Prelude SignState Operations ChainOperations Block Objects Database EvalAccount Transactions.
From S2P Require Import DltMempool DltMempoolProofs Dlt DltPeers DltSync DltHandlers DltInvariant DltNode DltProofs.

(** ** What does not change it *)

Create HintDb heights.

Definition is_gap_request (m : message) : bool := match m with dlt_gap_fill_request _ => true | _ => false end.
Definition gap_requests (n : p2p) : list (Z * message) := filter (λ p, is_gap_request p.2 = true) (_sent n).

(** What is followed: the highest block heard of, and the requests for gaps. *)
Definition view (n : p2p) :=
  (_highest_seen_block_num n, (_gap_fill_in_progress n, _gap_fill_start_time n, _last_gap_fill_time n), gap_requests n).

Definition flat (f : p2p → p2p) : Prop := ∀ n, view (f n) = view n.

Lemma flat_fold {A} (f : p2p → A → p2p) l : (∀ a, flat (λ n, f n a)) → flat (λ n, foldl f n l).
Proof.
  intros Hf. induction l as [|a l IH]; intros n; [done|]. simpl. rewrite IH. apply Hf.
Qed.

Lemma flat_if (b : p2p → bool) f g : flat f → flat g → flat (λ n, if b n then f n else g n).
Proof. intros Hf Hg n. destruct (b n); [apply Hf|apply Hg]. Qed.

Lemma flat_compose f g : flat f → flat g → flat (λ n, f (g n)).
Proof. intros Hf Hg n. by rewrite Hf. Qed.

Lemma flat_send id m : is_gap_request m = false → flat (send_message id m).
Proof.
  intros Hm n. unfold send_message. case_decide; [|done]. unfold view, gap_requests. cbn.
  by rewrite filter_app, filter_cons_False, filter_nil, app_nil_r by (cbn; by rewrite Hm).
Qed.
Lemma flat_send_to_talking m : is_gap_request m = false → flat (send_to_talking m).
Proof.
  intros Hm n. unfold send_to_talking. generalize (_peer_states n) as l. intros l. revert n.
  induction l as [|p l IH]; intros n; [done|]. simpl. rewrite IH. destruct (is_talking _); [by apply flat_send|done].
Qed.
Lemma flat_upd id f : flat (upd_peer id f).
Proof. done. Qed.
Lemma flat_upds f : flat (upd_peers f).
Proof. done. Qed.
Lemma flat_mempool f : flat (on_mempool f).
Proof. done. Qed.
Lemma flat_disconnect id : flat (disconnect id).
Proof. done. Qed.
Lemma flat_erase id : flat (erase_peer id).
Proof. done. Qed.
#[export] Hint Resolve flat_fold flat_if flat_send flat_send_to_talking flat_upd flat_upds flat_mempool : heights.
#[export] Hint Resolve flat_disconnect flat_erase : heights.

Lemma flat_soft_ban now id reason : flat (soft_ban_peer now id reason).
Proof. intros n. unfold soft_ban_peer. destruct (peer_of id n); [|done]. by apply flat_send. Qed.

Lemma flat_record now id b : flat (record_packet_result now id b).
Proof.
  intros n. unfold record_packet_result. destruct (peer_of id n); [|done]. destruct b; [done|]. cbv zeta.
  destruct (peer_of _ _); [|done]. destruct (_ <=? _); [|done]. by rewrite flat_soft_ban.
Qed.

Lemma flat_connect_to_peer now ep : flat (connect_to_peer now ep).
Proof.
  intros n. unfold connect_to_peer. destruct (_ <=? _); [done|]. destruct (find _ _) as [[]|]; [|done].
  by destruct (is_one_of _ _).
Qed.

Lemma flat_handle_disconnect now id b r : flat (handle_disconnect now id b r).
Proof. intros n. unfold handle_disconnect. destruct (peer_of id n); [|done]. cbv zeta. by destruct (is_incoming _). Qed.

Lemma flat_connect_done now id h : flat (connect_done now id h).
Proof. intros n. unfold connect_done. destruct (peer_of id n); [|done]. cbv zeta. by rewrite flat_send. Qed.

Lemma flat_is_ip_blocked now ip n :
  view (is_ip_blocked now ip n).2 = view n.
Proof. unfold is_ip_blocked. destruct (_blocked_ips n !! ip); [by destruct (_ <=? _)|done]. Qed.

Lemma flat_accept_connection now ep h : flat (accept_connection now ep h).
Proof.
  intros n. unfold accept_connection. destruct (_ <=? _); [done|]. cbv zeta. set (m := add_peer _ n <| _connections ::= _ |>).
  pose proof (flat_is_ip_blocked now ep.1 m) as Hm. destruct (is_ip_blocked _ _ _) as [blocked m']. simpl in Hm.
  destruct (_ || _ && _); [done|]. by rewrite flat_send.
Qed.

Lemma flat_periodic_reconnect_check now : flat (periodic_reconnect_check now).
Proof.
  intros n. unfold periodic_reconnect_check, evict_excess. cbv zeta.
  rewrite (flat_fold (λ n d, erase_peer d.2 n)) by done.
  rewrite (flat_fold (λ n p, forget_stale now p n)) by (intros p m; unfold forget_stale; by destruct (_ && _)).
  apply (flat_fold (λ n k, reconnect_known now k n)). intros k m. unfold reconnect_known.
  destruct (find _ _) as [[]|]; [|done]. destruct (is_one_of _ _); [|done]. destruct (_ <? _); [done|].
  destruct (_ && _); [apply flat_connect_to_peer|done].
Qed.

Lemma flat_lifecycle now rs : flat (periodic_lifecycle_timeout_check now rs).
Proof.
  intros n. apply (flat_fold (λ n p, handle_disconnect now p.2.1 false (rs p.1) n)). intros. apply flat_handle_disconnect.
Qed.

Lemma flat_block_validation_timeout now : flat (block_validation_timeout now).
Proof.
  intros n. apply (flat_fold (λ n p, _)). intros p m. destruct (peer_of _ _); [|done].
  destruct (has_pending_batch_timeout _ _); [|done]. by rewrite flat_upd, flat_record.
Qed.

Lemma flat_reconnect_seeds now : flat (reconnect_seeds now).
Proof.
  intros n. apply (flat_fold (λ n ep, _)). intros ep m. rewrite flat_connect_to_peer. by destruct (find _ _) as [[]|].
Qed.

Lemma flat_start_seeds now : flat (start_seeds now).
Proof. intros n. by apply (flat_fold (λ n ep, _)). Qed.

Lemma flat_exchange_request now id : flat (on_dlt_peer_exchange_request now id).
Proof.
  intros n. unfold on_dlt_peer_exchange_request. destruct (peer_of id n); [|done].
  destruct (_isolated_peers n); [by apply flat_send|]. destruct (is_peer_exchange_rate_limited _ _); [by apply flat_send|].
  cbv zeta. by rewrite flat_record, flat_send.
Qed.

Lemma flat_learn_peer now i : flat (learn_peer now i).
Proof.
  intros n. unfold learn_peer. destruct (_ =? _); [done|]. destruct (decide _); [done|]. destruct (_ <=? _); [done|].
  cbv zeta. destruct (_ <? _); [by rewrite flat_connect_to_peer|done].
Qed.

Lemma flat_exchange_reply now id ps : flat (on_dlt_peer_exchange_reply now id ps).
Proof.
  intros n. unfold on_dlt_peer_exchange_reply. destruct (_isolated_peers n); [done|]. rewrite flat_record.
  apply (flat_fold (λ n i, learn_peer now i n)). intros i. apply flat_learn_peer.
Qed.

Lemma flat_exchange_limited now id : flat (on_dlt_peer_exchange_rate_limited now id).
Proof. intros n. unfold on_dlt_peer_exchange_rate_limited. by rewrite flat_record. Qed.

Lemma flat_periodic_peer_exchange now r : flat (periodic_peer_exchange now r).
Proof.
  intros n. unfold periodic_peer_exchange. destruct (_isolated_peers n); [done|]. destruct (negb _); [done|]. cbv zeta.
  destruct (omap _ _) as [|x l]; [done|]. set (c := x :: l). clearbody c.
  assert (∀ m, view (match c !! Z.to_nat (r mod Z.of_nat (length c)) with
    Some id => send_message id dlt_peer_exchange_request m | None => m end) = view m) as Hp.
  { intros m. destruct (c !! _); [by apply flat_send|done]. }
  destruct (_ <? _); [destruct (_ <? _); [done|]|]; by rewrite Hp.
Qed.

Lemma flat_send_to_all m ex b : is_gap_request m = false → flat (send_to_all_our_fork_peers m ex b).
Proof.
  intros Hm n. unfold send_to_all_our_fork_peers. apply (flat_fold (λ n id, _)). intros id n'. cbv zeta.
  destruct (negb _); [rewrite flat_upd|]; by apply flat_send.
Qed.

Lemma flat_block_incoming_ip now ip : flat (block_incoming_ip now ip).
Proof. intros n. unfold block_incoming_ip. cbv zeta. by destruct (_ <? _)%nat. Qed.

Lemma flat_on_dlt_soft_ban now id d reason : flat (on_dlt_soft_ban now id d reason).
Proof. intros n. unfold on_dlt_soft_ban. by destruct (peer_of id n). Qed.

Lemma flat_count_rejection now num : flat (count_rejection now num).
Proof. intros n. unfold count_rejection. cbv zeta. destruct (_ =? _); by destruct (_ <=? _). Qed.

#[export] Hint Resolve flat_soft_ban flat_record flat_connect_to_peer flat_handle_disconnect flat_connect_done : heights.
#[export] Hint Resolve flat_accept_connection flat_periodic_reconnect_check flat_lifecycle flat_block_validation_timeout
  flat_reconnect_seeds flat_start_seeds flat_exchange_request flat_exchange_reply flat_exchange_limited
  flat_periodic_peer_exchange flat_send_to_all flat_block_incoming_ip flat_on_dlt_soft_ban flat_count_rejection : heights.

(** ** The node *)

Section world.
Context {C : Type} {D : Delegate C} {TE : TransactionEnv} {BH : BlockHash} {MS : MessageSizes}.
Implicit Type v : world C.

(** What keeps [I], but for the requests for gaps. *)
Record stable (I : world C → Prop) : Prop := {
  st_net f v : flat f → I v → I (on_net f v);
  st_seen num v : I v → I (on_net (λ n, n <| _highest_seen_block_num ::= λ h, Z.max h num |>) v);
  st_accept b m v : I v → I (call_accept_block b m v).1;
  st_transaction t v : I v → I (on_chain (accept_transaction t) v);
  st_switch id v : I v → I (on_chain (switch_to_fork id) v);
  st_clear v : I v → I (on_chain delegate_clear_syncing v)
}.

(** The mark that a request is under way is taken away. *)
Definition gap_over (v : world C) : world C :=
  on_net (λ n, n <| _gap_fill_in_progress := false |> <| _gap_fill_start_time := 0 |>) v.

(** One event, at the time [now]; [answered] when it is a reply to a request. *)
Section event.
Variable I : world C → Prop.
Hypothesis HI : stable I.
Variables (now : Z) (answered : Prop).
Hypothesis I_gap : ∀ v, I v → I (request_gap_fill now v).
Hypothesis I_over : answered → ∀ v, I v → I (gap_over v).

Lemma I_net f v : flat f → I v → I (on_net f v).
Proof. by apply (st_net I HI). Qed.
Lemma I_seen num v : I v → I (on_net (λ n, n <| _highest_seen_block_num ::= λ h, Z.max h num |>) v).
Proof. by apply (st_seen I HI). Qed.
Lemma I_accept b m v : I v → I (call_accept_block b m v).1.
Proof. by apply (st_accept I HI). Qed.
Lemma I_transaction t v : I v → I (on_chain (accept_transaction t) v).
Proof. by apply (st_transaction I HI). Qed.
Lemma I_switch id v : I v → I (on_chain (switch_to_fork id) v).
Proof. by apply (st_switch I HI). Qed.
Lemma I_clear v : I v → I (on_chain delegate_clear_syncing v).
Proof. by apply (st_clear I HI). Qed.

Lemma kept_fold {A} (f : world C → A → world C) l v :
  (∀ a v, I v → I (f v a)) → I v → I (foldl f v l).
Proof. intros Hf. revert v. induction l as [|a l IH]; intros v Hv; [done|]. simpl. apply IH. by apply Hf. Qed.

Hint Extern 5 (flat _) => (intros ?; done) : heights.
Hint Extern 1 (is_gap_request _ = false) => first [reflexivity | solve [repeat case_match; reflexivity]] : heights.
Hint Resolve I_net I_accept I_transaction I_switch I_clear I_gap : heights.

(** Takes apart what is computed, branch by branch. *)
Ltac climb :=
  repeat first
    [ assumption
    | progress cbv beta zeta
    | apply I_net; [first [solve [auto with heights] | done | intros ?; done]|]
    | apply I_clear | apply I_switch | apply I_transaction
    | solve [auto 8 with heights]
    | match goal with
      | |- I (match ?x with _ => _ end) => destruct x
      | |- I (match ?x with _ => _ end).1 => destruct x
      | |- I (match ?x with _ => _ end).2 => destruct x
      end; cbn [fst snd] ].

Lemma kept_send peer m v : is_gap_request m = false → I v → I (send peer m v).
Proof. intros Hm. by apply I_net, flat_send. Qed.
Lemma kept_good peer v : I v → I (good now peer v).
Proof. apply I_net, flat_record. Qed.
Lemma kept_bad peer v : I v → I (bad now peer v).
Proof. apply I_net, flat_record. Qed.
Lemma kept_ban peer r v : I v → I (ban now peer r v).
Proof. apply I_net, flat_soft_ban. Qed.
Lemma kept_peer_do peer f v : I v → I (peer_do peer f v).
Proof. by apply I_net. Qed.
Lemma kept_prune v : I v → I (prune_mempool v).
Proof. by apply I_net. Qed.
Hint Resolve kept_send kept_good kept_bad kept_ban kept_peer_do kept_prune : heights.

Lemma kept_add_to_mempool t b p v : I v → I (add_to_mempool now t b p v).2.
Proof.
  intros H. unfold add_to_mempool. destruct (enroll _ _ _ _ _ _) as [r m].
  destruct r; cbn [snd]; climb.
Qed.
Lemma kept_forward v : I v → I (transition_to_forward now v).
Proof. intros H. unfold transition_to_forward. climb. Qed.
Lemma kept_to_sync v : I v → I (transition_to_sync now v).
Proof. intros H. unfold transition_to_sync. climb. Qed.
Lemma kept_range_request p a l v : I v → I (send_range_request now p a l v).
Proof. intros H. unfold send_range_request. climb. Qed.
Hint Resolve kept_add_to_mempool kept_forward kept_to_sync kept_range_request : heights.

Lemma kept_request_blocks k p v : I v → I (request_blocks k now p v).
Proof. intros H. revert p. induction k as [|k IH]; intros p; [done|]. cbn [request_blocks]. climb. Qed.
Lemma kept_request p v : I v → I (request_blocks_from_peer now p v).
Proof. apply kept_request_blocks. Qed.
Hint Resolve kept_request : heights.

Lemma kept_request_from_all P v : I v → I (request_from_all P now v).
Proof. apply kept_fold. intros [id s] u H. climb. Qed.
Hint Resolve kept_request_from_all : heights.

Lemma kept_isolated b v : I v → I (isolated now b v).
Proof. intros H. unfold isolated. climb. Qed.
Hint Resolve kept_isolated : heights.
Lemma kept_stagnation v : I v → I (sync_stagnation_check now v).
Proof. intros H. unfold sync_stagnation_check. climb. Qed.
Lemma kept_catchup v : I v → I (check_sync_catchup now v).
Proof. intros H. unfold check_sync_catchup. climb. Qed.
Lemma kept_behind v : I v → I (check_forward_behind now v).
Proof. intros H. unfold check_forward_behind. climb. Qed.
Lemma kept_forward_stagnation v : I v → I (check_forward_stagnation now v).
Proof. intros H. unfold check_forward_stagnation. climb. Qed.
Hint Resolve kept_stagnation kept_catchup kept_behind kept_forward_stagnation : heights.

Lemma kept_resolve v : I v → I (resolve_fork v).
Proof.
  intros H. unfold resolve_fork. destruct (get_fork_branch_tips (chain v)) as [|a [|b l]]; [climb..|]. cbv zeta.
  set (u := on_net _ v). assert (I u) as Hu.
  { apply I_net; [|done]. intros n. by destruct (_ =? _). }
  clearbody u. climb.
Qed.
Hint Resolve kept_resolve : heights.
Lemma kept_track b v : I v → I (track_fork_state b v).
Proof.
  intros H. unfold track_fork_state. cbv zeta.
  match goal with |- context [resolve_fork ?u] => assert (I u) as Hu by climb end.
  climb.
Qed.
Lemma kept_prune_check v : I v → I (periodic_dlt_prune_check v).
Proof. intros H. unfold periodic_dlt_prune_check. climb. Qed.
Hint Resolve kept_track kept_prune_check : heights.
Lemma kept_applied b f v : I v → I (on_block_applied b f v).
Proof.
  intros H. unfold on_block_applied. cbv zeta. apply I_net; [done|]. apply kept_prune_check.
  destruct f; [apply kept_prune|]; apply kept_track; climb.
Qed.
Lemma kept_resync v : I v → I (resync_from_lib now v).
Proof.
  intros H. unfold resync_from_lib. cbv zeta. apply kept_fold; [intros [id s] u Hu; climb|]. climb.
Qed.
Lemma kept_trigger v : I v → I (trigger_resync v).
Proof.
  intros H. unfold trigger_resync. cbv zeta. apply I_net; [|done]. intros n.
  apply (flat_fold (λ n p, _)). intros [id s] m. destruct (is_active _); [by apply flat_send|done].
Qed.
Hint Resolve kept_applied kept_resync kept_trigger : heights.

(** ** Messages *)

Lemma kept_received v : I v → I (block_received now v).
Proof. by apply I_net. Qed.
Lemma kept_see_block peer num v : I v → I (see_block peer num v).
Proof. intros H. unfold see_block. by apply I_seen, I_net. Qed.
Hint Resolve kept_received kept_see_block : heights.

Lemma kept_hello r peer h v : I v → I (on_dlt_hello now r peer h v).
Proof. intros H. unfold on_dlt_hello. climb. Qed.
Lemma kept_hello_reply peer r v : I v → I (on_dlt_hello_reply now peer r v).
Proof. intros H. unfold on_dlt_hello_reply. climb. Qed.
Lemma kept_range_reply peer a b h v : I v → I (on_dlt_range_reply now peer a b h v).
Proof. intros H. unfold on_dlt_range_reply. climb. Qed.
Lemma kept_get_range peer a b v : I v → I (on_dlt_get_block_range now peer a b v).
Proof. intros H. unfold on_dlt_get_block_range. cbv zeta. destruct (collect_range _ _ _ _). climb. Qed.
Lemma kept_gap_request peer nums v : I v → I (on_dlt_gap_fill_request now peer nums v).
Proof. intros H. unfold on_dlt_gap_fill_request. climb. Qed.
Hint Resolve kept_hello kept_hello_reply kept_range_reply kept_get_range kept_gap_request : heights.

Lemma kept_accept_range peer bs a f v : I v → I (accept_range now peer bs a f v).1.1.1.
Proof.
  revert a f v. induction bs as [|b bs IH]; intros a f v H; [done|]. cbn [accept_range].
  destruct (peer_of _ _) as [s|]; [|done]. destruct (_block_processing_paused _); [done|].
  destruct (is_duplicate _ _ _); [by apply IH|]. pose proof (I_accept b (is_sync v) v H) as Hc.
  destruct (call_accept_block _ _ _) as [u [[]| |]]; cbn [fst] in *; cbv zeta; try apply IH;
    auto 6 with heights.
Qed.
Lemma kept_block_range_reply peer bs next l v :
  I v → I (on_dlt_block_range_reply now peer bs next l v).2.
Proof.
  intros H. unfold on_dlt_block_range_reply. destruct (peer_of _ _) as [s|]; [|done].
  destruct bs as [|b bs]; [climb|]. cbv zeta.
  match goal with |- context [accept_range now peer (b :: bs) false false ?u] =>
    assert (I u) as Hu by auto with heights;
    pose proof (kept_accept_range peer (b :: bs) false false u Hu) as Ha end.
  destruct (accept_range _ _ _ _ _ _) as [[[u failed] applied] fork_only]. cbn [fst] in Ha.
  destruct failed; [done|]. cbn [snd]. climb.
Qed.
Lemma kept_out_of_order peer b v : I v → I (out_of_order now peer b v).
Proof.
  intros H. unfold out_of_order. cbv zeta.
  match goal with |- context [if ?c then request_gap_fill now v else v] =>
    set (u := if c then request_gap_fill now v else v); assert (I u) as Hu by (subst u; climb) end.
  clearbody u. climb.
Qed.
Lemma kept_after_block_reply peer next l b v : I v → I (after_block_reply now peer next l b v).
Proof.
  intros H. unfold after_block_reply. cbv zeta. climb.
Qed.
Hint Resolve kept_block_range_reply kept_out_of_order kept_after_block_reply : heights.

Lemma kept_block_reply peer b next l v : I v → I (on_dlt_block_reply now peer b next l v).2.
Proof.
  intros H. unfold on_dlt_block_reply. destruct (_block_processing_paused _); [done|].
  destruct (peer_of _ _) as [s|]; [|done]. cbv zeta. set (u := see_block peer (block_num b) v).
  assert (I u) as Hu by (subst u; auto with heights). clearbody u. set (other := negb _ && negb _). clearbody other.
  destruct (other && _); [cbn [snd]; auto with heights|].
  assert (I (if other then out_of_order now peer b u else u)) as Ho by (destruct other; auto with heights).
  pose proof (I_accept b false _ Ho) as Hc. destruct (call_accept_block _ _ _) as [x [[]| |]]; cbn [fst snd] in *;
    auto 10 with heights.
Qed.
Lemma kept_gap_dead_fork peer v : I v → I (gap_dead_fork now peer v).
Proof.
  intros H. unfold gap_dead_fork. destruct (peer_of _ _); [|done]. cbv zeta.
  destruct (_ <? _); [|climb]. destruct (_ && _); climb.
Qed.
Hint Resolve kept_block_reply kept_gap_dead_fork : heights.
Lemma kept_accept_gap peer bs v : I v → I (accept_gap now peer bs v).2.
Proof.
  revert v. induction bs as [|b bs IH]; intros v H; [done|]. cbn [accept_gap].
  destruct (_block_processing_paused _); [done|]. pose proof (I_accept b false v H) as Hc.
  destruct (call_accept_block _ _ _) as [u [[]| |]]; cbn [fst snd] in *; try apply IH; auto 6 with heights.
Qed.
Lemma kept_gap_reply peer bs v : answered → I v → I (on_dlt_gap_fill_reply now peer bs v).2.
Proof.
  intros Han H. unfold on_dlt_gap_fill_reply. destruct (_block_processing_paused _); [done|].
  destruct (peer_of _ _) as [s|]; [|done]. cbv zeta.
  match goal with |- context [accept_gap now peer bs ?u] =>
    assert (I u) as Hu by exact (I_over Han v H);
    pose proof (kept_accept_gap peer bs u Hu) as Ha end.
  destruct (accept_gap _ _ _ _) as [[] u]; cbn [snd] in *; auto with heights.
Qed.
Lemma kept_fork_status peer m v : I v → I (on_dlt_fork_status now peer m v).
Proof.
  intros H. unfold on_dlt_fork_status. destruct (peer_of _ _); [|done]. cbv zeta. apply kept_good.
  by apply I_seen, I_net.
Qed.
Lemma kept_transaction peer t v : I v → I (on_dlt_transaction now peer t v).
Proof.
  intros H. unfold on_dlt_transaction. pose proof (kept_add_to_mempool t true peer v H) as Ha.
  destruct (add_to_mempool _ _ _ _ _) as [[] u]; cbn [snd] in *; auto with heights.
Qed.
Lemma kept_fallback peer v : I v → I (range_fallback peer v).
Proof. intros H. unfold range_fallback. climb. Qed.
Hint Resolve kept_gap_reply kept_fork_status kept_transaction kept_fallback : heights.

Lemma kept_dispatch r peer m v : (∀ bs, m = dlt_gap_fill_reply bs → answered) → I v → I (dispatch now r peer m v).2.
Proof.
  intros Han H. destruct m; cbn [dispatch snd]; eauto with heights.
  - pose proof (kept_block_range_reply peer blocks last_block_next_available is_last v H) as Hr.
    destruct (on_dlt_block_range_reply _ _ _ _ _ _) as [[] u]; cbn [snd] in *; auto with heights.
  - destruct (_ =? _); cbn [snd]; auto with heights.
Qed.
Hint Resolve kept_dispatch : heights.
Lemma kept_on_message r peer m v : (∀ bs, m = dlt_gap_fill_reply bs → answered) → I v → I (on_message now r peer m v).2.
Proof.
  intros Han H. unfold on_message. destruct (peer_of _ _); [|done]. destruct (_block_processing_paused _); [|auto with heights].
  destruct m; cbn [snd]; auto with heights; try by apply I_net.
  destruct (bool_decide _); cbn [snd]; auto with heights.
Qed.
Lemma kept_read_message r peer m v : (∀ bs, m = dlt_gap_fill_reply bs → answered) → I v → I (read_message now r peer m v).
Proof.
  intros Han H. unfold read_message. pose proof (kept_on_message r peer m v Han H) as Hm.
  destruct (on_message _ _ _ _ _) as [[] u]; cbn [snd] in *; auto with heights.
Qed.
Lemma kept_oversized r peer v : I v → I (read_oversized now r peer v).
Proof.
  intros H. unfold read_oversized. cbv zeta. apply I_net; [|done]. intros n. rewrite flat_handle_disconnect.
  destruct (peer_of _ _); [|done]. destruct (negb _); [apply flat_block_incoming_ip|done].
Qed.

(** ** Pausing and the periodic task *)

Lemma kept_drain_blocks bs v : I v → I (drain_blocks now bs v).
Proof.
  revert v. induction bs as [|b bs IH]; intros v H; [done|]. cbn [drain_blocks].
  destruct (_block_processing_paused _); [done|]. pose proof (I_accept b false v H) as Hc.
  destruct (call_accept_block _ _ _) as [u [[]| |]]; cbn [fst] in *; try apply IH; auto with heights.
Qed.
Lemma kept_drain v : I v → I (drain_paused_block_queue now v).
Proof.
  intros H. unfold drain_paused_block_queue. destruct (_paused_block_queue _); [done|]. apply I_net; [done|].
  by apply kept_drain_blocks.
Qed.
Lemma kept_check_catchup v : I v → I (check_catchup v).
Proof. intros H. unfold check_catchup. climb. Qed.
Hint Resolve kept_read_message kept_oversized kept_drain kept_check_catchup : heights.
Lemma kept_resume v : I v → I (resume_block_processing now v).
Proof. intros H. unfold resume_block_processing. climb. Qed.
Lemma kept_task rs r v : I v → I (periodic_task now rs r v).
Proof.
  intros H. unfold periodic_task. cbv zeta. set (u := cleanup_mempool now _).
  assert (I u) as Hu by (apply I_net; [done|]; auto 8 with heights). clearbody u.
  destruct (_block_processing_paused _); [auto with heights|]. apply I_net; [done|].
  destruct (_catchup_after_pause _); auto 10 with heights.
Qed.
Hint Resolve kept_resume kept_task : heights.

Lemma kept_step e v :
  (∀ r peer bs, e = ev_message r peer (dlt_gap_fill_reply bs) → answered) →
  (∀ c, e = ev_chain c → I (on_chain (λ _, c) v)) → I v → I (step now e v).
Proof.
  intros Han Hc H. destruct e; cbn [step]; auto with heights; try by apply I_net.
  - apply kept_read_message; [|done]. intros bs ->. by eapply Han.
  - apply kept_applied, I_net; [by apply flat_send_to_all|done].
  - apply I_net; [by apply flat_send_to_all|done].
  - unfold broadcast_transaction. apply I_net; [by apply flat_send_to_all|]. auto with heights.
  - apply I_net; [by apply flat_send_to_all|done].
Qed.
End event.

Lemma kept_run I es v :
  stable I → (∀ t e v, (t, e) ∈ es → I v → I (request_gap_fill t v)) →
  (∀ t r peer bs v, (t, ev_message r peer (dlt_gap_fill_reply bs)) ∈ es → I v → I (gap_over v)) →
  (∀ t c v, (t, ev_chain c) ∈ es → I v → I (on_chain (λ _, c) v)) → I v → I (run es v).
Proof.
  intros HI. unfold run. revert v. induction es as [|[t e] es IH]; intros v Hg Hr Hc H; [done|]. simpl. apply IH.
  - intros t' e' u Hin. apply (Hg t' e'). by right.
  - intros t' r peer bs u Hin. apply (Hr t' r peer bs). by right.
  - intros t' c u Hin. apply (Hc t'). by right.
  - apply (kept_step I HI t (∃ r peer bs, e = ev_message r peer (dlt_gap_fill_reply bs))); [..|done].
    + intros u. apply (Hg t e). by left.
    + intros (r & peer & bs & ->) u. apply (Hr t r peer bs). by left.
    + intros r peer bs He. by exists r, peer, bs.
    + intros c ->. apply (Hc t); [left|done].
Qed.
End world.

(** ** The claim *)

Section claims.
Context {C : Type} {D : Delegate C} {TE : TransactionEnv} {BH : BlockHash} {MS : MessageSizes}.
Implicit Type w v : world C.

(** [v] is a state after [w]. *)
Definition rises w v : Prop := _highest_seen_block_num (net w) ≤ _highest_seen_block_num (net v).

Lemma rises_stable w : stable (rises w).
Proof.
  split; try (unfold rises; done).
  - intros f v Hf H. unfold rises in *. pose proof (Hf (net v)) as E. injection E as E _. cbn [net on_net]. by rewrite E.
  - intros num v H. unfold rises in *. etransitivity; [exact H|]. simpl. lia.
  - intros b m v H. unfold call_accept_block. by destruct (accept_block _ _ _).
Qed.

Lemma rises_run es w : rises w (run es w).
Proof.
  apply (kept_run (rises w)); try (unfold rises; done); [apply rises_stable|].
  intros t _ v _ H. unfold rises in *. by rewrite (proj2 (request_gap_fill_keeps t v)).
Qed.

Lemma fork_status_seen now r peer m w :
  is_Some (peer_of peer (net w)) →
  fs_head_num m ≤ _highest_seen_block_num (net (step now (ev_message r peer (dlt_fork_status m)) w)).
Proof.
  intros [s Hs]. cbn [step]. unfold read_message, on_message. rewrite Hs.
  assert (fs_head_num m ≤ _highest_seen_block_num (net (on_dlt_fork_status now peer m w))) as H.
  { unfold on_dlt_fork_status. rewrite Hs. cbv zeta. unfold good. rewrite (field_on_net _highest_seen_block_num).
    - simpl. lia.
    - intros n. pose proof (flat_record now peer true n) as E. by injection E. }
  by destruct (_block_processing_paused (net w)).
Qed.

(** C6 (safety).  The head that a peer claims is remembered for good.  Whatever happens later,
    also when that peer is banned or gone, the check for the change to the FORWARD mode
    fails until the node's own head is within two blocks of the claim: one message with
    a large number disables it. *)
Theorem claimed_height_stays now r peer m es w :
  is_Some (peer_of peer (net w)) →
  let w' := run es (step now (ev_message r peer (dlt_fork_status m)) w) in
  fs_head_num m ≤ _highest_seen_block_num (net w') ∧
  ∀ t, is_sync w' = true → 0 < get_head_block_num (chain w') →
    u32 (get_head_block_num (chain w') + FORWARD_FALLBEHIND_THRESHOLD) < fs_head_num m →
    is_forward (check_sync_catchup t w') = false.
Proof.
  intros Hp. cbv zeta. set (v := step now _ w).
  assert (fs_head_num m ≤ _highest_seen_block_num (net (run es v))) as H.
  { etransitivity; [by apply fork_status_seen|]. fold v. apply (rises_run es v). }
  split; [done|]. intros t Hs H0 Hlt.
  destruct (check_sync_catchup_cases t (run es v) Hs H0) as [[(_ & _ & He) _]|[_ Hf]]; [lia|done].
Qed.

(** ** Requests for gaps *)

(** No request is sent after [w], and the time of the last one stays. *)
Definition cooling (since : Z) w v : Prop :=
  _last_gap_fill_time (net v) = since ∧ gap_requests (net v) = gap_requests (net w).

(** Nor is the mark taken away that one is under way. *)
Definition waiting_for (since : Z) w v : Prop :=
  _gap_fill_in_progress (net v) = true ∧ _gap_fill_start_time (net v) = since ∧
  gap_requests (net v) = gap_requests (net w).

Lemma view_stable (P : _ → Prop) :
  (∀ h h' g l, P (h, g, l) → P (h', g, l)) → stable (λ v, P (view (net v))).
Proof.
  intros HP. split; try done.
  - intros f v Hf H. cbn [net on_net]. by rewrite Hf.
  - intros num v. unfold view at 1. apply HP.
  - intros b m v H. unfold call_accept_block. by destruct (accept_block _ _ _).
Qed.

Lemma cooling_request since t w v :
  since ≠ 0 → t < since + seconds GAP_FILL_COOLDOWN_SEC → cooling since w v → cooling since w (request_gap_fill t v).
Proof.
  intros H0 Ht [H1 H2]. unfold request_gap_fill, gap_fill_ready. cbv zeta.
  destruct (_ && ((_ =? 0) || _)); [by destruct (_ && _)|]. change (_last_gap_fill_time (_ <| _gap_fill_in_progress := false |>)) with (_last_gap_fill_time (net v)).
  rewrite H1. replace (negb (since =? 0) && _) with true by lia. by destruct (_ && _).
Qed.

Lemma cooling_run since es w v :
  since ≠ 0 → (∀ t e, (t, e) ∈ es → t < since + seconds GAP_FILL_COOLDOWN_SEC) →
  cooling since w v → cooling since w (run es v).
Proof.
  intros H0 Ht. apply kept_run; try done.
  - apply (view_stable (λ x, x.1.2.2 = since ∧ x.2 = gap_requests (net w))). done.
  - intros t e u Hin. by eapply cooling_request, Ht.
Qed.

Lemma waiting_run since es w v :
  (∀ t e, (t, e) ∈ es → t ≤ since + seconds GAP_FILL_TIMEOUT_SEC ∧
     ∀ r peer bs, e ≠ ev_message r peer (dlt_gap_fill_reply bs)) →
  waiting_for since w v → waiting_for since w (run es v).
Proof.
  intros He. apply kept_run; try done.
  - apply (view_stable (λ x, x.1.2.1.1 = true ∧ x.1.2.1.2 = since ∧ x.2 = gap_requests (net w))). done.
  - intros t e u Hin (H1 & H2 & H3). destruct (He t e Hin) as [Ht _]. rewrite gap_fill_quiet; [done|].
    split; [done|]. right. lia.
  - intros t r peer bs u Hin. by destruct (proj2 (He t _ Hin) r peer bs).
Qed.

(** C9 (bounds).  Asking for the blocks of a gap sends at most one request, for one to a
    hundred blocks from the node's head or below.  After it, whatever the peers and the
    node's tasks do, no other such request is sent for five seconds; and none for fifteen
    seconds as long as no reply comes (any peer's: a reply ends the wait, and then only the
    five seconds hold).  A node that gets such a request answers it and does not count it
    against the sender. *)
Theorem gap_fill_polite now w :
  0 < now → 0 ≤ _gap_fill_fork_override_start (net w) → 0 ≤ get_head_block_num (chain w) →
  get_head_block_num (chain w) + GAP_FILL_MAX_BLOCKS < 2 ^ 32 →
  let w' := request_gap_fill now w in
  _sent (net w') = _sent (net w) ∨
  ∃ p from upto,
    _sent (net w') = _sent (net w) ++ [(p, dlt_gap_fill_request (numbers from upto))] ∧
    from ≤ get_head_block_num (chain w) ∧
    (1 ≤ length (numbers from upto) ≤ 100)%nat ∧
    (∀ es, (∀ t e, (t, e) ∈ es → t < now + seconds 5) →
      gap_requests (net (run es w')) = gap_requests (net w')) ∧
    (∀ es, (∀ t e, (t, e) ∈ es → t ≤ now + seconds 15 ∧ ∀ r peer bs, e ≠ ev_message r peer (dlt_gap_fill_reply bs)) →
      gap_requests (net (run es w')) = gap_requests (net w')) ∧
    (∀ t sender v, is_Some (peer_of sender (net v)) → ∃ blocks,
      on_dlt_gap_fill_request t sender (numbers from upto) v = good t sender (send sender (dlt_gap_fill_reply blocks) v)).
Proof.
  intros Hn Ho Hh Hmax w'.
  destruct (request_gap_fill_ok now w Ho Hh Hmax) as [H|(p & from & upto & H & Hb & Hf & Hw & Hs & Hl)]; [by left|].
  fold w' in H, Hw, Hs, Hl. right. exists p, from, upto.
  pose proof (gap_request_length from upto Hb) as [Hl1 Hl2].
  split_and!; [done|done|done|done| | |intros; by apply gap_request_answered].
  - intros es He. by apply (cooling_run now es w' w'); [lia|apply He|].
  - intros es He. by apply (waiting_run now es w' w').
Qed.
End claims.
