(* ===== verification/DltDelegate.v ===== *)
(** * The chain behind the network (plugins/p2p/p2p_plugin.cpp, lines 45-425)

    [dlt_delegate] answers the node of the network from the chain: here it is an
    instance of [Delegate], over the state of a node without a rolling block log
    ([_dlt_mode] is not set).  [accept_block] pushes a block and says what became
    of it; the signals of memory (a deferred resize, a corrupted file) do not
    occur. *)

From stdpp Require Import gmap strings list.
From Stdlib Require Import ZArith Lia.
From S2P Require Import Prelude Fc Text Asset Authority SignState Operations ChainOperations.
From S2P Require Import Block ForkDb Objects Database Evaluators Slots BlockData Irreversible.
From S2P Require Import EvalAccount EvalGovern EvalAward EvalInvite PostValidation Schedule Transactions Proposals ApplyBlock.
From S2P Require Import PushBlock DltMempool Dlt.

(** The node, when it was started and what time it is now (in microseconds),
    whether its chain plugin believes to be synchronising, and whether the key of
    the emergency validator is configured. *)
Record host := mk_host {
  host_node : node;
  _startup_time : Z;
  host_clock : Z;
  currently_syncing : bool;
  emergency_key_configured : bool
}.

Section delegate.
Context {CE : ChainEnv} {CI : CustomInterpreters} {TE : TransactionEnv} {FA : FreshArrays} {BE : BlockEnv}.
Context {US : UndoSessions}.

(** The fuel of the recursion of proposals, and how many pending transactions
    there is time to restore. *)
Variables fuel tries : nat.

(** [database::is_known_block]. *)
Definition db_known_block (id : Z) (s : database) : res bool :=
  let n := num_from_id id in
  if (0 <? n) && bool_decide (block_summaries s !! Z.land n 0xFFFF = Some id) then Ok true
  else let? b := fetch_block_by_id id s in Ok (bool_decide (is_Some b)).

Definition head_of (h : host) : dynamic_global_property_object := dgpo (db (host_node h)).
Definition forks_of (h : host) : fork_database := fork_db (db (host_node h)).

(** The first of the blocks of that number in the fork database. *)
Definition host_read_block (n : Z) (h : host) : option signed_block :=
  match ForkDb.fetch_block_by_number n (forks_of h) with
  | b :: _ => stored_block (db (host_node h)) b.2
  | [] => None
  end.

(** ** [accept_block] *)

(** [push_block], and what became of a block that was not applied. *)
Definition push_and_classify (b : signed_block) (skip : Z) : NM accept_result :=
  let+ applied := push_block fuel tries b skip in
  if applied : bool then nret ACCEPTED
  else
    let+ s := nget db in
    if block_num b <=? head_block_number (dgpo s) then
      let+ main_chain_id := nlift (find_block_id_for_num (block_num b) s) in
      nret (if main_chain_id =? block_id b then ALREADY_KNOWN else FORK_DB_ONLY)
    else nret FORK_DB_ONLY.

(** [try { fork_db.push_block (b) } catch (...) {}] *)
Definition keep_in_forks (b : signed_block) : NM unit :=
  ncatch is_exception (let+ r := on_forks (ForkDb.push_block b) in nret tt) (λ _, nret tt).

(** The head of the fork database is ahead of the chain: it is reset, and the
    block pushed again. *)
Definition accept_too_old (b : signed_block) (skip : Z) : NM accept_result :=
  let+ n := nget id in
  let fb_head := _head (fork_db (db n)) ≫= stored_block (db n) in
  match fb_head with
  | Some fb =>
      if head_num n <? block_num fb then
        ncatch is_exception
          (let+ head_blk := nlift (fetch_block_by_id (current_head n) (db n)) in
           do+ on_forks reset in
           do+ match head_blk with Some hb => on_forks (start_block hb) | None => nret tt end in
           push_and_classify b skip)
          (λ e, match e with E_unlinkable_block => nret DEAD_FORK | _ => nret ALREADY_KNOWN end)
      else nret ALREADY_KNOWN
  | None => nret ALREADY_KNOWN
  end.

(** A block that does not link: up to the height of the head it is of a dead fork,
    unless its parent is on the chain, or the node has just been started and the
    block is close to the head. *)
Definition accept_unlinkable (in_grace_period : bool) (b : signed_block) : NM accept_result :=
  let+ n := nget id in
  if block_num b <=? head_num n then
    let+ parent_on_chain := (if previous b =? 0 then nret None else nlift (fetch_block_by_id (previous b) (db n))) in
    match parent_on_chain with
    | Some _ => do+ keep_in_forks b in nret FORK_DB_ONLY
    | None =>
        if in_grace_period && (u32 (head_num n - block_num b) <=? 10)
        then do+ keep_in_forks b in nret FORK_DB_ONLY
        else nret DEAD_FORK
    end
  else let+ r := on_forks (ForkDb.push_block b) in nret FORK_DB_ONLY.

Definition accept_in_node (in_grace_period : bool) (b : signed_block) (sync_mode : bool) : NM accept_result :=
  let skip := if sync_mode then skip_transaction_signatures else skip_nothing in
  ncatch is_exception (push_and_classify b skip)
    (λ e, match e with
          | E_block_too_old => accept_too_old b skip
          | E_unlinkable_block => accept_unlinkable in_grace_period b
          | _ => nret REJECTED
          end).

(** What throws in a handler escapes; so does, in the model, what is undefined. *)
Definition host_accept_block (b : signed_block) (sync_mode : bool) (h : host) : host * accept_outcome :=
  let in_grace_period := host_clock h - _startup_time h <? 60 * 1000000 in
  match accept_in_node in_grace_period b sync_mode (host_node h) with
  | (n, inr r) => (mk_host n (_startup_time h) (host_clock h) (currently_syncing h) (emergency_key_configured h), took r)
  | (n, inl _) => (mk_host n (_startup_time h) (host_clock h) (currently_syncing h) (emergency_key_configured h), threw)
  end.

Definition with_node (f : node → node) (h : host) : host :=
  mk_host (f (host_node h)) (_startup_time h) (host_clock h) (currently_syncing h) (emergency_key_configured h).

(** ** Forks *)

(** The blocks of the fork database from the height of the head up to five above. *)
Definition host_branch_tips (h : host) : list Z :=
  let head_num := head_block_number (head_of h) in
  mjoin ((λ n, (ForkDb.fetch_block_by_number n (forks_of h)).*1) <$> seqZ head_num 6).

Definition host_compare_branches (a b : Z) (h : host) : Z :=
  match compare_fork_branches a b (db (host_node h)) with Ok x => x | Err _ => 0 end.

Definition host_switch_to_fork (new_head : Z) (h : host) : host :=
  match fetch_block new_head (forks_of h) ≫= stored_block (db (host_node h)) with
  | Some b => with_node (λ n, (push_block fuel tries b skip_nothing n).1) h
  | None => h
  end.

Definition host_is_head_on_branch (tip : Z) (h : host) : bool :=
  let head := head_block_id (head_of h) in
  if tip =? head then true
  else if negb (ForkDb.is_known_block tip (forks_of h)) || negb (ForkDb.is_known_block head (forks_of h)) then false
  else
    match fetch_branch_from tip head (forks_of h) with
    | Ok branches => negb (bool_decide (branches.2 = []))
    | Err _ => false
    end.

(** ** The instance *)

#[global] Instance host_delegate : Delegate host := {
  get_head_block_id h := head_block_id (head_of h);
  get_head_block_num h := head_block_number (head_of h);
  get_lib_block_id h := last_irreversible_block_id (head_of h);
  get_lib_block_num h := last_irreversible_block_num (head_of h);
  get_dlt_earliest_block h := 0;
  get_dlt_latest_block h := head_block_number (head_of h);
  is_emergency_consensus_active h := false;
  has_emergency_private_key h := emergency_key_configured h;
  delegate_read_block n h := host_read_block n h;
  block_exists_in_log_or_fork_db n h := bool_decide (is_Some (host_read_block n h));
  delegate_block_known id h := match db_known_block id (db (host_node h)) with Ok b => b | Err _ => false end;
  accept_block := host_accept_block;
  accept_transaction trx := with_node (λ n, (submit_transaction fuel trx skip_nothing n).1);
  compare_branches := host_compare_branches;
  get_fork_branch_tips := host_branch_tips;
  switch_to_fork := host_switch_to_fork;
  is_head_on_branch := host_is_head_on_branch;
  check_tapos_block_summary num prefix h :=
    match block_summaries (db (host_node h)) !! num with Some id => prefix =? id_word1 id | None => false end;
  delegate_clear_syncing h :=
    mk_host (host_node h) (_startup_time h) (host_clock h) false (emergency_key_configured h)
}.
End delegate.
