(* ===== verification/DltDelegateProofs.v ===== *)
(** * The chain and the network together

    What the peers of a node can do to its chain, and what [dlt_delegate] answers
    about forks. *)

From stdpp Require Import gmap strings list sorting.
From Stdlib Require Import ZArith Lia.
From S2P Require Import Prelude Fc Text Asset Authority SignState Operations ChainOperations.
From S2P Require Import Block ForkDb ForkDbProofs Objects Database Supply Frame Scenario Evaluators Slots BlockData Irreversible.
From S2P Require Import EvalAccount EvalGovern EvalAward EvalInvite PostValidation Schedule Transactions Proposals ApplyBlock.
From S2P Require Import PushBlock PushBlockProofs DltMempool Dlt DltPeers DltSync DltHandlers DltInvariant DltNode DltProofs.
From S2P Require Import DltSteps DltDelegate.

Section host.
Context {CE : ChainEnv} {CI : CustomInterpreters} {TE : TransactionEnv} {FA : FreshArrays} {BE : BlockEnv}.
Context {US : UndoSessions} {MS : MessageSizes} (fuel tries : nat).
#[local] Instance this_host : Delegate host := host_delegate fuel tries.
Implicit Type w : world host.

(** ** The chain after whatever the peers do *)

(** The flags with which a block of the network is applied.  Above the last
    checkpoint everything is checked, but for the signatures of transactions while
    blocks are fetched in order, and the schedule for a block of a branch that the
    chain switches to; up to the last checkpoint what [apply_block] skips there, for
    a block that is the one of its checkpoint if it has one. *)
Inductive network_flags (checkpoints : list (Z * Z)) (b : signed_block) (skip : Z) : Prop :=
| flags_above :
    (∀ last_num last_id, last checkpoints = Some (last_num, last_id) → last_id = 0 ∨ last_num < block_num b) →
    skip ∈ [skip_nothing; skip_transaction_signatures; skip_validator_schedule_check;
            Z.lor skip_transaction_signatures skip_validator_schedule_check] →
    network_flags checkpoints b skip
| flags_up_to last_num last_id :
    last checkpoints = Some (last_num, last_id) → last_id ≠ 0 → block_num b ≤ last_num →
    (∀ i num id, list_find (λ p, p.1 = block_num b) checkpoints = Some (i, (num, id)) → block_id b = id) →
    skip = foldr Z.lor 0 [skip_validator_signature; skip_transaction_signatures;
             skip_transaction_dupe_check; skip_fork_db; skip_block_size_check; skip_tapos_check;
             skip_authority_check; skip_undo_history_check; skip_validator_schedule_check;
             skip_validate_operations] →
    network_flags checkpoints b skip.

(** Of a transaction of its own, it may leave out the signatures when it puts it
    back after such a block. *)
Definition network_tx_flags (skip : Z) : Prop := skip ∈ [skip_nothing; skip_transaction_signatures].

Lemma flags_fit checkpoints skip :
  skip ∈ [skip_nothing; skip_transaction_signatures; skip_validator_schedule_check;
          Z.lor skip_transaction_signatures skip_validator_schedule_check] →
  fits (network_flags checkpoints) checkpoints skip.
Proof.
  intros Hin b skip' H. unfold checkpoint_skip in H. destruct (last checkpoints) as [[num id]|] eqn:El.
  2:{ injection H as <-. apply flags_above; [by rewrite El|done]. }
  destruct (Z.eqb_spec id 0) as [->|Hid].
  { injection H as <-. apply flags_above; [|done]. rewrite El. intros ? ? [= -> ->]. by left. }
  unfold rbind in H. destruct (match list_find _ _ with Some _ => _ | None => _ end) as [[]|] eqn:Ef; [|done].
  destruct (Z.leb_spec (block_num b) num); injection H as <-.
  - apply (flags_up_to _ _ _ num id); try done. intros i k id' Hf. rewrite Hf in Ef.
    unfold rassert in Ef. destruct (Z.eqb_spec (block_id b) id'); [done|by destruct (block_id b =? id')].
  - apply flags_above; [|done]. rewrite El. intros ? ? [= -> ->]. by right.
Qed.

Lemma network_permitted checkpoints skip :
  network_tx_flags skip → permitted (network_flags checkpoints) network_tx_flags checkpoints skip.
Proof.
  intros H. split_and!; [apply flags_fit..|done]; unfold network_tx_flags in H;
    repeat (apply elem_of_cons in H as [->|H]; [repeat first [left|right]|]); by apply elem_of_nil in H.
Qed.

Section chain.
Variables (checkpoints : list (Z * Z)) (root : database).
#[local] Notation chain_ok := (node_ok fuel (network_flags checkpoints) network_tx_flags checkpoints root).

Lemma forks_node_ok {A} (m : FM A) : keeps chain_ok (on_forks m).
Proof.
  intros n Hn. unfold on_forks. destruct (m (fork_db (db n))) as [d r].
  apply (pending_ok _ _ _ _ root n ((db n) <| fork_db := d |>) (_pending_tx n) (_popped_tx n)); [|done].
  right. apply chain_forks.
Qed.
#[local] Hint Resolve forks_node_ok push_block_ok network_permitted : keeps.

Lemma accept_ok in_grace b sync_mode : keeps chain_ok (accept_in_node fuel tries in_grace b sync_mode).
Proof.
  assert (network_tx_flags (if sync_mode then skip_transaction_signatures else skip_nothing)) as Hf
    by (destruct sync_mode; [right; left|left]).
  unfold accept_in_node, accept_too_old, accept_unlinkable, push_and_classify, keep_in_forks. cbv zeta.
  set (skip := if sync_mode then _ else _) in *. clearbody skip. solve_keeps.
Qed.

(** What the node of the network does with its chain. *)
Definition chain_good w : Prop := chain_ok (host_node (chain w)).

Lemma network_keeps_chain es w :
  (∀ t c v, (t, ev_chain c) ∈ es → chain_good v → chain_good (on_chain (λ _, c) v)) →
  chain_good w → chain_good (run es w).
Proof.
  intros Hc. apply kept_run; try done.
  2:{ intros t _ v _ H. unfold chain_good in *. by rewrite (proj1 (request_gap_fill_keeps t v)). }
  split; try done; unfold chain_good.
  - intros b m v H. unfold call_accept_block. cbn [accept_block this_host host_delegate]. unfold host_accept_block.
    pose proof (accept_ok (host_clock (chain v) - _startup_time (chain v) <? 60 * 1000000) b m _ H) as Ha.
    by destruct (accept_in_node _ _ _ _ _ _) as [n [e|r]].
  - intros t v H. apply submit_ok; [by left|done].
  - intros id v H. cbn [chain on_chain switch_to_fork this_host host_delegate]. unfold host_switch_to_fork.
    destruct (_ ≫= _); [|done]. apply push_block_ok; [|done]. apply network_permitted. by left.
Qed.
End chain.

(** C4 (invariant).  Whatever messages a node gets, in any order and from whatever peers, and
    whatever its periodic task, pauses and requests do: its chain is one that blocks
    lead to, each applied to the state the one before it left, with pending
    transactions applied on top; and so are the states it can go back to.  Each block is
    applied with the flags of [network_flags]: above the last checkpoint its signature,
    its Merkle root, its place after the head and its transactions are checked; only the
    signatures of transactions (while it fetches blocks in order) and the schedule (in a
    switch of forks) may be left out.  Two changes are not whole blocks, as in
    [pushes_replay_blocks]: the correction of the slot after such a switch, and what is
    left of a block that fails after it has made itself irreversible. *)
Theorem network_replays_blocks s checkpoints n0 clock syncing key es :
  (∀ e, e ∈ es → ∀ c, e.2 ≠ ev_chain c) →
  node_ok fuel (network_flags checkpoints) network_tx_flags checkpoints s
    (host_node (chain (run es (mk_world n0 (mk_host (mk_node s [] None [] [] checkpoints) 0 clock syncing key))))).
Proof.
  intros Hes. apply (network_keeps_chain checkpoints s).
  - intros t c v Hin. by destruct (Hes _ Hin c).
  - split; cbn; [done| |by repeat constructor|by exists s].
    constructor; [apply follows_refl|constructor].
Qed.

(** ** Forks *)

(** The branches of the two blocks meet in the fork database. *)
Definition comparable (tip : Z) (h : host) : Prop :=
  tip = head_block_id (head_of h) ∨
  ∃ branches, fetch_branch_from tip (head_block_id (head_of h)) (forks_of h) = Ok branches.

Lemma comparable_on_branch tip h :
  fdb_wf (forks_of h) → comparable tip h → host_is_head_on_branch tip h = true.
Proof.
  intros Hwf. unfold host_is_head_on_branch. cbv zeta. intros [->|[[l1 l2] Hb]]; [by rewrite Z.eqb_refl|].
  destruct (_ =? _); [done|]. pose proof (fetch_branch_spec (forks_of h) tip (head_block_id (head_of h)) Hwf) as H.
  rewrite Hb in H. destruct H as (fa & ga & x & y & Hf & Hg & _ & Hp & _).
  unfold ForkDb.is_known_block. rewrite Hf, Hg, Hb. cbn. by destruct Hp.
Qed.

Lemma heaviest_tip_in (h : host) first tips : heaviest_tip h first tips ∈ first :: tips.
Proof.
  unfold heaviest_tip. revert first. induction tips as [|t l IH]; intros first; [left|]. cbn [foldl].
  set (best := if _ <? _ then t else first).
  assert (best = t ∨ best = first) as Hb by (subst best; destruct (_ <? _); auto).
  specialize (IH best). rewrite elem_of_cons in IH.
  destruct IH as [->|IH]; [destruct Hb as [->| ->]; [by right; left|by left]|by do 2 right].
Qed.

(** C10 (safety).  [is_head_on_branch] says yes for every block whose branch meets the one of the
    head.  So the resolution of forks never finds the node in a minority and never asks
    the chain to switch, whichever branch it has found to be the heaviest: the chain
    stays as it is. *)
Theorem resolution_never_switches w :
  fdb_wf (forks_of (chain w)) → (∀ tip, tip ∈ host_branch_tips (chain w) → comparable tip (chain w)) →
  (∀ tip, tip ∈ host_branch_tips (chain w) → is_head_on_branch tip (chain w) = true) ∧
  chain (resolve_fork w) = chain w ∧
  (_fork_status (net (resolve_fork w)) = DLT_FORK_STATUS_NORMAL ∨
   _fork_status (net (resolve_fork w)) = _fork_status (net w)).
Proof.
  intros Hwf Hc.
  assert (∀ tip, tip ∈ host_branch_tips (chain w) → is_head_on_branch tip (chain w) = true) as Hon
    by (intros tip Ht; apply comparable_on_branch; auto).
  split; [done|]. unfold resolve_fork.
  change (get_fork_branch_tips (chain w)) with (host_branch_tips (chain w)) in *.
  destruct (host_branch_tips (chain w)) as [|a [|b l]]; [by split; [|left]..|]. cbv zeta.
  pose proof (heaviest_tip_in (chain w) a (b :: l)) as Hin.
  set (winner := heaviest_tip _ _ _) in *. set (v := on_net _ w).
  assert (chain v = chain w ∧ _fork_status (net v) = _fork_status (net w)) as [Ev Es].
  { split; [done|]. subst v. cbn [net on_net]. by destruct (_ =? _). }
  destruct (_ <? CONFIRMATION_BLOCKS); [rewrite Ev; auto|].
  rewrite Ev, (Hon winner Hin). split; [done|by left].
Qed.
End host.
