(* ===== verification/DltScenario.v ===== *)
(** * A node of the network at work

    Small networks on which the theorems are evaluated: first over a chain that is
    only its height, then over the small chain of [BlockScenario]. *)

From stdpp Require Import gmap strings list sorting.
From Stdlib Require Import ZArith Lia.
From S2P Require Import Prelude Fc Text Asset Authority SignState Operations ChainOperations.
From S2P Require Import Block ForkDb ForkDbProofs Objects Database Supply Frame Scenario EvalTransfer EvalAccount.
From S2P Require Import EvalGovern EvalAward EvalInvite Evaluators Duties Slots BlockData Irreversible.
From S2P Require Import PostValidation Schedule Transactions Proposals ProposalsTrap ApplyBlock BlockScenario.
From S2P Require Import PushBlock PushBlockProofs PushBlockFailures DltMempool DltMempoolProofs Dlt DltPeers DltSync.
From S2P Require Import DltHandlers DltInvariant DltNode DltProofs DltSteps DltDelegate DltDelegateProofs.

#[local] Existing Instance test_env.
#[local] Existing Instance no_interpreters.
#[local] Existing Instance test_tx_env.
#[local] Existing Instance clear_arrays.
#[local] Existing Instance test_block_env.
#[local] Existing Instance reversible_states.

(** ** A chain that is only its height *)

(** Block [n] has the identifier [n]; a pushed block raises the head by one. *)
Definition height_chain : Delegate Z := {|
  get_head_block_id h := h; get_head_block_num h := h;
  get_lib_block_id h := h - 2; get_lib_block_num h := h - 2;
  get_dlt_earliest_block _ := 1; get_dlt_latest_block h := h;
  is_emergency_consensus_active _ := false; has_emergency_private_key _ := false;
  delegate_read_block n h := if n <=? h then Some (plain "alice" n 1000000 0 n) else None;
  block_exists_in_log_or_fork_db n h := n <=? h;
  delegate_block_known n h := n <=? h;
  accept_block _ _ h := (h + 1, took ACCEPTED);
  accept_transaction _ h := h;
  compare_branches _ _ _ := 0; get_fork_branch_tips _ := []; switch_to_fork _ h := h;
  is_head_on_branch _ _ := true; check_tapos_block_summary _ _ _ := true; delegate_clear_syncing h := h
|}.
#[local] Existing Instance height_chain.

Definition small_messages : MessageSizes := {| block_pack_size _ := 100; reply_pack_size l := 100 * Z.of_nat (length l) |}.
#[local] Existing Instance small_messages.

(** A node with room for ten connections, at block 50. *)
Definition fresh_node : p2p := new_node [] 10 77 false (empty_mempool 3 1000 500 24) 10 5 600 24 1000.
Definition at_block (h : Z) : world Z := mk_world fresh_node h.

Definition greeting (head earliest : Z) (nid : Z) : hello_message :=
  mk_hello (Z.min head 50) head 48 48 earliest head false false 0 DLT_NODE_STATUS_FORWARD nid.

(** Two peers connect, and say what they have. *)
Definition two_peers (head1 earliest1 head2 earliest2 : Z) : list (Z * net_event Z) :=
  [(seconds 1, ev_accept (1, 1)); (seconds 1, ev_accept (2, 1));
   (seconds 2, ev_message 0 1 (dlt_hello (greeting head1 earliest1 11)));
   (seconds 2, ev_message 0 2 (dlt_hello (greeting head2 earliest2 12)))].
Definition met (h head1 earliest1 head2 earliest2 : Z) : world Z :=
  run (two_peers head1 earliest1 head2 earliest2) (at_block h).

Lemma fresh_ok : net_ok fresh_node.
Proof. split; cbn; try lia; try set_solver; [constructor|by apply empty_mempool_ok|done]. Qed.

Lemma met_fine h a b c d : fine (met h a b c d).
Proof. apply fine_run. exact fresh_ok. Qed.

(** Peers whose blocks are not known: the node waits in the SYNC mode. *)
Definition stranger (head nid : Z) : hello_message :=
  mk_hello 900 head 900 48 1 head false false 0 DLT_NODE_STATUS_FORWARD nid.
Definition waiting (head1 head2 : Z) : world Z :=
  run [(seconds 1, ev_accept (1, 1)); (seconds 1, ev_accept (2, 1));
       (seconds 2, ev_message 0 1 (dlt_hello (stranger head1 11)));
       (seconds 2, ev_message 0 2 (dlt_hello (stranger head2 12)))] (at_block 50).

Definition peer_at (id : Z) (w : world Z) : peer_state := default new_peer (peer_of id (net w)).

Definition peer_summary (n : p2p) : list (Z * lifecycle * Z) :=
  (λ p, (p.1, lifecycle_state p.2, peer_head_num p.2)) <$> _peer_states n.

(** Greeting peers that are not ahead brings the node into the FORWARD mode. *)
Example met_peers :
  peer_summary (net (met 50 50 1 50 1)) = [(1, ACTIVE, 50); (2, ACTIVE, 50)] ∧
  _node_status (net (met 50 50 1 50 1)) = DLT_NODE_STATUS_FORWARD ∧
  _node_status (net (waiting 50 50)) = DLT_NODE_STATUS_SYNC.
Proof. split_and!; vm_compute; reflexivity. Qed.

(** ** The theorems at work *)

Lemma net_invariant_witness :
  net_ok (net (run (two_peers 500 1 500 100) (at_block 50))) ∧
  peer_summary (net (run (two_peers 500 1 500 100) (at_block 50))) = [(1, SYNCING, 500); (2, ACTIVE, 500)].
Proof.
  split; [|vm_compute; reflexivity].
  refine (net_invariant [] 10 77 false 3 1000 500 24 10 5 600 24 1000 50 (two_peers 500 1 500 100) _ _ _ _); lia.
Defined.


Lemma catchup_forward_witness :
  is_sync (waiting 50 50) = true ∧ is_forward (check_sync_catchup (seconds 10) (waiting 50 50)) = true ∧
  is_forward (check_sync_catchup (seconds 10) (waiting 50 60)) = false.
Proof.
  pose proof (λ b Hs Hh, catchup_forward (D := height_chain) (seconds 10) (waiting 50 b) Hs Hh eq_refl) as H.
  split; [vm_compute; reflexivity|]. split.
  - apply (proj1 (H 50 ltac:(vm_compute; reflexivity) ltac:(vm_compute; reflexivity))). split_and!.
    + exists (1, peer_at 1 (waiting 50 50)). split; [apply peer_of_elem; vm_compute; reflexivity|].
      split; [vm_compute; reflexivity|vm_compute; discriminate].
    + apply (proj1 (Forall_forall (λ p : Z * peer_state, is_talking p.2 = true →
        peer_head_num p.2 ≤ get_head_block_num (chain (waiting 50 50))) _)). apply (bool_decide_eq_true_1 _). vm_compute. reflexivity.
    + vm_compute. discriminate.
  - apply not_true_is_false. intros (_ & Hall & _)%(proj1 (H 60 ltac:(vm_compute; reflexivity) ltac:(vm_compute; reflexivity))).
    specialize (Hall (2, peer_at 2 (waiting 50 60))
      ltac:(apply peer_of_elem; vm_compute; reflexivity) ltac:(vm_compute; reflexivity)).
    vm_compute in Hall. by apply Hall.
Defined.

(** A gap: a block far ahead has been heard of.  The peer answers, and the periodic
    task runs again; no other request is sent before the time has passed. *)
Definition empty_reply : list (Z * net_event Z) :=
  [(seconds 21, ev_message 0 1 (dlt_gap_fill_reply [])); (seconds 24, ev_task (λ _, 0) 0)].
Definition silent_peer : list (Z * net_event Z) :=
  [(seconds 24, ev_task (λ _, 0) 0); (seconds 34, ev_task (λ _, 0) 0)].

Lemma gap_fill_polite_witness :
  let w := met 50 500 1 500 100 in let w' := request_gap_fill (seconds 20) w in
  _sent (net w') = _sent (net w) ++ [(1, dlt_gap_fill_request (numbers 50 149))] ∧
  gap_requests (net (run empty_reply w')) = gap_requests (net w') ∧
  gap_requests (net (run silent_peer w')) = gap_requests (net w').
Proof.
  intros w w'. assert (last (_sent (net w')) = Some (1, dlt_gap_fill_request (numbers 50 149))) as Hl
    by (vm_compute; reflexivity).
  destruct (gap_fill_polite (seconds 20) w) as [H|(p & from & upto & H & _ & _ & H5 & H15 & _)];
    [vm_compute; reflexivity|vm_compute; discriminate|vm_compute; discriminate|vm_compute; reflexivity|..].
  - exfalso. fold w' in H. rewrite H in Hl. revert Hl. vm_compute. discriminate.
  - fold w' in H. rewrite H, last_snoc in Hl. injection Hl as -> Hn. rewrite Hn in H.
    split; [exact H|]. split; [apply H5|apply H15]; intros t e He.
    + repeat (apply elem_of_cons in He as [[= -> ->]|He]; [vm_compute; reflexivity|]). apply elem_of_nil in He. destruct He.
    + repeat (apply elem_of_cons in He as [[= -> ->]|He]; [split; [vm_compute; discriminate|intros ???; discriminate]|]).
      apply elem_of_nil in He. destruct He.
Defined.

(** After the time has passed the request is repeated. *)
Example request_repeated :
  let w' := request_gap_fill (seconds 20) (met 50 500 1 500 100) in
  length (gap_requests (net w')) = 1%nat ∧
  length (gap_requests (net (run (empty_reply ++ [(seconds 26, ev_task (λ _, 0) 0)]) w'))) = 2%nat.
Proof. split; vm_compute; reflexivity. Qed.

(** The first peer has connected to the node. *)
Lemma ban_forgotten_witness :
  let w := met 50 50 1 50 1 in
  is_incoming (peer_at 1 w) = true ∧
  peer_of 1 (handle_disconnect (seconds 11) 1 false 0 (soft_ban_peer (seconds 10) 1 "spam" (net w))) = None.
Proof.
  intros w. split; [vm_compute; reflexivity|].
  refine (proj1 (proj1 (ban_forgotten (seconds 10) (seconds 11) 1 "spam" 0 (peer_at 1 w) (net w) _ _) _)).
  - vm_compute. reflexivity.
  - lia.
  - vm_compute. reflexivity.
Defined.

(** One claim of a height, and the peer leaves. *)
Definition big_claim : fork_status_message := mk_fork_status 0 9 1000000 9 0 0 0 DLT_NODE_STATUS_FORWARD.
Lemma claimed_height_stays_witness :
  let w' := run [(seconds 4, ev_disconnect 2 0)]
              (step (seconds 3) (ev_message 0 2 (dlt_fork_status big_claim)) (waiting 50 50)) in
  is_forward (check_sync_catchup (seconds 10) w') = false ∧
  peer_summary (net w') = [(1, ACTIVE, 50)] ∧
  is_forward (check_sync_catchup (seconds 10) (waiting 50 50)) = true.
Proof.
  intros w'. split; [|split; vm_compute; reflexivity].
  refine (proj2 (claimed_height_stays (D := height_chain) (seconds 3) 0 2 big_claim [(seconds 4, ev_disconnect 2 0)]
    (waiting 50 50) _) (seconds 10) _ _ _); vm_compute; [by eexists|reflexivity..].
Defined.

(** ** Over the small chain *)

#[local] Instance small_host : Delegate host := host_delegate 3 10.
#[local] Remove Hints height_chain : typeclass_instances.

(** A peer connects and sends two blocks. *)
Definition small_world : world host := mk_world fresh_node (mk_host start_node 0 0 false false).
Definition two_sent_blocks : list (Z * net_event host) :=
  [(seconds 1, ev_accept (1, 1));
   (seconds 2, ev_message 0 1 (dlt_hello (mk_hello (block_id a4) 4 0 0 1 4 false false 0 DLT_NODE_STATUS_FORWARD 11)));
   (seconds 3, ev_message 0 1 (dlt_block_range_reply [a3; a4] 0 true))].

Lemma network_replays_blocks_witness :
  node_ok 3 (network_flags []) network_tx_flags [] chain_db (host_node (chain (run two_sent_blocks small_world))) ∧
  head_num (host_node (chain (run two_sent_blocks small_world))) = 4 ∧
  _node_status (net (run two_sent_blocks small_world)) = DLT_NODE_STATUS_FORWARD.
Proof.
  split; [|split; vm_compute; reflexivity].
  refine (network_replays_blocks 3 10 chain_db [] fresh_node 0 false false two_sent_blocks _).
  intros e He c. repeat (apply elem_of_cons in He as [->|He]; [discriminate|]). by apply elem_of_nil in He.
Defined.

(** Two branches compete: the block of the head, and another at its height, which
    has been found to be the better one five times. *)
Definition forked_host : host := mk_host (pushed [a3; b3]) 0 0 false false.
Definition forked_world : world host :=
  mk_world (fresh_node <| current_winner_tip := block_id a3 |> <| consecutive_blocks_as_winner := 5 |>
                       <| _fork_detected := true |> <| _fork_status := DLT_FORK_STATUS_LOOKING_RESOLUTION |>) forked_host.

Lemma forked_wf : fdb_wf (forks_of forked_host).
Proof.
  assert (forks_of forked_host = (ForkDb.push_block b3
    (set_max_size 3 (ForkDb.push_block a3 (start_block block_2 empty_fork_database).1).1).1).1) as ->
    by (vm_compute; reflexivity).
  assert (∀ b s, 0 < block_num b → fdb_wf s → fdb_wf (ForkDb.push_block b s).1) as Hp.
  { intros b s Hb Hs. pose proof (push_block_spec s b Hs Hb) as H. unfold fwp in H.
    by destruct (ForkDb.push_block b s) as [s' r], H as [H _]. }
  apply Hp; [vm_compute; reflexivity|]. eapply wf_step; [|by apply step_set_max_size]. apply Hp; [vm_compute; reflexivity|].
  apply wf_start_block; [apply wf_empty|vm_compute; reflexivity].
Qed.

Lemma resolution_never_switches_witness :
  host_branch_tips forked_host = [block_id a3; block_id b3] ∧
  is_head_on_branch (block_id b3) forked_host = true ∧ chain (resolve_fork forked_world) = forked_host.
Proof.
  assert (host_branch_tips forked_host = [block_id a3; block_id b3]) as Ht by (vm_compute; reflexivity).
  split; [exact Ht|].
  destruct (resolution_never_switches 3 10 forked_world forked_wf) as (H1 & H2 & _).
  - intros tip. change (chain forked_world) with forked_host. rewrite Ht. intros [->|[->|[]%elem_of_nil]%elem_of_cons]%elem_of_cons.
    + left. vm_compute. reflexivity.
    + right. eexists. vm_compute. reflexivity.
  - split; [|exact H2]. apply H1. change (chain forked_world) with forked_host. rewrite Ht. by right; left.
Defined.
